(* ===== verification/_CoqProject ===== *)
-Q . S2P
Prelude.v
Steps.v
GoStrings.v
Messages.v
DbConfig.v
RedisDb.v
Trie.v
TrieRemove.v
VirtualDb.v
Msi.v
DbClient.v
DbStream.v
StatsRing.v
NonDb.v
Auth.v
TranslUtils.v
TranslClient.v
TranslSet.v
TranslStream.v
Server.v
GnoiClient.v
ClientSubscribe.v
Dialout.v
DialoutInv.v
DialoutDelete.v
DialoutServer.v
