(* ===== verification/Prelude.v ===== *)
(** * SONiC telemetry: a verification development

    The program is the telemetry server of a SONiC switch (gNMI and gNOI), the
    dial-out client that publishes telemetry to collectors, the collector the
    dial-out client is tried with, and a gNOI command-line client.

    ** The program and its parts

    A call reaches a handler of [gnmi_server] ([server.go], [gnoi.go]), which
    authenticates it and chooses a data client by the target of the request:
    - [OTHERS]: data that is not in a database ([non_db_client.go]);
    - the name of a database: redis ([db_client.go], [virtual_db.go], over the
      configuration of [sonic_db_config]);
    - anything else: the management framework, translib
      ([transl_data_client.go], [transl_utils.go]).
    A subscription ([client_subscribe.go]) runs three goroutines: one receives
    from the stream, one sends what is on a queue, and one is a routine of the
    data client that fills the queue.  The dial-out client
    ([dialout_client.go]) runs the same data clients without a caller, as the
    table TELEMETRY_CLIENT of the configuration database says.

    ** The files, in the order they are checked

    - [Prelude]: results with errors and panics ([res]), state with errors
      ([SE], with the program logics [does] and [hoare]), loops over maps in
      any order ([RangeOrder]), words of 64 bits, the hint database
      [telemetry].
    - [Steps]: goroutines as programs that take one step at a time, with a
      rely-guarantee logic ([guided]).
    - [GoStrings], [Messages]: the strings package and [fmt]; the gNMI messages
      and the internal [Value].
    - [DbConfig]: [sonic_db_config/db_config.go].  The package variables are
      [dbconf]; what [DbInit] loads.
    - [RedisDb]: the redis clients of [db_client.go], targets and separators.
    - [Trie], [TrieRemove]: [trie.go], nodes in a store; [Find] refines a greedy
      lookup in a finite map, and what [Remove] takes out of that map.
    - [VirtualDb]: [virtual_db.go], alias and counter maps, the four
      translators and their dispatch through the trie.
    - [Msi], [DbClient], [DbStream]: [db_client.go]: data as JSON; paths, Get
      and Poll; the goroutines of a stream.
    - [StatsRing], [NonDb]: [non_db_client.go]: the ring of CPU samples; the
      getters, Get, Poll and streams.
    - [Auth]: authentication ([basicAuth.go], [jwtAuth.go], [clientCertAuth.go],
      [pamAuth.go], [authenticate] of [server.go], tokens of [gnoi.go],
      [common_utils/context.go], the modes [main] of [telemetry.go] turns on).
    - [TranslUtils], [TranslClient], [TranslSet], [TranslStream]: requests to
      translib, the client over them, what a Set asks, and streams.
    - [Server]: the handlers of [server.go] and [gnoi.go].
    - [GnoiClient]: [gnoi_client.go], composed with the handlers.
    - [ClientSubscribe]: [Subscribe] of [server.go] and the session of
      [client_subscribe.go].
    - [Dialout], [DialoutInv], [DialoutDelete]: [dialout_client.go], whose
      configuration handler is a program of [Steps] and whose routines step
      between its steps; the invariant of its configuration; the end of a
      subscription.
    - [DialoutServer]: [dialout_server.go].

    ** How the code becomes definitions

    A function that returns an error and may panic is a function into [res]; one
    that also changes package or object state is in [SE], which keeps the state
    in every case.  Objects that are shared are addressed: the nodes of a trie,
    [*gnmipb.Path] as the key of a map ([PathPtr]), the subscriptions of the
    dial-out client.  Goroutines that share state take steps in any order: a
    run is a list of events, what an event does is a function of the state, and
    the theorems hold for every list.  A goroutine that shares nothing but its
    queue and wait groups is a function of the events it receives, into the
    log of what it does to them ([DbStream.outcome]).  Every loop over a Go map
    goes through [range], and the theorems hold for every [RangeOrder].
    Numbers are [Z] with the wrap-around of their Go type written out ([u64],
    [i64]).

    What is not in the repository is an argument: redis ([redis], with the law
    class [RedisLaws], which [mem_redis] satisfies), translib and syslog
    ([translib]), users, sshd and the JWT library ([world]), files, clocks,
    JSON and protobuf codecs, grpc.  Hypotheses on them are named where they
    are used ([total_world], [jwt_law], [RedisLaws]) and hold of the concrete
    environments the witnesses run.

    Interfaces: [RangeOrder]; [Routine] and [Settles] of [ClientSubscribe], by
    which a session knows the routine of its data client: the session theorems
    are proved against them and the routines of the data clients are shown to
    be instances, or not to be.

    ** What the theorems show

    - Who acts: [Server.server_identity], [ClientSubscribe.subscribe_identity],
      [Auth.authenticate_spec], [Auth.login_token], [GnoiClient.token_acts].
    - What a request does: [TranslSet.Set_changes], [Server.Get_response],
      [DbClient.PollRun_answers], [DbClient.table_data],
      [DbClient.resolve_real].
    - What a stream sends: [TranslStream] and [DbStream] (nothing is lost,
      nothing redundant, first values, syncs, wait groups),
      [NonDb.non_db_stream].
    - That sessions are safe, and that a closed session ends, when its data
      routine keeps the contract [Settles] and nobody closed the client before
      [Run] made its channel: [ClientSubscribe.session_safe],
      [ClientSubscribe.session_terminates].  Sessions that never end:
      [once_never_returns], [start_disposed_stuck].
    - Virtual paths: [VirtualDb.lookupV2R_dispatch] and the translators; the
      trie below them: [Trie.Find_refines], [Trie.Add_Find],
      [TrieRemove.Remove_refines].
    - Start-up: [DbConfig.DbInit_loads], [DbConfig.global_file_map],
      [RedisDb.init_clients_spec].
    - CPU statistics: the bounds of the ring and of the percentages.
    - Dial-out: [DialoutInv.config_wf], [DialoutInv.failover],
      [DialoutDelete.deleted_silent]; the other end, [DialoutServer.collects].
      What holds only when no routine starts over during a change of the
      configuration says so ([DialoutInv.calm]), and what happens otherwise is
      shown ([DialoutInv.restart_shares], [DialoutDelete.restart_publishes]).

    ** Fuel and bounds

    Recursion follows data (paths, events, lists) except in [Trie.Remove],
    whose fuel is the number of nodes ever made (enough, by
    [TrieRemove.Remove_refines]), and [ClientSubscribe.drain],
    whose fuel a lemma bounds by the polls and paths.  A session that was
    closed, under the contract above, ends within a number of steps that
    [session_terminates] states.

    ** Atomic steps

    The model interleaves what a lock or a channel separates.  One step are:
    [Close] of a session or of a dial-out subscription (each under its mutex),
    a cancel of a context, the copy of a dial-out subscription, the start of
    its instance, taking a value from a queue and sending it, and the reads of
    one request from redis, which see the same contents.  A change of the
    dial-out configuration is many steps: [configMu] keeps changes apart, but
    no routine takes it.  The maps and groups of the configuration belong to
    the goroutine that makes the changes, so reading or writing them is done
    along with its next step.

    ** Not modelled, and why

    - NewServer, Serve, Stop, Address, Port, the command lines and the loading
      of certificates: set-up of grpc, net and flag only.
    - The set-up of the redis client and of the pattern subscription in
      DialOutRun, and the time-outs of its loop: calls of the redis library.
    - The mutexes themselves.  A copy of a dial-out subscription copies its
      mutex too; that the copy is made while a routine holds it, and is locked
      for ever, is outside the model.
    - Log output, except the audit messages.
    - The PAM conversation of [pamAuth.go]: it is not called.
    - Generated protobuf code, except the message types; tests and their
      helpers.

    ** Left for later

    Data clients inside the steps of a dial-out routine (their data is an
    input there); the routines of [DbStream] as instances of [Routine]; a
    session composed with [TranslStream]'s streams. *)

From stdpp Require Import base tactics list fin_maps gmap strings pretty relations.
From Stdlib Require Import ZArith.

#[export] Set Default Goal Selector "!".

(** ** Errors and panics

    A Go function that returns [(T, error)] and may panic becomes a function
    into [res T]: [Ret] is a normal return with a nil error, [Fail] a return
    with a non-nil error (the Go code never uses the other result then), and
    [Panic] a run-time panic. *)

Inductive panic :=
  | IndexOutOfRange
  | SliceBounds
  | NilDereference
  | TypeAssertion
  | DivideByZero
  | CloseOfClosedChannel
  | CloseOfNilChannel
  | PanicErr (msg : string).

(** The gRPC status codes the source names. *)
Inductive code :=
  | OK | Unknown | InvalidArgument | NotFound | PermissionDenied
  | FailedPrecondition | Aborted | Unimplemented | Unauthenticated.

Inductive error :=
  | Err (msg : string)
  | StatusErr (c : code) (msg : string).

Inductive res (A : Type) :=
  | Ret (a : A)
  | Fail (e : error)
  | Panic (p : panic).
Arguments Ret {A} a.
Arguments Fail {A} e.
Arguments Panic {A} p.

#[export] Instance panic_eq_dec : EqDecision panic.
Proof. solve_decision. Defined.
#[export] Instance code_eq_dec : EqDecision code.
Proof. solve_decision. Defined.
#[export] Instance error_eq_dec : EqDecision error.
Proof. solve_decision. Defined.
#[export] Instance res_eq_dec `{EqDecision A} : EqDecision (res A).
Proof. solve_decision. Defined.

#[export] Instance res_ret : MRet res := fun A a => Ret a.
#[export] Instance res_bind : MBind res := fun A B f m =>
  match m with
  | Ret a => f a
  | Fail e => Fail e
  | Panic p => Panic p
  end.
#[export] Instance res_fmap : FMap res := fun A B f m =>
  match m with
  | Ret a => Ret (f a)
  | Fail e => Fail e
  | Panic p => Panic p
  end.

Section res_lemmas.
Context {A B C : Type}.
Implicit Types m : res A.

Lemma bind_ret_l (a : A) (f : A -> res B) : (Ret a ≫= f) = f a.
Proof. done. Qed.

Lemma bind_assoc m (f : A -> res B) (g : B -> res C) :
  (m ≫= f) ≫= g = m ≫= (fun a => f a ≫= g).
Proof. by destruct m. Qed.

Lemma res_bind_ext m (f g : A -> res B) : (forall a, f a = g a) -> m ≫= f = m ≫= g.
Proof. intros Hfg. destruct m; simpl; [apply Hfg|done|done]. Qed.

Lemma bind_Ret_inv m (f : A -> res B) b :
  m ≫= f = Ret b -> exists a, m = Ret a /\ f a = Ret b.
Proof. destruct m; simpl; try done. eauto. Qed.
End res_lemmas.

(** [res_inv H] splits a hypothesis [m ≫= f = Ret b] into its two halves. *)
Ltac res_inv H :=
  let a := fresh "a" in
  let E := fresh "E" in
  apply bind_Ret_inv in H as (a & E & H).

(** The first step of a computation, common to a hypothesis and the goal. *)
Ltac both_step H :=
  let a := fresh "a" in
  let E := fresh "E" in
  apply bind_Ret_inv in H as (a & E & H); rewrite E, bind_ret_l.

(** [foldM f b l] runs [f] over [l] from the left, stopping at the first
    error or panic: the shape of every [for _, x := range l] loop whose body
    may return early. *)
Fixpoint foldM {A B} (f : B -> A -> res B) (b : B) (l : list A) : res B :=
  match l with
  | [] => Ret b
  | x :: l => b' ← f b x; foldM f b' l
  end.

Section foldM_lemmas.
Context {A B : Type} (f : B -> A -> res B).

Lemma foldM_app b l1 l2 :
  foldM f b (l1 ++ l2) = foldM f b l1 ≫= (fun b' => foldM f b' l2).
Proof.
  revert b. induction l1 as [|x l1 IH]; intros b; simpl; [done|].
  destruct (f b x) as [b'|e|p]; simpl; [apply IH|done|done].
Qed.

(** A loop invariant preserved by every iteration that completes. *)
Lemma foldM_inv (P : B -> Prop) b l b' :
  (forall b x b', x ∈ l -> P b -> f b x = Ret b' -> P b') ->
  P b -> foldM f b l = Ret b' -> P b'.
Proof.
  revert b. induction l as [|x l IH]; intros b Hstep Hb Hf; simpl in Hf.
  - by injection Hf as <-.
  - res_inv Hf. eapply IH; [|eapply (Hstep b x a)|exact Hf]; [|left|done|done].
    intros; eapply Hstep; [by right|eassumption|eassumption].
Qed.

(** An iteration count: the accumulated value is the fold of the results
    when no iteration fails. *)
Lemma foldM_pure (g : B -> A -> B) b l :
  (forall b x, x ∈ l -> f b x = Ret (g b x)) ->
  foldM f b l = Ret (foldl g b l).
Proof.
  revert b. induction l as [|x l IH]; intros b H; simpl; [done|].
  rewrite (H b x) by left. simpl. apply IH. intros; apply H; by right.
Qed.

Lemma foldM_ext (f' : B -> A -> res B) b l :
  (forall b x, x ∈ l -> f b x = f' b x) -> foldM f b l = foldM f' b l.
Proof.
  revert b. induction l as [|x l IH]; intros b H; simpl; [done|].
  rewrite (H b x) by left. destruct (f' b x); simpl; [|done|done].
  apply IH. intros; apply H; by right.
Qed.
End foldM_lemmas.

(** [collectM f l]: a loop that appends, for every element, some entries to
    a result slice, and may return early. *)
Definition collectM {A B} (f : A -> res (list B)) (l : list A) : res (list B) :=
  foldM (fun acc x => ys ← f x; Ret (acc ++ ys)) [] l.

Section collectM_lemmas.
Context {A B : Type} (f : A -> res (list B)).

Lemma collect_from acc l :
  foldM (fun acc x => ys ← f x; Ret (acc ++ ys)) acc l =
  r ← collectM f l; Ret (acc ++ r).
Proof.
  unfold collectM. revert acc. induction l as [|x l IH]; intros acc; simpl.
  - by rewrite app_nil_r.
  - destruct (f x) as [ys|e|p]; simpl; [|done|done].
    rewrite IH, (IH ys). destruct (foldM _ [] l); simpl; [|done|done]. by rewrite app_assoc.
Qed.

Lemma collectM_cons x l :
  collectM f (x :: l) = ys ← f x; r ← collectM f l; Ret (ys ++ r).
Proof.
  unfold collectM at 1. simpl. destruct (f x) as [ys|e|p]; simpl; [|done|done].
  by rewrite collect_from.
Qed.

Lemma collectM_Ret l r :
  collectM f l = Ret r <->
  exists rs, Forall2 (fun x ys => f x = Ret ys) l rs /\ r = concat rs.
Proof.
  revert r. induction l as [|x l IH]; intros r.
  - split; [intros [= <-]; by exists []|]. intros (rs & Hrs & ->).
    by inversion Hrs.
  - rewrite collectM_cons. split.
    + intros Hr. res_inv Hr. res_inv Hr. injection Hr as <-.
      apply IH in E0 as (rs & Hrs & ->). exists (a :: rs). by split; [constructor|].
    + intros (rs & Hrs & ->). inversion Hrs as [|? ys ? rs' Hx Hrs']; subst.
      rewrite Hx. simpl. rewrite (proj2 (IH (concat rs'))) by eauto. done.
Qed.

(** The order of the loop only permutes the result, and does not decide
    whether the loop completes. *)
Lemma collectM_perm l l' r :
  l ≡ₚ l' -> collectM f l = Ret r -> exists r', collectM f l' = Ret r' /\ r ≡ₚ r'.
Proof.
  intros Hl (rs & Hrs & ->)%collectM_Ret.
  revert rs Hrs. induction Hl as [|x l l' Hl IH|x y l|l1 l2 l3 H12 IH1 H23 IH2]; intros rs Hrs.
  - inversion Hrs; subst. by exists [].
  - inversion Hrs as [|? ys ? rs' Hx Hrs']; subst.
    destruct (IH rs' Hrs') as (r' & Hr' & Hp). exists (ys ++ r').
    rewrite collectM_cons, Hx. simpl. rewrite Hr'. by split; [|simpl; rewrite Hp].
  - inversion Hrs as [|? ys1 ? rs1 Hx1 Hrs1]; subst.
    inversion Hrs1 as [|? ys2 ? rs2 Hx2 Hrs2]; subst.
    exists (ys2 ++ ys1 ++ concat rs2). split.
    + apply collectM_Ret. exists (ys2 :: ys1 :: rs2). by split; [repeat constructor|].
    + simpl. rewrite !app_assoc. by rewrite (Permutation_app_comm ys1).
  - destruct (IH1 rs Hrs) as (r2 & Hr2 & Hp2).
    apply collectM_Ret in Hr2 as (rs2 & Hrs2 & ->).
    destruct (IH2 rs2 Hrs2) as (r3 & Hr3 & Hp3). exists r3. split; [done|]. by etransitivity.
Qed.

Lemma elem_of_collectM l r y :
  collectM f l = Ret r -> y ∈ r <-> exists x ys, x ∈ l /\ f x = Ret ys /\ y ∈ ys.
Proof.
  revert r. induction l as [|x l IH]; intros r.
  - intros [= <-]. split; [by intros ?%elem_of_nil|]. by intros (? & ? & ?%elem_of_nil & _).
  - rewrite collectM_cons. intros Hr. res_inv Hr. res_inv Hr. injection Hr as <-.
    rewrite elem_of_app, (IH a0) by done. split.
    + intros [Hy|(x' & ys & Hx' & ? & ?)].
      * exists x, a. by split; [left|].
      * exists x', ys. by split; [right|].
    + intros (x' & ys & [->|Hx']%elem_of_cons & Hf & Hy).
      * left. congruence.
      * right. eauto.
Qed.
End collectM_lemmas.

Lemma collectM_total {A B} (f : A -> res (list B)) l :
  (forall x, x ∈ l -> exists ys, f x = Ret ys) -> exists r, collectM f l = Ret r.
Proof.
  induction l as [|x l IH]; intros Hf; [by eexists|].
  destruct (Hf x) as [ys Hys]; [by left|].
  destruct IH as [r Hr]; [intros; apply Hf; by right|].
  exists (ys ++ r). rewrite collectM_cons, Hys. simpl. by rewrite Hr.
Qed.

Lemma collectM_ext {A B} (f g : A -> res (list B)) l :
  (forall x, x ∈ l -> f x = g x) -> collectM f l = collectM g l.
Proof. intros Hfg. apply foldM_ext. intros acc x Hx. by rewrite Hfg. Qed.

(** Ignoring an error result: [x, _ := m]. *)
Definition or_zero {A} (zero : A) (m : res A) : res A :=
  match m with Fail _ => Ret zero | _ => m end.

(** ** State and errors

    A function that updates package or object state and may return an error
    or panic: the state it leaves is kept in every case. *)
Definition SE (S A : Type) : Type := S -> S * res A.

#[export] Instance SE_ret S : MRet (SE S) := fun A a s => (s, Ret a).
#[export] Instance SE_bind S : MBind (SE S) := fun A B f m s =>
  match m s with
  | (s', Ret a) => f a s'
  | (s', Fail e) => (s', Fail e)
  | (s', Panic p) => (s', Panic p)
  end.

Definition lift {S A} (m : res A) : SE S A := fun s => (s, m).
Definition get_state {S} : SE S S := fun s => (s, Ret s).
Definition modify {S} (f : S -> S) : SE S unit := fun s => (f s, Ret tt).

Lemma SE_bind_Ret {S A B} (m : SE S A) (k : A -> SE S B) s s' a :
  m s = (s', Ret a) -> (m ≫= k) s = k a s'.
Proof. intros E. unfold mbind, SE_bind. by rewrite E. Qed.

(** A loop in [SE]. *)
Fixpoint forM {S A} (f : A -> SE S unit) (l : list A) : SE S unit :=
  match l with
  | [] => mret tt
  | x :: l => f x ≫= fun _ => forM f l
  end.

(** An invariant of every iteration, however it ends, is one of the loop. *)
Lemma forM_inv {S A} (P : S -> Prop) (f : A -> SE S unit) l s :
  (forall x s, x ∈ l -> P s -> P (f x s).1) -> P s -> P (forM f l s).1.
Proof.
  revert s. induction l as [|x l IH]; intros s Hf Hs; [done|]. cbn [forM]. unfold mbind, SE_bind.
  pose proof (Hf x s ltac:(left) Hs) as Hx. destruct (f x s) as [s' [[]|e|p]]; [|done..].
  apply IH; [|done]. intros y s0 Hy. apply Hf. by right.
Qed.

(** A loop in [SE] that collects one result per element. *)
Fixpoint mapS {S A B} (f : A -> SE S B) (l : list A) : SE S (list B) :=
  match l with
  | [] => mret []
  | x :: l => y ← f x; ys ← mapS f l; mret (y :: ys)
  end.

(** [x, err := m]: go on with [k x] without an error, else with [h err]. *)
Definition catch {S A B} (m : SE S A) (k : A -> SE S B) (h : error -> SE S B) : SE S B := fun s =>
  match m s with
  | (s', Ret a) => k a s'
  | (s', Fail e) => h e s'
  | (s', Panic p) => (s', Panic p)
  end.

(** [does R m Q]: the states before and after [m] are related by [R] however
    it ends, and a value it returns satisfies [Q].  For a preorder [R] it holds
    of a composition when it holds of the parts. *)
Definition does {S A} (R : relation S) (m : SE S A) (Q : A -> Prop) : Prop :=
  forall s, R s (m s).1 /\ match (m s).2 with Ret a => Q a | _ => True end.

Section does_lemmas.
Context {S : Type} (R : relation S) `{PreOrder S R}.

Lemma does_ret {A} (a : A) (Q : A -> Prop) : Q a -> does R (mret a) Q.
Proof. by intros Ha s. Qed.

Lemma does_lift {A} (m : res A) (Q : A -> Prop) : (forall a, m = Ret a -> Q a) -> does R (lift m) Q.
Proof. intros HQ s. split; [done|]. unfold lift. simpl. destruct m; [by apply HQ|done|done]. Qed.

Lemma does_weaken {A} (m : SE S A) (P Q : A -> Prop) : (forall a, P a -> Q a) -> does R m P -> does R m Q.
Proof. intros HPQ Hm s. destruct (Hm s) as [HR HP]. split; [done|]. destruct (m s).2; auto. Qed.

Lemma does_bind {A B} (m : SE S A) (k : A -> SE S B) P Q :
  does R m P -> (forall a, P a -> does R (k a) Q) -> does R (m ≫= k) Q.
Proof.
  intros Hm Hk s. unfold mbind, SE_bind. destruct (Hm s) as [HR HP].
  destruct (m s) as [s' [a|e|p]]; simpl in *; [|done|done].
  destruct (Hk a HP s') as [HR' HQ]. split; [by etransitivity|done].
Qed.

Lemma does_catch {A B} (m : SE S A) (k : A -> SE S B) h P Q :
  does R m P -> (forall a, P a -> does R (k a) Q) -> (forall e, does R (h e) Q) -> does R (catch m k h) Q.
Proof.
  intros Hm Hk Hh s. unfold catch. destruct (Hm s) as [HR HP].
  destruct (m s) as [s' [a|e|p]]; simpl in *; [| |done].
  - destruct (Hk a HP s') as [HR' HQ]. split; [by etransitivity|done].
  - destruct (Hh e s') as [HR' HQ]. split; [by etransitivity|done].
Qed.

Lemma does_forM {A} (f : A -> SE S unit) l :
  (forall x, does R (f x) (fun _ => True)) -> does R (forM f l) (fun _ => True).
Proof.
  intros Hf. induction l as [|x l IH]; simpl; [by apply does_ret|]. eapply does_bind; [apply Hf|done].
Qed.

Lemma does_mapS {A B} (f : A -> SE S B) l (Q : A -> B -> Prop) :
  (forall x, does R (f x) (Q x)) -> does R (mapS f l) (fun ys => Forall2 Q l ys).
Proof.
  intros Hf. induction l as [|x l IH]; simpl; [by apply does_ret; constructor|].
  eapply does_bind; [apply Hf|]. intros y Hy. eapply does_bind; [exact IH|].
  intros ys Hys. apply does_ret. by constructor.
Qed.
End does_lemmas.

(** [hoare P m Q E]: from a state in [P], [m] returns a value in [Q] or stops
    in a state in [E]. *)
Definition hoare {S A} (P : S -> Prop) (m : SE S A) (Q : A -> S -> Prop) (E : S -> Prop) : Prop :=
  forall s, P s -> match m s with (s', Ret a) => Q a s' | (s', _) => E s' end.

Section hoare_lemmas.
Context {S : Type}.
Implicit Types P E : S -> Prop.

Lemma hoare_ret {A} (a : A) P (Q : A -> S -> Prop) E : (forall s, P s -> Q a s) -> hoare P (mret a) Q E.
Proof. intros HQ s Hs. by apply HQ. Qed.

Lemma hoare_lift {A} (m : res A) P (Q : A -> S -> Prop) E :
  (forall s a, P s -> m = Ret a -> Q a s) -> (forall s, P s -> E s) -> hoare P (lift m) Q E.
Proof. intros HQ HE s Hs. unfold lift. destruct m; auto. Qed.

Lemma hoare_bind {A B} (m : SE S A) (k : A -> SE S B) P R Q E :
  hoare P m R E -> (forall a, hoare (R a) (k a) Q E) -> hoare P (m ≫= k) Q E.
Proof.
  intros Hm Hk s Hs. unfold mbind, SE_bind. specialize (Hm s Hs). destruct (m s) as [s' [a|e|p]]; [|done|done].
  by apply Hk.
Qed.

Lemma hoare_catch {A B} (m : SE S A) (k : A -> SE S B) h P R Q E' E :
  hoare P m R E' -> (forall a, hoare (R a) (k a) Q E) -> (forall e, hoare E' (h e) Q E) ->
  (forall s, E' s -> E s) -> hoare P (catch m k h) Q E.
Proof.
  intros Hm Hk Hh HE s Hs. unfold catch. specialize (Hm s Hs). destruct (m s) as [s' [a|e|p]]; [by apply Hk| |auto].
  by apply Hh.
Qed.

Lemma hoare_weaken {A} (m : SE S A) P P' (Q Q' : A -> S -> Prop) E E' :
  (forall s, P' s -> P s) -> (forall a s, Q a s -> Q' a s) -> (forall s, E s -> E' s) ->
  hoare P m Q E -> hoare P' m Q' E'.
Proof. intros HP HQ HE Hm s Hs. specialize (Hm s (HP s Hs)). destruct (m s) as [s' [a|e|p]]; auto. Qed.

Lemma hoare_modify (f : S -> S) P (Q : unit -> S -> Prop) E :
  (forall s, P s -> Q tt (f s)) -> hoare P (modify f) Q E.
Proof. intros HQ s Hs. by apply HQ. Qed.

Lemma hoare_forM {A} (f : A -> SE S unit) l P E :
  (forall x, hoare P (f x) (fun _ => P) E) -> hoare P (forM f l) (fun _ => P) E.
Proof.
  intros Hf. induction l as [|x l IH]; [by apply hoare_ret|]. eapply hoare_bind; [apply Hf|done].
Qed.
End hoare_lemmas.

(** ** Iteration over maps

    Go iterates over a map in an unspecified order.  Every loop over a map
    takes its entries from [range], and the theorems hold for every instance
    of [RangeOrder], that is for every order the run time may choose. *)
Class RangeOrder := {
  range : forall {K V : Type} `{Countable K}, gmap K V -> list (K * V);
  range_perm : forall {K V : Type} `{Countable K} (m : gmap K V),
    range m ≡ₚ map_to_list m;
}.

Definition default_order : RangeOrder.
Proof. refine {| range := fun K V _ _ m => map_to_list m |}. done. Defined.

(** The opposite order, to run examples under two orders. *)
Definition reverse_order : RangeOrder.
Proof.
  refine {| range := fun K V _ _ m => reverse (map_to_list m) |}.
  intros. apply reverse_Permutation.
Defined.

Section range_lemmas.
Context `{RangeOrder}.
Context {K V : Type} `{Countable K}.
Implicit Types m : gmap K V.

Lemma elem_of_range m k v : (k, v) ∈ range m <-> m !! k = Some v.
Proof. rewrite range_perm. apply elem_of_map_to_list. Qed.

Lemma NoDup_range m : NoDup (range m).*1.
Proof. rewrite range_perm. apply NoDup_fst_map_to_list. Qed.

Lemma range_empty : range (∅ : gmap K V) = [].
Proof. apply Permutation_nil_r. rewrite range_perm. by rewrite map_to_list_empty. Qed.

Lemma length_range m : length (range m) = size m.
Proof. rewrite range_perm. apply length_map_to_list. Qed.

(** The keys of a map that has exactly the keys [l]. *)
Lemma keys_range m (l : list K) : NoDup l -> dom m = list_to_set l -> (range m).*1 ≡ₚ l.
Proof.
  intros Hl Hd. apply NoDup_Permutation; [apply NoDup_range|done|]. intros k.
  assert (k ∈ dom m <-> k ∈ l) as <- by (rewrite Hd; set_solver).
  rewrite elem_of_dom, list_elem_of_fmap. split.
  - intros ([k' v] & -> & Hin). apply elem_of_range in Hin. by exists v.
  - intros [v Hv]. exists (k, v). by split; [|apply elem_of_range].
Qed.

(** A loop that fills a map with one entry per element. *)
Lemma foldM_insert_dom (f : K -> res V) l m m' :
  foldM (fun m x => y ← f x; Ret (<[x := y]> m)) m l = Ret m' -> dom m' = dom m ∪ list_to_set l.
Proof.
  revert m. induction l as [|x l IH]; intros m Hm; simpl in Hm; [injection Hm as <-; set_solver|].
  res_inv Hm. res_inv E. injection E as <-. rewrite (IH _ Hm). set_solver.
Qed.

Lemma list_to_map_range m : list_to_map (range m) = m.
Proof.
  rewrite <- (list_to_map_to_list m) at 2.
  apply list_to_map_proper; [apply NoDup_range|apply range_perm].
Qed.
End range_lemmas.

(** ** Machine integers *)

(** [time.Second]: durations are in nanoseconds. *)
Definition Second : Z := 1000000000.

Section machine_integers.
Local Open Scope Z_scope.

Definition u64 (z : Z) : Z := z mod 2 ^ 64.

(** The value of a 64-bit two's complement word. *)
Definition i64 (z : Z) : Z :=
  let w := z mod 2 ^ 64 in if (w <? 2 ^ 63) then w else (w - 2 ^ 64).

Lemma u64_range z : (0 <= u64 z < 2 ^ 64).
Proof. apply Z.mod_pos_bound. lia. Qed.

Lemma u64_small z : (0 <= z < 2 ^ 64) -> u64 z = z.
Proof. apply Z.mod_small. Qed.

Lemma u64_u64 z : u64 (u64 z) = u64 z.
Proof. apply u64_small, u64_range. Qed.

Lemma u64_add_l a b : u64 (u64 a + b) = u64 (a + b).
Proof. unfold u64. apply Zplus_mod_idemp_l. Qed.

Lemma u64_sub a b : u64 (u64 a - u64 b) = u64 (a - b).
Proof. unfold u64. symmetry. apply Zminus_mod. Qed.

Lemma i64_range z : (- 2 ^ 63 <= i64 z < 2 ^ 63).
Proof.
  unfold i64. pose proof (Z.mod_pos_bound z (2 ^ 64) ltac:(lia)).
  destruct (Z.ltb_spec (z mod 2 ^ 64) (2 ^ 63)); lia.
Qed.

Lemma i64_small z : (- 2 ^ 63 <= z < 2 ^ 63) -> i64 z = z.
Proof.
  intros Hz. unfold i64. destruct (Z.ltb_spec z 0) as [Hn|Hn].
  - assert (z mod 2 ^ 64 = z + 2 ^ 64) as ->.
    { symmetry. apply (Z.mod_unique_pos _ _ (-1)); lia. }
    destruct (Z.ltb_spec (z + 2 ^ 64) (2 ^ 63)); lia.
  - rewrite Z.mod_small by lia. destruct (Z.ltb_spec z (2 ^ 63)); lia.
Qed.

Lemma i64_add_l a b : i64 (i64 a + b) = i64 (a + b).
Proof.
  assert ((i64 a + b) mod 2 ^ 64 = (a + b) mod 2 ^ 64) as E.
  { rewrite <- (Zplus_mod_idemp_l a), <- (Zplus_mod_idemp_l (i64 a)). f_equal. f_equal. unfold i64.
    case_match; [by rewrite Zmod_mod|]. by rewrite Zminus_mod, Zmod_mod, Z_mod_same_full, Z.sub_0_r, Zmod_mod. }
  unfold i64 at 1. rewrite E. done.
Qed.
End machine_integers.

(** ** Step relations *)

Section reachability.
Context {S : Type} (step : S -> S -> Prop).

(** Rule induction for an invariant of a step relation. *)
Lemma rtc_invariant (P : S -> Prop) s s' :
  (forall a b, P a -> step a b -> P b) -> P s -> rtc step s s' -> P s'.
Proof. intros Hstep Hs. induction 1; eauto. Qed.
End reachability.

Create HintDb telemetry.
Create Rewrite HintDb telemetry.
#[export] Hint Resolve elem_of_range range_perm NoDup_range : telemetry.
Create Rewrite HintDb u64.
#[export] Hint Rewrite @u64_u64 @u64_add_l @u64_sub : u64.
