(* ===== verification/Steps.v ===== *)
(** * A goroutine in steps

    A goroutine that other goroutines interleave with is a program: what it
    does next, as one step on the shared state, and how it goes on from the
    value of that step.  [advance] takes the next step.  [guided] is a
    rely-guarantee logic: every step keeps an invariant [I], and what is known
    between two steps holds whatever the others do, as far as [R] says what
    they may do. *)

From stdpp Require Import base tactics list.
From S2P Require Import Prelude.

(** ** Programs *)

Inductive prog (S A : Type) : Type :=
  | Done (r : res A)
  | Step {B : Type} (m : SE S B) (k : B -> prog S A).
Arguments Done {S A} r.
Arguments Step {S A B} m k.

#[export] Instance prog_ret S : MRet (prog S) := fun A a => Done (Ret a).
#[export] Instance prog_bind S : MBind (prog S) := fun A B f =>
  fix bind (p : prog S A) : prog S B :=
    match p with
    | Done (Ret a) => f a
    | Done (Fail e) => Done (Fail e)
    | Done (Panic q) => Done (Panic q)
    | Step m k => Step m (fun b => bind (k b))
    end.

(** One step. *)
Definition atomically {S A} (m : SE S A) : prog S A := Step m (fun a => Done (Ret a)).

(** A loop. *)
Fixpoint for_each {S A} (f : A -> prog S unit) (l : list A) : prog S unit :=
  match l with
  | [] => mret tt
  | x :: l => f x ≫= fun _ => for_each f l
  end.

(** The error of the whole is dropped. *)
Fixpoint ignore_error {S} (p : prog S unit) : prog S unit :=
  match p with
  | Done (Fail _) => Done (Ret tt)
  | Done r => Done r
  | Step m k => Step (fun s => match m s with
                               | (s', Ret b) => (s', Ret (Some b))
                               | (s', Fail _) => (s', Ret None)
                               | (s', Panic q) => (s', Panic q)
                               end)
                     (fun o => match o with Some b => ignore_error (k b) | None => Done (Ret tt) end)
  end.

(** The next step; a program that is done does nothing. *)
Definition advance {S A} (p : prog S A) : SE S (prog S A) := fun s =>
  match p with
  | Done r => (s, Ret (Done r))
  | Step m k =>
      match m s with
      | (s', Ret b) => (s', Ret (k b))
      | (s', Fail e) => (s', Ret (Done (Fail e)))
      | (s', Panic q) => (s', Ret (Done (Panic q)))
      end
  end.

(** ** What every step does *)

(** Every step changes the state as [R] allows. *)
Fixpoint each {S A} (R : relation S) (p : prog S A) : Prop :=
  match p with
  | Done _ => True
  | Step m k => does R m (fun _ => True) /\ forall b, each R (k b)
  end.

Section each_lemmas.
Context {S : Type} (R : relation S) `{PreOrder S R}.

Lemma each_bind {A B} (p : prog S A) (f : A -> prog S B) :
  each R p -> (forall a, each R (f a)) -> each R (p ≫= f).
Proof.
  intros Hp Hf. induction p as [[a|e|q]|C m k IH]; [apply Hf|done|done|].
  destruct Hp as [Hm Hk]. split; [done|]. intros b. apply IH, Hk.
Qed.

Lemma each_atomically {A} (m : SE S A) : does R m (fun _ => True) -> each R (atomically m).
Proof. by split. Qed.

Lemma each_for {A} (f : A -> prog S unit) l : (forall x, each R (f x)) -> each R (for_each f l).
Proof. intros Hf. induction l as [|x l IH]; [done|]. apply each_bind; auto. Qed.

Lemma each_ignore (p : prog S unit) : each R p -> each R (ignore_error p).
Proof.
  induction p as [[a|e|q]|C m k IH]; [done..|]. intros [Hm Hk]. split.
  - intros s. destruct (Hm s) as [Hs _]. by destruct (m s) as [s' [b|e|q]].
  - intros [b|]; [apply IH, Hk|done].
Qed.

Lemma each_advance {A} (p : prog S A) s :
  each R p -> R s (advance p s).1 /\ match (advance p s).2 with Ret p' => each R p' | _ => True end.
Proof.
  destruct p as [r|B m k]; [by split|]. intros [Hm Hk]. destruct (Hm s) as [Hs _]. simpl.
  destruct (m s) as [s' [b|e|q]]; simpl in *; auto.
Qed.
End each_lemmas.

(** ** Rely and guarantee *)

Section guided.
Context {S : Type} (I : S -> Prop) (R : relation S).

(** What others may do does not make [P] false. *)
Definition stable (P : S -> Prop) : Prop := forall s s', I s -> P s -> R s s' -> I s' -> P s'.

(** From [P], every step keeps [I], and a program that returns reaches [Q]. *)
Fixpoint guided {A} (P : S -> Prop) (p : prog S A) (Q : A -> S -> Prop) : Prop :=
  match p with
  | Done (Ret a) => forall s, I s -> P s -> Q a s
  | Done _ => True
  | @Step _ _ B m k => exists T : B -> S -> Prop,
      hoare (fun s => I s /\ P s) m (fun b s => I s /\ T b s) I /\
      forall b, stable (T b) /\ guided (T b) (k b) Q
  end.

Lemma guided_bind {A B} (p : prog S A) (f : A -> prog S B) P T Q :
  guided P p T -> (forall a, guided (T a) (f a) Q) ->
  (forall a P', (forall s, I s -> P' s -> T a s) -> guided (T a) (f a) Q -> guided P' (f a) Q) ->
  guided P (p ≫= f) Q.
Proof.
  intros Hp Hf Hw. revert P Hp. induction p as [[a|e|q]|C m k IH]; intros P Hp; [by apply Hw|done|done|].
  destruct Hp as (U & Hm & Hk). exists U. split; [done|]. intros b. split; [apply Hk|]. apply IH, Hk.
Qed.

Lemma guided_weaken {A} (p : prog S A) (P P' : S -> Prop) (Q Q' : A -> S -> Prop) :
  (forall s, I s -> P' s -> P s) -> (forall a s, I s -> Q a s -> Q' a s) -> guided P p Q -> guided P' p Q'.
Proof.
  intros HP HQ. revert P P' HP. induction p as [[a|e|q]|C m k IH]; intros P P' HP Hp; [|done|done|].
  - intros s Hs HP'. apply HQ; [done|]. apply Hp; auto.
  - destruct Hp as (U & Hm & Hk). exists U. split.
    + eapply hoare_weaken; [| | |exact Hm]; [|done|done]. intros s [Hs Hs']. auto.
    + intros b. destruct (Hk b) as [Hst Hg]. split; [done|]. by eapply IH.
Qed.

Lemma guided_then {A B} (p : prog S A) (f : A -> prog S B) P T Q :
  guided P p T -> (forall a, guided (T a) (f a) Q) -> guided P (p ≫= f) Q.
Proof.
  intros Hp Hf. eapply guided_bind; [done|done|]. intros a P' HP' Hg.
  by apply (guided_weaken (f a) (T a) P' Q Q).
Qed.

Lemma guided_step {A B} (m : SE S B) (k : B -> prog S A) P T Q :
  hoare (fun s => I s /\ P s) m (fun b s => I s /\ T b s) I -> (forall b, stable (T b)) ->
  (forall b, guided (T b) (k b) Q) -> guided P (Step m k) Q.
Proof. intros Hm Hst Hk. exists T. split; [done|]. by split. Qed.

Lemma guided_atomically {A} (m : SE S A) P (T : A -> S -> Prop) :
  hoare (fun s => I s /\ P s) m (fun b s => I s /\ T b s) I -> (forall b, stable (T b)) ->
  guided P (atomically m) T.
Proof. intros Hm Hst. apply (guided_step _ _ _ T); [done|done|]. by intros b s. Qed.

(** A loop, with what is known after every part of the list. *)
Lemma guided_for {A} (f : A -> prog S unit) (P : list A -> S -> Prop) l :
  (forall x l, guided (P (x :: l)) (f x) (fun _ => P l)) -> guided (P l) (for_each f l) (fun _ => P []).
Proof.
  intros Hf. induction l as [|x l IH]; [by intros s _ Hs|]. eapply guided_then; [apply Hf|]. by intros [].
Qed.

Lemma guided_ignore (p : prog S unit) P (Q : unit -> S -> Prop) :
  guided P p Q -> guided P (ignore_error p) (fun _ _ => True).
Proof.
  revert P. induction p as [[a|e|q]|C m k IH]; intros P Hp; [done..|].
  destruct Hp as (U & Hm & Hk). cbn [ignore_error]. apply (guided_step _ _ _ (from_option U (fun _ => True))).
  - intros s Hs. specialize (Hm s Hs). by destruct (m s) as [s' [b|e|q]].
  - intros [b|]; [apply Hk|done].
  - intros [b|]; [apply IH, Hk|done].
Qed.

(** A program in flight: it is at a point where something stable is known. *)
Definition in_flight {A} (p : prog S A) (s : S) : Prop :=
  exists P, stable P /\ P s /\ guided P p (fun _ _ => True).

Lemma in_flight_others {A} (p : prog S A) s s' : I s -> R s s' -> I s' -> in_flight p s -> in_flight p s'.
Proof. intros Hs HR Hs' (P & Hst & HP & Hg). exists P. split; [done|]. split; [by apply (Hst s s')|done]. Qed.

Lemma in_flight_advance {A} (p : prog S A) s :
  I s -> in_flight p s ->
  I (advance p s).1 /\ match (advance p s).2 with Ret p' => in_flight p' (advance p s).1 | _ => False end.
Proof.
  intros Hs (P & Hst & HP & Hg). assert (forall r, in_flight (A := A) (Done r) s) as Hdone.
  { intros r. exists (fun _ => True). by split_and!; [| |destruct r]. }
  destruct p as [r|B m k]; [by split; [|apply Hdone]|]. destruct Hg as (T & Hm & Hk). simpl. specialize (Hm s (conj Hs HP)).
  destruct (m s) as [s' [b|e|q]]; simpl.
  - destruct Hm as [Hs' HT]. split; [done|]. exists (T b). split_and!; [apply Hk|done|apply Hk].
  - split; [done|]. exists (fun _ => True). split; [by intros s1 s2|done].
  - split; [done|]. exists (fun _ => True). split; [by intros s1 s2|done].
Qed.
End guided.
