(* ===== verification/GoStrings.v ===== *)
(** * Go's strings package, as far as the source uses it

    Go strings are byte strings: Rocq's [string].  [Split], [SplitN _ _ 2],
    [Join], [HasPrefix], [HasSuffix], [TrimPrefix], [TrimSuffix], [Trim] and
    [Replace] with the laws the components rely on, and [Sprintf] restricted
    to verbs that print a value ([%v], [%s], [%d], [%t], [%q]). *)

From stdpp Require Import base tactics list strings pretty.
From Stdlib Require Import ZArith Ascii String Lia.
From S2P Require Import Prelude.

Local Open Scope string_scope.
#[local] Arguments String.append !_ _ / : simpl nomatch.

Fixpoint HasPrefix (s p : string) {struct p} : bool :=
  match p, s with
  | "", _ => true
  | String c p, String d s => bool_decide (c = d) && HasPrefix s p
  | String _ _, "" => false
  end.

Fixpoint drop_bytes (n : nat) (s : string) : string :=
  match n, s with
  | S n, String _ s => drop_bytes n s
  | _, _ => s
  end.

Fixpoint take_bytes (n : nat) (s : string) : string :=
  match n, s with
  | S n, String c s => String c (take_bytes n s)
  | _, _ => ""
  end.

(** [slice_from n s] is [s[n:]], which panics when [n] exceeds the length. *)
Definition slice_from (n : nat) (s : string) : res string :=
  if decide (n <= String.length s) then Ret (drop_bytes n s) else Panic SliceBounds.

Definition HasSuffix (s p : string) : bool :=
  (String.length p <=? String.length s)%nat &&
  bool_decide (drop_bytes (String.length s - String.length p) s = p).

Definition TrimPrefix (s p : string) : string :=
  if HasPrefix s p then drop_bytes (String.length p) s else s.

Definition TrimSuffix (s p : string) : string :=
  if HasSuffix s p then take_bytes (String.length s - String.length p) s else s.

(** [index_byte c s] is the position of the first [c]. *)
Fixpoint index_byte (c : ascii) (s : string) : option nat :=
  match s with
  | "" => None
  | String d s => if decide (c = d) then Some 0 else S <$> index_byte c s
  end.

(** [strings.Index]: the first position at which [sep] occurs. *)
Fixpoint Index (s sep : string) : option nat :=
  if HasPrefix s sep then Some 0
  else match s with
       | "" => None
       | String _ s => S <$> Index s sep
       end.

(** Split into the bytes of the string: what [Split] and [SplitN] do with an
    empty separator on ASCII text. *)
Fixpoint explode (s : string) : list string :=
  match s with
  | "" => []
  | String c s => String c "" :: explode s
  end.

(** The pieces of [s] around the occurrences of a nonempty [sep], found from
    the left; [skip] bytes of a separator are still to be consumed. *)
Fixpoint split_from (sep : string) (skip : nat) (s : string) : list string :=
  match s with
  | "" => [""]
  | String c s' =>
      match skip with
      | S k => split_from sep k s'
      | O => if HasPrefix s sep
             then "" :: split_from sep (String.length sep - 1) s'
             else match split_from sep 0 s' with
                  | x :: l => String c x :: l
                  | [] => [String c ""]
                  end
      end
  end.

Definition Split (s sep : string) : list string :=
  match sep with
  | "" => explode s
  | _ => split_from sep 0 s
  end.

(** [strings.SplitN s sep 2]: at most one cut, at the first separator. *)
Definition SplitN2 (s sep : string) : list string :=
  match sep, s with
  | "", "" => []
  | "", String c "" => [s]
  | "", String c s' => [String c ""; s']
  | _, _ =>
      match Index s sep with
      | Some i => [take_bytes i s; drop_bytes (i + String.length sep) s]
      | None => [s]
      end
  end.

Fixpoint Join (l : list string) (sep : string) : string :=
  match l with
  | [] => ""
  | [x] => x
  | x :: l => x +:+ sep +:+ Join l sep
  end.

(** Remove every byte equal to [c]: [strings.Replace s "c" "" (-1)]. *)
Fixpoint remove_byte (c : ascii) (s : string) : string :=
  match s with
  | "" => ""
  | String d s => if decide (c = d) then remove_byte c s else String d (remove_byte c s)
  end.

Fixpoint trim_left (c : ascii) (s : string) : string :=
  match s with
  | "" => ""
  | String d s' => if decide (c = d) then trim_left c s' else s
  end.

Fixpoint trim_right (c : ascii) (s : string) : string :=
  match s with
  | "" => ""
  | String d s' =>
      match trim_right c s' with
      | "" => if decide (c = d) then "" else String d ""
      | r => String d r
      end
  end.

(** [strings.Trim] with a cutset of one byte. *)
Definition Trim (s : string) (c : ascii) : string := trim_right c (trim_left c s).

(** [fmt.Sprintf] for formats whose verbs all print one argument, which is
    given as that verb prints it. *)
Fixpoint Sprintf (f : string) (args : list string) : string :=
  match f with
  | "" => ""
  | String "%" (String v f') =>
      if bool_decide (v ∈ ["v"; "s"; "d"; "t"; "q"]%char)
      then match args with
           | a :: args => a +:+ Sprintf f' args
           | [] => "%!" +:+ String v "(MISSING)" +:+ Sprintf f' []
           end
      else String "%" (String v (Sprintf f' args))
  | String c f' => String c (Sprintf f' args)
  end.

(** [fmt.Errorf]. *)
Definition Errorf (f : string) (args : list string) : error := Err (Sprintf f args).

Definition code_name (c : code) : string :=
  match c with
  | OK => "OK" | Unknown => "Unknown" | InvalidArgument => "InvalidArgument" | NotFound => "NotFound"
  | PermissionDenied => "PermissionDenied" | FailedPrecondition => "FailedPrecondition" | Aborted => "Aborted"
  | Unimplemented => "Unimplemented" | Unauthenticated => "Unauthenticated"
  end.

(** [err.Error()]. *)
Definition err_text (e : error) : string :=
  match e with
  | Err msg => msg
  | StatusErr c msg => "rpc error: code = " +:+ code_name c +:+ " desc = " +:+ msg
  end.

(** Printing a slice of strings with [%v]. *)
Definition show_list (l : list string) : string := "[" +:+ Join l " " +:+ "]".

(** ** Laws *)

Fixpoint contains_byte (c : ascii) (s : string) : bool :=
  match s with
  | "" => false
  | String d s => bool_decide (c = d) || contains_byte c s
  end.

Lemma app_assoc_s (a b c : string) : (a +:+ b) +:+ c = a +:+ (b +:+ c).
Proof. induction a as [|x a IH]; simpl; [done|]. by rewrite IH. Qed.

Lemma app_nil_r_s (a : string) : a +:+ "" = a.
Proof. induction a as [|x a IH]; simpl; [done|]. by rewrite IH. Qed.

Lemma length_app_s (a b : string) :
  String.length (a +:+ b) = String.length a + String.length b.
Proof. induction a as [|x a IH]; simpl; [done|]. by rewrite IH. Qed.

Lemma contains_byte_app c (a b : string) :
  contains_byte c (a +:+ b) = contains_byte c a || contains_byte c b.
Proof. induction a as [|d a IH]; simpl; [done|]. by rewrite IH, orb_assoc. Qed.

Lemma app_inj_l_s (a b c : string) : a +:+ b = a +:+ c -> b = c.
Proof. induction a as [|x a IH]; simpl; [done|]. intros [= ?]; auto. Qed.

Lemma HasPrefix_app (p s : string) : HasPrefix (p +:+ s) p = true.
Proof.
  induction p as [|c p IH]; simpl; [by destruct s|].
  by rewrite bool_decide_eq_true_2.
Qed.

Lemma HasPrefix_spec (s p : string) :
  HasPrefix s p = true <-> exists t, s = p +:+ t.
Proof.
  split; [|intros [t ->]; apply HasPrefix_app].
  revert s. induction p as [|c p IH]; intros s; simpl.
  - intros _. by exists s.
  - destruct s as [|d s]; [done|].
    intros [->%bool_decide_eq_true_1 [t ->]%IH]%andb_true_iff. by exists t.
Qed.

Lemma drop_bytes_app (p s : string) : drop_bytes (String.length p) (p +:+ s) = s.
Proof. induction p as [|c p IH]; simpl; [by destruct s|done]. Qed.

Lemma take_bytes_app (p s : string) : take_bytes (String.length p) (p +:+ s) = p.
Proof. induction p as [|c p IH]; simpl; [by destruct s|]. by rewrite IH. Qed.

Lemma slice_from_app (p s : string) : slice_from (String.length p) (p +:+ s) = Ret s.
Proof.
  unfold slice_from. rewrite decide_True; [|rewrite length_app_s; lia].
  by rewrite drop_bytes_app.
Qed.

Lemma TrimPrefix_app (p s : string) : TrimPrefix (p +:+ s) p = s.
Proof. unfold TrimPrefix. by rewrite HasPrefix_app, drop_bytes_app. Qed.

Lemma HasSuffix_app (s p : string) : HasSuffix (s +:+ p) p = true.
Proof.
  unfold HasSuffix. apply andb_true_intro. split.
  - apply Nat.leb_le. rewrite length_app_s. lia.
  - apply bool_decide_eq_true_2. rewrite length_app_s, Nat.add_sub. apply drop_bytes_app.
Qed.

Lemma take_drop_bytes n (s : string) : take_bytes n s +:+ drop_bytes n s = s.
Proof.
  revert s. induction n as [|n IH]; intros [|c s]; try done.
  cbn [take_bytes drop_bytes String.append]. by rewrite IH.
Qed.

Lemma HasSuffix_spec (s p : string) :
  HasSuffix s p = true <-> exists t, s = t +:+ p.
Proof.
  split; [|intros [t ->]; apply HasSuffix_app].
  unfold HasSuffix. intros [_ Hd%bool_decide_eq_true_1]%andb_true_iff.
  exists (take_bytes (String.length s - String.length p) s).
  rewrite <- Hd at 2. symmetry. apply take_drop_bytes.
Qed.

Lemma TrimSuffix_app (s p : string) : TrimSuffix (s +:+ p) p = s.
Proof.
  unfold TrimSuffix. rewrite HasSuffix_app, length_app_s, Nat.add_sub. apply take_bytes_app.
Qed.

(** ** Splitting at a one-byte separator *)

Definition sep1 (c : ascii) : string := String c "".

Lemma HasPrefix_sep1 c d (s : string) : HasPrefix (String d s) (sep1 c) = bool_decide (c = d).
Proof. simpl. rewrite andb_comm. by destruct s. Qed.

Lemma split_from_nonempty sep k (s : string) : split_from sep k s <> [].
Proof.
  revert k. induction s as [|c s IH]; intros k; simpl; [done|].
  destruct k; [|apply IH]. case_match; [done|]. by case_match.
Qed.

Lemma Split_clean c (s : string) : contains_byte c s = false -> Split s (sep1 c) = [s].
Proof.
  unfold Split. simpl. induction s as [|d s IH]; [done|].
  intros [Hcd%bool_decide_eq_false_1 Hs]%orb_false_iff.
  cbn [split_from]. rewrite HasPrefix_sep1, bool_decide_eq_false_2 by done.
  by rewrite (IH Hs).
Qed.

Lemma Split_app c (a b : string) :
  contains_byte c a = false ->
  Split (a +:+ sep1 c +:+ b) (sep1 c) = a :: Split b (sep1 c).
Proof.
  unfold Split. simpl. induction a as [|d a IH]; intros Ha.
  - cbn [String.append split_from]. rewrite HasPrefix_sep1, bool_decide_eq_true_2 by done. done.
  - simpl in Ha. apply orb_false_iff in Ha as [Hcd%bool_decide_eq_false_1 Ha].
    cbn [String.append split_from]. rewrite HasPrefix_sep1, bool_decide_eq_false_2 by done.
    by rewrite (IH Ha).
Qed.

(** [Join] undoes [Split]. *)
Lemma Join_Split c (s : string) : Join (Split s (sep1 c)) (sep1 c) = s.
Proof.
  unfold Split. simpl. induction s as [|d s IH]; [done|].
  cbn [split_from]. rewrite HasPrefix_sep1.
  pose proof (split_from_nonempty (sep1 c) 0 s) as Hne.
  case_bool_decide as Hcd; simpl.
  - destruct (split_from _ 0 s) as [|x l]; [done|]. subst d. by rewrite IH.
  - destruct (split_from _ 0 s) as [|x l]; [done|]. rewrite <- IH. by destruct l.
Qed.

(** [Split] undoes [Join] on pieces free of the separator. *)
Lemma Split_Join c (l : list string) :
  l <> [] -> Forall (fun s => contains_byte c s = false) l ->
  Split (Join l (sep1 c)) (sep1 c) = l.
Proof.
  intros Hne Hl. induction Hl as [|x l Hx Hl IH]; [done|].
  destruct l as [|y l]; [by apply Split_clean|].
  change (Join (x :: y :: l) (sep1 c)) with (x +:+ sep1 c +:+ Join (y :: l) (sep1 c)).
  rewrite Split_app by done. by rewrite IH.
Qed.

Lemma SplitN2_app c (a b : string) :
  contains_byte c a = false -> SplitN2 (a +:+ sep1 c +:+ b) (sep1 c) = [a; b].
Proof.
  intros Ha. assert (Index (a +:+ sep1 c +:+ b) (sep1 c) = Some (String.length a)) as Hi.
  { revert Ha. induction a as [|d a IH]; intros Ha.
    - unfold sep1. simpl. by rewrite bool_decide_eq_true_2.
    - simpl in Ha. apply orb_false_iff in Ha as [Hcd%bool_decide_eq_false_1 Ha].
      cbn [String.append Index]. rewrite HasPrefix_sep1, bool_decide_eq_false_2 by done.
      by rewrite (IH Ha). }
  unfold SplitN2. change (sep1 c) with (String c "") in *. rewrite Hi.
  rewrite take_bytes_app. f_equal. f_equal.
  replace (String.length a + String.length (String c "")) with (String.length (a +:+ String c ""))
    by (by rewrite length_app_s).
  rewrite <- app_assoc_s. apply drop_bytes_app.
Qed.

#[export] Hint Rewrite HasPrefix_app HasSuffix_app TrimPrefix_app TrimSuffix_app
  drop_bytes_app take_bytes_app slice_from_app app_assoc_s : telemetry.

(** [strconv.ParseUint(s, 10, 64)]. *)
Definition digit (c : ascii) : option Z :=
  let n := Z.of_N (N_of_ascii c) in
  if (48 <=? n)%Z && (n <=? 57)%Z then Some (n - 48)%Z else None.

Fixpoint parse_digits (acc : Z) (s : string) : option Z :=
  match s with
  | "" => Some acc
  | String c s => d ← digit c; parse_digits (acc * 10 + d)%Z s
  end.

Definition ParseUint (s : string) : res Z :=
  match s with
  | "" => Fail (Err "strconv.ParseUint: parsing : invalid syntax")
  | _ => match parse_digits 0 s with
         | None => Fail (Errorf "strconv.ParseUint: parsing %s: invalid syntax" [s])
         | Some n => if (n <? 2 ^ 64)%Z then Ret n
                     else Fail (Errorf "strconv.ParseUint: parsing %s: value out of range" [s])
         end
  end.
