(* ===== verification/Messages.v ===== *)
(** * Messages

    The gNMI messages as the source reads them (paths, typed values,
    subscriptions, notifications), the internal [Value] of
    [proto/sonic_internal.pb.go], the database targets of
    [proto/sonic.pb.go], and [ValToResp] / [Value.Compare] of
    [sonic_data_client/db_client.go].

    A protobuf message pointer that may be nil is an [option]; a repeated
    field is a list, which is nil in Go exactly when it is empty.  A
    [*gnmipb.Path] that is used as the key of a Go map is a [PathPtr]: the
    address, which decides equality, and the message it points to. *)

From stdpp Require Import base tactics list fin_maps gmap strings countable.
From Stdlib Require Import ZArith.
From S2P Require Import Prelude GoStrings.

Local Open Scope string_scope.
Local Open Scope list_scope.

(** ** gNMI *)

Record PathElem := {
  Name : string;
  (** nil, or the key predicates of the element *)
  Key : option (gmap string string);
}.

Record Path := {
  Origin : string;
  Target : string;
  Element : list string;
  Elem : list PathElem;
}.

Record PathPtr := { addr : nat; pointee : Path }.

#[export] Instance PathElem_eq_dec : EqDecision PathElem.
Proof. solve_decision. Defined.
#[export] Instance Path_eq_dec : EqDecision Path.
Proof. solve_decision. Defined.
#[export] Instance PathPtr_eq_dec : EqDecision PathPtr.
Proof. solve_decision. Defined.
#[export] Instance PathElem_countable : Countable PathElem.
Proof.
  refine (inj_countable' (fun e => (Name e, Key e))
            (fun '(n, k) => {| Name := n; Key := k |}) _).
  by intros [].
Defined.
#[export] Instance Path_countable : Countable Path.
Proof.
  refine (inj_countable' (fun p => (Origin p, Target p, Element p, Elem p))
            (fun '(o, t, el, e) => {| Origin := o; Target := t; Element := el; Elem := e |}) _).
  by intros [].
Defined.
#[export] Instance PathPtr_countable : Countable PathPtr.
Proof.
  refine (inj_countable' (fun p => (addr p, pointee p))
            (fun '(a, p) => {| addr := a; pointee := p |}) _).
  by intros [].
Defined.

(** [GetTarget], [GetElem] and [GetElement] accept a nil path. *)
Definition GetTarget (p : option Path) : string := from_option Target "" p.
Definition GetElem (p : option Path) : list PathElem := from_option Elem [] p.
Definition GetElement (p : option Path) : list string := from_option Element [] p.

(** The cases of the oneof the source builds or reads; [OtherVal] is any
    other case. *)
Inductive TypedValue :=
  | JsonIetfVal (b : string)
  | StringVal (s : string)
  | OtherVal.

#[export] Instance TypedValue_eq_dec : EqDecision TypedValue.
Proof. solve_decision. Defined.

(** [GetJsonIetfVal]: the bytes of that case, nil (printed as the empty
    string) for every other. *)
Definition GetJsonIetfVal (t : option TypedValue) : string :=
  match t with Some (JsonIetfVal b) => b | _ => "" end.

Record Update := { u_Path : option PathPtr; u_Val : option TypedValue }.

Record Notification := {
  n_Timestamp : Z;
  n_Prefix : option Path;
  n_Update : list Update;
}.

Inductive SubscribeResponse :=
  | SubscribeResponse_SyncResponse (b : bool)
  | SubscribeResponse_Update (n : Notification).

Inductive SubscriptionMode :=
  | TARGET_DEFINED | ON_CHANGE | SAMPLE
  | UnknownSubscriptionMode (n : Z).

Record Subscription := {
  s_Path : PathPtr;
  s_Mode : SubscriptionMode;
  s_SampleInterval : Z;       (* uint64 *)
  s_SuppressRedundant : bool;
  s_HeartbeatInterval : Z;    (* uint64 *)
}.

Inductive SubscriptionListMode :=
  | STREAM | ONCE | POLL
  | UnknownListMode (n : Z).

Record SubscriptionList := {
  sl_Prefix : option Path;
  sl_Subscription : list Subscription;
  sl_Mode : SubscriptionListMode;
  sl_UpdatesOnly : bool;
}.

#[export] Instance SubscriptionMode_eq_dec : EqDecision SubscriptionMode.
Proof. solve_decision. Defined.
#[export] Instance SubscriptionListMode_eq_dec : EqDecision SubscriptionListMode.
Proof. solve_decision. Defined.
#[export] Instance Update_eq_dec : EqDecision Update.
Proof. solve_decision. Defined.
#[export] Instance Notification_eq_dec : EqDecision Notification.
Proof. solve_decision. Defined.
#[export] Instance SubscribeResponse_eq_dec : EqDecision SubscribeResponse.
Proof. solve_decision. Defined.

(** ** Targets: [proto/sonic.pb.go] *)

Definition Target_value : gmap string Z := list_to_map
  [("APPL_DB", 0%Z); ("ASIC_DB", 1%Z); ("COUNTERS_DB", 2%Z); ("LOGLEVEL_DB", 3%Z);
   ("CONFIG_DB", 4%Z); ("PFC_WD_DB", 5%Z); ("FLEX_COUNTER_DB", 5%Z); ("STATE_DB", 6%Z);
   ("OTHERS", 100%Z)].

(** ** Values: [proto/sonic_internal.pb.go] *)

Record Value := {
  Prefix : option Path;
  VPath : option PathPtr;
  Timestamp : Z;              (* int64 *)
  Val : option TypedValue;
  SyncResponse : bool;
  Fatal : string;
}.

#[export] Instance Value_eq_dec : EqDecision Value.
Proof. solve_decision. Defined.

(** The three kinds of value the clients enqueue. *)
Definition DataValue (prefix : option Path) (path : PathPtr) (ts : Z) (v : TypedValue) : Value :=
  {| Prefix := prefix; VPath := Some path; Timestamp := ts; Val := Some v;
     SyncResponse := false; Fatal := "" |}.

Definition SyncValue (ts : Z) : Value :=
  {| Prefix := None; VPath := None; Timestamp := ts; Val := None;
     SyncResponse := true; Fatal := "" |}.

Definition FatalValue (ts : Z) (msg : string) : Value :=
  {| Prefix := None; VPath := None; Timestamp := ts; Val := None;
     SyncResponse := false; Fatal := msg |}.

(** [Value.Compare]: the order of the priority queue. *)
Definition Compare (val oval : Value) : Z :=
  if (Timestamp oval <? Timestamp val)%Z then 1%Z
  else if (Timestamp val =? Timestamp oval)%Z then 0%Z
  else (-1)%Z.

(** [ValToResp]: a sync value becomes a sync response, a fatal value an
    error, any other value a notification with one update. *)
Definition ValToResp (val : Value) : res SubscribeResponse :=
  match SyncResponse val with
  | true => Ret (SubscribeResponse_SyncResponse true)
  | false =>
      if decide (Fatal val <> "") then Fail (Err (Fatal val))
      else Ret (SubscribeResponse_Update {|
        n_Timestamp := Timestamp val;
        n_Prefix := Prefix val;
        n_Update := [{| u_Path := VPath val; u_Val := Val val |}];
      |})
  end.
