(* ===== verification/DbConfig.v ===== *)
(** * The database configuration package: [sonic_db_config/db_config.go]

    The package state is the record [dbconf] (the three package variables).
    The file system and [json.Unmarshal] are the environment: a file is a
    [file], that is what reading and parsing it gives.  [DbInit] loads the
    configuration; every getter first calls it.  The theorems: what a
    successful [DbInit] leaves behind in every map order (including the
    namespaces an earlier initialisation left), which targets name a
    namespace, and that the getters never panic on a well-formed
    configuration. *)

From stdpp Require Import base tactics list fin_maps gmap strings pretty.
From Stdlib Require Import ZArith Lia.
From S2P Require Import Prelude GoStrings.

Local Open Scope string_scope.
Local Open Scope list_scope.

(** ** JSON documents as [encoding/json] decodes them into [interface{}] *)

(** A finite float64, [mant * 2 ^ expo]. *)
Record float64 := { mant : Z; expo : Z }.

Definition of_int (z : Z) : float64 := {| mant := z; expo := 0 |}.

Inductive json :=
  | JNull
  | JBool (b : bool)
  | JNum (x : float64)
  | JStr (s : string)
  | JArr (l : list json)
  | JObj (m : gmap string json).

(** [int(x)] on amd64: truncation towards zero, and the smallest integer for
    a value out of range. *)
Definition int_of_float (x : float64) : Z :=
  let v := if (0 <=? expo x)%Z then (mant x * 2 ^ expo x)%Z
           else (Z.quot (mant x) (2 ^ (- expo x)))%Z in
  if ((- 2 ^ 63 <=? v) && (v <? 2 ^ 63))%Z then v else (- 2 ^ 63)%Z.

(** Type assertions [x.(T)] without the second result. *)
Definition as_obj (j : json) : res (gmap string json) :=
  match j with JObj m => Ret m | _ => Panic TypeAssertion end.
Definition as_arr (j : json) : res (list json) :=
  match j with JArr l => Ret l | _ => Panic TypeAssertion end.
Definition as_str (j : json) : res string :=
  match j with JStr s => Ret s | _ => Panic TypeAssertion end.
Definition as_num (j : json) : res float64 :=
  match j with JNum x => Ret x | _ => Panic TypeAssertion end.

(** Reading a missing key of a map gives nil. *)
Definition field (m : gmap string json) (k : string) : json := default JNull (m !! k).

(** What [ioutil.ReadFile] and [json.Unmarshal] into a map give. *)
Inductive file :=
  | NotExist
  | Unreadable (msg : string)
  | Malformed (msg : string)
  | Doc (m : gmap string json).

(** ** [filepath.Join] below an absolute directory *)

(** One component of [filepath.Clean]; the stack holds the path reversed. *)
Definition clean_step (stack : list string) (c : string) : list string :=
  if decide (c = "" \/ c = ".") then stack
  else if decide (c = "..") then tail stack
  else c :: stack.

Definition Clean_abs (p : string) : string :=
  "/" +:+ Join (reverse (foldl clean_step [] (Split p "/"))) "/".

Definition Join_path (dir f : string) : string :=
  Clean_abs (if decide (f = "") then dir else dir +:+ "/" +:+ f).

(** ** Package state *)

Definition SONIC_DB_GLOBAL_CONFIG_FILE : string := "/var/run/redis/sonic-db/database_global.json".
Definition SONIC_DB_CONFIG_FILE : string := "/var/run/redis/sonic-db/database_config.json".
Definition SONIC_DEFAULT_NAMESPACE : string := "".

(** [filepath.Abs(filepath.Dir(SONIC_DB_GLOBAL_CONFIG_FILE))]. *)
Definition global_dir : string := "/var/run/redis/sonic-db".

Record dbconf := {
  sonic_db_config : gmap string (gmap string json);
  sonic_db_init : bool;
  sonic_db_multi_namespace : bool;
}.

Definition initial : dbconf :=
  {| sonic_db_config := ∅; sonic_db_init := false; sonic_db_multi_namespace := false |}.

(** [Init]: force the next call to read the files again. *)
Definition Init (g : dbconf) : dbconf :=
  {| sonic_db_config := sonic_db_config g; sonic_db_init := false;
     sonic_db_multi_namespace := sonic_db_multi_namespace g |}.

Definition GetDbDefaultNamespace : string := SONIC_DEFAULT_NAMESPACE.

Section Config.
Context `{RangeOrder} (fs : string -> file).

(** One entry of INCLUDES. *)
Definition include_step (acc : gmap string string) (entry : json) : res (gmap string string) :=
  e ← as_obj entry;
  let ns := default (JStr SONIC_DEFAULT_NAMESPACE) (e !! "namespace") in
  ns' ← as_str ns;
  match acc !! ns' with
  | Some _ => Panic (PanicErr "Global Database config file is not valid(multiple include for same namespace!")
  | None =>
      inc ← as_str (field e "include");
      Ret (<[ns' := Join_path global_dir inc]> acc)
  end.

Definition DbGetNamespaceAndConfigFile (ns_to_cfgfile_map : gmap string string) :
    res (gmap string string * bool) :=
  match fs SONIC_DB_GLOBAL_CONFIG_FILE with
  | Doc sonic_db_global_config =>
      entries ← as_arr (field sonic_db_global_config "INCLUDES");
      m ← foldM include_step ns_to_cfgfile_map entries;
      Ret (m, bool_decide (1 < size m))
  | Malformed msg => Panic (PanicErr msg)
  | NotExist =>
      Ret (<[SONIC_DEFAULT_NAMESPACE := SONIC_DB_CONFIG_FILE]> ns_to_cfgfile_map, false)
  | Unreadable msg => Panic (PanicErr msg)
  end.

(** Load the file of one namespace into [sonic_db_config]. *)
Definition load_step (cfg : gmap string (gmap string json)) (e : string * string) :
    res (gmap string (gmap string json)) :=
  match fs e.2 with
  | Doc db_config => Ret (<[e.1 := db_config]> cfg)
  | Malformed msg | Unreadable msg => Panic (PanicErr msg)
  | NotExist => Panic (PanicErr ("open " +:+ e.2 +:+ ": no such file or directory"))
  end.

Definition DbInit (g : dbconf) : res dbconf :=
  if sonic_db_init g then Ret g
  else
    '(ns_to_cfgfile_map, multi) ← DbGetNamespaceAndConfigFile ∅;
    cfg ← foldM load_step (sonic_db_config g) (range ns_to_cfgfile_map);
    Ret {| sonic_db_config := cfg; sonic_db_init := true; sonic_db_multi_namespace := multi |}.

(** Every getter starts with [if !sonic_db_init { DbInit() }]. *)
Definition with_init {A} (f : dbconf -> res A) (g : dbconf) : res (A * dbconf) :=
  g' ← (if sonic_db_init g then Ret g else DbInit g);
  a ← f g';
  Ret (a, g').

(** ** The getters on a loaded configuration *)

Definition config_of (g : dbconf) (ns : string) : gmap string json :=
  default ∅ (sonic_db_config g !! ns).

Definition nonDefaultNamespaces (g : dbconf) : list string :=
  filter (fun ns => ns <> SONIC_DEFAULT_NAMESPACE) (range (sonic_db_config g)).*1.

Definition allNamespaces (g : dbconf) : list string := (range (sonic_db_config g)).*1.

Definition dbList (ns : string) (g : dbconf) : res (gmap string json) :=
  match field (config_of g ns) "DATABASES" with
  | JObj m => Ret m
  | _ => Panic (PanicErr (Sprintf "DATABASES' is not valid key in database_config.json file for namespace `%v` !" [ns]))
  end.

Definition dbInst (db_name ns : string) (g : dbconf) : res (gmap string json) :=
  dbs ← as_obj (field (config_of g ns) "DATABASES");
  match dbs !! db_name with
  | None => Panic (PanicErr (Sprintf "database name '%v' is not valid in database_config.json file for namespace `%v`!" [db_name; ns]))
  | Some db =>
      d ← as_obj db;
      match d !! "instance" with
      | None => Panic (PanicErr (Sprintf "'instance' is not a valid field in database_config.json file for namespace `%v`!" [ns]))
      | Some inst_name =>
          insts ← as_obj (field (config_of g ns) "INSTANCES");
          n ← as_str inst_name;
          match insts !! n with
          | None => Panic (PanicErr (Sprintf "instance name '%v' is not valid in database_config.json file for namespace `%v`!" [n; ns]))
          | Some inst => as_obj inst
          end
      end
  end.

(** A field of the entry of a database, and of its instance. *)
Definition dbField (f db_name ns : string) (g : dbconf) : res json :=
  db_list ← dbList ns g;
  d ← as_obj (field db_list db_name);
  match d !! f with
  | None => Panic (PanicErr (Sprintf "'%v' is not a valid field in database_config.json file!" [f]))
  | Some j => Ret j
  end.

Definition instField (f db_name ns : string) (g : dbconf) : res json :=
  inst ← dbInst db_name ns g;
  match inst !! f with
  | None => Panic (PanicErr (Sprintf "'%v' is not a valid field in database_config.json file!" [f]))
  | Some j => Ret j
  end.

Definition separator (db_name ns : string) (g : dbconf) : res string :=
  dbField "separator" db_name ns g ≫= as_str.
Definition dbId (db_name ns : string) (g : dbconf) : res Z :=
  int_of_float <$> (dbField "id" db_name ns g ≫= as_num).
Definition sock (db_name ns : string) (g : dbconf) : res string :=
  instField "unix_socket_path" db_name ns g ≫= as_str.
Definition hostName (db_name ns : string) (g : dbconf) : res string :=
  instField "hostname" db_name ns g ≫= as_str.
Definition port (db_name ns : string) (g : dbconf) : res Z :=
  int_of_float <$> (instField "port" db_name ns g ≫= as_num).

(** ** The exported functions *)

Definition CheckDbMultiNamespace : dbconf -> res (bool * dbconf) :=
  with_init (fun g => Ret (sonic_db_multi_namespace g)).
Definition GetDbNonDefaultNamespaces : dbconf -> res (list string * dbconf) :=
  with_init (fun g => Ret (nonDefaultNamespaces g)).
Definition GetDbAllNamespaces : dbconf -> res (list string * dbconf) :=
  with_init (fun g => Ret (allNamespaces g)).

Definition GetDbNamespaceFromTarget (target : string) (g : dbconf) :
    res (string * bool * dbconf) :=
  if decide (target = GetDbDefaultNamespace) then Ret (target, true, g)
  else
    '(ns_list, g') ← GetDbNonDefaultNamespaces g;
    if decide (target ∈ ns_list) then Ret (target, true, g') else Ret ("", false, g').

Definition GetDbList (ns : string) : dbconf -> res (gmap string json * dbconf) :=
  with_init (dbList ns).
Definition GetDbInst (db_name ns : string) : dbconf -> res (gmap string json * dbconf) :=
  with_init (dbInst db_name ns).
Definition GetDbSeparator (db_name ns : string) : dbconf -> res (string * dbconf) :=
  with_init (separator db_name ns).
Definition GetDbId (db_name ns : string) : dbconf -> res (Z * dbconf) :=
  with_init (dbId db_name ns).
Definition GetDbSock (db_name ns : string) : dbconf -> res (string * dbconf) :=
  with_init (sock db_name ns).
Definition GetDbHostName (db_name ns : string) : dbconf -> res (string * dbconf) :=
  with_init (hostName db_name ns).
Definition GetDbPort (db_name ns : string) : dbconf -> res (Z * dbconf) :=
  with_init (port db_name ns).
Definition GetDbTcpAddr (db_name ns : string) : dbconf -> res (string * dbconf) :=
  with_init (fun g =>
    hostname ← hostName db_name ns g;
    p ← port db_name ns g;
    Ret (hostname +:+ ":" +:+ pretty p)).

(** ** Loading *)

(** The document of a readable file. *)
Definition doc_of (f : string) : option (gmap string json) :=
  match fs f with Doc d => Some d | _ => None end.

Lemma load_step_Ret cfg e cfg' :
  load_step cfg e = Ret cfg' <-> exists d, doc_of e.2 = Some d /\ cfg' = <[e.1 := d]> cfg.
Proof. unfold load_step, doc_of. destruct (fs e.2); naive_solver. Qed.

(** Loading a list of files with distinct namespaces: when every file is
    readable the new documents override the old ones. *)
Lemma load_all l cfg :
  NoDup l.*1 -> (forall e, e ∈ l -> is_Some (doc_of e.2)) ->
  foldM load_step cfg l = Ret (omap doc_of (list_to_map l : gmap string string) ∪ cfg).
Proof.
  revert cfg. induction l as [|[ns f] l IH]; intros cfg Hnd Hdoc; simpl.
  - by rewrite omap_empty, (left_id_L ∅ (∪)).
  - apply NoDup_cons in Hnd as [Hns Hnd]. simpl in Hns.
    destruct (Hdoc (ns, f)) as [d Hd]; [by left|]. simpl in Hd.
    rewrite (proj2 (load_step_Ret _ (ns, f) (<[ns := d]> cfg))) by eauto.
    rewrite bind_ret_l, IH; [|done|intros e He; apply Hdoc; by right].
    f_equal. apply map_eq. intros k. rewrite !lookup_union, !lookup_omap.
    destruct (decide (k = ns)) as [->|Hk].
    + rewrite !lookup_insert_eq, (not_elem_of_list_to_map_1 l) by done.
      simpl. rewrite Hd. by destruct (cfg !! ns).
    + by rewrite !lookup_insert_ne by done.
Qed.

Lemma load_all_inv l cfg cfg' :
  foldM load_step cfg l = Ret cfg' -> forall e, e ∈ l -> is_Some (doc_of e.2).
Proof.
  revert cfg. induction l as [|x l IH]; intros cfg Hl e He; simpl in Hl; [by apply elem_of_nil in He|].
  res_inv Hl. apply load_step_Ret in E as (d & Hd & _).
  apply elem_of_cons in He as [->|He]; [by eexists|eauto].
Qed.

Lemma load_range m cfg :
  (forall ns f, m !! ns = Some f -> is_Some (doc_of f)) ->
  foldM load_step cfg (range m) = Ret (omap doc_of m ∪ cfg).
Proof.
  intros Hm. rewrite load_all, list_to_map_range; [done|apply NoDup_range|].
  intros [ns f] He%elem_of_range. simpl. eauto.
Qed.

(** A successful initialisation, and when it succeeds. *)
Lemma DbInit_result g g' :
  sonic_db_init g = false -> DbInit g = Ret g' ->
  exists m multi, DbGetNamespaceAndConfigFile ∅ = Ret (m, multi) /\
    (forall ns f, m !! ns = Some f -> is_Some (doc_of f)) /\
    g' = {| sonic_db_config := omap doc_of m ∪ sonic_db_config g;
            sonic_db_init := true; sonic_db_multi_namespace := multi |}.
Proof.
  unfold DbInit. intros -> Hr. res_inv Hr. destruct a as [m multi]. res_inv Hr.
  assert (forall ns f, m !! ns = Some f -> is_Some (doc_of f)) as Hm.
  { intros ns f Hf. eapply (load_all_inv _ _ _ E0 (ns, f)). by apply elem_of_range. }
  exists m, multi. split_and!; [done..|].
  rewrite load_range in E0 by done. by injection E0 as <-; injection Hr as <-.
Qed.

Lemma DbInit_returns g m multi :
  sonic_db_init g = false -> DbGetNamespaceAndConfigFile ∅ = Ret (m, multi) ->
  (forall ns f, m !! ns = Some f -> is_Some (doc_of f)) ->
  DbInit g = Ret {| sonic_db_config := omap doc_of m ∪ sonic_db_config g;
                    sonic_db_init := true; sonic_db_multi_namespace := multi |}.
Proof. unfold DbInit. intros -> -> Hm. cbn. by rewrite load_range. Qed.

(** C22. Initialisation: on a package that is not initialised, [DbInit]
    returns exactly when the list of files can be determined and every file
    is readable.  It then holds, in whatever order the map of files is
    visited, the document of every listed namespace, and keeps the document
    of every namespace an earlier initialisation loaded and the new list
    does not name. *)
Theorem DbInit_loads g g' :
  sonic_db_init g = false ->
  DbInit g = Ret g' <->
  exists m multi,
    DbGetNamespaceAndConfigFile ∅ = Ret (m, multi) /\
    (forall ns f, m !! ns = Some f -> is_Some (doc_of f)) /\
    g' = {| sonic_db_config := omap doc_of m ∪ sonic_db_config g;
            sonic_db_init := true; sonic_db_multi_namespace := multi |}.
Proof.
  intros Hi. split; [by apply DbInit_result|]. intros (m & multi & Hm & Hdoc & ->). by apply DbInit_returns.
Qed.

(** ** The global configuration file *)

(** An INCLUDES entry: an optional namespace and a file. *)
Definition entry_json (e : option string * string) : json :=
  JObj (<["include" := JStr e.2]> (match e.1 with
                                    | Some ns => {["namespace" := JStr ns]}
                                    | None => ∅ end)).

Definition entry_ns (e : option string * string) : string := default "" e.1.

Definition entry_file (e : option string * string) : string * string :=
  (entry_ns e, Join_path global_dir e.2).

Lemma include_step_entry acc e :
  include_step acc (entry_json e) =
  match acc !! entry_ns e with
  | Some _ => Panic (PanicErr "Global Database config file is not valid(multiple include for same namespace!")
  | None => Ret (<[entry_ns e := Join_path global_dir e.2]> acc)
  end.
Proof.
  unfold include_step, entry_json, entry_ns, field. destruct e as [[ns|] f]; simpl.
  - rewrite (lookup_insert_ne _ "include" "namespace") by done. rewrite lookup_singleton_eq. simpl.
    rewrite lookup_insert_eq. by destruct (acc !! ns).
  - rewrite (lookup_insert_ne _ "include" "namespace") by done. rewrite lookup_empty. simpl.
    rewrite lookup_insert_eq. unfold SONIC_DEFAULT_NAMESPACE. by destruct (acc !! "").
Qed.

Lemma includes_fold acc l :
  NoDup (entry_ns <$> l) -> (forall e, e ∈ l -> acc !! entry_ns e = None) ->
  foldM include_step acc (entry_json <$> l) = Ret (list_to_map (entry_file <$> l) ∪ acc).
Proof.
  revert acc. induction l as [|e l IH]; intros acc Hnd Hacc; simpl.
  - by rewrite (left_id_L ∅ (∪)).
  - apply NoDup_cons in Hnd as [He Hnd].
    rewrite include_step_entry, Hacc by left. rewrite bind_ret_l, IH; [|done|].
    + f_equal. apply map_eq. intros k. rewrite !lookup_union.
      destruct (decide (k = entry_ns e)) as [->|Hk].
      * rewrite !lookup_insert_eq, not_elem_of_list_to_map_1, Hacc by
          (try left; by rewrite <- list_fmap_compose). done.
      * by rewrite !lookup_insert_ne.
    + intros e' He'. rewrite lookup_insert_ne; [apply Hacc; by right|].
      intros Heq. apply He. rewrite Heq. by apply list_elem_of_fmap_2.
Qed.

Definition duplicate_include : panic :=
  PanicErr "Global Database config file is not valid(multiple include for same namespace!".

Lemma includes_dup acc l :
  ~ (NoDup (entry_ns <$> l) /\ forall e, e ∈ l -> acc !! entry_ns e = None) ->
  foldM include_step acc (entry_json <$> l) = Panic duplicate_include.
Proof.
  revert acc. induction l as [|e l IH]; intros acc Hn; simpl.
  - destruct Hn. split; [constructor|]. by intros e ?%elem_of_nil.
  - rewrite include_step_entry. destruct (acc !! entry_ns e) eqn:He; [done|].
    rewrite bind_ret_l. apply IH. intros [Hnd Hl]. apply Hn. split.
    + simpl. apply NoDup_cons. split; [|done].
      intros (e' & Heq & He')%list_elem_of_fmap_1. specialize (Hl e' He').
      by rewrite <- Heq, lookup_insert_eq in Hl.
    + intros e' [->|He']%elem_of_cons; [done|]. specialize (Hl e' He').
      by apply lookup_insert_None in Hl as [? _].
Qed.

Lemma global_files d l :
  fs SONIC_DB_GLOBAL_CONFIG_FILE = Doc d -> field d "INCLUDES" = JArr (entry_json <$> l) -> NoDup (entry_ns <$> l) ->
  DbGetNamespaceAndConfigFile ∅ = Ret (list_to_map (entry_file <$> l), bool_decide (1 < length l)).
Proof.
  intros Hf Hd Hnd. unfold DbGetNamespaceAndConfigFile. rewrite Hf, Hd. simpl.
  rewrite includes_fold by done. rewrite (right_id_L ∅ (∪)), bind_ret_l.
  by rewrite map_size_list_to_map, length_fmap by (by rewrite <- list_fmap_compose).
Qed.

(** C23. The global file: when it lists namespaces and files, the result maps
    every namespace to its file below the directory of the global file, the
    system has several namespaces exactly when the list has several entries,
    and a namespace listed twice (an entry without one counts as the default
    namespace) panics. *)
Theorem global_file_map d l :
  fs SONIC_DB_GLOBAL_CONFIG_FILE = Doc d ->
  field d "INCLUDES" = JArr (entry_json <$> l) ->
  DbGetNamespaceAndConfigFile ∅ =
  if decide (NoDup (entry_ns <$> l))
  then Ret (list_to_map (entry_file <$> l), bool_decide (1 < length l))
  else Panic duplicate_include.
Proof.
  intros Hf Hd. case_decide as Hnd; [by apply (global_files d)|].
  unfold DbGetNamespaceAndConfigFile. rewrite Hf, Hd. simpl.
  rewrite includes_dup; [done|]. by intros [? _].
Qed.

(** ** Getters *)

(** A call on an initialised package neither reads files nor changes it. *)
Lemma with_init_ready {A} (f : dbconf -> res A) g :
  sonic_db_init g = true -> with_init f g = f g ≫= (fun a => Ret (a, g)).
Proof. unfold with_init. by intros ->. Qed.

(** [DbInit] leaves the package initialised. *)
Lemma DbInit_ready g g' : DbInit g = Ret g' -> sonic_db_init g' = true.
Proof.
  unfold DbInit. destruct (sonic_db_init g) eqn:Hi; [by intros [= <-]|].
  intros Hr. res_inv Hr. destruct a as [m multi]. res_inv Hr. by injection Hr as <-.
Qed.

Lemma elem_of_nonDefault g ns :
  ns ∈ nonDefaultNamespaces g <-> ns <> "" /\ is_Some (sonic_db_config g !! ns).
Proof.
  unfold nonDefaultNamespaces. rewrite list_elem_of_filter. apply and_iff_compat_l.
  rewrite list_elem_of_fmap. split.
  - intros ([k v] & -> & Hkv%elem_of_range). by exists v.
  - intros [v Hv]. exists (ns, v). split; [done|]. by apply elem_of_range.
Qed.

(** Which targets name a namespace: the empty target always does, without
    loading anything; any other target does exactly when the loaded
    configuration has it; the answer does not depend on the map order. *)
Theorem GetDbNamespaceFromTarget_spec target g :
  (target = "" -> GetDbNamespaceFromTarget target g = Ret ("", true, g)) /\
  (target <> "" -> forall g', DbInit g = Ret g' ->
   GetDbNamespaceFromTarget target g =
   match sonic_db_config g' !! target with
   | Some _ => Ret (target, true, g')
   | None => Ret ("", false, g')
   end).
Proof.
  unfold GetDbNamespaceFromTarget. split.
  - intros ->. by rewrite decide_True.
  - intros Hne g' Hg'. rewrite decide_False by done.
    unfold GetDbNonDefaultNamespaces, with_init.
    assert ((if sonic_db_init g then Ret g else DbInit g) = Ret g') as ->.
    { unfold DbInit in *. by destruct (sonic_db_init g). }
    cbn. pose proof (elem_of_nonDefault g' target) as Hel.
    destruct (sonic_db_config g' !! target) eqn:Hc; case_decide; naive_solver.
Qed.

(** A configuration document with the shape of [database_config.json]. *)
Definition is_str (j : json) : Prop := exists s, j = JStr s.
Definition is_num (j : json) : Prop := exists x, j = JNum x.

Definition wf_instance (inst : json) : Prop :=
  exists m, inst = JObj m /\ is_str (field m "hostname") /\ is_num (field m "port") /\
            is_str (field m "unix_socket_path").

Definition wf_database (insts : gmap string json) (db : json) : Prop :=
  exists m n, db = JObj m /\ field m "instance" = JStr n /\ is_Some (insts !! n) /\
              is_num (field m "id") /\ is_str (field m "separator").

Definition wf_doc (d : gmap string json) : Prop :=
  exists dbs insts, field d "DATABASES" = JObj dbs /\ field d "INSTANCES" = JObj insts /\
    map_Forall (fun _ => wf_database insts) dbs /\ map_Forall (fun _ => wf_instance) insts.

Definition has_db (d : gmap string json) (db : string) : Prop :=
  exists dbs, field d "DATABASES" = JObj dbs /\ is_Some (dbs !! db).

Lemma field_present m k j : field m k = j -> j <> JNull -> m !! k = Some j.
Proof. unfold field. destruct (m !! k); simpl; [by intros ->|by intros <-]. Qed.

Lemma field_str m k : is_str (field m k) -> exists s, m !! k = Some (JStr s).
Proof. intros [s Hs]. exists s. by apply field_present. Qed.

Lemma field_num m k : is_num (field m k) -> exists s, m !! k = Some (JNum s).
Proof. intros [s Hs]. exists s. by apply field_present. Qed.

Lemma wf_dbField g ns db :
  wf_doc (config_of g ns) -> has_db (config_of g ns) db ->
  exists sep id, dbField "separator" db ns g = Ret (JStr sep) /\
                 dbField "id" db ns g = Ret (JNum id).
Proof.
  intros (dbs & insts & Hdbs & _ & Hwf & _) (dbs' & Hdbs' & dbj & Hdb).
  rewrite Hdbs in Hdbs'. injection Hdbs' as <-.
  destruct (Hwf _ _ Hdb) as (m & n & -> & _ & _ & [id Hid]%field_num & [sep Hsep]%field_str).
  exists sep, id. unfold dbField, dbList. rewrite Hdbs. simpl.
  unfold field. rewrite Hdb. simpl. by rewrite Hid, Hsep.
Qed.

Lemma wf_instField g ns db :
  wf_doc (config_of g ns) -> has_db (config_of g ns) db ->
  exists h p s, instField "hostname" db ns g = Ret (JStr h) /\
                instField "port" db ns g = Ret (JNum p) /\
                instField "unix_socket_path" db ns g = Ret (JStr s).
Proof.
  intros (dbs & insts & Hdbs & Hinsts & Hwf & Hwi) (dbs' & Hdbs' & dbj & Hdb).
  rewrite Hdbs in Hdbs'. injection Hdbs' as <-.
  destruct (Hwf _ _ Hdb) as (m & n & -> & Hn & [i Hi] & _).
  destruct (Hwi _ _ Hi) as (im & -> & [h Hh]%field_str & [p Hp]%field_num & [s Hs]%field_str).
  exists h, p, s. unfold instField, dbInst. rewrite Hdbs, Hinsts. simpl. rewrite Hdb. simpl.
  rewrite (field_present _ _ _ Hn) by done. simpl. rewrite Hi. simpl. by rewrite Hh, Hp, Hs.
Qed.

(** On a loaded, well-formed configuration every getter of a configured
    database returns and leaves the package as it is; the TCP address is the
    host name and the port of the instance. *)
Theorem getters_total g ns db :
  sonic_db_init g = true -> wf_doc (config_of g ns) -> has_db (config_of g ns) db ->
  exists sep id sockp host p,
    GetDbSeparator db ns g = Ret (sep, g) /\ GetDbId db ns g = Ret (id, g) /\
    GetDbSock db ns g = Ret (sockp, g) /\ GetDbHostName db ns g = Ret (host, g) /\
    GetDbPort db ns g = Ret (p, g) /\
    GetDbTcpAddr db ns g = Ret (host +:+ ":" +:+ pretty p, g).
Proof.
  intros Hi Hwf Hdb.
  destruct (wf_dbField g ns db Hwf Hdb) as (sep & id & Hsep & Hid).
  destruct (wf_instField g ns db Hwf Hdb) as (h & p & s & Hh & Hp & Hs).
  exists sep, (int_of_float id), s, h, (int_of_float p).
  unfold GetDbSeparator, GetDbId, GetDbSock, GetDbHostName, GetDbPort, GetDbTcpAddr.
  rewrite !with_init_ready by done.
  unfold separator, dbId, sock, hostName, port. rewrite Hsep, Hid, Hh, Hp, Hs. done.
Qed.
End Config.

(** ** Examples: the files of [testdata] *)

Definition db_entry (id : Z) (sep inst : string) : json :=
  JObj (list_to_map [("id", JNum (of_int id)); ("separator", JStr sep); ("instance", JStr inst)]).

Definition redis_entry (host sockp : string) (p : Z) : json :=
  JObj (list_to_map [("hostname", JStr host); ("port", JNum (of_int p));
                     ("unix_socket_path", JStr sockp)]).

Definition testdata_config (sockp : string) : gmap string json := list_to_map
  [("INSTANCES", JObj (list_to_map [("redis", redis_entry "127.0.0.1" sockp 6379)]));
   ("DATABASES", JObj (list_to_map
      [("APPL_DB", db_entry 0 ":" "redis"); ("ASIC_DB", db_entry 1 ":" "redis");
       ("COUNTERS_DB", db_entry 2 ":" "redis"); ("LOGLEVEL_DB", db_entry 3 ":" "redis");
       ("CONFIG_DB", db_entry 4 "|" "redis"); ("PFC_WD_DB", db_entry 5 ":" "redis");
       ("FLEX_COUNTER_DB", db_entry 5 ":" "redis"); ("STATE_DB", db_entry 6 "|" "redis");
       ("SNMP_OVERLAY_DB", db_entry 7 "|" "redis")]));
   ("VERSION", JStr "1.0")].

Definition testdata_includes : list (option string * string) :=
  [(None, "../../redis/sonic-db/database_config.json");
   (Some "asic0", "../../redis0/sonic-db/database_config_asic0.json")].

Definition testdata_global : gmap string json := list_to_map
  [("INCLUDES", JArr (entry_json <$> testdata_includes)); ("VERSION", JStr "1.0")].

(** The system with two namespaces, and the one without a global file. *)
Definition multi_fs (f : string) : file :=
  if decide (f = SONIC_DB_GLOBAL_CONFIG_FILE) then Doc testdata_global
  else if decide (f = "/var/run/redis/sonic-db/database_config.json")
  then Doc (testdata_config "/var/run/redis/redis.sock")
  else if decide (f = "/var/run/redis0/sonic-db/database_config_asic0.json")
  then Doc (testdata_config "/var/run/redis0/redis.sock")
  else NotExist.

Definition single_fs (f : string) : file :=
  if decide (f = SONIC_DB_CONFIG_FILE)
  then Doc (testdata_config "/var/run/redis/redis.sock") else NotExist.

(** The configuration both systems load in the default namespace. *)
Definition single_conf : dbconf :=
  {| sonic_db_config := {["" := testdata_config "/var/run/redis/redis.sock"]};
     sonic_db_init := true; sonic_db_multi_namespace := false |}.

Lemma single_init `{RangeOrder} :
  DbInit single_fs initial = Ret single_conf.
Proof.
  rewrite (DbInit_returns _ initial {["" := SONIC_DB_CONFIG_FILE]} false); [reflexivity|done|done|].
  intros ns f [_ <-]%lookup_singleton_Some. by eexists.
Qed.

Definition multi_files : gmap string string := list_to_map (entry_file <$> testdata_includes).

Lemma testdata_wf s : wf_doc (testdata_config s).
Proof.
  eexists _, _. split_and!; [reflexivity|reflexivity| |]; intros k j Hkj;
    apply elem_of_list_to_map_2 in Hkj.
  - repeat (apply elem_of_cons in Hkj as [[= -> ->]|Hkj];
      [eexists _, _; split_and!; [reflexivity|reflexivity|by eexists|by eexists|by eexists]|]).
    by apply elem_of_nil in Hkj.
  - apply elem_of_cons in Hkj as [[= -> ->]|Hkj]; [|by apply elem_of_nil in Hkj].
    eexists. split_and!; [reflexivity|by eexists..].
Qed.

Lemma DbInit_loads_witness :
  let _ := default_order in
  DbInit single_fs initial = Ret single_conf.
Proof.
  apply (@DbInit_loads default_order single_fs initial); [reflexivity|].
  exists {["" := SONIC_DB_CONFIG_FILE]}, false. split_and!; [reflexivity| |].
  - intros ns f [_ <-]%lookup_singleton_Some. eexists. reflexivity.
  - reflexivity.
Defined.

Lemma global_file_map_witness :
  DbGetNamespaceAndConfigFile multi_fs ∅ =
  Ret (list_to_map [("", "/var/run/redis/sonic-db/database_config.json");
                    ("asic0", "/var/run/redis0/sonic-db/database_config_asic0.json")], true).
Proof.
  rewrite (global_file_map multi_fs testdata_global testdata_includes);
    [vm_compute; reflexivity|vm_compute; reflexivity|vm_compute; reflexivity].
Defined.

Lemma getters_total_witness :
  let _ := default_order in
  exists sep id sockp host p,
    GetDbSeparator single_fs "CONFIG_DB" "" single_conf = Ret (sep, single_conf) /\
    GetDbId single_fs "CONFIG_DB" "" single_conf = Ret (id, single_conf) /\
    GetDbSock single_fs "CONFIG_DB" "" single_conf = Ret (sockp, single_conf) /\
    GetDbHostName single_fs "CONFIG_DB" "" single_conf = Ret (host, single_conf) /\
    GetDbPort single_fs "CONFIG_DB" "" single_conf = Ret (p, single_conf) /\
    GetDbTcpAddr single_fs "CONFIG_DB" "" single_conf
      = Ret (host +:+ ":" +:+ pretty p, single_conf).
Proof.
  apply (@getters_total default_order single_fs single_conf "" "CONFIG_DB").
  - reflexivity.
  - exact (testdata_wf "/var/run/redis/redis.sock").
  - eexists. split; [reflexivity|eexists; reflexivity].
Defined.

(** The address of [TestGetDb]. *)
Example CONFIG_DB_addr :
  let _ := default_order in
  GetDbTcpAddr single_fs "CONFIG_DB" "" single_conf = Ret ("127.0.0.1:6379", single_conf).
Proof. vm_compute. reflexivity. Qed.

(** An initialisation after [Init] keeps the namespaces the new files no
    longer list: a system that changes from two namespaces to one still
    accepts the target of the removed one. *)
Lemma Init_keeps_stale_namespace `{RangeOrder} g1 :
  DbInit multi_fs initial = Ret g1 ->
  exists g2, GetDbNamespaceFromTarget single_fs "asic0" (Init g1) = Ret ("asic0", true, g2) /\
             sonic_db_multi_namespace g2 = false.
Proof.
  intros (m & multi & Hm & Hdoc & ->)%DbInit_result; [|done].
  assert (m = multi_files) as ->.
  { rewrite (global_files multi_fs testdata_global testdata_includes eq_refl eq_refl) in Hm; [by injection Hm|].
    apply (bool_decide_unpack _). by vm_compute. }
  set (g := Init _). eexists {| sonic_db_config := _; sonic_db_init := true;
    sonic_db_multi_namespace := false |}. split; [|done].
  rewrite (proj2 (GetDbNamespaceFromTarget_spec single_fs "asic0" g) ltac:(done)
    {| sonic_db_config := omap (doc_of single_fs) ({["" := SONIC_DB_CONFIG_FILE]} : gmap string string)
         ∪ sonic_db_config g; sonic_db_init := true; sonic_db_multi_namespace := false |}).
  - cbn [sonic_db_config]. assert (is_Some (sonic_db_config g !! "asic0")) as [d Hd].
    { exists (testdata_config "/var/run/redis0/redis.sock"). reflexivity. }
    rewrite lookup_union_r; [by rewrite Hd|]. by rewrite lookup_omap.
  - apply (DbInit_returns _ _ {["" := SONIC_DB_CONFIG_FILE]} false); [done|done|].
    intros ns f [_ <-]%lookup_singleton_Some. by eexists.
Qed.

Lemma GetDbNamespaceFromTarget_spec_witness :
  let _ := default_order in
  GetDbNamespaceFromTarget single_fs "" initial = Ret ("", true, initial) /\
  GetDbNamespaceFromTarget single_fs "asic0" initial = Ret ("", false, single_conf).
Proof.
  split.
  - exact (proj1 (@GetDbNamespaceFromTarget_spec default_order single_fs "" initial) eq_refl).
  - refine (proj2 (@GetDbNamespaceFromTarget_spec default_order single_fs "asic0" initial)
      _ single_conf eq_refl). discriminate.
Defined.
