(* ===== verification/RedisDb.v ===== *)
(** * Redis access: the clients of [sonic_data_client/db_client.go]

    A [*redis.Client] of the go-redis package is a record of the read
    operations the source calls; what the library documents about them is the
    class [RedisLaws], which [mem_redis] (a database in memory) satisfies.
    [Target2RedisDb] maps namespaces and database names to clients;
    [init_clients] and [useRedisTcpClient] fill it.  Also here: table paths,
    [IsTargetDb], [GetTableKeySeparator] and [GetRedisClientsForDb]. *)

From stdpp Require Import base tactics list fin_maps gmap strings pretty.
From Stdlib Require Import ZArith Ascii Lia.
From S2P Require Import Prelude GoStrings Messages DbConfig.

Local Open Scope string_scope.
Local Open Scope list_scope.

(** ** The redis client *)

(** [redis.Nil], the error of a reply without value. *)
Definition redis_Nil : error := Err "redis: nil".

Record redis := {
  Ping : res unit;
  Keys : string -> res (list string);
  Exists : string -> res Z;
  HGet : string -> string -> res string;
  HGetAll : string -> res (gmap string string);
}.

Abbreviation hash := (gmap string string).

(** Redis glob patterns without character classes and escapes. *)
Fixpoint glob (p : string) : string -> bool :=
  match p with
  | "" => fun s => bool_decide (s = "")
  | String c p' =>
      if decide (c = "*"%char)
      then fix star (s : string) : bool :=
             glob p' s || match s with "" => false | String _ s' => star s' end
      else fun s => match s with
                    | "" => false
                    | String d s' => (bool_decide (c = "?"%char) || bool_decide (c = d)) && glob p' s'
                    end
  end.

(** No character of the pattern is special. *)
Definition literal (p : string) : bool :=
  negb (contains_byte "*" p || contains_byte "?" p || contains_byte "[" p || contains_byte "\" p).

(** The documented behaviour of the commands on a database of hashes. *)
Class RedisLaws (r : redis) (db : gmap string hash) : Prop := {
  law_ping : Ping r = Ret tt;
  law_keys p : negb (contains_byte "[" p || contains_byte "\" p) = true ->
    exists l, Keys r p = Ret l /\ NoDup l /\ forall k, k ∈ l <-> is_Some (db !! k) /\ glob p k = true;
  law_exists k : Exists r k = Ret (match db !! k with Some _ => 1%Z | None => 0%Z end);
  law_hget k f : HGet r k f = match db !! k ≫= lookup f with Some v => Ret v | None => Fail redis_Nil end;
  law_hgetall k : HGetAll r k = Ret (default ∅ (db !! k));
}.

Definition mem_redis `{RangeOrder} (db : gmap string hash) : redis := {|
  Ping := Ret tt;
  Keys p := Ret (filter (fun k => glob p k = true) (range db).*1);
  Exists k := Ret (match db !! k with Some _ => 1%Z | None => 0%Z end);
  HGet k f := match db !! k ≫= lookup f with Some v => Ret v | None => Fail redis_Nil end;
  HGetAll k := Ret (default ∅ (db !! k));
|}.

#[export] Instance mem_redis_laws `{RangeOrder} db : RedisLaws (mem_redis db) db.
Proof.
  split; [done| |done|done|done]. intros p _. eexists. split; [reflexivity|]. split.
  - apply NoDup_filter, NoDup_range.
  - intros k. rewrite list_elem_of_filter, list_elem_of_fmap. split.
    + intros [? ([k' h] & -> & Hk%elem_of_range)]. split; [by eexists|done].
    + intros [[h Hk] ?]. split; [done|]. exists (k, h). split; [done|]. by apply elem_of_range.
Qed.

(** A literal prefix followed by a star matches by prefix. *)
Lemma glob_prefix p s : literal p = true -> glob (p +:+ "*") s = HasPrefix s p.
Proof.
  revert s. induction p as [|c p IH]; intros s Hp.
  - transitivity true; [|by destruct s]. induction s as [|d s IH]; [done|].
    simpl. simpl in IH. by rewrite IH.
  - assert (literal p = true /\ c <> "*"%char /\ c <> "?"%char) as (Hlp & Hstar & Hq).
    { unfold literal in *. simpl in Hp.
      destruct (contains_byte "*" p), (contains_byte "?" p), (contains_byte "[" p),
        (contains_byte "\" p); rewrite ?orb_true_r in Hp; try done.
      repeat case_bool_decide; naive_solver. }
    simpl. rewrite decide_False by done. destruct s as [|d s]; [done|].
    by rewrite bool_decide_eq_false_2, IH by done.
Qed.

Lemma literal_app a b : literal (a +:+ b) = literal a && literal b.
Proof.
  unfold literal. rewrite !contains_byte_app.
  destruct (contains_byte "*" a), (contains_byte "?" a), (contains_byte "[" a),
    (contains_byte "\" a); simpl; rewrite ?orb_true_r; done.
Qed.

(** The keys with a literal prefix. *)
Lemma law_keys_prefix `{!RedisLaws r db} p : literal p = true ->
  exists l, Keys r (p +:+ "*") = Ret l /\ NoDup l /\
    forall k, k ∈ l <-> is_Some (db !! k) /\ exists t, k = p +:+ t.
Proof.
  intros Hp. destruct (law_keys (r := r) (db := db) (p +:+ "*")) as (l & Hl & Hnd & Hk).
  - unfold literal in Hp. rewrite !contains_byte_app.
    destruct (contains_byte "*" p), (contains_byte "?" p), (contains_byte "[" p),
      (contains_byte "\" p); done.
  - exists l. split_and!; [done..|]. intros k. by rewrite Hk, glob_prefix, HasPrefix_spec.
Qed.

(** ** Table paths *)

Record tablePath := {
  dbNamespace : string;
  dbName : string;
  tableName : string;
  tableKey : string;
  delimitor : string;
  field : string;
  jsonTableName : string;
  jsonTableKey : string;
  jsonDelimitor : string;
  jsonField : string;
}.

#[export] Instance tablePath_eq_dec : EqDecision tablePath.
Proof. solve_decision. Defined.
#[export] Instance tablePath_countable : Countable tablePath.
Proof.
  refine (inj_countable'
    (fun t => (dbNamespace t, dbName t, tableName t, tableKey t, delimitor t, field t,
               (jsonTableName t, jsonTableKey t, jsonDelimitor t, jsonField t)))
    (fun '(a, b, c, d, e, f, (g, h, i, j)) => Build_tablePath a b c d e f g h i j) _).
  by intros [].
Defined.

Abbreviation clients := (gmap string (gmap string redis)).

(** [Target2RedisDb[ns][db]]: nil when absent. *)
Definition client_of (T : clients) (ns db : string) : option redis := T !! ns ≫= lookup db.

(** Calling a method of a client, which panics on nil. *)
Definition call {A} (r : option redis) (op : redis -> res A) : res A :=
  match r with Some r => op r | None => Panic NilDereference end.

Section Access.
Context `{RangeOrder} (g : dbconf).

Definition GetTableKeySeparator (target ns : string) : res string :=
  match Target_value !! target with
  | None => Fail (Errorf "%v not a valid path target" [target])
  | Some _ => separator target ns g
  end.

Definition GetRedisClientsForDb (T : clients) (target : string) : gmap string (option redis) :=
  if sonic_db_multi_namespace g
  then foldl (fun m ns => <[ns := client_of T ns target]> m) ∅ (nonDefaultNamespaces g)
  else {[GetDbDefaultNamespace := client_of T GetDbDefaultNamespace target]}.

(** The result: database name, whether it is valid, namespace, and whether
    the target names a namespace. *)
Definition IsTargetDb (target : string) : res (string * bool * string * bool) :=
  let targetname := Split target "/" in
  match targetname with
  | [] => Panic IndexOutOfRange
  | dbName :: rest =>
      if decide (2 < length targetname)
      then Ret (dbName, false, GetDbDefaultNamespace, false)
      else
        let '(ns, nsExist) := match rest with
                              | ns :: _ => (ns, true)
                              | [] => (GetDbDefaultNamespace, false)
                              end in
        Ret (dbName, bool_decide (dbName ∈ (range Target_value).*1), ns, nsExist)
  end.

(** ** Creating the clients *)

Record Options := { Network : string; Addr : string; DB : Z }.

(** [redis.NewClient] of the go-redis package. *)
Context (NewClient : Options -> redis).

(** The clients of one namespace, for every target but OTHERS. *)
Definition namespace_clients (network : string) (addr : string -> string -> dbconf -> res string)
    (ns : string) : res (gmap string redis) :=
  foldM (fun m '(db, dbn) =>
    if decide (db = "OTHERS") then Ret m
    else a ← addr db ns g;
         Ret (<[db := NewClient {| Network := network; Addr := a; DB := dbn |}]> m))
    ∅ (range Target_value).

Definition make_clients (network : string) (addr : string -> string -> dbconf -> res string)
    (T : clients) : res clients :=
  foldM (fun T ns => m ← namespace_clients network addr ns; Ret (<[ns := m]> T))
    T (allNamespaces g).

Definition tcpAddr (db ns : string) (g : dbconf) : res string :=
  h ← hostName db ns g; p ← port db ns g; Ret (h +:+ ":" +:+ pretty p).

Definition init_clients (T : clients) : res clients := make_clients "unix" sock T.

Definition useRedisTcpClient (UseRedisLocalTcpPort : bool) (T : clients) : res clients :=
  if UseRedisLocalTcpPort then make_clients "tcp" tcpAddr T else Ret T.

(** ** Laws *)

Lemma elem_of_nonDefault_clients T target ns c :
  sonic_db_multi_namespace g = true ->
  GetRedisClientsForDb T target !! ns = Some c <->
  c = client_of T ns target /\ ns ∈ nonDefaultNamespaces g.
Proof.
  intros Hm. unfold GetRedisClientsForDb. rewrite Hm.
  assert (forall m0 : gmap string (option redis),
    ((foldl (fun m ns => <[ns := client_of T ns target]> m) m0 (nonDefaultNamespaces g)) !! ns
      = Some c) <->
    ((c = client_of T ns target /\ ns ∈ nonDefaultNamespaces g) \/
     ((ns ∉ nonDefaultNamespaces g) /\ m0 !! ns = Some c))) as Hgen.
  { induction (nonDefaultNamespaces g) as [|ns' l IH]; intros m0; simpl.
    - set_solver.
    - rewrite IH, elem_of_cons. destruct (decide (ns = ns')) as [->|Hne].
      + rewrite lookup_insert_eq. destruct (decide (ns' ∈ l)); naive_solver.
      + rewrite lookup_insert_ne by done. naive_solver. }
  rewrite Hgen, lookup_empty. naive_solver.
Qed.

(** The databases a client is created for. *)
Definition is_db (db : string) : Prop := is_Some (Target_value !! db) /\ db <> "OTHERS".

Lemma namespace_clients_ok network addr ns :
  (forall db, is_db db -> exists a, addr db ns g = Ret a) ->
  exists m, namespace_clients network addr ns = Ret m /\
    forall db dbn, Target_value !! db = Some dbn -> db <> "OTHERS" ->
      exists a, addr db ns g = Ret a /\
        m !! db = Some (NewClient {| Network := network; Addr := a; DB := dbn |}).
Proof.
  intros Haddr. unfold namespace_clients.
  set (f := fun (m : gmap string redis) '(db, dbn) =>
    if decide (db = "OTHERS") then Ret m
    else match addr db ns g with
         | Ret a => Ret (<[db := NewClient {| Network := network; Addr := a; DB := dbn |}]> m)
         | Fail e => Fail e | Panic p => Panic p end).
  assert (forall l m0, NoDup l.*1 -> (forall db dbn, (db, dbn) ∈ l -> Target_value !! db = Some dbn) ->
    exists m, foldM f m0 l = Ret m /\
      (forall db, db ∉ l.*1 -> m !! db = m0 !! db) /\
      forall db dbn, (db, dbn) ∈ l -> db <> "OTHERS" ->
      exists a, addr db ns g = Ret a /\
        m !! db = Some (NewClient {| Network := network; Addr := a; DB := dbn |})) as Hgen.
  { induction l as [|[db dbn] l IH]; intros m0 Hnd Hl; simpl.
    - exists m0. split_and!; [done..|]. by intros ?? ?%elem_of_nil.
    - apply NoDup_cons in Hnd as [Hdb Hnd]. simpl in Hdb.
      assert (forall m1, (forall k, k <> db -> m1 !! k = m0 !! k) ->
        (db <> "OTHERS" -> exists a, addr db ns g = Ret a /\
           m1 !! db = Some (NewClient {| Network := network; Addr := a; DB := dbn |})) ->
        exists m, foldM f m1 l = Ret m /\
          (forall k, k ∉ db :: l.*1 -> m !! k = m0 !! k) /\
          (forall k n, (k, n) ∈ (db, dbn) :: l -> k <> "OTHERS" ->
           exists a, addr k ns g = Ret a /\
            m !! k = Some (NewClient {| Network := network; Addr := a; DB := n |}))) as Hstep.
      { intros m1 Hm1 Hdb1.
        destruct (IH m1 Hnd) as (m & Hm & Hout & Hin); [intros; apply Hl; by right|].
        exists m. split_and!; [done| |].
        - intros k [Hk Hkl]%not_elem_of_cons. rewrite Hout by done. auto.
        - intros k n [[= -> ->]|Hk]%elem_of_cons Ho; [|auto].
          destruct (Hdb1 Ho) as (a & Ha & Hma). exists a. split; [done|]. by rewrite Hout. }
      case_decide as Ho; [apply Hstep; [done|congruence]|].
      destruct (Haddr db) as [a Ha].
      { split; [|done]. exists dbn. apply Hl. by left. }
      rewrite Ha. apply Hstep.
      + intros k Hk. by rewrite lookup_insert_ne.
      + intros _. exists a. split; [done|]. by rewrite lookup_insert_eq. }
  destruct (Hgen (range Target_value) ∅) as (m & Hm & _ & Hin).
  - apply NoDup_range.
  - intros db dbn. apply elem_of_range.
  - exists m. split; [exact Hm|]. intros db dbn Hdb Ho. apply Hin; [|done].
    by apply elem_of_range.
Qed.

(** Filling the maps of other namespaces keeps that of [ns]. *)
Lemma fill_other network addr (l : list string) (T T' : clients) ns :
  foldM (fun T ns => m ← namespace_clients network addr ns; Ret (<[ns := m]> T)) T l = Ret T' ->
  ns ∉ l -> T' !! ns = T !! ns.
Proof.
  intros HT Hns. apply (foldM_inv _ (fun T1 : clients => T1 !! ns = T !! ns)) in HT; [done| |done].
  intros T1 n T2 Hn HT1 Hstep. res_inv Hstep. injection Hstep as Hstep. subst T2. cbn beta.
  rewrite lookup_insert_ne; [done|]. by intros ->.
Qed.

Lemma make_clients_ok network addr T :
  (forall ns db, ns ∈ allNamespaces g -> is_db db -> exists a, addr db ns g = Ret a) ->
  exists T', make_clients network addr T = Ret T' /\
    forall ns db dbn, ns ∈ allNamespaces g -> Target_value !! db = Some dbn -> db <> "OTHERS" ->
      exists a, addr db ns g = Ret a /\
        client_of T' ns db = Some (NewClient {| Network := network; Addr := a; DB := dbn |}).
Proof.
  unfold make_clients.
  assert (NoDup (allNamespaces g)) as Hnd by apply NoDup_range. revert T Hnd.
  induction (allNamespaces g) as [|ns l IH]; intros T Hnd Haddr; simpl.
  - exists T. split; [done|]. by intros ??? ?%elem_of_nil.
  - apply NoDup_cons in Hnd as [Hns Hnd].
    destruct (namespace_clients_ok network addr ns) as (m & -> & Hm).
    { intros db. apply Haddr. by left. }
    simpl. destruct (IH (<[ns := m]> T) Hnd) as (T' & HT' & Hc).
    { intros ns' db Hn. apply Haddr. by right. }
    exists T'. split; [done|].
    intros ns' db dbn [->|Hn]%elem_of_cons Hdb Ho; [|by apply Hc].
    destruct (Hm db dbn Hdb Ho) as (a & Ha & Hma). exists a. split; [done|].
    unfold client_of. by rewrite (fill_other network addr l _ _ ns HT' Hns), lookup_insert_eq.
Qed.
End Access.

Section theorems.
Context `{RangeOrder} (g : dbconf).

Lemma valid_target db :
  bool_decide (db ∈ (range Target_value).*1) = bool_decide (is_Some (Target_value !! db)).
Proof.
  apply bool_decide_ext. rewrite list_elem_of_fmap. split.
  - intros ([k v] & -> & Hk%elem_of_range). by eexists.
  - intros [v Hv]. exists (db, v). split; [done|]. by apply elem_of_range.
Qed.

(** The target of a request: it is a database name, or a database name
    and a namespace separated by one slash; with more slashes it is invalid.
    The database name is valid exactly when it is one of the targets of the
    protocol, in whatever order their map is visited. *)
Theorem IsTargetDb_spec db ns rest :
  contains_byte "/" db = false ->
  IsTargetDb db = Ret (db, bool_decide (is_Some (Target_value !! db)), "", false) /\
  (contains_byte "/" ns = false ->
   IsTargetDb (db +:+ "/" +:+ ns) =
     Ret (db, bool_decide (is_Some (Target_value !! db)), ns, true) /\
   IsTargetDb (db +:+ "/" +:+ ns +:+ "/" +:+ rest) = Ret (db, false, "", false)).
Proof.
  intros Hdb. unfold IsTargetDb. change "/" with (sep1 "/"). split.
  - rewrite Split_clean by done. simpl. by rewrite valid_target.
  - intros Hns. rewrite !(Split_app _ db), (Split_app _ ns), Split_clean by done.
    simpl. rewrite valid_target. split; [done|].
    pose proof (split_from_nonempty (sep1 "/") 0 rest) as Hne. unfold Split. simpl.
    destruct (split_from _ 0 rest); [done|]. by case_decide; [|simpl in *; lia].
Qed.

(** C39. Start-up: with a well-formed configuration of every database in every
    namespace, the clients are created without panic, and the client of every
    database of every namespace talks to the unix socket the configuration
    gives it, with the database number of the protocol's target. *)
Theorem init_clients_spec (NewClient : Options -> redis) :
  (forall ns, ns ∈ allNamespaces g -> wf_doc (config_of g ns)) ->
  (forall ns db, ns ∈ allNamespaces g -> is_db db -> has_db (config_of g ns) db) ->
  exists T, init_clients g NewClient ∅ = Ret T /\
    forall ns db dbn, ns ∈ allNamespaces g -> Target_value !! db = Some dbn -> db <> "OTHERS" ->
      exists a, sock db ns g = Ret a /\
        client_of T ns db = Some (NewClient {| Network := "unix"; Addr := a; DB := dbn |}).
Proof.
  intros Hwf Hdb. apply make_clients_ok. intros ns db Hns Hd.
  destruct (wf_instField g ns db) as (h & p & s & _ & _ & Hs); [auto..|].
  exists s. unfold sock. by rewrite Hs.
Qed.

(** After start-up no client of [GetRedisClientsForDb] is nil. *)
Lemma GetRedisClientsForDb_present (T : clients) target :
  (forall ns, ns ∈ allNamespaces g -> is_Some (client_of T ns target)) ->
  "" ∈ allNamespaces g ->
  forall ns c, GetRedisClientsForDb g T target !! ns = Some c ->
    ns ∈ allNamespaces g /\ is_Some c.
Proof.
  intros HT Hdef ns c. destruct (sonic_db_multi_namespace g) eqn:Hm.
  - intros [-> Hn]%elem_of_nonDefault_clients; [|done].
    assert (ns ∈ allNamespaces g) by (by apply list_elem_of_filter in Hn as [_ Hn]).
    split; [done|]. by apply HT.
  - unfold GetRedisClientsForDb. rewrite Hm. intros [<- <-]%lookup_singleton_Some.
    split; [exact Hdef|]. by apply HT.
Qed.
End theorems.

Lemma IsTargetDb_spec_witness :
  let _ := default_order in
  IsTargetDb "STATE_DB" = Ret ("STATE_DB", true, "", false) /\
  IsTargetDb "STATE_DB/asic0" = Ret ("STATE_DB", true, "asic0", true) /\
  IsTargetDb "STATE_DB/asic0/x" = Ret ("STATE_DB", false, "", false).
Proof.
  destruct (@IsTargetDb_spec default_order "STATE_DB" "asic0" "x" eq_refl) as [H1 H2].
  destruct (H2 eq_refl) as [H3 H4]. split_and!; [exact H1|exact H3|exact H4].
Defined.

Definition options_redis (o : Options) : redis :=
  @mem_redis default_order {["options" := list_to_map [("addr", Addr o); ("db", pretty (DB o))]]}.

Lemma single_has_db db : is_db db -> has_db (testdata_config "/var/run/redis/redis.sock") db.
Proof.
  intros [[z Hz] Ho]. apply elem_of_list_to_map_2 in Hz.
  eexists. split; [reflexivity|].
  repeat (apply elem_of_cons in Hz as [[= -> ->]|Hz]; [first [done|eexists; reflexivity]|]).
  by apply elem_of_nil in Hz.
Qed.

Lemma init_clients_spec_witness :
  let _ := default_order in
  exists T, init_clients single_conf options_redis ∅ = Ret T /\
    forall ns db dbn, ns ∈ allNamespaces single_conf -> Target_value !! db = Some dbn ->
      db <> "OTHERS" ->
      exists a, sock db ns single_conf = Ret a /\
        client_of T ns db = Some (options_redis {| Network := "unix"; Addr := a; DB := dbn |}).
Proof.
  assert (forall ns, ns ∈ @allNamespaces default_order single_conf -> ns = "") as Hns.
  { intros ns Hns. apply list_elem_of_fmap in Hns as ([k v] & -> & Hk).
    apply elem_of_range in Hk. simpl in Hk.
    apply lookup_singleton_Some in Hk as [<- _]. reflexivity. }
  apply (@init_clients_spec default_order single_conf options_redis).
  - intros ns ->%Hns. apply testdata_wf.
  - intros ns db ->%Hns Hdb. by apply single_has_db.
Defined.
