(* ===== verification/Trie.v ===== *)
(** * The path trie of [sonic_data_client/trie.go]

    Nodes are mutable objects linked by child, wildcard and parent pointers,
    so the model is a store of nodes addressed by location.  [Spec] is the
    abstract reading of a trie: the finite map from key paths to meta data,
    looked up by a greedy walk in which a literal child wins over a wildcard
    child.  [Rep] relates a store to that map, [Add] implements insertion and
    [Find] the walk. *)

From stdpp Require Import base tactics list fin_maps gmap strings.
From Stdlib Require Import ZArith.
From S2P Require Import Prelude GoStrings.

Local Open Scope string_scope.
Local Open Scope list_scope.

Abbreviation loc := nat.

(** The nodes, generic in the type of the meta data. *)
Record Node (M : Type) := mkNode {
  val : string;
  depth : Z;
  term : bool;
  wildcards : gmap string loc;
  children : gmap string loc;
  parent : option loc;
  meta : option M;
}.
Arguments mkNode {M}.
Arguments val {M}.
Arguments depth {M}.
Arguments term {M}.
Arguments wildcards {M}.
Arguments children {M}.
Arguments parent {M}.
Arguments meta {M}.

(** A trie and the store its nodes live in; locations from [next] on are
    unused. *)
Record Trie (M : Type) := mkTrie {
  nodes : gmap loc (Node M);
  next : loc;
  root : loc;
  size : Z;
}.
Arguments mkTrie {M}.
Arguments nodes {M}.
Arguments next {M}.
Arguments root {M}.
Arguments size {M}.

Section operations.
Context {M : Type} `{RangeOrder}.
Implicit Types (t : Trie M) (l : loc) (n : Node M).

Definition NewTrie : Trie M :=
  mkTrie {[ 0 := mkNode "" 0 false ∅ ∅ None None ]} 1 0 0.

(** Dereferencing a node pointer. *)
Definition deref t l : res (Node M) :=
  match nodes t !! l with
  | Some n => Ret n
  | None => Panic NilDereference
  end.

Definition set_children n (ch wc : gmap string loc) : Node M :=
  mkNode (val n) (depth n) (term n) wc ch (parent n) (meta n).

Definition set_nodes t (ns : gmap loc (Node M)) (nx : loc) : Trie M :=
  mkTrie ns nx (root t) (size t).

(** [NewChild] allocates a node and links it under [l]. *)
Definition NewChild t l (v : string) (m : option M) (tm : bool) : res (loc * Trie M) :=
  n ← deref t l;
  let c := next t in
  let child := mkNode v (depth n + 1) tm ∅ ∅ (Some l) m in
  let n' := set_children n (<[v := c]> (children n))
              (if HasSuffix v "*" then <[v := c]> (wildcards n) else wildcards n) in
  Ret (c, set_nodes t (<[l := n']> (<[c := child]> (nodes t))) (S c)).

Fixpoint add_loop t l (keys : list string) : res (loc * Trie M) :=
  match keys with
  | [] => Ret (l, t)
  | key :: keys =>
      n ← deref t l;
      match children n !! key with
      | Some c => add_loop t c keys
      | None => '(c, t') ← NewChild t l key None false; add_loop t' c keys
      end
  end.

Definition Add t (keys : list string) (m : M) : res (loc * Trie M) :=
  let t := mkTrie (nodes t) (next t) (root t) (size t + 1) in
  '(l, t) ← add_loop t (root t) keys;
  NewChild t l "" (Some m) true.

(** The wildcard child chosen for [key]: the first one, in the order of the
    iteration, whose name less its last byte is a prefix of the key. *)
Definition wild_match (key : string) (wc : gmap string loc) : option loc :=
  snd <$> head (filter (fun vn => HasPrefix key (take_bytes (String.length vn.1 - 1) vn.1))
                  (range wc)).

Fixpoint findNode t (node : option loc) (keys : list string) : res (option loc) :=
  match node with
  | None => Ret None
  | Some l =>
      match keys with
      | [] => Ret (Some l)
      | key :: keys =>
          n ← deref t l;
          match children n !! key with
          | Some c => findNode t (Some c) keys
          | None =>
              match wild_match key (wildcards n) with
              | Some c => findNode t (Some c) keys
              | None => Ret None
              end
          end
      end
  end.

Definition Find t (keys : list string) : res (option loc) :=
  node ← findNode t (Some (root t)) keys;
  match node with
  | None => Ret None
  | Some l =>
      n ← deref t l;
      match children n !! "" with
      | None => Ret None
      | Some c => nc ← deref t c; Ret (if term nc then Some c else None)
      end
  end.

Definition RemoveChild n (r : string) : Node M :=
  set_children n (delete r (children n))
    (match wildcards n !! r with
     | Some _ => delete r (wildcards n)
     | None => wildcards n
     end).

(** The loop of [Remove]: walk up the parents until one has another child.
    [i] is the counter of the loop, [fuel] bounds the walk. *)
Fixpoint remove_loop (fuel : nat) t (rs : list string) (i : nat) (n : option loc) : res (Trie M) :=
  match n with
  | None => Ret t
  | Some l =>
      nd ← deref t l;
      let i := S i in
      if decide (1 < base.size (children nd)) then
        (* rs[len(rs)-i] *)
        if decide (i <= length rs) then
          match rs !! (length rs - i) with
          | Some r => Ret (set_nodes t (<[l := RemoveChild nd r]> (nodes t)) (next t))
          | None => Panic IndexOutOfRange
          end
        else Panic IndexOutOfRange
      else
        match fuel with
        | O => Panic (PanicErr "Remove: out of fuel")
        | S fuel => remove_loop fuel t rs i (parent nd)
        end
  end.

Definition Remove t (keys : list string) : res (Trie M) :=
  node ← findNode t (Some (root t)) keys;
  let t := mkTrie (nodes t) (next t) (root t) (size t - 1) in
  match node with
  | None => Panic NilDereference
  | Some l => n ← deref t l; remove_loop (next t) t keys 0 (parent n)
  end.

(** The meta data of a node. *)
Definition Meta t (l : loc) : option M := n ← nodes t !! l; meta n.

(** Populate a trie from a table of paths. *)
Definition populate (tbl : list (list string * M)) : res (Trie M) :=
  foldM (fun t pt => '(_, t) ← Add t pt.1 pt.2; Ret t) NewTrie tbl.
End operations.

(** ** The abstract trie *)
Module Spec.
Section spec.
Context {M : Type}.
Implicit Types (S : gmap (list string) M) (p q ks : list string).

(** The paths at which [S] has a node: the prefixes of its keys. *)
Definition present S p : Prop := p = [] \/ exists q m, S !! q = Some m /\ p `prefix_of` q.

(** The children of the node at [p]: the next components of the keys, and
    the terminal child "" when [p] is itself a key. *)
Definition child S p (k : string) : Prop :=
  present S (p ++ [k]) \/ (k = "" /\ is_Some (S !! p)).

(** [k] is matched by the wildcard child [w] of [p]. *)
Definition wild S p (k w : string) : Prop :=
  child S p w /\ exists v, w = v +:+ "*" /\ HasPrefix k v = true.

(** The greedy walk from [p] along [ks], ending at [q]. *)
Inductive walk S : list string -> list string -> list string -> Prop :=
  | walk_nil p : walk S p [] p
  | walk_exact p k ks q :
      child S p k -> walk S (p ++ [k]) ks q -> walk S p (k :: ks) q
  | walk_wild p k w ks q :
      ~ child S p k -> wild S p k w -> walk S (p ++ [w]) ks q -> walk S p (k :: ks) q.

(** Looking a path up: the walk ends at a key. *)
Definition lookup S ks (m : M) : Prop := exists q, walk S [] ks q /\ S !! q = Some m.

(** The walk gets stuck: no child and no wildcard for the next key. *)
Inductive stuck S : list string -> list string -> Prop :=
  | stuck_here p k ks :
      ~ child S p k -> (forall w, ~ wild S p k w) -> stuck S p (k :: ks)
  | stuck_exact p k ks : child S p k -> stuck S (p ++ [k]) ks -> stuck S p (k :: ks)
  | stuck_wild p k w ks :
      ~ child S p k -> wild S p k w -> stuck S (p ++ [w]) ks -> stuck S p (k :: ks).

(** No key has two wildcards to choose from. *)
Definition unambiguous S : Prop :=
  forall p k w w', wild S p k w -> wild S p k w' -> w = w'.

Lemma present_prefix S p q : present S q -> p `prefix_of` q -> present S p.
Proof.
  intros [->|(r & m & Hr & Hq)] Hp.
  - left. by apply prefix_nil_inv.
  - right. exists r, m. split; [done|]. by transitivity q.
Qed.

Lemma walk_functional S p ks q q' :
  unambiguous S -> walk S p ks q -> walk S p ks q' -> q = q'.
Proof.
  intros Hu Hw. revert q'.
  induction Hw as [p|p k ks q Hc Hw IH|p k w ks q Hnc Hwi Hw IH]; intros q' Hw'.
  - by inversion Hw'.
  - inversion Hw'; subst; [by apply IH|done].
  - inversion Hw' as [|??????|? ? w' ? ? ? Hwi']; subst; [done|].
    rewrite (Hu p k w w') in * by done. by apply IH.
Qed.

Lemma stuck_no_walk S p ks q : unambiguous S -> stuck S p ks -> ~ walk S p ks q.
Proof.
  intros Hu Hs. revert q.
  induction Hs as [p k ks Hc Hnw|p k ks Hc Hs IH|p k w ks Hc Hwi Hs IH]; intros q Hw;
    inversion Hw as [|????? Hw'|? ? w' ? ? ? Hwi' Hw']; subst; try done.
  - by eapply Hnw.
  - by eapply IH.
  - rewrite (Hu p k w' w) in Hw' by done. by eapply IH.
Qed.

(** Along a path that exists literally, the walk takes the literal child
    at every step. *)
Lemma literal_walk S p ks q : present S (p ++ ks) -> walk S p ks q -> q = p ++ ks.
Proof.
  intros Hp Hw. induction Hw as [p|p k ks q _ Hw IH|p k w ks q Hnc _ _ _].
  - by rewrite app_nil_r.
  - rewrite IH; rewrite <- app_assoc; done.
  - destruct Hnc. left. eapply present_prefix; [exact Hp|].
    exists ks. by rewrite <- app_assoc.
Qed.

Lemma literal_not_stuck S p ks : present S (p ++ ks) -> ~ stuck S p ks.
Proof.
  intros Hp Hs. induction Hs as [p k ks Hc _|p k ks _ _ IH|p k w ks Hc _ _ _].
  2: { apply IH. by rewrite <- app_assoc. }
  all: destruct Hc; left; eapply present_prefix; [exact Hp|];
    exists ks; by rewrite <- app_assoc.
Qed.

Lemma lookup_functional S ks m m' :
  unambiguous S -> lookup S ks m -> lookup S ks m' -> m = m'.
Proof.
  intros Hu (q & Hw & Hq) (q' & Hw' & Hq').
  rewrite (walk_functional S [] ks q q') in Hq by done. congruence.
Qed.
End spec.
End Spec.

(** ** Representation *)
Section representation.
Context {M : Type}.
Implicit Types (t : Trie M) (S : gmap (list string) M) (A : gmap (list string) loc).
Implicit Types (p q x ks : list string).

(** The paths at which the store has a node while [Add] is building the
    branch [x]. *)
Definition has_node S x p : Prop :=
  Spec.present S p \/ p `prefix_of` x \/ exists q, p = q ++ [""] /\ is_Some (S !! q).

Record node_ok A S p (n : Node M) : Prop := {
  ok_children k : children n !! k = A !! (p ++ [k]);
  ok_wildcards k : wildcards n !! k = if HasSuffix k "*" then children n !! k else None;
  ok_parent (q : list string) k : p = q ++ [k] -> parent n = A !! q /\ val n = k;
  ok_root : p = [] -> parent n = None;
  ok_depth : depth n = Z.of_nat (length p);
  ok_term (q : list string) : p = q ++ [""] -> term n = true /\ meta n = S !! q;
  ok_inner : "" ∉ p -> term n = false;
}.

(** [A] gives the location of the node of every path. *)
Record Rep t A S x : Prop := {
  rep_root : A !! [] = Some (root t);
  rep_inj p q l : A !! p = Some l -> A !! q = Some l -> p = q;
  rep_dom p : is_Some (A !! p) <-> has_node S x p;
  rep_node p l : A !! p = Some l -> exists n, nodes t !! l = Some n /\ node_ok A S p n;
  rep_fresh l : is_Some (nodes t !! l) -> l < next t;
  rep_keys p m : S !! p = Some m -> "" ∉ p;
  rep_branch : "" ∉ x;
}.

(** The invariant of a trie between operations. *)
Definition Represents t S : Prop := exists A, Rep t A S [].

Lemma has_node_child S p k : has_node S [] (p ++ [k]) <-> Spec.child S p k.
Proof.
  unfold has_node, Spec.child. split.
  - intros [?|[Hp|(q & [-> ->]%app_inj_tail & Hq)]]; [by left| |by right].
    apply prefix_nil_inv, app_eq_nil in Hp as []. done.
  - intros [?|[-> ?]]; [by left|]. right; right. eauto.
Qed.

Lemma present_clean S p :
  (forall p m, S !! p = Some m -> "" ∉ p) -> Spec.present S p -> "" ∉ p.
Proof.
  intros HS [->|(q & m & Hq & [r ->])]; [set_solver|].
  specialize (HS _ _ Hq). set_solver.
Qed.

(** No node lies below a terminal node, nor below an unused path. *)
Lemma has_node_below S x p v k :
  (forall p m, S !! p = Some m -> "" ∉ p) -> "" ∉ x ->
  ~ has_node S x (p ++ [v]) \/ v = "" -> ~ has_node S x (p ++ [v; k]).
Proof.
  intros HS Hx Hv Hn.
  assert (p ++ [v] `prefix_of` p ++ [v; k]) as Hpre
    by (exists [k]; by rewrite <- app_assoc).
  assert ("" ∈ p ++ [v] -> "" ∈ p ++ [v; k]) as Hin by set_solver.
  destruct Hn as [Hn|[Hn|(q & Hq & [m Hm])]].
  - destruct Hv as [Hv| ->]; [apply Hv; left; by eapply Spec.present_prefix|].
    apply (present_clean S _ HS Hn). set_solver.
  - destruct Hv as [Hv| ->]; [apply Hv; right; left; by etransitivity|].
    destruct Hn as [r ->]. set_solver.
  - change (p ++ [v; k]) with (p ++ ([v] ++ [k])) in Hq.
    rewrite app_assoc in Hq. apply app_inj_tail in Hq as [<- ->].
    destruct Hv as [Hv| ->]; [|specialize (HS _ _ Hm); set_solver].
    apply Hv. left. right. eauto.
Qed.

Lemma NewTrie_represents : Represents NewTrie (∅ : gmap (list string) M).
Proof.
  exists {[ [] := 0 ]}. constructor; simpl.
  - apply lookup_singleton_eq.
  - intros p q l [<- _]%lookup_singleton_Some [<- _]%lookup_singleton_Some. done.
  - intros p. unfold has_node. split.
    + intros [l [<- _]%lookup_singleton_Some]. left. by left.
    + intros [[->|(q & m & Hq & _)]|[->%prefix_nil_inv|(q & _ & [m Hm])]];
        [by rewrite lookup_singleton_eq| | |]; simplify_map_eq; eauto.
  - intros p l [<- <-]%lookup_singleton_Some. eexists. split; [apply lookup_singleton_eq|].
    constructor; simpl; try done.
    + intros k. rewrite lookup_empty, lookup_singleton_ne; [done|]. by destruct k.
    + intros k. rewrite lookup_empty. by destruct (HasSuffix k "*").
    + intros q k Hq. by destruct q.
    + intros q Hq. by destruct q.
  - intros l [n [<- _]%lookup_singleton_Some]. lia.
  - intros p m Hm. by rewrite lookup_empty in Hm.
  - set_solver.
Qed.

(** The three kinds of node after a child [v] was linked at location [c]
    under the node of [p]: the child, its parent, and every other node. *)
Lemma child_ok A S p l c v m tm :
  A !! p = Some l -> "" ∉ p -> (forall k, A !! (p ++ [v; k]) = None) ->
  (if decide (v = "") then tm = true /\ m = S !! p else tm = false) ->
  node_ok (<[p ++ [v] := c]> A) S (p ++ [v])
    (mkNode v (Z.of_nat (length p) + 1) tm ∅ ∅ (Some l) m).
Proof.
  intros Hp Hpc Hbelow Htm. constructor; simpl.
  - intros k. rewrite lookup_empty, lookup_insert_ne.
    + rewrite <- app_assoc. symmetry. apply Hbelow.
    + rewrite <- (app_nil_r (p ++ [v])) at 1. by intros ?%app_inv_head.
  - intros k. rewrite lookup_empty. by destruct (HasSuffix k "*").
  - intros q k [<- <-]%app_inj_tail. rewrite lookup_insert_ne; [done|].
    intros Heq%(f_equal length). rewrite length_app in Heq. simpl in Heq. lia.
  - by destruct p.
  - rewrite length_app. simpl. lia.
  - intros q [<- ->]%app_inj_tail. by rewrite decide_True in Htm.
  - intros Hin. destruct (decide (v = "")) as [->|]; [set_solver|done].
Qed.

Lemma parent_ok A S S' p c v n :
  node_ok A S p n -> "" ∉ p ->
  node_ok (<[p ++ [v] := c]> A) S' p
    (set_children n (<[v := c]> (children n))
       (if HasSuffix v "*" then <[v := c]> (wildcards n) else wildcards n)).
Proof.
  intros [Hc Hw Hpa Hr Hd Ht Hi] Hpc. constructor; simpl.
  - intros k. destruct (decide (k = v)) as [->|]; [by rewrite !lookup_insert_eq|].
    rewrite !lookup_insert_ne by (done || by intros [_ ?]%app_inj_tail). apply Hc.
  - intros k. destruct (decide (k = v)) as [->|].
    + rewrite lookup_insert_eq. destruct (HasSuffix v "*") eqn:Hs; [apply lookup_insert_eq|].
      by rewrite Hw, Hs.
    + rewrite lookup_insert_ne by done. destruct (HasSuffix v "*"); [|apply Hw].
      rewrite lookup_insert_ne by done. apply Hw.
  - intros q k ->. rewrite lookup_insert_ne; [by apply Hpa|].
    intros Heq%(f_equal length). rewrite !length_app in Heq. simpl in Heq. lia.
  - done.
  - done.
  - intros q ->. set_solver.
  - done.
Qed.

Lemma other_ok A S S' p q c v n :
  node_ok A S q n -> q <> p -> is_Some (A !! q) -> (forall k, A !! (p ++ [v; k]) = None) ->
  (v = "" \/ S' = S) -> (forall q, q <> p -> S' !! q = S !! q) -> q <> p ++ [v] ->
  node_ok (<[p ++ [v] := c]> A) S' q n.
Proof.
  intros [Hc Hw Hpa Hr Hd Ht Hi] Hqp [l Hq] Hbelow Hv HS Hqv.
  constructor; [|done| |done|done| |done].
  - intros k. rewrite Hc. symmetry. apply lookup_insert_ne. by intros [-> ->]%app_inj_tail.
  - intros q2 k ->. rewrite lookup_insert_ne; [by apply Hpa|].
    intros <-. rewrite <- app_assoc in Hq. simpl in Hq. by rewrite Hbelow in Hq.
  - intros q2 ->. destruct (Ht q2) as [? Hm]; [done|]. split; [done|]. rewrite Hm.
    destruct Hv as [->| ->]; [|done]. symmetry. apply HS. by intros ->.
Qed.

(** Adding one child [v] under the node of [p]. *)
Lemma NewChild_rep t A S x S' x' p l v m tm :
  Rep t A S x -> A !! p = Some l -> "" ∉ p -> "" ∉ x' ->
  (forall p m, S' !! p = Some m -> "" ∉ p) ->
  (forall q, has_node S' x' q <-> q = p ++ [v] \/ has_node S x q) ->
  (forall q, q <> p -> S' !! q = S !! q) ->
  ~ has_node S x (p ++ [v]) \/ v = "" ->
  (v = "" \/ S' = S) ->
  (if decide (v = "") then tm = true /\ m = S' !! p else tm = false) ->
  exists t', NewChild t l v m tm = Ret (next t, t') /\
    Rep t' (<[p ++ [v] := next t]> A) S' x' /\
    Meta t' (next t) = m /\ root t' = root t /\ size t' = size t.
Proof.
  intros HR Hp Hpc Hx' HS' Hdom HSne Hv HvS Htm.
  destruct (rep_node _ _ _ _ HR p l Hp) as (n & Hn & Hok).
  assert (forall q l', A !! q = Some l' -> l' <> next t) as Hfr.
  { intros q l' Hq ->. destruct (rep_node _ _ _ _ HR _ _ Hq) as (n' & Hn' & _).
    assert (next t < next t); [|lia]. eapply rep_fresh; eauto. }
  assert (forall k, A !! (p ++ [v; k]) = None) as Hbelow.
  { intros k. apply eq_None_not_Some. rewrite (rep_dom _ _ _ _ HR).
    apply has_node_below; [eapply rep_keys|eapply rep_branch|]; done. }
  unfold NewChild, deref. rewrite Hn. simpl. eexists. split; [done|].
  split; [|split; [|done]]; simpl.
  2: { unfold Meta. simpl. rewrite lookup_insert_ne by (by eapply Hfr).
       by rewrite lookup_insert_eq. }
  constructor; simpl.
  - rewrite lookup_insert_ne by (by destruct p). apply HR.
  - intros q1 q2 l' H1 H2.
    destruct (decide (q1 = p ++ [v])) as [->|]; destruct (decide (q2 = p ++ [v])) as [->|];
      simplify_map_eq; [done|by edestruct Hfr|by edestruct Hfr|by eapply (rep_inj _ _ _ _ HR)].
  - intros q. rewrite lookup_insert_is_Some', (rep_dom _ _ _ _ HR), Hdom. naive_solver.
  - intros q l' Hq. destruct (decide (q = p ++ [v])) as [->|Hqne];
      [rewrite lookup_insert_eq in Hq; simplify_eq|rewrite lookup_insert_ne in Hq by done].
    + rewrite lookup_insert_ne by (by eapply Hfr). rewrite lookup_insert_eq.
      eexists. split; [done|]. rewrite (ok_depth _ _ _ _ Hok). by apply child_ok.
    + destruct (decide (l' = l)) as [->|Hll].
      * assert (q = p) as -> by (by eapply (rep_inj _ _ _ _ HR)).
        rewrite lookup_insert_eq. eexists. split; [done|]. by eapply parent_ok.
      * rewrite !lookup_insert_ne by (done || by apply not_eq_sym; eapply Hfr).
        destruct (rep_node _ _ _ _ HR q l' Hq) as (n2 & Hn2 & Hok2).
        exists n2. split; [done|]. eapply other_ok; eauto. congruence.
  - intros l'. rewrite !lookup_insert_is_Some'.
    pose proof (rep_fresh _ _ _ _ HR l (ex_intro _ _ Hn)).
    intros [<-|[<-|Hl]]; [lia..|]. apply (rep_fresh _ _ _ _ HR) in Hl. lia.
  - done.
  - done.
Qed.
End representation.

(** ** [Add] inserts, [Find] walks *)
Section refinement.
Context {M : Type} `{RangeOrder}.
Implicit Types (t : Trie M) (S : gmap (list string) M) (A : gmap (list string) loc).
Implicit Types (p q x ks : list string).

Lemma prefix_snoc q p k : q `prefix_of` p ++ [k] <-> q = p ++ [k] \/ q `prefix_of` p.
Proof.
  split.
  - intros [r Hr]. destruct r as [|y r _] using rev_ind.
    + rewrite app_nil_r in Hr. by left.
    + rewrite app_assoc in Hr. apply app_inj_tail in Hr as [-> ->]. right. by exists r.
  - intros [->|[r ->]]; [done|]. exists (r ++ [k]). by rewrite app_assoc.
Qed.

Lemma Rep_extend_branch t A S p k :
  Rep t A S p -> is_Some (A !! (p ++ [k])) -> k <> "" -> Rep t A S (p ++ [k]).
Proof.
  intros [? ? Hdom ? ? ? Hb] Hk Hne. constructor; try done; [|set_solver].
  intros q. rewrite Hdom. unfold has_node. rewrite prefix_snoc.
  split; [tauto|]. intros [?|[[->|?]|?]]; [tauto| |tauto|tauto]. by apply Hdom.
Qed.

Lemma add_loop_rep ks t A S p l :
  Rep t A S p -> A !! p = Some l -> "" ∉ p -> "" ∉ ks ->
  exists l' t' A', add_loop t l ks = Ret (l', t') /\ Rep t' A' S (p ++ ks) /\
    A' !! (p ++ ks) = Some l' /\ root t' = root t /\ size t' = size t.
Proof.
  revert t A p l. induction ks as [|k ks IH]; intros t A p l HR Hp Hpc Hks.
  - exists l, t, A. by rewrite app_nil_r.
  - assert (k <> "" /\ "" ∉ ks) as [Hk Hks'] by set_solver.
    destruct (rep_node _ _ _ _ HR p l Hp) as (n & Hn & Hok).
    assert (p ++ k :: ks = (p ++ [k]) ++ ks) as -> by (by rewrite <- app_assoc).
    cbn [add_loop]. unfold deref. rewrite Hn. cbn [mbind res_bind].
    rewrite (ok_children _ _ _ _ Hok). destruct (A !! (p ++ [k])) as [c|] eqn:Hc.
    + apply (IH t A); [apply Rep_extend_branch; eauto|done|set_solver|done].
    + destruct (NewChild_rep t A S p S (p ++ [k]) p l k None false)
        as (t' & -> & HR' & _ & Hr & Hs); try done; [set_solver|by eapply rep_keys| | | | |].
      * intros q. unfold has_node. rewrite prefix_snoc. tauto.
      * left. rewrite <- (rep_dom _ _ _ _ HR). rewrite Hc. by intros [].
      * by right.
      * by rewrite decide_False.
      * simpl. destruct (IH t' (<[p ++ [k] := next t]> A) (p ++ [k]) (next t))
          as (l' & t2 & A2 & -> & ? & ? & ? & ?); [done|apply lookup_insert_eq|set_solver|done|].
        exists l', t2, A2. split_and!; congruence || done.
Qed.

Lemma has_node_close S ks m q :
  (forall p m, S !! p = Some m -> "" ∉ p) -> "" ∉ ks ->
  has_node (<[ks := m]> S) [] q <-> q = ks ++ [""] \/ has_node S ks q.
Proof.
  intros HS Hks. unfold has_node, Spec.present. split.
  - intros [[->|(r & m' & Hr & Hq)]|[->%prefix_nil_inv|(r & -> & Hr)]]; [tauto| |tauto|].
    + destruct (decide (r = ks)) as [->|]; simplify_map_eq; [tauto|]. right; left; right; eauto.
    + destruct (decide (r = ks)) as [->|]; simplify_map_eq; [tauto|]. right; right; right; eauto.
  - assert (forall r, is_Some (S !! r) -> is_Some (<[ks:=m]> S !! r)) as Hin.
    { intros r Hr. apply lookup_insert_is_Some'. by right. }
    intros [->|[[->|(r & m' & Hr & Hq)]|[Hq|(r & -> & Hr)]]].
    + right; right. exists ks. by rewrite lookup_insert_eq.
    + tauto.
    + left; right. destruct (Hin r) as [m2 Hm2]; eauto.
    + left; right. exists ks, m. by rewrite lookup_insert_eq.
    + right; right. exists r. eauto.
Qed.

(** [Add] inserts the key and returns the node holding its meta data. *)
Lemma Add_represents t S ks m :
  Represents t S -> "" ∉ ks ->
  exists l t', Add t ks m = Ret (l, t') /\ Represents t' (<[ks := m]> S) /\
    Meta t' l = Some m /\ (size t' = size t + 1)%Z.
Proof.
  intros [A HR] Hks. unfold Add.
  set (t0 := mkTrie (nodes t) (next t) (root t) (size t + 1)).
  assert (Rep t0 A S []) as HR0 by (destruct HR; by constructor).
  destruct (add_loop_rep ks t0 A S [] (root t)) as (l & t1 & A1 & Hl & HR1 & Hl1 & Hr & Hs);
    [done|apply HR|set_solver|done|].
  change (root t0) with (root t). rewrite Hl. simpl in *.
  assert (forall p m', <[ks := m]> S !! p = Some m' -> "" ∉ p) as Hclean.
  { intros p m' [[<- _]|[_ Hp]]%lookup_insert_Some; [done|by eapply rep_keys]. }
  destruct (NewChild_rep t1 A1 S ks (<[ks := m]> S) [] ks l "" (Some m) true)
    as (t2 & Ht2 & HR2 & Hm & _ & Hs2); try done.
  - set_solver.
  - intros q. apply has_node_close; [eapply rep_keys|]; done.
  - intros q Hq. by rewrite lookup_insert_ne.
  - by right.
  - by left.
  - by rewrite decide_True, lookup_insert_eq.
  - exists (next t1), t2. split_and!; [done|by eexists|done|]. rewrite Hs2, Hs. done.
Qed.

(** Populating a trie from a table: the last entry of a path wins. *)
Lemma populate_represents (tbl : list (list string * M)) :
  Forall (fun pt => "" ∉ pt.1) tbl ->
  exists t, populate tbl = Ret t /\
    Represents t (foldl (fun S pt => <[pt.1 := pt.2]> S) ∅ tbl) /\
    size t = Z.of_nat (length tbl).
Proof.
  intros Htbl. unfold populate.
  assert (forall t S, Represents t S -> exists t',
    foldM (fun t (pt : list string * M) => '(_, t) ← Add t pt.1 pt.2; Ret t) t tbl = Ret t' /\
    Represents t' (foldl (fun S (pt : list string * M) => <[pt.1 := pt.2]> S) S tbl) /\
    size t' = (size t + Z.of_nat (length tbl))%Z) as Hgen.
  { induction Htbl as [|[ks m] tbl Hks _ IH]; intros t S HR; simpl.
    - exists t. split_and!; [done..|lia].
    - destruct (Add_represents t S ks m HR Hks) as (l & t1 & -> & HR1 & _ & Hs1). simpl.
      destruct (IH t1 _ HR1) as (t2 & -> & HR2 & Hs2).
      exists t2. split_and!; [done..|lia]. }
  destruct (Hgen NewTrie ∅ NewTrie_represents) as (t & ? & ? & ?). by exists t.
Qed.

(** ** The wildcard choice *)

Lemma wild_match_Some key (wc : gmap string loc) c :
  wild_match key wc = Some c ->
  exists w, wc !! w = Some c /\ HasPrefix key (take_bytes (String.length w - 1) w) = true.
Proof.
  unfold wild_match. destruct (filter _ (range wc)) as [|[w c'] l] eqn:Hf; [done|].
  simpl. intros [= ->].
  assert ((w, c) ∈ (w, c) :: l) as Hin by left. rewrite <- Hf in Hin.
  apply list_elem_of_filter in Hin as [Hpre Hin]. simpl in Hpre.
  exists w. split; [by apply elem_of_range|]. by apply Is_true_true.
Qed.

Lemma wild_match_None key (wc : gmap string loc) w c :
  wild_match key wc = None -> wc !! w = Some c ->
  HasPrefix key (take_bytes (String.length w - 1) w) = false.
Proof.
  unfold wild_match. intros Hm Hw. apply not_true_iff_false. intros Hp.
  assert ((w, c) ∈ filter (fun vn => HasPrefix key (take_bytes (String.length vn.1 - 1) vn.1))
            (range wc)) as Hin.
  { apply list_elem_of_filter. split; [by apply Is_true_true|by apply elem_of_range]. }
  destruct (filter _ (range wc)); [by apply not_elem_of_nil in Hin|done].
Qed.

Lemma star_prefix (v : string) : take_bytes (String.length (v +:+ "*") - 1) (v +:+ "*") = v.
Proof. rewrite length_app_s. simpl. rewrite Nat.add_sub. apply take_bytes_app. Qed.

Lemma wild_match_iff t A S p l n w c :
  Rep t A S [] -> node_ok A S p n -> A !! p = Some l ->
  wildcards n !! w = Some c <-> A !! (p ++ [w]) = Some c /\ HasSuffix w "*" = true.
Proof.
  intros HR Hok Hp. rewrite (ok_wildcards _ _ _ _ Hok), (ok_children _ _ _ _ Hok).
  destruct (HasSuffix w "*"); naive_solver.
Qed.

Lemma child_iff t A S p k : Rep t A S [] -> Spec.child S p k <-> is_Some (A !! (p ++ [k])).
Proof. intros HR. by rewrite (rep_dom _ _ _ _ HR), has_node_child. Qed.

(** [findNode] walks as [Spec.walk] does and never panics. *)
Lemma findNode_walk ks t A S p l :
  Rep t A S [] -> A !! p = Some l ->
  (exists l' q, findNode t (Some l) ks = Ret (Some l') /\ Spec.walk S p ks q /\ A !! q = Some l') \/
  (findNode t (Some l) ks = Ret None /\ Spec.stuck S p ks).
Proof.
  intros HR. revert p l. induction ks as [|k ks IH]; intros p l Hp; simpl.
  - left. exists l, p. split_and!; [done|constructor|done].
  - destruct (rep_node _ _ _ _ HR p l Hp) as (n & Hn & Hok).
    unfold deref. rewrite Hn. cbn [mbind res_bind]. rewrite (ok_children _ _ _ _ Hok).
    destruct (A !! (p ++ [k])) as [c|] eqn:Hc.
    + assert (Spec.child S p k) as Hch by (apply (child_iff t A); eauto).
      destruct (IH (p ++ [k]) c Hc) as [(l' & q & ? & ? & ?)|[? ?]].
      * left. exists l', q. eauto using @Spec.walk_exact.
      * right. eauto using @Spec.stuck_exact.
    + assert (~ Spec.child S p k) as Hch.
      { rewrite (child_iff t A) by done. rewrite Hc. by intros []. }
      destruct (wild_match k (wildcards n)) as [c|] eqn:Hw.
      * apply wild_match_Some in Hw as (w & Hw & Hpre).
        apply (wild_match_iff t A S p l) in Hw as [Hwc [v ->]%HasSuffix_spec]; [|done..].
        rewrite star_prefix in Hpre.
        assert (Spec.wild S p k (v +:+ "*")) as Hwild.
        { split; [|eauto]. apply (child_iff t A); eauto. }
        destruct (IH (p ++ [v +:+ "*"]) c Hwc) as [(l' & q & ? & ? & ?)|[? ?]].
        -- left. exists l', q. eauto using @Spec.walk_wild.
        -- right. eauto using @Spec.stuck_wild.
      * right. split; [done|]. apply Spec.stuck_here; [done|].
        intros w [[c Hcw]%(child_iff t A) (v & -> & Hpre)]; [|done].
        assert (wildcards n !! (v +:+ "*") = Some c) as Hwc.
        { apply (wild_match_iff t A S p l); [done..|]. split; [done|apply HasSuffix_app]. }
        apply (wild_match_None _ _ _ _ Hw) in Hwc. rewrite star_prefix in Hwc. congruence.
Qed.

(** The result of [Find], in every order of iteration over the wildcards. *)
Lemma Find_walk t S ks :
  Represents t S ->
  (exists l q m, Find t ks = Ret (Some l) /\ Meta t l = Some m /\
     Spec.walk S [] ks q /\ S !! q = Some m) \/
  (Find t ks = Ret None /\
     (Spec.stuck S [] ks \/ exists q, Spec.walk S [] ks q /\ S !! q = None)).
Proof.
  intros [A HR]. unfold Find.
  destruct (findNode_walk ks t A S [] (root t)) as [(l & q & -> & Hw & Hq)|[-> Hs]];
    [done|apply HR| |]; cbn [mbind res_bind]; [|by right; eauto].
  destruct (rep_node _ _ _ _ HR q l Hq) as (n & Hn & Hok).
  unfold deref. rewrite Hn. cbn [mbind res_bind]. rewrite (ok_children _ _ _ _ Hok).
  destruct (A !! (q ++ [""])) as [c|] eqn:Hc.
  - assert (is_Some (S !! q)) as [m Hm].
    { assert (Spec.child S q "") as [Hp|[_ ?]] by (apply (child_iff t A); eauto); [|done].
      eapply present_clean in Hp; [set_solver|eapply rep_keys; done]. }
    destruct (rep_node _ _ _ _ HR _ c Hc) as (nc & Hnc & Hokc).
    destruct (ok_term _ _ _ _ Hokc q eq_refl) as [Ht Hmeta].
    rewrite Hnc. simpl. rewrite Ht. left. exists c, q, m.
    split_and!; [done| |done|done]. unfold Meta. rewrite Hnc. simpl. congruence.
  - right. split; [done|]. right. exists q. split; [done|].
    apply eq_None_not_Some. intros Hm.
    assert (Spec.child S q "") as Hch by (right; done).
    apply (child_iff t A) in Hch; [|done]. rewrite Hc in Hch. by destruct Hch.
Qed.
End refinement.

(** ** Tries without wildcards *)
Section literal.
Context {M : Type} `{RangeOrder}.

Lemma literal_walk_exact (S : gmap (list string) M) p ks q :
  (forall r m k, S !! r = Some m -> k ∈ r -> HasSuffix k "*" = false) ->
  Spec.walk S p ks q -> q = p ++ ks.
Proof.
  intros Hlit Hw. induction Hw as [p|p k ks q _ _ IH|p k w ks q _ [Hc (v & -> & _)] _ _].
  - by rewrite app_nil_r.
  - by rewrite IH, <- app_assoc.
  - destruct Hc as [[Hnil|(r & m & Hr & Hp)]|[He _]].
    + by apply app_eq_nil in Hnil as [_ ?].
    + assert (v +:+ "*" ∈ r) as Hin.
      { destruct Hp as [r' ->]. rewrite !elem_of_app, list_elem_of_singleton. auto. }
      pose proof (HasSuffix_app v "*") as Hs. by rewrite (Hlit r m _ Hr Hin) in Hs.
    + by destruct v.
Qed.

(** On such a trie [Find] is the lookup of the map. *)
Lemma Find_literal (t : Trie M) (S : gmap (list string) M) ks :
  Represents t S ->
  (forall r m k, S !! r = Some m -> k ∈ r -> HasSuffix k "*" = false) ->
  exists o, Find t ks = Ret o /\ o ≫= Meta t = S !! ks /\ forall l, o = Some l -> is_Some (Meta t l).
Proof.
  intros HR Hlit.
  destruct (Find_walk t S ks HR) as [(l & q & m & -> & Hm & Hw & Hq)|[-> Hno]].
  - apply literal_walk_exact in Hw as ->; [|done]. exists (Some l). simpl in *.
    split_and!; [done|congruence|]. intros l' [= <-]. by eexists.
  - exists None. split_and!; [done| |done]. symmetry. apply eq_None_not_Some. intros [m Hm].
    assert (Spec.present S ([] ++ ks)) as Hp by (right; by exists ks, m).
    destruct Hno as [Hs|(q & Hw & Hq)]; [by apply Spec.literal_not_stuck in Hs|].
    apply literal_walk_exact in Hw as ->; [|done]. simpl in Hq. congruence.
Qed.
End literal.

(** ** Theorems *)
Section theorems.
Context {M : Type} `{RangeOrder}.
Implicit Types (t : Trie M) (S : gmap (list string) M).

(** C7. [Find] refines the lookup of the abstract trie: it never panics, a
    node it returns carries the meta data of a key the greedy walk can
    reach, and when no key has two wildcards to choose from it returns nil
    only if the lookup has no result. *)
Theorem Find_refines t S ks :
  Represents t S ->
  exists o, Find t ks = Ret o /\
    match o with
    | Some l => exists m, Meta t l = Some m /\ Spec.lookup S ks m
    | None => Spec.unambiguous S -> forall m, ~ Spec.lookup S ks m
    end.
Proof.
  intros HR. destruct (Find_walk t S ks HR) as [(l & q & m & -> & ? & ? & ?)|[-> Hno]].
  - exists (Some l). split; [done|]. exists m. split; [done|]. by exists q.
  - exists None. split; [done|]. intros Hu m (q & Hw & Hq).
    destruct Hno as [Hs|(q' & Hw' & Hq')]; [by eapply Spec.stuck_no_walk|].
    rewrite (Spec.walk_functional S [] ks q' q) in Hq' by done. congruence.
Qed.

(** C20. Insert and look up: after [Add] of a path without empty components,
    [Find] of that path returns the meta data added, whatever wildcards the
    trie holds. *)
Theorem Add_Find t S ks m :
  Represents t S -> "" ∉ ks ->
  exists l t' l', Add t ks m = Ret (l, t') /\ Represents t' (<[ks := m]> S) /\
    Find t' ks = Ret (Some l') /\ Meta t' l' = Some m.
Proof.
  intros HR Hks. destruct (Add_represents t S ks m HR Hks) as (l & t' & -> & HR' & _ & _).
  assert (Spec.present (<[ks := m]> S) ([] ++ ks)) as Hp.
  { right. exists ks, m. split; [apply lookup_insert_eq|done]. }
  destruct (Find_walk t' _ ks HR') as [(l' & q & m' & Hf & Hm & Hw & Hq)|[_ Hno]].
  - apply Spec.literal_walk in Hw as ->; [|done]. simpl in Hq. simplify_map_eq.
    by exists l, t', l'.
  - destruct Hno as [Hs|(q & Hw & Hq)]; [by apply Spec.literal_not_stuck in Hs|].
    apply Spec.literal_walk in Hw as ->; [|done]. simpl in Hq. simplify_map_eq.
Qed.
End theorems.

(** ** Witnesses and examples *)
Section examples.
#[local] Existing Instance default_order.

Definition sample_table : list (list string * nat) :=
  [(["a"], 1); (["a"; "b*"], 2); (["c"; "*"], 3)].

Definition sample_trie : Trie nat :=
  match populate sample_table with Ret t => t | _ => NewTrie end.

Definition sample_spec : gmap (list string) nat :=
  foldl (fun S pt => <[pt.1 := pt.2]> S) ∅ sample_table.

Lemma sample_represents : Represents sample_trie sample_spec.
Proof.
  destruct (populate_represents sample_table) as (t & Ht & HR & _).
  - repeat constructor; set_solver.
  - unfold sample_trie. by rewrite Ht.
Qed.

Lemma Find_refines_witness :
  exists o, Find sample_trie ["a"; "bcd"] = Ret o /\
    match o with
    | Some l => exists m, Meta sample_trie l = Some m /\ Spec.lookup sample_spec ["a"; "bcd"] m
    | None => Spec.unambiguous sample_spec ->
              forall m, ~ Spec.lookup sample_spec ["a"; "bcd"] m
    end.
Proof. apply (Find_refines sample_trie sample_spec). apply sample_represents. Defined.

Lemma Add_Find_witness :
  exists l t' l', Add sample_trie ["c"; "d"] 4 = Ret (l, t') /\
    Represents t' (<[["c"; "d"] := 4]> sample_spec) /\
    Find t' ["c"; "d"] = Ret (Some l') /\ Meta t' l' = Some 4.
Proof.
  apply (Add_Find sample_trie sample_spec); [apply sample_represents|set_solver].
Defined.

(** [Remove] of a key that is the prefix of a longer key also removes the
    longer key. *)
Lemma Remove_drops_longer_key :
  (t ← populate sample_table; t ← Remove t ["a"]; o ← Find t ["a"; "bcd"]; Ret (o, size t))
  = Ret (None, 2%Z).
Proof. vm_compute. reflexivity. Qed.

(** [Remove] of the last key of a trie leaves it in place and only
    decrements the size. *)
Lemma Remove_keeps_only_key :
  (t ← populate [(["a"; "b"], 1)]; t ← Remove t ["a"; "b"];
   o ← Find t ["a"; "b"]; Ret (o ≫= Meta t, size t))
  = Ret (Some 1, 0%Z).
Proof. vm_compute. reflexivity. Qed.
End examples.
