(* ===== verification/TrieRemove.v ===== *)
(** * Removal from the path trie: [Remove] of [sonic_data_client/trie.go]

    What [Remove] does to the map a trie represents.  It unlinks the branch
    that leads to the key at the last node above it that has another child, so
    it takes with it whatever else is on that branch, and it takes nothing
    when there is no such node. *)

From stdpp Require Import base tactics list fin_maps gmap strings.
From Stdlib Require Import ZArith.
From S2P Require Import Prelude GoStrings Trie.

Local Open Scope string_scope.
Local Open Scope list_scope.

(** ** What is removed *)

Section spec.
Context {M : Type}.
Implicit Types (S : gmap (list string) M) (p ks : list string).

(** Two different ways to go on from [p]. *)
Definition branch S p : Prop := exists k k', k <> k' /\ Spec.child S p k /\ Spec.child S p k'.

(** The map without the keys that go on from [x]. *)
Definition without S (x : list string) : gmap (list string) M := filter (fun kv => ~ x `prefix_of` kv.1) S.

(** The map after [ks] was removed. *)
Inductive removed S ks : gmap (list string) M -> Prop :=
  | removed_branch j :
      j < length ks -> branch S (take j ks) -> (forall i, j < i < length ks -> ~ branch S (take i ks)) ->
      removed S ks (without S (take (Datatypes.S j) ks))
  | removed_nothing :
      (forall i, i < length ks -> ~ branch S (take i ks)) -> removed S ks S.

Lemma without_lookup S x q m : without S x !! q = Some m <-> S !! q = Some m /\ ~ x `prefix_of` q.
Proof. apply map_lookup_filter_Some. Qed.

Lemma without_some S x q : is_Some (without S x !! q) <-> is_Some (S !! q) /\ ~ x `prefix_of` q.
Proof.
  split.
  - intros [m [Hm Hx]%without_lookup]. by split; [exists m|].
  - intros [[m Hm] Hx]. exists m. by apply without_lookup.
Qed.
End spec.

(** ** Unlinking a branch *)

Section cut.
Context {M : Type}.
Implicit Types (t : Trie M) (S : gmap (list string) M) (A : gmap (list string) loc) (p q x : list string).

Lemma prefix_snoc_inv p k q : p `prefix_of` q ++ [k] -> p = q ++ [k] \/ p `prefix_of` q.
Proof. intros Hp. by apply prefix_snoc in Hp as [?|?]; auto. Qed.

(** A node that is not on the branch and not its parent stays as it is. *)
Lemma cut_other A S p k q n :
  node_ok A S q n -> ~ p ++ [k] `prefix_of` q -> q <> p ->
  node_ok (filter (fun kv => ~ p ++ [k] `prefix_of` kv.1) A) (without S (p ++ [k])) q n.
Proof.
  intros [Hc Hw Hpa Hr Hd Ht Hi] Hx Hne.
  assert (forall r, ~ p ++ [k] `prefix_of` r ->
    filter (fun kv : list string * loc => ~ p ++ [k] `prefix_of` kv.1) A !! r = A !! r) as Hsame.
  { intros r Hr'. rewrite map_lookup_filter. destruct (A !! r); [|done]. simpl. by rewrite option_guard_True. }
  split; [|done| |done|done| |done].
  - intros k'. rewrite Hc. symmetry. apply Hsame. intros [[-> ->]%app_inj_tail|?]%prefix_snoc_inv; done.
  - intros q' k' ->. destruct (Hpa q' k' eq_refl) as [-> ->]. split; [|done]. symmetry. apply Hsame.
    intros Hp. destruct Hx. transitivity q'; [done|by eexists].
  - intros q' ->. destruct (Ht q' eq_refl) as [-> ->]. split; [done|]. symmetry. unfold without.
    rewrite map_lookup_filter. destruct (S !! q'); [|done]. simpl. rewrite option_guard_True; [done|].
    intros Hp. destruct Hx. transitivity q'; [done|by eexists].
Qed.

(** The node that loses the child. *)
Lemma cut_parent A S p k n :
  node_ok A S p n -> "" ∉ p -> 
  node_ok (filter (fun kv => ~ p ++ [k] `prefix_of` kv.1) A) (without S (p ++ [k])) p (RemoveChild n k).
Proof.
  intros [Hc Hw Hpa Hr Hd Ht Hi] Hp.
  assert (RemoveChild n k = set_children n (delete k (children n)) (delete k (wildcards n))) as ->.
  { unfold RemoveChild. destruct (wildcards n !! k) eqn:E; [done|]. by rewrite (delete_id (wildcards n)). }
  split; simpl; [| | |done|done| |done].
  - intros k'. rewrite map_lookup_filter. destruct (decide (k' = k)) as [->|Hne].
    + rewrite lookup_delete_eq. destruct (A !! (p ++ [k])); [|done]. simpl. by rewrite option_guard_False by (intros Hx; by apply Hx).
    + rewrite lookup_delete_ne, Hc by done. destruct (A !! (p ++ [k'])); [|done]. simpl. rewrite option_guard_True; [done|].
      intros [[_ ->]%app_inj_tail|Hx]%prefix_snoc_inv; [done|]. apply prefix_length in Hx. rewrite length_app in Hx. simpl in Hx. lia.
  - intros k'. destruct (decide (k' = k)) as [->|Hne].
    + rewrite !lookup_delete_eq. by destruct (HasSuffix k "*").
    + by rewrite !lookup_delete_ne.
  - intros q k' ->. destruct (Hpa q k' eq_refl) as [-> ->]. split; [|done].
    rewrite map_lookup_filter. destruct (A !! q); [|done]. simpl. rewrite option_guard_True; [done|].
    intros Hx%prefix_length. rewrite !length_app in Hx. simpl in Hx. lia.
  - intros q ->. set_solver.
Qed.

(** The nodes that are left: the branch goes, and the node above it has
    another child. *)
Lemma cut_nodes S p k q :
  (forall r m, S !! r = Some m -> "" ∉ r) -> k <> "" -> branch S p ->
  has_node (without S (p ++ [k])) [] q <-> has_node S [] q /\ ~ p ++ [k] `prefix_of` q.
Proof.
  intros Hkeys Hk (k1 & k2 & Hne & Hc1 & Hc2). split.
  - intros [[->|(r & m & [Hr Hx]%without_lookup & Hq)]|[Hq|(r & -> & [Hr Hx]%without_some)]].
    + split; [left; by left|]. intros Hx%prefix_nil_inv. by destruct p.
    + split; [left; right; eauto|]. intros Hx'. destruct Hx. by transitivity q.
    + apply prefix_nil_inv in Hq as ->. split; [left; by left|]. intros Hx%prefix_nil_inv. by destruct p.
    + split; [right; right; eauto|]. intros [[_ ->]%app_inj_tail|?]%prefix_snoc_inv; done.
  - assert (exists k', k' <> k /\ Spec.child S p k') as (k' & Hk' & Hc).
    { destruct (decide (k1 = k)) as [->|]; [exists k2|exists k1]; auto. }
    intros [[[->|(r & m & Hr & Hq)]|[->%prefix_nil_inv|(r & -> & Hr)]] Hx]; [left; by left| |left; by left|].
    2: { right; right. exists r. split; [done|]. apply without_some. split; [done|]. intros Hx'. destruct Hx.
         transitivity r; [done|by eexists]. }
    left. destruct (decide (p ++ [k] `prefix_of` r)) as [Hpr|Hpr]; [|right; exists r, m; split; [by apply without_lookup|done]].
    assert (q `prefix_of` p) as Hqp.
    { destruct (prefix_weak_total q (p ++ [k]) r Hq Hpr) as [H1|H1]; [|done]. by apply prefix_snoc_inv in H1 as [->|]. }
    destruct Hc as [[Hnil|(r' & m' & Hr' & Hp)]|[-> [m' Hm']]]; [by destruct p| |].
    + right. exists r', m'. split; [apply without_lookup; split; [done|]|].
      * intros Hx'. destruct Hp as [u ->], Hx' as [v Hv]. rewrite <- !app_assoc in Hv. apply app_inv_head in Hv. by simplify_eq/=.
      * transitivity p; [done|]. transitivity (p ++ [k']); [by eexists|done].
    + right. exists p, m'. split; [apply without_lookup; split; [done|]|done].
      intros Hx'%prefix_length. rewrite length_app in Hx'. simpl in Hx'. lia.
Qed.

(** [Remove] at a node with another child. *)
Lemma cut_represents t A S p k l n sz :
  Rep t A S [] -> A !! p = Some l -> nodes t !! l = Some n -> k <> "" -> "" ∉ p -> branch S p ->
  Represents (mkTrie (<[l := RemoveChild n k]> (nodes t)) (next t) (root t) sz) (without S (p ++ [k])).
Proof.
  intros [Hroot Hinj Hdom Hnode Hfresh Hkeys _] Hp Hn Hk Hpe Hb.
  exists (filter (fun kv => ~ p ++ [k] `prefix_of` kv.1) A).
  assert (forall q l, filter (fun kv : list string * loc => ~ p ++ [k] `prefix_of` kv.1) A !! q = Some l <->
    A !! q = Some l /\ ~ p ++ [k] `prefix_of` q) as HA by (intros; apply map_lookup_filter_Some).
  split; simpl.
  - apply HA. split; [done|]. intros Hx%prefix_nil_inv. by destruct p.
  - intros q r l0 [H1 _]%HA [H2 _]%HA. by eapply Hinj.
  - intros q. rewrite cut_nodes, <- Hdom by done. split.
    + intros [l0 [? ?]%HA]. by split; [exists l0|].
    + intros [[l0 ?] ?]. exists l0. by apply HA.
  - intros q l0 [Hq Hx]%HA. destruct (decide (l0 = l)) as [->|Hne].
    + assert (q = p) as -> by by eapply Hinj. exists (RemoveChild n k). rewrite lookup_insert_eq. split; [done|].
      destruct (Hnode p l Hp) as (n' & Hn' & Hok). apply cut_parent; [|done]. congruence.
    + destruct (Hnode q l0 Hq) as (n' & Hn' & Hok). exists n'. rewrite lookup_insert_ne by done. split; [done|].
      apply cut_other; [done..|]. congruence.
  - intros l0 [n0 Hn0]. apply lookup_insert_Some in Hn0 as [[<- _]|[_ Hn0]]; apply Hfresh; eauto.
  - intros q m [Hq _]%without_lookup. by eapply Hkeys.
  - set_solver.
Qed.
End cut.

(** ** The walk up *)

Section walk_up.
Context {M : Type} `{RangeOrder}.
Implicit Types (t : Trie M) (S : gmap (list string) M) (A : gmap (list string) loc) (p ks rest : list string).

Lemma size_two {V} (m : gmap string V) : 1 < base.size m <-> exists k k', k <> k' /\ is_Some (m !! k) /\ is_Some (m !! k').
Proof.
  split.
  - intros Hs. destruct (map_choose m) as (k & v & Hk); [intros ->; rewrite map_size_empty in Hs; lia|].
    destruct (map_choose (delete k m)) as (k' & v' & Hk').
    { intros He. apply (f_equal base.size) in He. rewrite map_size_delete_Some, map_size_empty in He by eauto. lia. }
    apply lookup_delete_Some in Hk' as [Hne Hk']. exists k, k'. eauto.
  - intros (k & k' & Hne & Hk & [v' Hk']).
    assert (base.size (delete k m) = pred (base.size m)) as Hs by by apply map_size_delete_Some.
    assert (base.size (delete k m) <> 0) as Hn; [|lia].
    rewrite map_size_non_empty_iff. intros He.
    assert (delete k m !! k' = Some v') as Hd by by rewrite lookup_delete_ne. by rewrite He, lookup_empty in Hd.
Qed.

Lemma branch_size t A S p l n :
  Rep t A S [] -> A !! p = Some l -> nodes t !! l = Some n -> 1 < base.size (children n) <-> branch S p.
Proof.
  intros HR Hp Hn. destruct (rep_node _ _ _ _ HR p l Hp) as (n' & Hn' & Hok). assert (n' = n) as -> by congruence.
  assert (forall k, Spec.child S p k <-> is_Some (children n !! k)) as Hc.
  { intros k. by rewrite (child_iff t A), (ok_children _ _ _ _ Hok). }
  rewrite size_two. unfold branch. by setoid_rewrite Hc.
Qed.

(** There is a node for every prefix of a key, hence more locations than
    components: enough fuel for the walk. *)
Lemma prefix_node t A S ks m p rest :
  Rep t A S [] -> S !! ks = Some m -> ks = p ++ rest -> is_Some (A !! p).
Proof.
  intros HR Hm ->. apply (rep_dom _ _ _ _ HR). left. right. exists (p ++ rest), m. split; [done|by eexists].
Qed.

Lemma depth_next t A S ks m : Rep t A S [] -> S !! ks = Some m -> length ks < next t.
Proof.
  intros HR Hm.
  assert (forall i, exists l, A !! take i ks = Some l /\ l < next t) as Hl.
  { intros i. destruct (prefix_node t A S ks m (take i ks) (drop i ks) HR Hm) as [l Hl]; [by rewrite take_drop|].
    exists l. split; [done|]. apply (rep_fresh _ _ _ _ HR). destruct (rep_node _ _ _ _ HR _ _ Hl) as (n & ? & _). by exists n. }
  set (f := fun i => default 0 (A !! take i ks)).
  assert (NoDup (f <$> seq 0 (Datatypes.S (length ks)))) as Hnd.
  { apply NoDup_fmap_2_strong; [|apply NoDup_seq]. intros i j Hi%elem_of_seq Hj%elem_of_seq Hf.
    destruct (Hl i) as (li & Ei & _), (Hl j) as (lj & Ej & _). unfold f in Hf. rewrite Ei, Ej in Hf. simpl in Hf. subst lj.
    pose proof (rep_inj _ _ _ _ HR _ _ _ Ei Ej) as E%(f_equal length). rewrite !length_take in E. lia. }
  assert (f <$> seq 0 (Datatypes.S (length ks)) ⊆+ seq 0 (next t)) as Hsub.
  { apply NoDup_submseteq; [done|]. intros x (i & -> & _)%list_elem_of_fmap. apply elem_of_seq.
    destruct (Hl i) as (li & Ei & ?). unfold f. rewrite Ei. simpl. lia. }
  apply submseteq_length in Hsub. rewrite length_fmap, !length_seq in Hsub. lia.
Qed.

(** A step of the walk at a node with another child. *)
Lemma step_cut t A S ks m p k rest l n fuel :
  Rep t A S [] -> S !! ks = Some m -> ks = p ++ k :: rest -> A !! p = Some l -> nodes t !! l = Some n ->
  1 < base.size (children n) -> (forall i, length p < i < length ks -> ~ branch S (take i ks)) ->
  exists t', remove_loop fuel t ks (length rest) (Some l) = Ret t' /\ size t' = size t /\
    removed S ks (without S (p ++ [k])) /\ Represents t' (without S (p ++ [k])).
Proof.
  intros HR Hm Hks Hl Hn Hsz Hno. pose proof Hsz as Hb. apply (branch_size t A S p l n HR Hl Hn) in Hb.
  pose proof (rep_keys _ _ _ _ HR _ _ Hm) as He. rewrite Hks in He.
  exists (set_nodes t (<[l := RemoveChild n k]> (nodes t)) (next t)). split_and!.
  - assert (ks !! (length ks - Datatypes.S (length rest)) = Some k) as Hk.
    { rewrite Hks. apply list_lookup_middle. rewrite length_app. simpl. lia. }
    destruct fuel; cbn [remove_loop]; unfold deref; rewrite Hn; cbn [mbind res_bind];
      (rewrite !decide_True; [|rewrite Hks, length_app; simpl; lia|done]); by rewrite Hk.
  - done.
  - assert (take (length p) ks = p) as Ep by (rewrite Hks; apply take_app_length).
    assert (take (Datatypes.S (length p)) ks = p ++ [k]) as Ek.
    { rewrite Hks, cons_middle, app_assoc. apply take_app_length'. rewrite length_app. simpl. lia. }
    rewrite <- Ek. apply removed_branch; [rewrite Hks, length_app; simpl; lia|by rewrite Ep|done].
  - eapply cut_represents; [done..|set_solver|set_solver|done].
Qed.

Lemma remove_loop_spec t A S ks m p : Rep t A S [] -> S !! ks = Some m -> forall k rest fuel l,
  ks = p ++ k :: rest -> A !! p = Some l -> length p < fuel ->
  (forall i, length p < i < length ks -> ~ branch S (take i ks)) ->
  exists t' S', remove_loop fuel t ks (length rest) (Some l) = Ret t' /\ size t' = size t /\
    removed S ks S' /\ Represents t' S'.
Proof.
  intros HR Hm. induction p as [|k0 p IH] using rev_ind; intros k rest fuel l Hks Hl Hfuel Hno.
  all: destruct (rep_node _ _ _ _ HR _ _ Hl) as (n & Hn & Hok).
  all: destruct (decide (1 < base.size (children n))) as [Hsz|Hsz].
  all: try (destruct (step_cut t A S ks m _ k rest l n fuel HR Hm Hks Hl Hn Hsz Hno) as (t' & E); eauto).
  all: destruct fuel as [|fuel]; [lia|]; cbn [remove_loop]; unfold deref; rewrite Hn; cbn [mbind res_bind];
    rewrite decide_False by done; rewrite (branch_size t A S _ l n) in Hsz by done.
  - rewrite (ok_root _ _ _ _ Hok) by done. exists t, S. split_and!; [by destruct fuel|done| |by exists A].
    apply removed_nothing. intros i Hi. destruct i as [|i]; [done|]. apply Hno. simpl. lia.
  - destruct (ok_parent _ _ _ _ Hok p k0 eq_refl) as [-> _].
    assert (ks = p ++ k0 :: k :: rest) as Hks' by by rewrite Hks, <- app_assoc.
    destruct (prefix_node t A S ks m p (k0 :: k :: rest) HR Hm Hks') as [l' Hl'].
    rewrite Hl'. rewrite length_app in Hfuel, Hno. simpl in Hfuel, Hno.
    apply (IH k0 (k :: rest)); [done|done|lia|].
    intros i Hi. destruct (decide (i = length p + 1)) as [->|]; [|apply Hno; lia].
    by rewrite Hks, take_app_length' by (rewrite length_app; simpl; lia).
Qed.
End walk_up.

(** C21. Removal: of a key that is there, [Remove] returns, without panic and
    without a loop that does not end.  It unlinks the branch of the key at the
    last node above its own that has two ways to go on, so that the trie then
    represents the map without all keys that go that way; without such a node
    it represents the same map.  The size is one less in every case. *)
Theorem Remove_refines {M : Type} `{RangeOrder} (t : Trie M) (S : gmap (list string) M) (ks : list string) (m : M) :
  Represents t S -> S !! ks = Some m ->
  exists t' S', Remove t ks = Ret t' /\ size t' = (size t - 1)%Z /\ removed S ks S' /\ Represents t' S'.
Proof.
  intros [A HR] Hm. unfold Remove.
  destruct (findNode_walk ks t A S [] (root t) HR (rep_root _ _ _ _ HR)) as [(l & q & -> & Hw & Hq)|[_ Hs]].
  2: { destruct (Spec.literal_not_stuck S [] ks) as []; [|done]. right. exists ks, m. done. }
  apply Spec.literal_walk in Hw as ->; [|right; by exists ks, m]. simpl in Hq. cbn [mbind res_bind].
  set (t1 := mkTrie (nodes t) (next t) (root t) (size t - 1)).
  assert (Rep t1 A S []) as HR1 by by destruct HR.
  destruct (rep_node _ _ _ _ HR1 _ _ Hq) as (n & Hn & Hok). unfold deref. rewrite Hn. cbn [mbind res_bind].
  pose proof (depth_next t1 A S ks m HR1 Hm) as Hnext.
  destruct ks as [|k ks _] using rev_ind.
  - rewrite (ok_root _ _ _ _ Hok) by done. exists t1, S. split_and!; [by destruct (next t1)|done| |by exists A].
    apply removed_nothing. simpl. lia.
  - destruct (ok_parent _ _ _ _ Hok ks k eq_refl) as [-> _].
    destruct (prefix_node t1 A S (ks ++ [k]) m ks [k] HR1 Hm eq_refl) as [l' Hl']. rewrite Hl'.
    rewrite length_app in Hnext. simpl in Hnext.
    destruct (remove_loop_spec t1 A S (ks ++ [k]) m ks HR1 Hm k [] (next t1) l') as (t' & S' & E & Hsz & Hrm & Hrep);
      [done..|unfold t1 in *; simpl in *; lia| |by exists t', S'].
    intros i. rewrite length_app. simpl. lia.
Qed.

(** The branch of a sample: removing ["a"; "b*"] leaves ["a"]. *)
Lemma Remove_refines_witness :
  let _ := default_order in
  exists t' S', Remove sample_trie ["a"; "b*"] = Ret t' /\ removed sample_spec ["a"; "b*"] S' /\ Represents t' S'.
Proof.
  intros ord.   destruct (Remove_refines sample_trie sample_spec ["a"; "b*"] 2 sample_represents ltac:(vm_compute; reflexivity))
    as (t' & S' & E & _ & Hr & Hrep).
  exists t', S'. split_and!; [exact E|exact Hr|exact Hrep].
Defined.
