(* ===== verification/VirtualDb.v ===== *)
(** * Virtual paths: [sonic_data_client/virtual_db.go]

    The package-level maps are the record [vstate]; [initAliasMap] and its
    siblings fill them from redis once ([SE vstate]: what they leave behind
    is kept when they fail).  The four translators turn a virtual path over
    front-panel port names into real table paths; [lookupV2R] chooses the
    translator with the trie of [Trie.v].  The theorems: which translator
    answers which path, what each returns in every map order, and where the
    alias maps come from. *)

From stdpp Require Import base tactics list fin_maps gmap strings pretty.
From Stdlib Require Import ZArith Ascii Lia.
From S2P Require Import Prelude GoStrings Messages DbConfig RedisDb Trie.

Local Open Scope string_scope.
Local Open Scope list_scope.

(** Indices of a path slice. *)
Definition DbIdx : nat := 0.
Definition TblIdx : nat := 1.
Definition KeyIdx : nat := 2.
Definition FieldIdx : nat := 3.

Record vstate := {
  countersPortNameMap : hash;
  countersQueueNameMap : hash;
  alias2nameMap : hash;
  name2aliasMap : hash;
  port2namespaceMap : hash;
  countersPfcwdNameMap : gmap string hash;
}.

Definition empty_vstate : vstate := {|
  countersPortNameMap := ∅; countersQueueNameMap := ∅; alias2nameMap := ∅;
  name2aliasMap := ∅; port2namespaceMap := ∅; countersPfcwdNameMap := ∅ |}.

(** [paths[i]]. *)
Definition nth_path (paths : list string) (i : nat) : res string :=
  match paths !! i with Some x => Ret x | None => Panic IndexOutOfRange end.

(** [x[n:]] of the loops below panics on a short key. *)
Section Maps.
Context `{RangeOrder} (g : dbconf) (T : clients).

(** [addmap]: later entries win. *)
Definition addmap (a b : hash) : hash := foldl (fun a kv => <[kv.1 := kv.2]> a) a (range b).

Definition getCountersMap (tblName : string) : res hash :=
  foldM (fun counter_map '(_, redisDb) =>
    fv ← call redisDb (fun r => HGetAll r tblName);
    Ret (addmap counter_map fv)) ∅ (range (GetRedisClientsForDb g T "COUNTERS_DB")).

(** The three maps [getAliasMap] builds: alias to name, name to alias, name
    to namespace. *)
Record aliases := { a2n : hash; n2a : hash; p2ns : hash }.

Definition alias_key (redisDb : option redis) (namespace : string) (m : aliases) (key : string) :
    res aliases :=
  alias ← call redisDb (fun r => HGet r key "alias");
  name ← slice_from 5 key;
  Ret {| a2n := <[alias := name]> (a2n m); n2a := <[name := alias]> (n2a m);
         p2ns := <[name := namespace]> (p2ns m) |}.

Definition alias_namespace (m : aliases) (e : string * option redis) : res aliases :=
  let '(namespace, redisDb) := e in
  separator ← or_zero "" (GetTableKeySeparator g "CONFIG_DB" namespace);
  _ ← call redisDb Ping;
  resp ← call redisDb (fun r => Keys r (Sprintf "PORT%v*" [separator]));
  foldM (alias_key redisDb namespace) m resp.

Definition getAliasMap : res aliases :=
  foldM alias_namespace {| a2n := ∅; n2a := ∅; p2ns := ∅ |}
    (range (GetRedisClientsForDb g T "CONFIG_DB")).

(** The queues of one port: [pfcwdName_map[port][queue_key] = oid]. *)
Definition pfcwd_queue (queueMap : hash) (queue_separator port : string)
    (m : gmap string hash) (indice : string) : res (gmap string hash) :=
  let queue_key := port +:+ queue_separator +:+ indice in
  match queueMap !! queue_key with
  | None => Fail (Errorf "key %v not exists in COUNTERS_QUEUE_NAME_MAP" [queue_key])
  | Some oid => Ret (<[port := <[queue_key := oid]> (default ∅ (m !! port))]> m)
  end.

(** One namespace; [None] is the early [return nil, nil]. *)
Definition pfcwd_namespace (queueMap : hash) (m : gmap string hash) (e : string * option redis) :
    res (option (gmap string hash)) :=
  let '(namespace, redisDb) := e in
  separator ← or_zero "" (GetTableKeySeparator g "CONFIG_DB" namespace);
  _ ← call redisDb Ping;
  resp ← call redisDb (fun r => Keys r (Sprintf "PFC_WD_TABLE%v*" [separator]));
  if decide (resp = []) then Ret None else
  m ← foldM (fun m key => name ← slice_from 13 key; Ret (<[name := ∅]> m)) m resp;
  resp ← call redisDb (fun r => Keys r "PORT_QOS_MAP*");
  match resp with
  | [] => Ret None
  | qos_key :: _ =>
      priorities ← call redisDb (fun r => HGet r qos_key "pfc_enable");
      pfc_queue_map ← call redisDb (fun r =>
        HGetAll r (Sprintf "MAP_PFC_PRIORITY_TO_QUEUE%vAZURE" [separator]));
      let indices := omap (fun p => pfc_queue_map !! p) (Split priorities ",") in
      if decide (queueMap = ∅) then Ret None else
      queue_separator ← or_zero "" (GetTableKeySeparator g "COUNTERS_DB" namespace);
      m ← foldM (fun m port => foldM (pfcwd_queue queueMap queue_separator port) m indices)
            m (range m).*1;
      Ret (Some m)
  end.

Fixpoint pfcwd_loop (queueMap : hash) (m : gmap string hash) (l : list (string * option redis)) :
    res (gmap string hash) :=
  match l with
  | [] => Ret m
  | e :: l =>
      o ← pfcwd_namespace queueMap m e;
      match o with
      | Some m => pfcwd_loop queueMap m l
      | None => Ret ∅
      end
  end.

Definition getPfcwdMap (queueMap : hash) : res (gmap string hash) :=
  pfcwd_loop queueMap ∅ (range (GetRedisClientsForDb g T "CONFIG_DB")).

(** ** The init functions: read once, then keep the maps.  A failed read
    assigns nil. *)

Definition initCountersQueueNameMap : SE vstate unit := fun s =>
  if decide (countersQueueNameMap s = ∅) then
    let r := getCountersMap "COUNTERS_QUEUE_NAME_MAP" in
    ({| countersPortNameMap := countersPortNameMap s;
        countersQueueNameMap := match r with Ret m => m | _ => ∅ end;
        alias2nameMap := alias2nameMap s; name2aliasMap := name2aliasMap s;
        port2namespaceMap := port2namespaceMap s;
        countersPfcwdNameMap := countersPfcwdNameMap s |}, (fun _ => tt) <$> r)
  else (s, Ret tt).

Definition initCountersPortNameMap : SE vstate unit := fun s =>
  if decide (countersPortNameMap s = ∅) then
    let r := getCountersMap "COUNTERS_PORT_NAME_MAP" in
    ({| countersPortNameMap := match r with Ret m => m | _ => ∅ end;
        countersQueueNameMap := countersQueueNameMap s;
        alias2nameMap := alias2nameMap s; name2aliasMap := name2aliasMap s;
        port2namespaceMap := port2namespaceMap s;
        countersPfcwdNameMap := countersPfcwdNameMap s |}, (fun _ => tt) <$> r)
  else (s, Ret tt).

Definition initAliasMap : SE vstate unit := fun s =>
  if decide (alias2nameMap s = ∅) then
    let r := getAliasMap in
    let m := match r with Ret m => m | _ => {| a2n := ∅; n2a := ∅; p2ns := ∅ |} end in
    ({| countersPortNameMap := countersPortNameMap s;
        countersQueueNameMap := countersQueueNameMap s;
        alias2nameMap := a2n m; name2aliasMap := n2a m; port2namespaceMap := p2ns m;
        countersPfcwdNameMap := countersPfcwdNameMap s |}, (fun _ => tt) <$> r)
  else (s, Ret tt).

Definition initCountersPfcwdNameMap : SE vstate unit := fun s =>
  if decide (countersPfcwdNameMap s = ∅) then
    let r := getPfcwdMap (countersQueueNameMap s) in
    ({| countersPortNameMap := countersPortNameMap s;
        countersQueueNameMap := countersQueueNameMap s;
        alias2nameMap := alias2nameMap s; name2aliasMap := name2aliasMap s;
        port2namespaceMap := port2namespaceMap s;
        countersPfcwdNameMap := match r with Ret m => m | _ => ∅ end |}, (fun _ => tt) <$> r)
  else (s, Ret tt).

(** What [populateDbtablePath] runs for a COUNTERS_DB target. *)
Definition initCountersMaps : SE vstate unit :=
  initCountersPortNameMap ≫= fun _ => initCountersQueueNameMap ≫= fun _ =>
  initAliasMap ≫= fun _ => initCountersPfcwdNameMap.
End Maps.

(** ** The translators *)
Section Translate.
Context `{RangeOrder} (g : dbconf) (s : vstate).

(** The vendor alias of a port, or its name. *)
Definition vendor_name (name : string) : string := default name (name2aliasMap s !! name).

(** The SONiC name of an alias, or the text itself. *)
Definition sonic_name (alias : string) : string := default alias (alias2nameMap s !! alias).

Definition namespace_of (port : string) : res string :=
  match port2namespaceMap s !! port with
  | Some ns => Ret ns
  | None => Fail (Errorf "%v does not have namespace associated" [port])
  end.

Definition mk_path (ns db tbl key sep fld jkey jfld : string) : tablePath := {|
  dbNamespace := ns; dbName := db; tableName := tbl; tableKey := key; delimitor := sep;
  field := fld; jsonTableName := ""; jsonTableKey := jkey; jsonDelimitor := ""; jsonField := jfld |}.

Definition v2rEthPortStats (paths : list string) : res (list tablePath) :=
  key ← nth_path paths KeyIdx;
  db ← nth_path paths DbIdx;
  tbl ← nth_path paths TblIdx;
  if HasSuffix key "*" then
    collectM (fun '(port, oid) =>
      let oport := vendor_name port in
      namespace ← namespace_of port;
      separator ← or_zero "" (GetTableKeySeparator g db namespace);
      Ret [mk_path namespace db tbl oid separator "" oport ""])
      (range (countersPortNameMap s))
  else
    let alias := key in
    let name := sonic_name alias in
    match countersPortNameMap s !! name with
    | None => Fail (Errorf "%v not a valid sonic interface. Vendor alias is %v" [name; alias])
    | Some oid =>
        namespace ← namespace_of name;
        separator ← or_zero "" (GetTableKeySeparator g db namespace);
        Ret [mk_path namespace db tbl oid separator "" "" ""]
    end.

Definition v2rEthPortFieldStats (paths : list string) : res (list tablePath) :=
  key ← nth_path paths KeyIdx;
  db ← nth_path paths DbIdx;
  tbl ← nth_path paths TblIdx;
  if HasSuffix key "*" then
    collectM (fun '(port, oid) =>
      let oport := vendor_name port in
      namespace ← namespace_of port;
      separator ← or_zero "" (GetTableKeySeparator g db namespace);
      fld ← nth_path paths FieldIdx;
      Ret [mk_path namespace db tbl oid separator fld oport fld])
      (range (countersPortNameMap s))
  else
    let alias := key in
    let name := sonic_name alias in
    match countersPortNameMap s !! name with
    | None => Fail (Errorf " %v not a valid sonic interface. Vendor alias is %v " [name; alias])
    | Some oid =>
        namespace ← namespace_of name;
        separator ← or_zero "" (GetTableKeySeparator g db namespace);
        fld ← nth_path paths FieldIdx;
        Ret [mk_path namespace db tbl oid separator fld "" ""]
    end.

(** [names[1]] of the split queue name, joined to the name to print. *)
Definition queue_name (oname : string) (names : list string) (separator : string) : res string :=
  q ← nth_path names 1; Ret (Join [oname; q] separator).

Definition v2rEthPortPfcwdStats (paths : list string) : res (list tablePath) :=
  key ← nth_path paths KeyIdx;
  db ← nth_path paths DbIdx;
  tbl ← nth_path paths TblIdx;
  if HasSuffix key "*" then
    collectM (fun '(port, pfcqueues) =>
      namespace ← namespace_of port;
      separator ← or_zero "" (GetTableKeySeparator g db namespace);
      collectM (fun '(pfcque, oid) =>
        let names := Split pfcque separator in
        name0 ← nth_path names 0;
        que ← queue_name (vendor_name name0) names separator;
        Ret [mk_path namespace db tbl oid separator "" que ""])
        (range pfcqueues)) (range (countersPfcwdNameMap s))
  else
    let alias := key in
    let name := sonic_name alias in
    namespace ← namespace_of name;
    match countersPortNameMap s !! name with
    | None => Fail (Errorf "%v not a valid SONiC interface. Vendor alias is %v" [name; alias])
    | Some _ =>
        separator ← or_zero "" (GetTableKeySeparator g db namespace);
        match countersPfcwdNameMap s !! name with
        | None => Ret []
        | Some pfcqueues =>
            collectM (fun '(pfcque, oid) =>
              let names := Split pfcque separator in
              que ← queue_name alias names separator;
              Ret [mk_path namespace db tbl oid separator "" que ""]) (range pfcqueues)
        end
    end.

Definition v2rEthPortQueStats (paths : list string) : res (list tablePath) :=
  db ← nth_path paths DbIdx;
  separator ← or_zero "" (GetTableKeySeparator g db "");
  key ← nth_path paths KeyIdx;
  tbl ← nth_path paths TblIdx;
  if HasSuffix key "*" then
    collectM (fun '(que, oid) =>
      let names := Split que separator in
      name0 ← nth_path names 0;
      let oname := vendor_name name0 in
      namespace ← namespace_of name0;
      que ← queue_name oname names separator;
      Ret [mk_path namespace db tbl oid separator "" que ""])
      (range (countersQueueNameMap s))
  else
    let alias := key in
    let name := sonic_name alias in
    namespace ← namespace_of name;
    collectM (fun '(que, oid) =>
      let names := Split que separator in
      name0 ← nth_path names 0;
      if decide (name <> name0) then Ret []
      else que ← queue_name alias names separator;
           Ret [mk_path namespace db tbl oid separator "" que ""])
      (range (countersQueueNameMap s)).

(** ** The translation table *)

Inductive v2rTranslate := EthPortStats | EthPortFieldStats | EthPortQueStats | EthPortPfcwdStats.

Definition run_translate (f : v2rTranslate) : list string -> res (list tablePath) :=
  match f with
  | EthPortStats => v2rEthPortStats
  | EthPortFieldStats => v2rEthPortFieldStats
  | EthPortQueStats => v2rEthPortQueStats
  | EthPortPfcwdStats => v2rEthPortPfcwdStats
  end.
End Translate.

Definition pathTransFuncTbl : list (list string * v2rTranslate) :=
  [(["COUNTERS_DB"; "COUNTERS"; "Ethernet*"], EthPortStats);
   (["COUNTERS_DB"; "COUNTERS"; "Ethernet*"; "*"], EthPortFieldStats);
   (["COUNTERS_DB"; "COUNTERS"; "Ethernet*"; "Queues"], EthPortQueStats);
   (["COUNTERS_DB"; "COUNTERS"; "Ethernet*"; "Pfcwd"], EthPortPfcwdStats)].

(** [v2rTriePopulate] on a new trie, as [init] does. *)
Definition v2rTriePopulate : res (Trie v2rTranslate) := populate pathTransFuncTbl.

Definition v2rTrie : Trie v2rTranslate :=
  match v2rTriePopulate with Ret t => t | _ => NewTrie end.

Definition lookupV2R `{RangeOrder} (g : dbconf) (s : vstate) (paths : list string) :
    res (list tablePath) :=
  o ← Find v2rTrie paths;
  match o with
  | Some l =>
      match Meta v2rTrie l with
      | Some f => run_translate g s f paths
      | None => Panic TypeAssertion
      end
  | None => Fail (Errorf "%v not found in virtual path tree" [show_list paths])
  end.

(** ** Which translator answers which path *)

Lemma range_singleton `{RangeOrder} {V} (k : string) (v : V) :
  range ({[k := v]} : gmap string V) = [(k, v)].
Proof.
  apply Permutation_singleton_r. rewrite range_perm. by rewrite map_to_list_singleton.
Qed.

Section Dispatch.
Context `{RangeOrder}.

Definition vnode (v : string) (d : Z) (tm : bool) (wc ch : list (string * nat))
    (p : option nat) (m : option v2rTranslate) : Node v2rTranslate :=
  mkNode v d tm (list_to_map wc) (list_to_map ch) p m.

(** The nodes of the populated trie. *)
Lemma v2rTrie_nodes :
  nodes v2rTrie !! 0 = Some (vnode "" 0 false [] [("COUNTERS_DB", 1)] None None) /\
  nodes v2rTrie !! 1 = Some (vnode "COUNTERS_DB" 1 false [] [("COUNTERS", 2)] (Some 0) None) /\
  nodes v2rTrie !! 2 = Some (vnode "COUNTERS" 2 false [("Ethernet*", 3)] [("Ethernet*", 3)] (Some 1) None) /\
  nodes v2rTrie !! 3 = Some (vnode "Ethernet*" 3 false [("*", 5)]
    [("", 4); ("*", 5); ("Queues", 7); ("Pfcwd", 9)] (Some 2) None) /\
  nodes v2rTrie !! 4 = Some (vnode "" 4 true [] [] (Some 3) (Some EthPortStats)) /\
  nodes v2rTrie !! 5 = Some (vnode "*" 4 false [] [("", 6)] (Some 3) None) /\
  nodes v2rTrie !! 6 = Some (vnode "" 5 true [] [] (Some 5) (Some EthPortFieldStats)) /\
  nodes v2rTrie !! 7 = Some (vnode "Queues" 4 false [] [("", 8)] (Some 3) None) /\
  nodes v2rTrie !! 8 = Some (vnode "" 5 true [] [] (Some 7) (Some EthPortQueStats)) /\
  nodes v2rTrie !! 9 = Some (vnode "Pfcwd" 4 false [] [("", 10)] (Some 3) None) /\
  nodes v2rTrie !! 10 = Some (vnode "" 5 true [] [] (Some 9) (Some EthPortPfcwdStats)).
Proof. vm_compute. repeat split. Qed.

#[local] Opaque v2rTrie.
#[local] Arguments HasPrefix : simpl never.

(** The translator of a path. *)
Definition field_translator (f : string) : option v2rTranslate :=
  if decide (f = "") then None
  else if decide (f = "Queues") then Some EthPortQueStats
  else if decide (f = "Pfcwd") then Some EthPortPfcwdStats
  else Some EthPortFieldStats.

Definition translator (paths : list string) : option v2rTranslate :=
  match paths with
  | db :: tbl :: key :: rest =>
      if decide (db = "COUNTERS_DB" /\ tbl = "COUNTERS" /\ HasPrefix key "Ethernet" = true)
      then match rest with
           | [] => Some EthPortStats
           | [f] => field_translator f
           | _ => None
           end
      else None
  | _ => None
  end.

Lemma wild_match_single key w (c : nat) :
  wild_match key (list_to_map [(w, c)]) =
  if HasPrefix key (take_bytes (String.length w - 1) w) then Some c else None.
Proof.
  unfold wild_match. simpl. rewrite insert_empty, range_singleton. simpl.
  rewrite filter_cons. simpl. by destruct (HasPrefix _ _).
Qed.

Lemma wild_match_none key : wild_match key (list_to_map []) = None.
Proof. unfold wild_match. simpl. by rewrite range_empty. Qed.

(** A leaf node only has its terminal child, and a terminal node none. *)
Lemma findNode_deep (tr : Trie v2rTranslate) i n rest :
  nodes tr !! i = Some n -> wildcards n = list_to_map [] -> children n = list_to_map [] ->
  findNode tr (Some i) rest = Ret (if rest is [] then Some i else None).
Proof.
  intros Hn Hw Hc. destruct rest as [|k rest]; simpl; [done|].
  unfold deref. rewrite Hn. simpl. rewrite Hw, Hc. simpl. rewrite lookup_empty.
  by rewrite wild_match_none.
Qed.

Lemma findNode_leaf (tr : Trie v2rTranslate) i t nt n rest :
  nodes tr !! i = Some n -> wildcards n = list_to_map [] ->
  children n = list_to_map [("", t)] ->
  nodes tr !! t = Some nt -> wildcards nt = list_to_map [] -> children nt = list_to_map [] ->
  findNode tr (Some i) rest =
  Ret (match rest with [] => Some i | [""] => Some t | _ => None end).
Proof.
  intros Hn Hw Hc Ht Htw Htc. destruct rest as [|k rest]; simpl; [done|].
  unfold deref. rewrite Hn. simpl. rewrite Hw, Hc. simpl.
  destruct (decide (k = "")) as [->|Hk].
  - rewrite lookup_insert_eq, (findNode_deep tr t nt) by done. by destruct rest.
  - rewrite lookup_insert_ne, lookup_empty by done. rewrite wild_match_none.
    by destruct k, rest.
Qed.

Lemma findNode_step (tr : Trie v2rTranslate) i n k rest :
  nodes tr !! i = Some n ->
  findNode tr (Some i) (k :: rest) =
  match children n !! k with
  | Some c => findNode tr (Some c) rest
  | None => match wild_match k (wildcards n) with
            | Some c => findNode tr (Some c) rest
            | None => Ret None
            end
  end.
Proof. intros Hn. simpl. unfold deref. by rewrite Hn. Qed.

(** The last step of [Find]: the terminal child. *)
Lemma Find_end (tr : Trie v2rTranslate) paths i n :
  findNode tr (Some (root tr)) paths = Ret (Some i) -> nodes tr !! i = Some n ->
  Find tr paths =
  match children n !! "" with
  | None => Ret None
  | Some c => nc ← deref tr c; Ret (if term nc then Some c else None)
  end.
Proof. intros Hf Hn. unfold Find. rewrite Hf. simpl. unfold deref. by rewrite Hn. Qed.

Lemma Find_none (tr : Trie v2rTranslate) paths :
  findNode tr (Some (root tr)) paths = Ret None -> Find tr paths = Ret None.
Proof. intros Hf. unfold Find. by rewrite Hf. Qed.

(** ** Any trie with the nodes of the populated one *)
Context (tr : Trie v2rTranslate) (Hroot : root tr = 0).
Context (Hsub : forall i n, i <= 10 -> nodes v2rTrie !! i = Some n -> nodes tr !! i = Some n).

(** The node and the terminal child of a field name. *)
Definition field_node (f : string) : nat * nat :=
  if decide (f = "Queues") then (7, 8) else if decide (f = "Pfcwd") then (9, 10) else (5, 6).

(** The node [findNode] reaches from the node of the port, and the root. *)
Definition reach_field (rest : list string) : option nat :=
  match rest with
  | [] => Some 3
  | f :: rest =>
      if decide (f = "") then (if rest is [] then Some 4 else None)
      else match rest with
           | [] => Some (field_node f).1
           | [""] => Some (field_node f).2
           | _ => None
           end
  end.

Definition reach (paths : list string) : option nat :=
  match paths with
  | [] => Some 0
  | [db] => if decide (db = "COUNTERS_DB") then Some 1 else None
  | [db; tbl] => if decide (db = "COUNTERS_DB" /\ tbl = "COUNTERS") then Some 2 else None
  | db :: tbl :: key :: rest =>
      if decide (db = "COUNTERS_DB" /\ tbl = "COUNTERS" /\ HasPrefix key "Ethernet" = true)
      then reach_field rest else None
  end.

Lemma findNode_field rest : findNode tr (Some 3) rest = Ret (reach_field rest).
Proof.
  destruct v2rTrie_nodes as (_ & _ & _ & H3 & H4 & H5 & H6 & H7 & H8 & H9 & H10).
  apply Hsub in H3, H4, H5, H6, H7, H8, H9, H10; try lia.
  destruct rest as [|f rest]; [done|].
  rewrite (findNode_step _ _ _ _ _ H3). unfold reach_field, field_node. simpl.
  destruct (decide (f = "")) as [->|Hf].
  { rewrite lookup_insert_eq. by apply (findNode_deep _ _ _ _ H4). }
  rewrite lookup_insert_ne by done.
  destruct (decide (f = "Queues")) as [->|Hq].
  { rewrite !lookup_insert_ne, lookup_insert_eq by done.
    by apply (findNode_leaf _ _ _ _ _ _ H7 eq_refl eq_refl H8). }
  destruct (decide (f = "Pfcwd")) as [->|Hp].
  { rewrite !lookup_insert_ne, lookup_insert_eq by done.
    by apply (findNode_leaf _ _ _ _ _ _ H9 eq_refl eq_refl H10). }
  destruct (decide (f = "*")) as [->|Hs].
  { rewrite lookup_insert_eq. by apply (findNode_leaf _ _ _ _ _ _ H5 eq_refl eq_refl H6). }
  rewrite !lookup_insert_ne by done. rewrite lookup_empty.
  change (<["*" := 5]> (∅ : gmap string nat)) with (list_to_map [("*", 5)] : gmap string nat).
  rewrite wild_match_single. simpl.
  by apply (findNode_leaf _ _ _ _ _ _ H5 eq_refl eq_refl H6).
Qed.

Lemma findNode_port key rest :
  findNode tr (Some 2) (key :: rest) =
  if HasPrefix key "Ethernet" then findNode tr (Some 3) rest else Ret None.
Proof.
  destruct v2rTrie_nodes as (_ & _ & H2 & _). apply Hsub in H2; [|lia].
  rewrite (findNode_step _ _ _ _ _ H2). cbn [children wildcards vnode list_to_map foldr fst snd].
  destruct (decide (key = "Ethernet*")) as [->|Hk]; [by rewrite lookup_insert_eq|].
  rewrite (lookup_insert_ne _ "Ethernet*" key) by done. rewrite lookup_empty.
  change (<["Ethernet*" := 3]> (∅ : gmap string nat)) with (list_to_map [("Ethernet*", 3)] : gmap string nat).
  rewrite wild_match_single.
  change (take_bytes (String.length "Ethernet*" - 1) "Ethernet*") with "Ethernet".
  by destruct (HasPrefix key "Ethernet").
Qed.

(** A node with one literal child and no wildcard. *)
Lemma findNode_literal i n name c key rest :
  nodes tr !! i = Some n -> wildcards n = list_to_map [] -> children n = list_to_map [(name, c)] ->
  findNode tr (Some i) (key :: rest) =
  if decide (key = name) then findNode tr (Some c) rest else Ret None.
Proof.
  intros Hn Hw Hc. rewrite (findNode_step _ _ _ _ _ Hn), Hw, Hc, wild_match_none. simpl.
  case_decide as Hk; [subst; by rewrite lookup_insert_eq|].
  rewrite lookup_insert_ne by done. by rewrite lookup_empty.
Qed.

Lemma findNode_reach paths : findNode tr (Some 0) paths = Ret (reach paths).
Proof.
  destruct v2rTrie_nodes as (H0 & H1 & _). apply Hsub in H0, H1; try lia.
  destruct paths as [|db paths]; [done|].
  rewrite (findNode_literal 0 _ _ _ _ _ H0 eq_refl eq_refl).
  destruct paths as [|tbl paths]; [simpl; by case_decide|].
  rewrite (findNode_literal 1 _ _ _ _ _ H1 eq_refl eq_refl).
  destruct paths as [|key rest].
  - simpl. clear. repeat case_decide; first [done|exfalso; tauto].
  - rewrite findNode_port, findNode_field. simpl reach.
    clear. destruct (HasPrefix key "Ethernet") eqn:Hk; repeat case_decide;
      first [done|exfalso; intuition congruence].
Qed.

(** The terminal child of a node. *)
Definition terminal (i : nat) : option nat :=
  match i with 3 => Some 4 | 5 => Some 6 | 7 => Some 8 | 9 => Some 10 | _ => None end.

Lemma Find_reach paths : Find tr paths = Ret (reach paths ≫= terminal).
Proof.
  pose proof (findNode_reach paths) as Hf. rewrite <- Hroot in Hf.
  destruct v2rTrie_nodes as (H0 & H1 & H2 & H3 & H4 & H5 & H6 & H7 & H8 & H9 & H10).
  apply Hsub in H0, H1, H2, H3, H4, H5, H6, H7, H8, H9, H10; try lia.
  assert (forall i, reach paths = Some i -> i <= 10) as Hle.
  { intros i. unfold reach, reach_field, field_node.
    repeat case_match; intros [= <-]; simplify_eq/=; lia. }
  destruct (reach paths) as [i|] eqn:Hi; [|by apply Find_none].
  specialize (Hle i eq_refl).
  do 11 (destruct i as [|i];
    [rewrite (Find_end _ _ _ _ Hf ltac:(eassumption)); simpl;
     first [by rewrite lookup_empty
           |by rewrite !lookup_insert_ne, lookup_empty by done
           |rewrite lookup_insert_eq; unfold deref;
            first [by rewrite H4|by rewrite H6|by rewrite H8|by rewrite H10]]|]).
  lia.
Qed.

Lemma Find_translator paths : (reach paths ≫= terminal) ≫= Meta tr = translator paths.
Proof.
  destruct v2rTrie_nodes as (H0 & H1 & H2 & H3 & H4 & H5 & H6 & H7 & H8 & H9 & H10).
  apply Hsub in H4, H6, H8, H10; try lia.
  destruct paths as [|db [|tbl [|key rest]]]; simpl; [done|by case_decide..|].
  case_decide; [|done]. unfold reach_field, field_translator, field_node, Meta.
  destruct rest as [|f rest]; simpl; [by rewrite H4|].
  destruct (decide (f = "")); [by destruct rest|].
  destruct rest as [|x rest].
  - repeat case_decide; simpl; by rewrite ?H6, ?H8, ?H10.
  - repeat case_decide; simpl; destruct x, rest; done.
Qed.

Lemma terminal_meta i t : terminal i = Some t -> is_Some (Meta tr t).
Proof.
  destruct v2rTrie_nodes as (_ & _ & _ & _ & H4 & _ & H6 & _ & H8 & _ & H10).
  apply Hsub in H4, H6, H8, H10; try lia. clear Hsub. unfold terminal, Meta. intros Ht.
  do 10 (destruct i as [|i]; [simplify_eq/=; rewrite ?H4, ?H6, ?H8, ?H10; by eexists|]).
  by destruct i.
Qed.

(** What [Find] returns, and the translator stored there. *)
Lemma Find_meta paths :
  exists o, Find tr paths = Ret o /\ o ≫= Meta tr = translator paths /\
    forall l, o = Some l -> is_Some (Meta tr l).
Proof.
  exists (reach paths ≫= terminal). split_and!; [apply Find_reach|apply Find_translator|].
  intros l (i & _ & Hl)%bind_Some. by eapply terminal_meta.
Qed.
End Dispatch.

Section theorems.
Context `{RangeOrder} (g : dbconf) (s : vstate).

Lemma lookupV2R_translator paths :
  lookupV2R g s paths =
  match translator paths with
  | Some f => run_translate g s f paths
  | None => Fail (Errorf "%v not found in virtual path tree" [show_list paths])
  end.
Proof.
  unfold lookupV2R.
  destruct (Find_meta v2rTrie eq_refl (fun _ _ _ Hn => Hn) paths) as (o & -> & <- & Hf).
  rewrite bind_ret_l. destruct o as [l|]; [|reflexivity].
  destruct (Hf l eq_refl) as [f Hl]. simpl. rewrite Hl. reflexivity.
Qed.

(** The paths with a translator. *)
Lemma translator_spec paths f :
  translator paths = Some f <->
  exists name rest, paths = "COUNTERS_DB" :: "COUNTERS" :: name :: rest /\ HasPrefix name "Ethernet" = true /\
    (rest = [] /\ f = EthPortStats \/ exists fld, rest = [fld] /\ field_translator fld = Some f).
Proof.
  split.
  - destruct paths as [|db [|tbl [|name rest]]]; [done..|]. cbn [translator]. case_decide as Hd; [|done].
    destruct Hd as (-> & -> & Hp). intros Hf. exists name, rest. split_and!; [done..|].
    destruct rest as [|fld [|? ?]]; [|by right; exists fld|done]. left. by simplify_eq.
  - intros (name & rest & -> & Hp & [[-> ->]|(fld & -> & Hf)]); cbn [translator]; by rewrite decide_True.
Qed.

(** C4. Virtual path translation: the lookup through the trie is a case
    analysis of the path.  A path is translated exactly when it is
    COUNTERS_DB / COUNTERS / a name that starts with Ethernet, alone (port
    statistics) or followed by one nonempty component: Queues, Pfcwd, or a
    field.  Any other path is reported as not found, and the lookup itself
    never panics. *)
Theorem lookupV2R_dispatch :
  (forall name, HasPrefix name "Ethernet" = true ->
     let port := ["COUNTERS_DB"; "COUNTERS"; name] in
     lookupV2R g s port = v2rEthPortStats g s port /\
     lookupV2R g s (port ++ ["Queues"]) = v2rEthPortQueStats g s (port ++ ["Queues"]) /\
     lookupV2R g s (port ++ ["Pfcwd"]) = v2rEthPortPfcwdStats g s (port ++ ["Pfcwd"]) /\
     forall fld, fld ∉ [""; "Queues"; "Pfcwd"] ->
       lookupV2R g s (port ++ [fld]) = v2rEthPortFieldStats g s (port ++ [fld])) /\
  (forall paths, (forall name, HasPrefix name "Ethernet" = true ->
       paths <> ["COUNTERS_DB"; "COUNTERS"; name] /\
       forall fld, fld <> "" -> paths <> ["COUNTERS_DB"; "COUNTERS"; name; fld]) ->
     lookupV2R g s paths = Fail (Errorf "%v not found in virtual path tree" [show_list paths])).
Proof.
  split.
  - intros name Hn port. unfold port. split_and!; [..|intros fld Hf]; simpl app;
      rewrite lookupV2R_translator; cbn [translator]; rewrite decide_True by done; [reflexivity..|].
    unfold field_translator. rewrite !decide_False by set_solver. done.
  - intros paths Hno. rewrite lookupV2R_translator. destruct (translator paths) as [f|] eqn:E; [|done].
    apply translator_spec in E as (name & rest & -> & Hp & [[-> ->]|(fld & -> & Hf)]); destruct (Hno name Hp) as [H1 H2].
    + done.
    + destruct (H2 fld); [|done]. intros ->. done.
Qed.
End theorems.

(** ** The order of the maps *)

Section Orders.
Context (o1 o2 : RangeOrder) (g : dbconf) (s : vstate).

Lemma range_orders {V} (m : gmap string V) : @range o1 _ _ _ _ m ≡ₚ @range o2 _ _ _ _ m.
Proof. by rewrite !range_perm. Qed.

(** A loop over a map gives the same entries in both orders. *)
Lemma collect_orders {V B} (f : string * V -> res (list B)) (m : gmap string V) r :
  collectM f (@range o1 _ _ _ _ m) = Ret r ->
  exists r', collectM f (@range o2 _ _ _ _ m) = Ret r' /\ r ≡ₚ r'.
Proof. apply collectM_perm, range_orders. Qed.

(** As above, for loops whose body is itself such a loop. *)
Lemma collect_orders2 {V B} (f f' : string * V -> res (list B)) (m : gmap string V) r :
  (forall x ys, f x = Ret ys -> exists ys', f' x = Ret ys' /\ ys ≡ₚ ys') ->
  collectM f (@range o1 _ _ _ _ m) = Ret r ->
  exists r', collectM f' (@range o2 _ _ _ _ m) = Ret r' /\ r ≡ₚ r'.
Proof.
  intros Hff (r1 & Hr1 & Hp)%collect_orders. revert r r1 Hr1 Hp.
  induction (@range o2 _ _ _ _ m) as [|x l IH]; intros r r1 Hr1 Hp.
  - injection Hr1 as <-. by exists [].
  - rewrite collectM_cons in Hr1. res_inv Hr1. res_inv Hr1. injection Hr1 as <-.
    destruct (Hff x a E) as (ys' & Hys' & Hpy). destruct (IH a0 a0 E0 (Permutation_refl _)) as (r' & Hr' & Hpr).
    exists (ys' ++ r'). rewrite collectM_cons, Hys'. simpl. rewrite Hr'. split; [done|].
    by rewrite Hp, Hpy, Hpr.
Qed.

Lemma run_translate_orders f paths l :
  @run_translate o1 g s f paths = Ret l ->
  exists l', @run_translate o2 g s f paths = Ret l' /\ l ≡ₚ l'.
Proof.
  destruct f; simpl; unfold v2rEthPortStats, v2rEthPortFieldStats, v2rEthPortQueStats,
    v2rEthPortPfcwdStats; intros Hr.
  - do 3 both_step Hr. case_match; [by apply collect_orders|by exists l].
  - do 3 both_step Hr. case_match; [by apply collect_orders|by exists l].
  - do 4 both_step Hr. case_match; [by apply collect_orders|]. both_step Hr. by apply collect_orders.
  - do 3 both_step Hr. case_match.
    + eapply collect_orders2; [|exact Hr]. intros [port q] ys Hys. do 2 both_step Hys.
      by apply collect_orders.
    + both_step Hr. case_match; [|done]. both_step Hr.
      case_match; [by apply collect_orders|by exists l].
Qed.

(** C27. The order in which the maps are visited never changes a translation
    but for the order of the table paths: if one order succeeds, every other
    one does, with a permutation of the same paths. *)
Theorem lookupV2R_order paths l :
  @lookupV2R o1 g s paths = Ret l ->
  exists l', @lookupV2R o2 g s paths = Ret l' /\ l ≡ₚ l'.
Proof.
  rewrite (@lookupV2R_translator o1), (@lookupV2R_translator o2).
  destruct (translator paths); [apply run_translate_orders|done].
Qed.
End Orders.

(** ** What the translators return *)
Section Results.
Context `{RangeOrder} (g : dbconf) (s : vstate).

(** The separator of the counters database in a namespace. *)
Definition counters_sep (ns sep : string) : Prop :=
  or_zero "" (GetTableKeySeparator g "COUNTERS_DB" ns) = Ret sep.

(** The entry of a port with its namespace and the separator to use. *)
Definition port_entry (port oid ns sep : string) : Prop :=
  countersPortNameMap s !! port = Some oid /\ port2namespaceMap s !! port = Some ns /\
  counters_sep ns sep.

Lemma wildcard_ports {B} (f : string -> string -> string -> string -> B) l :
  collectM (fun '(port, oid) =>
      namespace ← namespace_of s port;
      separator ← or_zero "" (GetTableKeySeparator g "COUNTERS_DB" namespace);
      Ret [f port oid namespace separator]) (range (countersPortNameMap s)) = Ret l ->
  forall x, x ∈ l <-> exists port oid ns sep, port_entry port oid ns sep /\ x = f port oid ns sep.
Proof.
  intros Hl x. rewrite (elem_of_collectM _ _ _ _ Hl). unfold port_entry, counters_sep, namespace_of.
  split.
  - intros ([port oid] & ys & Hin%elem_of_range & Hf & Hx). res_inv Hf. res_inv Hf.
    injection Hf as <-. apply list_elem_of_singleton in Hx as ->.
    exists port, oid, a, a0. split; [|done]. destruct (port2namespaceMap s !! port); naive_solver.
  - intros (port & oid & ns & sep & (Hin & Hns & Hsep) & ->).
    exists (port, oid), [f port oid ns sep]. rewrite Hns. simpl. rewrite Hsep.
    split_and!; [by apply elem_of_range|done|by left].
Qed.

(** Statistics of all ports: for a name ending in a star, the result
    holds exactly one table path per port of the counters map, in the
    namespace of the port, keyed by its object id and printed under its
    vendor alias; with a field the path also names the field.  For a single
    port the name may be the alias or the SONiC name, and the path prints
    no key. *)
Theorem port_stats_paths key f l :
  HasPrefix key "Ethernet" = true -> field_translator f = Some EthPortFieldStats ->
  (HasSuffix key "*" = true ->
   (lookupV2R g s ["COUNTERS_DB"; "COUNTERS"; key] = Ret l ->
    forall tp, tp ∈ l <-> exists port oid ns sep, port_entry port oid ns sep /\
      tp = mk_path ns "COUNTERS_DB" "COUNTERS" oid sep "" (vendor_name s port) "") /\
   (lookupV2R g s ["COUNTERS_DB"; "COUNTERS"; key; f] = Ret l ->
    forall tp, tp ∈ l <-> exists port oid ns sep, port_entry port oid ns sep /\
      tp = mk_path ns "COUNTERS_DB" "COUNTERS" oid sep f (vendor_name s port) f)) /\
  (HasSuffix key "*" = false -> forall oid ns sep,
   port_entry (sonic_name s key) oid ns sep ->
   lookupV2R g s ["COUNTERS_DB"; "COUNTERS"; key] =
     Ret [mk_path ns "COUNTERS_DB" "COUNTERS" oid sep "" "" ""] /\
   lookupV2R g s ["COUNTERS_DB"; "COUNTERS"; key; f] =
     Ret [mk_path ns "COUNTERS_DB" "COUNTERS" oid sep f "" ""]).
Proof.
  intros Hkey Hf. rewrite !lookupV2R_translator. cbn [translator]. rewrite !decide_True, Hf by done.
  unfold run_translate, v2rEthPortStats, v2rEthPortFieldStats.
  change (nth_path _ KeyIdx) with (Ret key). rewrite !bind_ret_l.
  change (nth_path _ DbIdx) with (Ret "COUNTERS_DB"). rewrite !bind_ret_l.
  change (nth_path _ TblIdx) with (Ret "COUNTERS"). rewrite !bind_ret_l.
  change (nth_path _ FieldIdx) with (Ret f).
  split; intros ->.
  - split; intros Hl.
    + exact (wildcard_ports (fun port oid ns sep =>
        mk_path ns "COUNTERS_DB" "COUNTERS" oid sep "" (vendor_name s port) "") l Hl).
    + exact (wildcard_ports (fun port oid ns sep =>
        mk_path ns "COUNTERS_DB" "COUNTERS" oid sep f (vendor_name s port) f) l Hl).
  - intros oid ns sep (Hoid & Hns & Hsep). unfold namespace_of. rewrite Hoid, Hns.
    rewrite !bind_ret_l. unfold counters_sep in Hsep. by rewrite Hsep.
Qed.
End Results.

(** ** Queues of one port *)
Section Queues.
Context `{RangeOrder} (g : dbconf) (s : vstate) (c : ascii).
Context (Hsep : counters_sep g "" (sep1 c)).

(** Every queue is named by its port and its index. *)
Definition queues_named : Prop := forall que oid, countersQueueNameMap s !! que = Some oid ->
  exists p i, que = p +:+ sep1 c +:+ i /\ contains_byte c p = false /\ contains_byte c i = false.

(** C28. Queue statistics of a port, by alias or name: one table path per
    queue of that port and of no other port, keyed by the object id of the
    queue and printed under the requested name and the index of the queue. *)
Theorem queue_stats_paths key ns :
  queues_named -> HasPrefix key "Ethernet" = true -> HasSuffix key "*" = false ->
  contains_byte c (sonic_name s key) = false ->
  port2namespaceMap s !! sonic_name s key = Some ns ->
  exists l, lookupV2R g s ["COUNTERS_DB"; "COUNTERS"; key; "Queues"] = Ret l /\
    forall tp, tp ∈ l <-> exists i oid,
      countersQueueNameMap s !! (sonic_name s key +:+ sep1 c +:+ i) = Some oid /\
      contains_byte c i = false /\
      tp = mk_path ns "COUNTERS_DB" "COUNTERS" oid (sep1 c) "" (key +:+ sep1 c +:+ i) "".
Proof.
  intros Hq Hkey Hstar Hname Hns. rewrite !lookupV2R_translator. cbn [translator].
  rewrite decide_True by done. change (field_translator "Queues") with (Some EthPortQueStats).
  unfold run_translate, v2rEthPortQueStats.
  change (nth_path _ DbIdx) with (Ret "COUNTERS_DB"). rewrite bind_ret_l.
  unfold counters_sep in Hsep. rewrite Hsep, bind_ret_l.
  change (nth_path _ KeyIdx) with (Ret key). rewrite bind_ret_l.
  change (nth_path _ TblIdx) with (Ret "COUNTERS"). rewrite bind_ret_l, Hstar.
  unfold namespace_of. rewrite Hns, bind_ret_l.
  match goal with |- context [collectM ?f _] => set (body := f) end.
  assert (forall p i oid, contains_byte c p = false -> contains_byte c i = false ->
    body (p +:+ sep1 c +:+ i, oid) =
    if decide (sonic_name s key <> p) then Ret []
    else Ret [mk_path ns "COUNTERS_DB" "COUNTERS" oid (sep1 c) "" (key +:+ sep1 c +:+ i) ""]) as Hbody.
  { intros p i oid Hp Hi. unfold body. rewrite Split_app, Split_clean by done.
    change (nth_path _ 0) with (Ret p). rewrite bind_ret_l. by case_decide. }
  destruct (collectM_total body (range (countersQueueNameMap s))) as [l Hl].
  { intros [que oid] (p & i & -> & Hp & Hi)%elem_of_range%Hq.
    rewrite Hbody by done. case_decide; by eexists. }
  exists l. split; [done|]. intros tp. rewrite (elem_of_collectM _ _ _ _ Hl). split.
  - intros ([que oid] & ys & Hin%elem_of_range & Hf & Htp).
    destruct (Hq _ _ Hin) as (p & i & -> & Hp & Hi). rewrite Hbody in Hf by done.
    case_decide as Hpn; injection Hf as <-; [by apply elem_of_nil in Htp|].
    apply list_elem_of_singleton in Htp as ->. subst p.
    by exists i, oid.
  - intros (i & oid & Hin & Hi & ->).
    eexists (_, oid), [_]. split_and!; [by apply elem_of_range, Hin| |by left].
    rewrite Hbody by done. by rewrite decide_False by tauto.
Qed.
End Queues.

(** ** Where the alias maps come from *)
Section Aliases.
Context `{RangeOrder} (g : dbconf) (T : clients) (r : redis) (db : gmap string hash).
Context `{!RedisLaws r db}.

Definition alias_of (key : string) : option string := db !! key ≫= lookup "alias".

Lemma alias_key_ok ns m pre p a :
  String.length pre = 5 -> alias_of (pre +:+ p) = Some a ->
  alias_key (Some r) ns m (pre +:+ p) =
  Ret {| a2n := <[a := p]> (a2n m); n2a := <[p := a]> (n2a m); p2ns := <[p := ns]> (p2ns m) |}.
Proof.
  intros Hpre Ha. unfold alias_key. simpl. rewrite law_hget. unfold alias_of in Ha.
  rewrite Ha, bind_ret_l. rewrite <- Hpre, slice_from_app. done.
Qed.

Lemma alias_fold ns pre keys m0 :
  String.length pre = 5 ->
  (forall k, k ∈ keys -> exists p a, k = pre +:+ p /\ alias_of k = Some a) ->
  exists m, foldM (alias_key (Some r) ns) m0 keys = Ret m /\
    (forall p, n2a m !! p = if decide (pre +:+ p ∈ keys) then alias_of (pre +:+ p) else n2a m0 !! p) /\
    (forall p, p2ns m !! p = if decide (pre +:+ p ∈ keys) then Some ns else p2ns m0 !! p) /\
    (forall a p, a2n m !! a = Some p ->
      (pre +:+ p ∈ keys /\ alias_of (pre +:+ p) = Some a) \/ a2n m0 !! a = Some p) /\
    (forall a, is_Some (a2n m0 !! a) \/ (exists k, k ∈ keys /\ alias_of k = Some a) ->
      is_Some (a2n m !! a)).
Proof.
  intros Hpre. revert m0. induction keys as [|k keys IH]; intros m0 Hk; simpl.
  - exists m0. split_and!; [done|done|done|by right|].
    intros a [?|(k & ?%elem_of_nil & _)]; done.
  - destruct (Hk k) as (p & a & -> & Ha); [by left|].
    rewrite (alias_key_ok _ _ _ _ a) by done. rewrite bind_ret_l.
    destruct (IH {| a2n := <[a := p]> (a2n m0); n2a := <[p := a]> (n2a m0);
                    p2ns := <[p := ns]> (p2ns m0) |}) as (m & Hm & Hn & Hp & Ha1 & Ha2).
    { intros k Hin. apply Hk. by right. }
    simpl in Hn, Hp, Ha1, Ha2. exists m. split_and!; [done| | | |].
    + intros q. rewrite Hn. destruct (decide (p = q)) as [->|Hq].
      * rewrite lookup_insert_eq, (decide_True (P := _ ∈ _ :: _)) by left. by case_decide.
      * rewrite lookup_insert_ne by done. apply decide_ext. rewrite elem_of_cons.
        split; [by right|]. intros [?%app_inj_l_s|?]; [by subst|done].
    + intros q. rewrite Hp. destruct (decide (p = q)) as [->|Hq].
      * rewrite lookup_insert_eq, (decide_True (P := _ ∈ _ :: _)) by left. by case_decide.
      * rewrite lookup_insert_ne by done. apply decide_ext. rewrite elem_of_cons.
        split; [by right|]. intros [?%app_inj_l_s|?]; [by subst|done].
    + intros b q [[? ?]|Hb]%Ha1; [left; by split; [right|]|].
      destruct (decide (a = b)) as [->|Hne].
      * rewrite lookup_insert_eq in Hb. injection Hb as <-. left. by split; [left|].
      * rewrite lookup_insert_ne in Hb by done. by right.
    + intros b Hb. apply Ha2. destruct Hb as [Hb|(k & [->|Hin]%elem_of_cons & Hb)].
      * left. by apply lookup_insert_is_Some'; right.
      * left. rewrite Ha in Hb. injection Hb as <-. rewrite lookup_insert_eq. by eexists.
      * right. by exists k.
Qed.

(** C29. The alias maps of a system with one namespace: when every port of the
    CONFIG_DB has an alias, the name map gives exactly the alias of every
    port, every port is in the default namespace, an alias is mapped to a
    port that has it, and every alias is mapped. *)
Theorem getAliasMap_spec sep :
  sonic_db_multi_namespace g = false -> client_of T "" "CONFIG_DB" = Some r ->
  separator "CONFIG_DB" "" g = Ret sep -> String.length sep = 1 -> literal sep = true ->
  (forall p, is_Some (db !! ("PORT" +:+ sep +:+ p)) -> is_Some (alias_of ("PORT" +:+ sep +:+ p))) ->
  exists m, getAliasMap g T = Ret m /\
    (forall p, n2a m !! p = alias_of ("PORT" +:+ sep +:+ p)) /\
    (forall p, p2ns m !! p = if n2a m !! p is Some _ then Some "" else None) /\
    (forall a p, a2n m !! a = Some p -> n2a m !! p = Some a) /\
    (forall a p, n2a m !! p = Some a -> is_Some (a2n m !! a)).
Proof.
  intros Hm HT Hsep Hlen Hlit Hall. unfold getAliasMap, GetRedisClientsForDb. rewrite Hm.
  change GetDbDefaultNamespace with "". rewrite HT, range_singleton. simpl foldM.
  unfold alias_namespace, GetTableKeySeparator. change (Target_value !! "CONFIG_DB") with (Some 4%Z).
  rewrite Hsep. simpl or_zero. rewrite bind_ret_l.
  set (pre := "PORT" +:+ sep).
  change (String "P" (String "O" (String "R" (String "T" (sep +:+ "*"))))) with (pre +:+ "*").
  assert (String.length pre = 5) as Hpre by (unfold pre; by rewrite length_app_s, Hlen).
  rewrite law_ping, bind_ret_l.
  assert (literal pre = true) as Hlp by (unfold pre; by rewrite literal_app, Hlit).
  destruct (law_keys_prefix pre Hlp) as (keys & -> & _ & Hkeys). rewrite bind_ret_l.
  destruct (alias_fold "" pre keys {| a2n := ∅; n2a := ∅; p2ns := ∅ |} Hpre)
    as (m & -> & Hn & Hp & Ha1 & Ha2).
  { intros k [Hdb [p ->]]%Hkeys. destruct (Hall p) as [a Ha].
    - by rewrite <- app_assoc_s.
    - exists p, a. split; [done|]. unfold pre. by rewrite app_assoc_s. }
  exists m. rewrite bind_ret_l. simpl in *.
  assert (forall p, n2a m !! p = alias_of (pre +:+ p)) as Hn'.
  { intros p. rewrite Hn. case_decide as Hin; [done|]. rewrite lookup_empty.
    unfold alias_of. destruct (db !! (pre +:+ p)) eqn:Hdb; [|done].
    destruct Hin. apply Hkeys. split; [by eexists|by eexists]. }
  assert (forall p, pre +:+ p ∈ keys <-> is_Some (n2a m !! p)) as Hin.
  { intros p. rewrite Hn', Hkeys. split.
    - intros [Hdb _]. unfold pre. rewrite app_assoc_s. apply Hall. by rewrite <- app_assoc_s.
    - intros [a Ha]. unfold alias_of in Ha. split; [|by eexists].
      destruct (db !! (pre +:+ p)); [by eexists|done]. }
  split_and!; [done| | | |].
  - intros p. rewrite Hn'. unfold pre. by rewrite app_assoc_s.
  - intros p. rewrite Hp. pose proof (Hin p) as Hip. rewrite lookup_empty.
    destruct (n2a m !! p); case_decide; naive_solver.
  - intros a p [[? Ha]|Ha]%Ha1; [by rewrite Hn'|by rewrite lookup_empty in Ha].
  - intros a p Ha. apply Ha2. right. exists (pre +:+ p).
    split; [apply Hin; by eexists|by rewrite <- Hn'].
Qed.
End Aliases.

(** ** Witnesses and examples *)

(** Ports as in [testdata]: the port of the vendor alias Ethernet68/1 is
    Ethernet68, with two queues. *)
Definition sample_vstate : vstate := {|
  countersPortNameMap := list_to_map [("Ethernet68", "oid:0x1"); ("Ethernet1", "oid:0x2")];
  countersQueueNameMap := list_to_map
    [("Ethernet68:0", "oid:0x10"); ("Ethernet68:1", "oid:0x11"); ("Ethernet1:0", "oid:0x20")];
  alias2nameMap := list_to_map [("Ethernet68/1", "Ethernet68"); ("Ethernet1/1", "Ethernet1")];
  name2aliasMap := list_to_map [("Ethernet68", "Ethernet68/1"); ("Ethernet1", "Ethernet1/1")];
  port2namespaceMap := list_to_map [("Ethernet68", ""); ("Ethernet1", "")];
  countersPfcwdNameMap := {["Ethernet68" := {["Ethernet68:0" := "oid:0x10"]}]} |}.

Example sample_queues :
  let _ := default_order in
  lookupV2R single_conf sample_vstate ["COUNTERS_DB"; "COUNTERS"; "Ethernet1/1"; "Queues"] =
  Ret [mk_path "" "COUNTERS_DB" "COUNTERS" "oid:0x20" ":" "" "Ethernet1/1:0" ""].
Proof. vm_compute. reflexivity. Qed.

Lemma lookupV2R_order_witness :
  exists l', @lookupV2R reverse_order single_conf sample_vstate
               ["COUNTERS_DB"; "COUNTERS"; "Ethernet*"] = Ret l' /\
    [mk_path "" "COUNTERS_DB" "COUNTERS" "oid:0x1" ":" "" "Ethernet68/1" "";
     mk_path "" "COUNTERS_DB" "COUNTERS" "oid:0x2" ":" "" "Ethernet1/1" ""] ≡ₚ l'.
Proof.
  assert (exists l, @lookupV2R default_order single_conf sample_vstate
    ["COUNTERS_DB"; "COUNTERS"; "Ethernet*"] = Ret l /\
    [mk_path "" "COUNTERS_DB" "COUNTERS" "oid:0x1" ":" "" "Ethernet68/1" "";
     mk_path "" "COUNTERS_DB" "COUNTERS" "oid:0x2" ":" "" "Ethernet1/1" ""] ≡ₚ l) as (l & Hl & Hp).
  { eexists. split; [vm_compute; reflexivity|]. first [reflexivity|apply perm_swap]. }
  destruct (lookupV2R_order default_order reverse_order single_conf sample_vstate _ _ Hl)
    as (l' & Hl' & Hp').
  exists l'. split; [exact Hl'|]. by rewrite Hp.
Defined.

Lemma port_stats_paths_witness :
  let _ := default_order in
  lookupV2R single_conf sample_vstate ["COUNTERS_DB"; "COUNTERS"; "Ethernet68/1"; "SAI_PORT_STAT_PFC_7_RX_PKTS"] =
  Ret [mk_path "" "COUNTERS_DB" "COUNTERS" "oid:0x1" ":" "SAI_PORT_STAT_PFC_7_RX_PKTS" "" ""].
Proof.
  pose proof (@port_stats_paths default_order single_conf sample_vstate "Ethernet68/1"
    "SAI_PORT_STAT_PFC_7_RX_PKTS" [] eq_refl eq_refl) as [_ Hone].
  apply (Hone eq_refl "oid:0x1" "" ":").
  split; [reflexivity|split; [reflexivity|vm_compute; reflexivity]].
Defined.

Lemma sample_queues_named : queues_named sample_vstate ":".
Proof.
  intros que oid Hq. apply elem_of_list_to_map_2 in Hq.
  apply elem_of_cons in Hq as [[= -> _]|Hq]; [by exists "Ethernet68", "0"|].
  apply elem_of_cons in Hq as [[= -> _]|Hq]; [by exists "Ethernet68", "1"|].
  apply elem_of_cons in Hq as [[= -> _]|Hq]; [by exists "Ethernet1", "0"|].
  by apply elem_of_nil in Hq.
Qed.

Lemma queue_stats_paths_witness :
  let _ := default_order in
  exists l, lookupV2R single_conf sample_vstate ["COUNTERS_DB"; "COUNTERS"; "Ethernet68/1"; "Queues"] = Ret l /\
    forall tp, tp ∈ l <-> exists i oid,
      countersQueueNameMap sample_vstate !! ("Ethernet68" +:+ ":" +:+ i) = Some oid /\
      contains_byte ":" i = false /\
      tp = mk_path "" "COUNTERS_DB" "COUNTERS" oid ":" "" ("Ethernet68/1" +:+ ":" +:+ i) "".
Proof.
  apply (@queue_stats_paths default_order single_conf sample_vstate ":" eq_refl "Ethernet68/1" "").
  - apply sample_queues_named.
  - reflexivity.
  - reflexivity.
  - reflexivity.
  - reflexivity.
Defined.

Definition sample_config_db : gmap string hash := list_to_map
  [("PORT|Ethernet68", {["alias" := "Ethernet68/1"]});
   ("PORT|Ethernet1", {["alias" := "Ethernet1/1"]});
   ("PFC_WD_TABLE|Ethernet68", {["action" := "drop"]})].

Lemma getAliasMap_spec_witness :
  let _ := default_order in
  let r := mem_redis sample_config_db in
  exists m, getAliasMap single_conf {["" := {["CONFIG_DB" := r]}]} = Ret m /\
    (forall p, n2a m !! p = alias_of sample_config_db ("PORT" +:+ "|" +:+ p)) /\
    (forall p, p2ns m !! p = if n2a m !! p is Some _ then Some "" else None) /\
    (forall a p, a2n m !! a = Some p -> n2a m !! p = Some a) /\
    (forall a p, n2a m !! p = Some a -> is_Some (a2n m !! a)).
Proof.
  apply (@getAliasMap_spec default_order single_conf _ (@mem_redis default_order sample_config_db)
    sample_config_db _ "|").
  - reflexivity.
  - reflexivity.
  - vm_compute. reflexivity.
  - reflexivity.
  - reflexivity.
  - intros p [h Hp]. apply elem_of_list_to_map_2 in Hp.
    do 2 (apply elem_of_cons in Hp as [Hp|Hp];
      [injection Hp as Hp _; change ("" +:+ p) with p in Hp; subst p; eexists; reflexivity|]).
    apply elem_of_cons in Hp as [[=]|Hp]. by apply elem_of_nil in Hp.
Defined.

(** When one namespace has no PFC watchdog, the whole map is dropped, also
    the queues of the namespaces that have it. *)
Lemma pfcwd_one_namespace_off `{RangeOrder} g qm (r1 r2 : redis) m :
  pfcwd_namespace g qm ∅ ("asic0", Some r1) = Ret (Some m) -> m <> ∅ ->
  pfcwd_namespace g qm m ("asic1", Some r2) = Ret None ->
  pfcwd_loop g qm ∅ [("asic0", Some r1); ("asic1", Some r2)] = Ret ∅.
Proof. intros H1 _ H2. cbn [pfcwd_loop]. rewrite H1, bind_ret_l. by rewrite H2. Qed.
