(* ===== verification/Msi.v ===== *)
(** * Table data as JSON: [makeJSON_redis], [emitJSON] and
    [msi2TypedValue] of [sonic_data_client/db_client.go]

    A [map[string]interface{}] of the source holds strings, tables of fields
    or, below an operation, tables of tables.  [json.Marshal] is
    [Marshal_msi]: keys in byte order, strings escaped as the Go encoder
    does.  Bytes from 128 on are copied, which is what the encoder does for
    valid UTF-8 other than U+2028 and U+2029. *)

From stdpp Require Import base tactics list fin_maps gmap strings sorting.
From Stdlib Require Import ZArith Ascii Lia.
From S2P Require Import Prelude GoStrings Messages RedisDb.

Local Open Scope string_scope.
Local Open Scope list_scope.

Inductive mval :=
  | MStr (s : string)
  | MFields (fv : hash)
  | MOps (t : gmap string hash).

Abbreviation msi := (gmap string mval).

#[export] Instance mval_eq_dec : EqDecision mval.
Proof. solve_decision. Defined.

Definition makeJSON_redis (m : msi) (key op : option string) (mfv : hash) : msi :=
  match key, op with
  | None, None => (MStr <$> mfv) ∪ m
  | None, Some op => <[op := MFields mfv]> m
  | Some key, None => <[key := MFields mfv]> m
  | Some key, Some op => <[key := MOps {[op := mfv]}]> m
  end.

(** ** The encoder *)

Definition hex_digit (n : nat) : ascii := ascii_of_nat (if decide (n < 10) then 48 + n else 87 + n).

Definition u_escape (c : ascii) : string :=
  let n := nat_of_ascii c in
  "\u00" +:+ String (hex_digit (n / 16)) (String (hex_digit (n mod 16)) "").

Definition escape_byte (c : ascii) : string :=
  let n := nat_of_ascii c in
  if decide (n = 34) then "\" +:+ String c ""           (* quotation mark *)
  else if decide (n = 92) then "\\"                      (* backslash *)
  else if decide (n = 10) then "\n"
  else if decide (n = 13) then "\r"
  else if decide (n = 9) then "\t"
  else if decide (n < 32 \/ n = 60 \/ n = 62 \/ n = 38) then u_escape c
  else String c "".

Fixpoint escape (s : string) : string :=
  match s with
  | "" => ""
  | String c s => escape_byte c +:+ escape s
  end.

Definition quote : string := String (ascii_of_nat 34) "".

Definition json_string (s : string) : string := quote +:+ escape s +:+ quote.

(** The byte order of keys. *)
Fixpoint string_leb (a b : string) : bool :=
  match a, b with
  | "", _ => true
  | _, "" => false
  | String c a, String d b =>
      if decide (c = d) then string_leb a b else bool_decide (nat_of_ascii c <= nat_of_ascii d)
  end.

Definition key_le {V} (a b : string * V) : Prop := string_leb a.1 b.1 = true.
#[export] Instance key_le_dec {V} : RelDecision (@key_le V).
Proof. intros a b. unfold key_le. apply _. Defined.

Definition json_object {V} (show : V -> string) (m : gmap string V) : string :=
  "{" +:+ Join ((fun kv => json_string kv.1 +:+ ":" +:+ show kv.2) <$>
                  merge_sort key_le (map_to_list m)) "," +:+ "}".

Definition json_value (v : mval) : string :=
  match v with
  | MStr s => json_string s
  | MFields fv => json_object json_string fv
  | MOps t => json_object (json_object json_string) t
  end.

Definition Marshal_msi (m : msi) : string := json_object json_value m.

(** [emitJSON]: marshalling these values cannot fail. *)
Definition emitJSON (m : msi) : res string := Ret (Marshal_msi m).

Definition msi2TypedValue (m : msi) : res TypedValue :=
  jv ← emitJSON m; Ret (JsonIetfVal jv).


Lemma msi2TypedValue_total m : exists v, msi2TypedValue m = Ret v.
Proof. by eexists. Qed.

Lemma makeJSON_lookup_fields m mfv f :
  makeJSON_redis m None None mfv !! f =
  match mfv !! f with Some v => Some (MStr v) | None => m !! f end.
Proof.
  simpl. rewrite lookup_union, lookup_fmap. by destruct (mfv !! f), (m !! f).
Qed.
