(* ===== verification/DbClient.v ===== *)
(** * The database client: [sonic_data_client/db_client.go]

    From a gNMI path to table paths ([populateDbtablePath]), from table paths
    to data ([tableData2Msi], [tableData2TypedValue]), and the one-shot
    requests [NewDbClient], [Get] and [PollRun].  Subscriptions are in
    [DbStream.v].

    The redis clients [T] give the contents at the time of the call; the
    package maps of [VirtualDb.v] are the state. *)

From stdpp Require Import base tactics list fin_maps gmap strings pretty.
From Stdlib Require Import ZArith Ascii Lia.
From S2P Require Import Prelude GoStrings Messages DbConfig RedisDb VirtualDb Msi.

Local Open Scope string_scope.
Local Open Scope list_scope.

(** ** Paths *)

Definition gnmiFullPath (prefix : option Path) (path : Path) : Path := {|
  Origin := Origin path;
  Target := "";
  Element := if decide (Element path = []) then [] else GetElement prefix ++ Element path;
  Elem := if decide (Elem path = []) then [] else GetElem prefix ++ Elem path;
|}.

(** The full path of a request: the prefix counts only when it is present. *)
Definition full_path (prefix : option Path) (path : Path) : Path :=
  match prefix with Some _ => gnmiFullPath prefix path | None => path end.

(** The real key of a table path. *)
Definition redis_key (t : tablePath) : string :=
  if decide (tableKey t <> "") then tableName t +:+ delimitor t +:+ tableKey t else tableName t.

Definition with_key (t : tablePath) (k : string) : tablePath :=
  mk_path (dbNamespace t) (dbName t) (tableName t) k (delimitor t) (field t) (jsonTableKey t) (jsonField t).

Definition show_err (e : option error) : string :=
  match e with Some e => err_text e | None => "<nil>" end.

(** A pointer to a table path printed with [%v]. *)
Definition show_path (t : tablePath) : string :=
  "&{" +:+ Join [dbNamespace t; dbName t; tableName t; tableKey t; delimitor t; field t;
                 jsonTableName t; jsonTableKey t; jsonDelimitor t; jsonField t] " " +:+ "}".

Section Client.
Context `{RangeOrder} (g : dbconf) (T : clients).

(** [n, _ := redisDb.Exists(key)]: 0 on an error. *)
Definition exists_or_zero (r : redis) (key : string) : res Z := or_zero 0%Z (Exists r key).

(** The table path of a real path, from the slice of its components:
    <1> DB Table, <2> DB Table Key, <3> DB Table Field, <4> DB Table Key
    Field, <5> DB Table Key Key Field. *)
Definition real_path (target dbPath : string) (r : redis) (stringSlice : list string)
    (ns db tbl sep : string) : res tablePath :=
  match stringSlice with
  | [_; _] =>
      match Keys r (tbl +:+ "*") with
      | Ret (_ :: _) => Ret (mk_path ns db tbl "" sep "" "" "")
      | Ret [] => Fail (Errorf "Failed to find %v %v %v %v" [target; dbPath; show_err None; show_list []])
      | Fail e => Fail (Errorf "Failed to find %v %v %v %v" [target; dbPath; show_err (Some e); show_list []])
      | Panic p => Panic p
      end
  | [_; _; mappedKey] =>
      match Exists r (tbl +:+ sep +:+ mappedKey) with
      | Ret n => Ret (if decide (n = 1%Z) then mk_path ns db tbl mappedKey sep "" "" ""
                      else mk_path ns db tbl "" sep mappedKey "" "")
      | Fail _ => Fail (Errorf "redis Exists op failed for %v" [dbPath])
      | Panic p => Panic p
      end
  | [_; _; mappedKey; fourth] =>
      let key2 := mappedKey +:+ sep +:+ fourth in
      match Exists r (tbl +:+ sep +:+ key2) with
      | Ret n => Ret (if decide (n <> 1%Z) then mk_path ns db tbl mappedKey sep fourth "" ""
                      else mk_path ns db tbl key2 sep "" "" "")
      | Fail _ => Fail (Errorf "redis Exists op failed for %v" [dbPath])
      | Panic p => Panic p
      end
  | [_; _; mappedKey; fourth; fifth] =>
      Ret (mk_path ns db tbl (mappedKey +:+ sep +:+ fourth) sep fifth "" "")
  | _ => Fail (Errorf "Invalid db table Path %v" [dbPath])
  end.

(** The check that the key of a table path exists. *)
Definition check_key (dbPath : string) (r : redis) (t : tablePath) : res unit :=
  if decide (tableKey t <> "") then
    let key := tableName t +:+ delimitor t +:+ tableKey t in
    n ← exists_or_zero r key;
    if decide (n <> 1%Z)
    then Fail (Errorf "No valid entry found on %v with key %v" [dbPath; key])
    else Ret tt
  else Ret tt.

(** [populateDbtablePath] after the database and namespace of the target are
    known and the maps are loaded. *)
Definition resolve (s : vstate) (prefix : option Path) (path : PathPtr)
    (targetDbName dbNamespace : string) (nsExist : bool) (g2s : gmap PathPtr (list tablePath)) :
    res (gmap PathPtr (list tablePath)) :=
  separator ← or_zero "" (GetTableKeySeparator g targetDbName dbNamespace);
  let names := Name <$> Elem (full_path prefix (pointee path)) in
  let stringSlice := targetDbName :: names in
  let dbPath := Join names separator in
  match lookupV2R g s stringSlice with
  | Ret tblPaths =>
      if (nsExist : bool)
      then Fail (Errorf "Target having %v namespace is not supported for V2R Dataset" [dbNamespace])
      else Ret (<[path := tblPaths]> g2s)
  | Panic p => Panic p
  | Fail _ =>
      tbl ← nth_path stringSlice 1;
      match client_of T dbNamespace targetDbName with
      | None => Fail (Errorf "Redis Client not present for dbName %v dbNamespace %v" [targetDbName; dbNamespace])
      | Some r =>
          t ← real_path (GetTarget prefix) dbPath r stringSlice dbNamespace targetDbName tbl separator;
          _ ← check_key dbPath r t;
          Ret (<[path := [t]]> g2s)
      end
  end.

Definition namespace_valid (ns : string) : bool :=
  bool_decide (ns = GetDbDefaultNamespace) || bool_decide (ns ∈ nonDefaultNamespaces g).

Definition populateDbtablePath (prefix : option Path) (path : PathPtr)
    (g2s : gmap PathPtr (list tablePath)) : SE vstate (gmap PathPtr (list tablePath)) :=
  '(targetDbName, valid, targetNs, nsExist) ← lift (IsTargetDb (GetTarget prefix));
  if negb valid then lift (Fail (Errorf "Invalid target dbName %v" [targetDbName])) else
  if negb (namespace_valid targetNs)
  then lift (Fail (Errorf "Invalid target dbNameSpace %v" [targetNs])) else
  _ ← (if decide (targetDbName = "COUNTERS_DB") then initCountersMaps g T else mret tt);
  s ← get_state;
  lift (resolve s prefix path targetDbName targetNs nsExist g2s).

Fixpoint populateAllDbtablePath (prefix : option Path) (paths : list PathPtr)
    (g2s : gmap PathPtr (list tablePath)) : SE vstate (gmap PathPtr (list tablePath)) :=
  match paths with
  | [] => mret g2s
  | path :: paths =>
      g2s ← populateDbtablePath prefix path g2s; populateAllDbtablePath prefix paths g2s
  end.

Record DbClient := { prefix : option Path; pathG2S : gmap PathPtr (list tablePath) }.

Definition NewDbClient (paths : list PathPtr) (pre : option Path) : SE vstate DbClient :=
  g2s ← populateAllDbtablePath pre paths ∅;
  mret {| prefix := pre; pathG2S := g2s |}.

(** ** Reading the data *)

(** The pattern that lists the keys of a table. *)
Definition table_pattern (t : tablePath) : string :=
  if decide (dbName t = "COUNTERS_DB" /\ tableName t <> "COUNTERS")
  then tableName t else tableName t +:+ delimitor t +:+ "*".

(** One key of the table: its fields, under the key the path asks for. *)
Definition add_key (t : tablePath) (useKey : bool) (op : option string) (r : redis)
    (m : msi) (dbkey : string) : res msi :=
  fv ← HGetAll r dbkey;
  if decide (jsonTableKey t <> "") then Ret (makeJSON_redis m (Some (jsonTableKey t)) op fv)
  else if decide ((tableKey t <> "" /\ useKey = false) \/ tableName t = dbkey)
  then Ret (makeJSON_redis m None op fv)
  else key ← nth_path (SplitN2 dbkey (delimitor t)) 1;
       Ret (makeJSON_redis m (Some key) op fv).

Definition tableData2Msi (t : tablePath) (useKey : bool) (op : option string) (m : msi) : res msi :=
  let r := client_of T (dbNamespace t) (dbName t) in
  dbkeys ← (if decide (tableKey t = "") then
              match call r (fun r => Keys r (table_pattern t)) with
              | Fail e => Fail (Errorf "redis Keys failed for %v, pattern %s %v"
                                  [show_path t; table_pattern t; err_text e])
              | res => res
              end
            else Ret [tableName t +:+ delimitor t +:+ tableKey t]);
  if decide (jsonField t <> "" /\ jsonTableKey t <> "") then
    key0 ← nth_path dbkeys 0;
    match call r (fun r => HGet r key0 (field t)) with
    | Ret v => Ret (makeJSON_redis m (Some (jsonTableKey t)) op {[jsonField t := v]})
    | Fail _ => Ret m          (* a field of a virtual path that does not exist *)
    | Panic p => Panic p
    end
  else foldM (fun m dbkey => match r with
                             | Some r => add_key t useKey op r m dbkey
                             | None => Panic NilDereference
                             end) m dbkeys.

(** The paths of one gNMI path: a single field is a string, anything else one
    JSON object. *)
Fixpoint collect_data (tblPaths : list tablePath) (m : msi) : res TypedValue :=
  match tblPaths with
  | [] => msi2TypedValue m
  | t :: rest =>
      if decide (jsonField t = "" /\ field t <> "") then
        v ← call (client_of T (dbNamespace t) (dbName t)) (fun r => HGet r (redis_key t) (field t));
        Ret (StringVal v)
      else m ← tableData2Msi t false None m; collect_data rest m
  end.

Definition tableData2TypedValue (tblPaths : list tablePath) : res TypedValue := collect_data tblPaths ∅.

(** [Get]: one value per path, all with the time of the request. *)
Definition Get (c : DbClient) (ts : Z) : res (list Value) :=
  collectM (fun '(gnmiPath, tblPaths) =>
    v ← tableData2TypedValue tblPaths;
    Ret [DataValue (prefix c) gnmiPath ts v]) (range (pathG2S c)).

(** One answer of [PollRun]: the values put on the queue, and whether the
    loop goes on.  The clock is read once per value.  A failed read ends the
    routine without a message. *)
Fixpoint poll_paths (c : DbClient) (clock : nat -> Z) (i : nat)
    (l : list (PathPtr * list tablePath)) : res (list Value * bool) :=
  match l with
  | [] => Ret ([SyncValue (clock i)], true)
  | (gnmiPath, tblPaths) :: l =>
      match tableData2TypedValue tblPaths with
      | Fail _ => Ret ([], false)
      | Panic p => Panic p
      | Ret v => '(vs, more) ← poll_paths c clock (S i) l;
                 Ret (DataValue (prefix c) gnmiPath (clock i) v :: vs, more)
      end
  end.

Definition poll (c : DbClient) (clock : nat -> Z) : res (list Value * bool) :=
  poll_paths c clock 0 (range (pathG2S c)).
End Client.

(** [PollRun]: the poll requests in turn, each with the clock and the redis
    contents at that time, until the channel closes (the list ends) or a read
    fails. *)
Fixpoint PollRun `{RangeOrder} (c : DbClient) (polls : list ((nat -> Z) * clients)) :
    res (list Value) :=
  match polls with
  | [] => Ret []
  | (clock, T) :: polls =>
      '(vs, more) ← poll T c clock;
      if (more : bool) then rest ← PollRun c polls; Ret (vs ++ rest) else Ret vs
  end.

(** ** Resolving real paths *)
Section Resolve.
Context `{RangeOrder} (g : dbconf) (T : clients).

(** What a table path says of the components it came from: table name, key
    and field. *)
Definition components (t : tablePath) : list string :=
  tableName t :: (if decide (tableKey t = "") then [] else [tableKey t]) ++
  (if decide (field t = "") then [] else [field t]).

Lemma Join_app2 (a b : string) l sep : l <> [] -> Join (a :: b :: l) sep = Join ((a +:+ sep +:+ b) :: l) sep.
Proof. intros Hl. destruct l as [|c l]; [done|]. simpl. by rewrite !app_assoc_s. Qed.

Lemma real_path_components target dbPath r db0 ns tbl sep names t :
  "" ∉ names -> sep <> "" ->
  real_path target dbPath r (db0 :: tbl :: names) ns db0 tbl sep = Ret t ->
  dbNamespace t = ns /\ dbName t = db0 /\ delimitor t = sep /\ jsonTableKey t = "" /\
  jsonField t = "" /\ Join (components t) sep = Join (tbl :: names) sep.
Proof.
  intros Hne Hsep. unfold real_path, components.
  assert (forall a b : string, a +:+ sep +:+ b <> "") as Happ.
  { intros a b. destruct a; [|done]. by destruct sep. }
  destruct names as [|a [|b [|c [|? ?]]]]; try done.
  - destruct (Keys r _) as [[|? ?]|?|?]; intros [= <-]; done.
  - destruct (Exists r _) as [n|?|?]; [|done..]. intros [= <-].
    assert (a <> "") by set_solver. case_decide; simpl; rewrite ?decide_False by done;
      simpl; rewrite ?decide_True by done; done.
  - destruct (Exists r _) as [n|?|?]; [|done..]. intros [= <-].
    assert (a <> "" /\ b <> "") as [Ha Hb] by set_solver.
    case_decide; simpl; rewrite ?decide_False by done; simpl; rewrite ?decide_True by done; done.
  - intros [= <-]. simpl. assert (c <> "") by set_solver. rewrite !decide_False by done.
    simpl. by rewrite !app_assoc_s.
Qed.

(** C24. Real paths: when a path that names no virtual data is resolved, the
    single table path lies in the requested database and namespace; its
    table, key and field joined by the separator are the components of the
    request in their order, whatever way they were grouped into keys and
    fields; and its key, when it has one, exists in the database. *)
Theorem resolve_real s pre path ns db nsExist sep r cont g2s g2s' :
  let names := Name <$> Elem (full_path pre (pointee path)) in
  GetTableKeySeparator g db ns = Ret sep -> sep <> "" -> "" ∉ names ->
  translator (db :: names) = None -> client_of T ns db = Some r -> RedisLaws r cont ->
  resolve g T s pre path db ns nsExist g2s = Ret g2s' ->
  exists t, g2s' = <[path := [t]]> g2s /\
    dbNamespace t = ns /\ dbName t = db /\ delimitor t = sep /\
    jsonTableKey t = "" /\ jsonField t = "" /\
    Join (components t) sep = Join names sep /\
    (tableKey t <> "" -> is_Some (cont !! redis_key t)).
Proof.
  intros names Hsep Hne Hnames Htr Hr Hlaws. unfold resolve. fold names.
  rewrite Hsep. cbn [or_zero]. rewrite bind_ret_l, lookupV2R_translator, Htr.
  intros Hres. res_inv Hres. unfold nth_path in E.
  destruct names as [|tbl rest] eqn:Hn; [done|]. injection E as <-.
  rewrite Hr in Hres. res_inv Hres. res_inv Hres. injection Hres as <-. rename a into t.
  destruct (real_path_components (GetTarget pre) (Join (tbl :: rest) sep) r db ns tbl sep rest t) as (? & ? & Hd & ? & ? & Hj);
    [set_solver|done|exact E|].
  exists t. split_and!; [done..|]. intros Hk.
  unfold check_key in E0. rewrite decide_True in E0 by done. unfold exists_or_zero in E0.
  rewrite (law_exists (db := cont)) in E0. unfold redis_key. rewrite decide_True by done.
  destruct (cont !! _); [by eexists|done].
Qed.

(** A path without elements panics. *)
Lemma resolve_empty_path s pre path ns db nsExist sep g2s :
  Elem (full_path pre (pointee path)) = [] -> GetTableKeySeparator g db ns = Ret sep ->
  resolve g T s pre path db ns nsExist g2s = Panic IndexOutOfRange.
Proof.
  intros He Hs. unfold resolve. rewrite Hs, He. cbn [or_zero]. rewrite bind_ret_l, lookupV2R_translator.
  done.
Qed.
End Resolve.

(** ** The constructor *)
Section Constructor.
Context `{RangeOrder} (g : dbconf) (T : clients).

Lemma resolve_inserts s pre path db ns nsExist g2s g2s' :
  resolve g T s pre path db ns nsExist g2s = Ret g2s' ->
  exists tps, g2s' = <[path := tps]> g2s.
Proof.
  unfold resolve. intros Hr. res_inv Hr.
  destruct (lookupV2R g s _) as [tps|e|p]; [|clear e|done].
  - destruct nsExist; [done|]. injection Hr as <-. by eexists.
  - res_inv Hr. destruct (client_of T ns db); [|done].
    res_inv Hr. res_inv Hr. injection Hr as <-. by eexists.
Qed.

Lemma populate_inserts pre path g2s s s' g2s' :
  populateDbtablePath g T pre path g2s s = (s', Ret g2s') ->
  exists tps, g2s' = <[path := tps]> g2s.
Proof.
  unfold populateDbtablePath, mbind, SE_bind, lift.
  destruct (IsTargetDb _) as [[[[db valid] ns] ex]|e|p]; [|done..].
  destruct (negb valid); [done|]. destruct (negb (namespace_valid g ns)); [done|].
  destruct ((if decide (db = "COUNTERS_DB") then initCountersMaps g T
             else mret tt : SE vstate unit) s) as [s1 [[]|e|p]]; [|done..].
  unfold get_state. intros [= -> Hr]. by eapply resolve_inserts.
Qed.

Lemma populateAll_dom pre paths g2s s s' g2s' :
  populateAllDbtablePath g T pre paths g2s s = (s', Ret g2s') ->
  dom g2s' = list_to_set paths ∪ dom g2s.
Proof.
  revert g2s s. induction paths as [|path paths IH]; intros g2s s.
  - intros [= -> ->]. set_solver.
  - cbn [populateAllDbtablePath]. unfold mbind, SE_bind.
    destruct (populateDbtablePath g T pre path g2s s) as [s1 [g1|e|p]] eqn:Hp; [|done..].
    intros Hr. apply IH in Hr. apply populate_inserts in Hp as [tps ->].
    rewrite Hr. set_solver.
Qed.

(** The constructor: a client it returns keeps the prefix and has table
    paths for exactly the requested paths. *)
Theorem NewDbClient_paths paths pre s s' c :
  NewDbClient g T paths pre s = (s', Ret c) ->
  prefix c = pre /\ forall p, is_Some (pathG2S c !! p) <-> p ∈ paths.
Proof.
  unfold NewDbClient, mbind, SE_bind.
  destruct (populateAllDbtablePath g T pre paths ∅ s) as [s1 [g1|e|p]] eqn:Hp; [|done..].
  intros [= <- <-]. split; [done|]. intros p.
  rewrite <- elem_of_dom. simpl. rewrite (populateAll_dom _ _ _ _ _ _ Hp). set_solver.
Qed.
End Constructor.

(** ** Reading *)
Section Reading.
Context `{RangeOrder} (T : clients).

(** Get: it succeeds exactly when the data of every path can be read,
    and then holds exactly one value per path, with the prefix of the client
    and the time of the request; the order of the map only permutes it. *)
Theorem Get_values (c : DbClient) ts :
  match Get T c ts with
  | Ret vs =>
      vs ≡ₚ omap (fun '(p, tps) => match tableData2TypedValue T tps with
                                    | Ret v => Some (DataValue (prefix c) p ts v)
                                    | _ => None end) (map_to_list (pathG2S c)) /\
      length vs = size (pathG2S c)
  | _ => exists p tps, pathG2S c !! p = Some tps /\
           forall v, tableData2TypedValue T tps <> Ret v
  end.
Proof.
  unfold Get. set (f := fun '(gnmiPath, tblPaths) => _ ≫= _).
  assert (forall l, match collectM f l with
    | Ret vs => vs = omap (fun '(p, tps) => match tableData2TypedValue T tps with
                        | Ret v => Some (DataValue (prefix c) p ts v)
                        | _ => None end) l /\ length vs = length l
    | _ => exists p tps, (p, tps) ∈ l /\ forall v, tableData2TypedValue T tps <> Ret v
    end) as Hl.
  { induction l as [|[p tps] l IH]; [done|]. rewrite collectM_cons.
    change (f (p, tps)) with (v ← tableData2TypedValue T tps; Ret [DataValue (prefix c) p ts v]).
    cbn [omap list_omap].
    destruct (tableData2TypedValue T tps) as [v|e|pn] eqn:Hv; simpl.
    - destruct (collectM f l) as [vs|e|pn]; simpl.
      + destruct IH as [-> Hlen]. split; [done|simpl; by f_equal].
      + destruct IH as (p' & tps' & ? & ?). exists p', tps'. by split; [right|].
      + destruct IH as (p' & tps' & ? & ?). exists p', tps'. by split; [right|].
    - exists p, tps. split; [left|]. by rewrite Hv.
    - exists p, tps. split; [left|]. by rewrite Hv. }
  specialize (Hl (range (pathG2S c))). destruct (collectM f _) as [vs|e|pn].
  - destruct Hl as [-> Hlen]. rewrite length_range in Hlen. split; [|done].
    apply omap_Permutation. apply range_perm.
  - destruct Hl as (p & tps & Hin & ?). exists p, tps. by split; [apply elem_of_range|].
  - destruct Hl as (p & tps & Hin & ?). exists p, tps. by split; [apply elem_of_range|].
Qed.

(** [ds] answers the paths [l], one value each in that order: the prefix of
    the client, the path, the time the clock shows then, and the data read
    from its tables. *)
Definition answered (c : DbClient) (clock : nat -> Z) (T' : clients) (l : list (PathPtr * list tablePath))
    (ds : list Value) : Prop :=
  length ds = length l /\
  forall i p tps, l !! i = Some (p, tps) ->
    exists v, tableData2TypedValue T' tps = Ret v /\ ds !! i = Some (DataValue (prefix c) p (clock i) v).

Lemma poll_paths_spec c clock T' l : forall i ds more,
  poll_paths T' c clock i l = Ret (ds, more) ->
  (more = true /\ exists ds', ds = ds' ++ [SyncValue (clock (i + length l))] /\
     answered c (fun n => clock (i + n)) T' l ds') \/
  (more = false /\ exists pre p tps post e, l = pre ++ (p, tps) :: post /\ tableData2TypedValue T' tps = Fail e /\
     answered c (fun n => clock (i + n)) T' pre ds).
Proof.
  assert (forall i p tps l v ds, tableData2TypedValue T' tps = Ret v ->
    answered c (fun n => clock (S i + n)) T' l ds ->
    answered c (fun n => clock (i + n)) T' ((p, tps) :: l) (DataValue (prefix c) p (clock i) v :: ds)) as Hcons.
  { intros i p tps l0 v ds Hv [Hlen Hds]. split; [simpl; by f_equal|]. intros [|n] p' tps' Hn; simpl in Hn.
    - injection Hn as <- <-. exists v. by rewrite Nat.add_0_r.
    - destruct (Hds n p' tps' Hn) as (v' & ? & ?). exists v'. by rewrite Nat.add_succ_r. }
  induction l as [|[p tps] l IH]; intros i ds more Hp; simpl in Hp.
  - injection Hp as <- <-. left. split; [done|]. exists []. by rewrite Nat.add_0_r.
  - destruct (tableData2TypedValue T' tps) as [v|e|pn] eqn:Hv; [| |done].
    + res_inv Hp. destruct a as [ds1 more1]. injection Hp as <- <-.
      apply IH in E as [(-> & ds2 & -> & Ha)|(-> & pre & p' & tps' & post & e & -> & Hf & Ha)].
      * left. split; [done|]. exists (DataValue (prefix c) p (clock i) v :: ds2). simpl.
        split; [by rewrite Nat.add_succ_r|by apply Hcons].
      * right. split; [done|]. exists ((p, tps) :: pre), p', tps', post, e. split_and!; [done|done|by apply Hcons].
    + injection Hp as <- <-. right. split; [done|]. by exists [], p, tps, l, e.
Qed.

(** C30. Poll: the paths are answered in the order the map gives them, each
    with the data read from its tables at that poll.  The answer is either
    complete (every path of the request, then a sync response) and the polls
    after it are answered, or, when the read for some path fails, it stops
    there: the paths before it are answered, no sync response is sent, and no
    later poll is answered. *)
Theorem PollRun_answers (c : DbClient) clock T' polls vs :
  PollRun c ((clock, T') :: polls) = Ret vs ->
  (exists ds rest, vs = ds ++ SyncValue (clock (size (pathG2S c))) :: rest /\
     answered c clock T' (range (pathG2S c)) ds /\ PollRun c polls = Ret rest) \/
  (exists pre p tps post e, range (pathG2S c) = pre ++ (p, tps) :: post /\
     tableData2TypedValue T' tps = Fail e /\ answered c clock T' pre vs).
Proof.
  cbn [PollRun]. unfold poll. intros Hr. res_inv Hr. destruct a as [ds more].
  apply poll_paths_spec in E as [(-> & ds' & -> & Ha)|(-> & pre & p & tps & post & e & El & Hf & Ha)].
  - left. res_inv Hr. injection Hr as <-. exists ds', a. rewrite length_range, <- app_assoc. done.
  - right. injection Hr as <-. by exists pre, p, tps, post, e.
Qed.
End Reading.

(** ** What a read returns *)
Section Data.
Context (T : clients) (r : redis) (db : gmap string hash) `{!RedisLaws r db}.
Context (ns dbn tbl : string) (c : ascii).
Context (Hr : client_of T ns dbn = Some r).

(** The table path of a whole table, and of one key of it. *)
Definition table_path (key : string) : tablePath := mk_path ns dbn tbl key (sep1 c) "" "" "".

Lemma add_key_table m k :
  contains_byte c tbl = false ->
  add_key (table_path "") false None r m (tbl +:+ sep1 c +:+ k) =
  Ret (<[k := MFields (default ∅ (db !! (tbl +:+ sep1 c +:+ k)))]> m).
Proof.
  intros Ht. unfold add_key. rewrite (law_hgetall (db := db)), bind_ret_l.
  rewrite decide_False by (intros Hj; by apply Hj). rewrite decide_False.
  - change (delimitor (table_path "")) with (sep1 c). by rewrite SplitN2_app.
  - change (tableName (table_path "")) with tbl. intros [[? _]|Heq]; [done|]. rewrite <- (app_nil_r_s tbl) in Heq at 1.
    by apply app_inj_l_s in Heq.
Qed.

Lemma add_keys_table l m :
  contains_byte c tbl = false ->
  (forall k, k ∈ l -> is_Some (db !! k) /\ exists t, k = (tbl +:+ sep1 c) +:+ t) ->
  exists m', foldM (add_key (table_path "") false None r) m l = Ret m' /\
    forall k, m' !! k = if decide ((tbl +:+ sep1 c) +:+ k ∈ l)
                        then MFields <$> db !! ((tbl +:+ sep1 c) +:+ k) else m !! k.
Proof.
  intros Ht. revert m. induction l as [|x l IH]; intros m Hl; [by exists m|].
  destruct (Hl x) as [[h Hh] [k ->]]; [by left|]. cbn [foldM].
  rewrite app_assoc_s in *. rewrite add_key_table, bind_ret_l by done.
  destruct (IH (<[k := MFields (default ∅ (db !! (tbl +:+ sep1 c +:+ k)))]> m)) as (m' & Hm' & Hk).
  { intros y Hy. apply Hl. by right. }
  exists m'. split; [done|]. intros q. rewrite Hk. rewrite !app_assoc_s.
  destruct (decide (k = q)) as [->|Hne].
  - rewrite lookup_insert_eq, Hh. rewrite (decide_True (P := _ ∈ _ :: _)) by left. by case_decide.
  - rewrite lookup_insert_ne by done. apply decide_ext. rewrite elem_of_cons.
    split; [by right|]. intros [Heq|?]; [|done].
    apply app_inj_l_s, app_inj_l_s in Heq. by subst.
Qed.

(** C13. Reading a table gives one JSON object with an entry per key of the
    table, the part of the redis key after the first separator, holding the
    fields of that key, and nothing else; reading one key gives its fields. *)
Theorem table_data :
  contains_byte c tbl = false -> literal tbl = true -> literal (sep1 c) = true ->
  (dbn = "COUNTERS_DB" -> tbl = "COUNTERS") ->
  (exists m, tableData2TypedValue T [table_path ""] = Ret (JsonIetfVal (Marshal_msi m)) /\
     forall k, m !! k = MFields <$> db !! (tbl +:+ sep1 c +:+ k)) /\
  (forall key, key <> "" ->
     tableData2TypedValue T [table_path key] =
     Ret (JsonIetfVal (Marshal_msi (MStr <$> default ∅ (db !! (tbl +:+ sep1 c +:+ key)))))).
Proof.
  intros Ht Hl1 Hl2 Hcount. split.
  - unfold tableData2TypedValue, collect_data. rewrite decide_False by (by intros [_ ?]).
    unfold tableData2Msi. rewrite decide_True by done.
    change (dbNamespace (table_path "")) with ns. change (dbName (table_path "")) with dbn.
    rewrite Hr. unfold table_pattern. rewrite decide_False by (simpl; naive_solver).
    change (tableName (table_path "") +:+ delimitor (table_path "") +:+ "*")
      with (tbl +:+ (sep1 c +:+ "*")). rewrite <- app_assoc_s.
    destruct (law_keys_prefix (r := r) (db := db) (tbl +:+ sep1 c)) as (l & Hl & _ & Hk).
    { rewrite literal_app. by rewrite Hl1, Hl2. }
    cbn [call]. rewrite Hl, bind_ret_l, decide_False by (by intros [? _]).
    change (foldM _ ∅ l) with (foldM (add_key (table_path "") false None r) ∅ l).
    destruct (add_keys_table l ∅) as (m & -> & Hm); [done|apply Hk|].
    exists m. split; [done|]. intros k. rewrite Hm. rewrite <- app_assoc_s.
    case_decide as Hin; [done|]. rewrite lookup_empty.
    destruct (db !! _) eqn:Hdb; [|done]. destruct Hin. apply Hk. split; [by eexists|by eexists].
  - intros key Hkey. unfold tableData2TypedValue, collect_data.
    rewrite decide_False by (by intros [_ ?]).
    unfold tableData2Msi. rewrite decide_False by done. rewrite bind_ret_l.
    rewrite decide_False by (by intros [? _]). cbn [foldM].
    change (dbNamespace (table_path key)) with ns. change (dbName (table_path key)) with dbn.
    rewrite Hr. unfold add_key. rewrite (law_hgetall (db := db)), bind_ret_l.
    rewrite decide_False by (intros Hj; by apply Hj). rewrite decide_True by (by left).
    simpl. by rewrite (right_id_L ∅ (∪)).
Qed.
End Data.

(** ** Witnesses *)

Definition sample_state_db : gmap string hash := list_to_map
  [("NEIGH_STATE_TABLE|10.0.0.57", {["state" := "Established"]});
   ("NEIGH_STATE_TABLE|10.0.0.59", {["state" := "Idle"]});
   ("SWITCH_CAPABILITY|switch", {["MIRROR" := "true"]})].

Definition sample_redis : redis := @mem_redis default_order sample_state_db.
Definition sample_clients : clients := {["" := {["STATE_DB" := sample_redis]}]}.

Definition elem (n : string) : PathElem := {| Name := n; Key := None |}.
Definition elems_path (a : nat) (l : list string) : PathPtr :=
  {| addr := a; pointee := {| Origin := ""; Target := ""; Element := []; Elem := elem <$> l |} |}.
Definition target_prefix (t : string) : option Path :=
  Some {| Origin := ""; Target := t; Element := []; Elem := [] |}.

Definition neigh_path : PathPtr := elems_path 1 ["NEIGH_STATE_TABLE"; "10.0.0.57"; "state"].

Lemma resolve_real_witness :
  let _ := default_order in
  exists t, resolve single_conf sample_clients empty_vstate (target_prefix "STATE_DB") neigh_path
              "STATE_DB" "" false ∅ = Ret (<[neigh_path := [t]]> ∅) /\
    Join (components t) "|" = "NEIGH_STATE_TABLE|10.0.0.57|state" /\
    is_Some (sample_state_db !! redis_key t).
Proof.
  set (g2s := <[neigh_path := [mk_path "" "STATE_DB" "NEIGH_STATE_TABLE" "10.0.0.57" "|" "state" "" ""]]>
                (∅ : gmap PathPtr (list tablePath))).
  destruct (@resolve_real default_order single_conf sample_clients empty_vstate
    (target_prefix "STATE_DB") neigh_path "" "STATE_DB" false "|" sample_redis sample_state_db ∅ g2s)
    as (t & Hg & _ & _ & _ & _ & _ & Hj & Hk).
  - reflexivity.
  - discriminate.
  - set_solver.
  - reflexivity.
  - reflexivity.
  - apply mem_redis_laws.
  - reflexivity.
  - exists t. rewrite <- Hg. split; [reflexivity|]. split; [exact Hj|].
    assert (t = mk_path "" "STATE_DB" "NEIGH_STATE_TABLE" "10.0.0.57" "|" "state" "" "") as ->.
    { apply (f_equal (fun m => m !! neigh_path)) in Hg. unfold g2s in Hg.
      rewrite !lookup_insert_eq in Hg. injection Hg as Hg. symmetry. exact Hg. }
    apply Hk. discriminate.
Defined.

Definition sample_client : DbClient := {|
  prefix := target_prefix "STATE_DB";
  pathG2S := {[neigh_path := [mk_path "" "STATE_DB" "NEIGH_STATE_TABLE" "10.0.0.57" "|" "state" "" ""]]} |}.

Lemma NewDbClient_paths_witness :
  let _ := default_order in
  prefix sample_client = target_prefix "STATE_DB" /\
  forall p, is_Some (pathG2S sample_client !! p) <-> p ∈ [neigh_path].
Proof.
  apply (@NewDbClient_paths default_order single_conf sample_clients [neigh_path]
    (target_prefix "STATE_DB") empty_vstate empty_vstate sample_client).
  reflexivity.
Defined.

(** The value of a field is read as a string. *)
Example sample_get :
  let _ := default_order in
  Get sample_clients sample_client 7 =
  Ret [DataValue (target_prefix "STATE_DB") neigh_path 7 (StringVal "Established")].
Proof. vm_compute. reflexivity. Qed.

Lemma PollRun_answers_witness :
  let _ := default_order in
  let out := [DataValue (target_prefix "STATE_DB") neigh_path 7 (StringVal "Established"); SyncValue 7] in
  (exists ds rest, out = ds ++ SyncValue 7 :: rest /\
     answered sample_client (fun _ => 7%Z) sample_clients (range (pathG2S sample_client)) ds /\
     PollRun sample_client [] = Ret rest) \/
  (exists pre p tps post e, range (pathG2S sample_client) = pre ++ (p, tps) :: post /\
     tableData2TypedValue sample_clients tps = Fail e /\ answered sample_client (fun _ => 7%Z) sample_clients pre out).
Proof.
  apply (@PollRun_answers default_order sample_client (fun _ => 7%Z) sample_clients []).
  vm_compute. reflexivity.
Defined.

Lemma table_data_witness :
  exists m, tableData2TypedValue sample_clients [table_path "" "STATE_DB" "NEIGH_STATE_TABLE" "|" ""]
              = Ret (JsonIetfVal (Marshal_msi m)) /\
    forall k, m !! k = MFields <$> sample_state_db !! ("NEIGH_STATE_TABLE" +:+ "|" +:+ k).
Proof.
  apply (@table_data sample_clients sample_redis sample_state_db
    (@mem_redis_laws default_order sample_state_db) "" "STATE_DB" "NEIGH_STATE_TABLE" "|" eq_refl).
  - reflexivity.
  - reflexivity.
  - reflexivity.
  - discriminate.
Defined.

(** A subscription or get request for a database with a path that has no
    elements panics in [populateDbtablePath]. *)
Lemma empty_path_panics :
  let _ := default_order in
  (NewDbClient single_conf sample_clients [elems_path 1 []] (target_prefix "STATE_DB") empty_vstate).2
  = Panic IndexOutOfRange.
Proof. vm_compute. reflexivity. Qed.

(** The target OTHERS/ with a namespace part passes [IsTargetDb], and the
    lookup of its separator panics. *)
Lemma others_namespace_panics :
  let _ := default_order in
  (NewDbClient single_conf sample_clients [neigh_path] (target_prefix "OTHERS/") empty_vstate).2
  = Panic TypeAssertion.
Proof. vm_compute. reflexivity. Qed.

(** The elements of the prefix are dropped when the path has none. *)
Lemma prefix_elems_dropped pre path :
  Elem path = [] -> Elem (gnmiFullPath (Some pre) path) = [].
Proof. intros He. unfold gnmiFullPath. simpl. by rewrite decide_True. Qed.
