(* ===== verification/DbStream.v ===== *)
(** * Subscriptions of the database client:
    [StreamRun] of [sonic_data_client/db_client.go] and its goroutines

    A goroutine is a function of the events it can receive, in the order it
    receives them: each event carries what the environment supplies there
    (the redis contents, the clock, whether the queue accepts values).  The
    result of a run is an [outcome]: what the goroutine did for others to see,
    in order (the values it put on the queue, its calls of [synced.Done] and
    [w.Done]), and whether it is still running.  [Put] fails only on a queue
    that was disposed, and disposal is permanent, so a fatal message that
    follows a failed [Put] is not enqueued either. *)

From stdpp Require Import base tactics list fin_maps gmap strings pretty.
From Stdlib Require Import ZArith Ascii Lia.
From S2P Require Import Prelude GoStrings Messages DbConfig RedisDb VirtualDb Msi DbClient.

Local Open Scope string_scope.
Local Open Scope list_scope.

Inductive action := Put (v : Value) | synced_Done | w_Done.

Record outcome := { log : list action; running : bool }.

(** The values put on the queue, and how often the calls were made. *)
Definition sent (o : outcome) : list Value :=
  omap (fun a => match a with Put v => Some v | _ => None end) (log o).
Definition synced (o : outcome) : nat :=
  length (omap (fun a => match a with synced_Done => Some tt | _ => None end) (log o)).
Definition w_done (o : outcome) : nat :=
  length (omap (fun a => match a with w_Done => Some tt | _ => None end) (log o)).

(** What a goroutine does before the rest. *)
Definition doing (acts : list action) (o : outcome) : outcome :=
  {| log := acts ++ log o; running := running o |}.

Definition more (vs : list Value) (o : outcome) : outcome := doing (Put <$> vs) o.

(** It waits for its next event, or it returns. *)
Definition still_running : outcome := {| log := []; running := true |}.
Definition returned : outcome := {| log := []; running := false |}.

(** [defer c.w.Done()]: called when the function returns. *)
Definition defer_w_Done (m : res outcome) : res outcome :=
  o ← m; Ret (if running o then o else {| log := log o ++ [w_Done]; running := false |}).

(** The events of a goroutine that samples: the interval elapsed, or the
    client closed its channel. *)
Inductive event :=
  | Tick (T : clients) (now : Z) (accepts : bool)
  | Stop.

(** ** Intervals *)

Definition MinSampleInterval : Z := 1000000000.

(** [time.Duration(sub.GetSampleInterval())] is a conversion from uint64. *)
Definition validateSampleInterval (sub : Subscription) : res Z :=
  let requestedInterval := i64 (s_SampleInterval sub) in
  if decide (requestedInterval = 0%Z) then Ret MinSampleInterval
  else if (requestedInterval <? MinSampleInterval)%Z
  then Fail (Errorf "invalid interval: %v. It cannot be less than %v"
               [pretty requestedInterval; pretty MinSampleInterval])
  else Ret requestedInterval.

(** ** A field of one table: [dbFieldSubscribe] *)

(** [readVal]: a missing field or a failed read is the empty string. *)
Definition read_field (T : clients) (t : tablePath) : res string :=
  or_zero "" (call (client_of T (dbNamespace t) (dbName t)) (fun r => HGet r (redis_key t) (field t))).

Fixpoint field_loop (c : DbClient) (path : PathPtr) (t : tablePath) (onChange : bool)
    (val : string) (evs : list event) : res outcome :=
  match evs with
  | [] => Ret still_running
  | Stop :: _ => Ret returned
  | Tick T now accepts :: evs =>
      newVal ← read_field T t;
      if decide (onChange = false \/ newVal <> val) then
        if (accepts : bool)
        then o ← field_loop c path t onChange newVal evs;
             Ret (more [DataValue (prefix c) path now (StringVal newVal)] o)
        else Ret returned
      else field_loop c path t onChange val evs
  end.

Definition table_paths (c : DbClient) (path : PathPtr) : list tablePath := default [] (pathG2S c !! path).

Definition head_path (l : list tablePath) : res tablePath :=
  match l with t :: _ => Ret t | [] => Panic IndexOutOfRange end.

Definition dbFieldSubscribe (c : DbClient) (path : PathPtr) (onChange : bool)
    (T0 : clients) (now0 : Z) (accepts : bool) (evs : list event) : res outcome :=
  defer_w_Done (
    t ← head_path (table_paths c path);
    val ← read_field T0 t;
    if (accepts : bool)
    then o ← field_loop c path t onChange val evs;
         Ret (more [DataValue (prefix c) path now0 (StringVal val)] (doing [synced_Done] o))
    else Ret (doing [synced_Done] returned)).

(** ** A field of several tables: [dbFieldMultiSubscribe] *)

Abbreviation saved := (gmap tablePath string).

Definition read_path (T : clients) (onChange updateOnly : bool) (st : msi * saved) (t : tablePath) :
    res (msi * saved) :=
  let '(m, pv) := st in
  match call (client_of T (dbNamespace t) (dbName t)) (fun r => HGet r (redis_key t) (field t)) with
  | Panic p => Panic p
  | res =>
      if decide (res = Fail redis_Nil /\ jsonField t <> "") then Ret (m, pv) else
      let val := match res with Ret v => v | _ => "" end in
      if decide ((onChange = true \/ updateOnly = true) /\ pv !! t = Some val) then Ret (m, pv)
      else Ret (<[jsonTableKey t := MFields {[jsonField t := val]}]> m, <[t := val]> pv)
  end.

Definition read_multi (T : clients) (tblPaths : list tablePath) (onChange updateOnly : bool)
    (pv : saved) : res (msi * saved) :=
  foldM (read_path T onChange updateOnly) (∅, pv) tblPaths.

Fixpoint multi_loop (c : DbClient) (path : PathPtr) (onChange updateOnly : bool)
    (pv : saved) (evs : list event) : res outcome :=
  match evs with
  | [] => Ret still_running
  | Stop :: _ => Ret returned
  | Tick T now accepts :: evs =>
      '(m, pv) ← read_multi T (table_paths c path) onChange updateOnly pv;
      if decide (onChange = false \/ m <> ∅) then
        v ← msi2TypedValue m;
        if (accepts : bool)
        then o ← multi_loop c path onChange updateOnly pv evs;
             Ret (more [DataValue (prefix c) path now v] o)
        else Ret returned
      else multi_loop c path onChange updateOnly pv evs
  end.

Definition dbFieldMultiSubscribe (c : DbClient) (path : PathPtr) (onChange updateOnly : bool)
    (T0 : clients) (now0 : Z) (accepts : bool) (evs : list event) : res outcome :=
  defer_w_Done (
    '(m, pv) ← read_multi T0 (table_paths c path) onChange updateOnly ∅;
    v ← msi2TypedValue m;
    if (accepts : bool)
    then o ← multi_loop c path onChange updateOnly pv evs;
         Ret (more [DataValue (prefix c) path now0 v] (doing [synced_Done] o))
    else Ret (doing [synced_Done] returned)).

(** ** Keyspace notifications of one table: [dbSingleTableKeySubscribe] *)

(** What [ReceiveTimeout] returns, or the stop signal. *)
Inductive notification :=
  | Message (channel payload : string) (T : clients)
  | RecvTimeout
  | RecvError
  | StopSignal.

Inductive reaction :=
  | Keep                       (* continue with the next notification *)
  | Update (emit : option msi) (m : msi)
  | Abandon (msg : string).    (* a fatal message, then return *)

Definition bytes_from (n : nat) (s : string) : option string :=
  if decide (String.length s < n) then None else Some (drop_bytes n s).

(** The reaction to one message; [m] is the data of the last set. *)
Definition react (t : tablePath) (prefixLen : nat) (m : msi) (channel payload : string)
    (T : clients) : res reaction :=
  if decide (payload = "del" \/ payload = "hdel") then
    if decide (tableKey t <> "") then Ret (Update None m)
    else match bytes_from prefixLen channel with
         | None => Ret Keep
         | Some key => Ret (Update (Some {[key := MFields ∅]}) m)
         end
  else if decide (payload = "hset") then
    match (if decide (tableKey t <> "") then Some t else with_key t <$> bytes_from prefixLen channel) with
    | None => Ret Keep
    | Some t' =>
        match tableData2Msi T t' false None ∅ with
        | Panic p => Panic p
        | Fail e => Ret (Abandon (err_text e))
        | Ret newMsi =>
            if decide (newMsi = m) then Ret Keep
            else Ret (Update (if decide (newMsi = ∅) then None else Some newMsi) newMsi)
        end
    end
  else Ret Keep.

(** The run of the goroutine: the tables it sends on the update channel, and
    the fatal message if it gives up.  An error other than a timeout makes it
    wait for the stop signal. *)
Fixpoint single_loop (t : tablePath) (prefixLen : nat) (m : msi) (ns : list notification) :
    res (list msi * option string) :=
  match ns with
  | [] | StopSignal :: _ | RecvError :: _ => Ret ([], None)
  | RecvTimeout :: ns => single_loop t prefixLen m ns
  | Message channel payload T :: ns =>
      r ← react t prefixLen m channel payload T;
      match r with
      | Keep => single_loop t prefixLen m ns
      | Abandon msg => Ret ([], Some msg)
      | Update emit m' =>
          '(us, f) ← single_loop t prefixLen m' ns;
          Ret (match emit with Some u => u :: us | None => us end, f)
      end
  end.

Definition dbSingleTableKeySubscribe (t : tablePath) (prefixLen : nat) (ns : list notification) :=
  single_loop t prefixLen ∅ ns.

(** ** Tables: [dbTableKeySubscribe] *)

(** The keyspace pattern of a table path and the length of the part before
    the key. *)
Definition keyspace (t : tablePath) : string * nat :=
  let pattern := "__keyspace@" +:+ pretty (default 0%Z (Target_value !! dbName t)) +:+ "__:" +:+
                 tableName t +:+
                 (if decide (dbName t = "COUNTERS_DB" /\ tableName t <> "COUNTERS") then ""
                  else delimitor t) in
  if decide (tableKey t <> "")
  then (pattern +:+ tableKey t, String.length (pattern +:+ tableKey t))
  else (pattern +:+ "*", String.length pattern).

(** Subscribing to one path: whether [PSubscribe] was confirmed for the
    pattern, and the redis contents then. *)
Definition register (T0 : clients) (confirmed : tablePath -> bool)
    (st : msi * list (tablePath * nat)) (t : tablePath) : res (msi * list (tablePath * nat)) :=
  let '(m, rsd) := st in
  let '(pattern, prefixLen) := keyspace t in
  match client_of T0 (dbNamespace t) (dbName t) with
  | None => Panic NilDereference
  | Some _ =>
      if confirmed t
      then m ← tableData2Msi T0 t false None m; Ret (m, rsd ++ [(t, prefixLen)])
      else Fail (Errorf "psubscribe to %s failed for %v" [pattern; show_path t])
  end.

(** The events of the main loop: a table from a listener, the interval timer,
    or the stop signal. *)
Inductive table_event :=
  | Updated (u : msi) (now : Z) (accepts : bool)
  | Elapsed (now : Z) (accepts : bool)
  | Closed.

(** [msiAll[k] = updatedTable[k]] for every key. *)
Definition merge (m u : msi) : msi := u ∪ m.

(** [signalSync]: [synced] is the variable it guards itself with. *)
Definition signalSync (synced : bool) (k : bool -> res outcome) : res outcome :=
  if synced then k synced
  else o ← k true; Ret (doing [synced_Done] o).

(** [handleFatalMsg], after which the goroutine returns. *)
Definition handleFatalMsg (synced : bool) (now : Z) (accepts : bool) (msg : string) : res outcome :=
  o ← signalSync synced (fun _ => Ret returned);
  Ret (more (if accepts then [FatalValue now msg] else []) o).

Definition sendMsiData (c : DbClient) (path : PathPtr) (m : msi) (now : Z) (accepts : bool) : res Value :=
  val ← msi2TypedValue m;
  if accepts then Ret (DataValue (prefix c) path now val) else Fail (Err "Queue error").

Fixpoint table_loop (c : DbClient) (path : PathPtr) (interval : Z) (updateOnly synced : bool)
    (m : msi) (evs : list table_event) : res outcome :=
  match evs with
  | [] => Ret still_running
  | Closed :: _ => Ret returned
  | Updated u now accepts :: evs =>
      if decide (interval = 0%Z) then
        match sendMsiData c path u now accepts with
        | Panic p => Panic p
        | Fail e => handleFatalMsg synced now accepts (err_text e)
        | Ret v => o ← table_loop c path interval updateOnly synced m evs; Ret (more [v] o)
        end
      else table_loop c path interval updateOnly synced (merge m u) evs
  | Elapsed now accepts :: evs =>
      match sendMsiData c path m now accepts with
      | Panic p => Panic p
      | Fail e => handleFatalMsg synced now accepts (err_text e)
      | Ret v => o ← table_loop c path interval updateOnly synced (if updateOnly then ∅ else m) evs; Ret (more [v] o)
      end
  end.

Definition dbTableKeySubscribe (c : DbClient) (path : PathPtr) (interval : Z) (updateOnly : bool)
    (T0 : clients) (confirmed : tablePath -> bool) (now0 : Z) (accepts : bool)
    (evs : list table_event) : res outcome :=
  defer_w_Done (
    let synced := false in
    match foldM (register T0 confirmed) (∅, []) (table_paths c path) with
    | Panic p => Panic p
    | Fail e => handleFatalMsg synced now0 accepts (err_text e)
    | Ret (m, _) =>
        match sendMsiData c path m now0 accepts with
        | Panic p => Panic p
        | Fail e => handleFatalMsg synced now0 accepts (err_text e)
        | Ret v =>
            o ← signalSync synced (fun synced =>
                  table_loop c path interval updateOnly synced (if updateOnly then ∅ else m) evs);
            Ret (more [v] o)
        end
    end).

(** ** The stream *)

(** The goroutines [StreamRun] can start. *)
Inductive routine :=
  | FieldMulti (path : PathPtr) (onChange : bool) (interval : Z) (updateOnly : bool)
  | Field (path : PathPtr) (onChange : bool) (interval : Z)
  | TableKey (path : PathPtr) (interval : Z) (updateOnly : bool)
  | Invalid (msg : string).    (* [invalid_subscription] *)

Definition streamOnChangeSubscription (c : DbClient) (path : PathPtr) : res routine :=
  let tblPaths := table_paths c path in
  t ← head_path tblPaths;
  if decide (field t <> "") then
    if decide (1 < length tblPaths) then Ret (FieldMulti path true 200000000 false)
    else Ret (Field path true 200000000)
  else Ret (TableKey path 0 true).

(** An invalid interval: a fatal message, and both calls. *)
Definition invalid_subscription (msg : string) (now : Z) (accepts : bool) : outcome :=
  more (if accepts then [FatalValue now msg] else []) (doing [synced_Done; w_Done] returned).

Definition streamSampleSubscription (c : DbClient) (sub : Subscription) (updateOnly : bool) :
    res routine :=
  match validateSampleInterval sub with
  | Panic p => Panic p
  | Fail e => Ret (Invalid (err_text e))
  | Ret samplingInterval =>
      let path := s_Path sub in
      let tblPaths := table_paths c path in
      t ← head_path tblPaths;
      if decide (field t <> "") then
        if decide (1 < length tblPaths) then Ret (FieldMulti path false samplingInterval updateOnly)
        else Ret (Field path false samplingInterval)
      else Ret (TableKey path samplingInterval updateOnly)
  end.

(** [StreamRun] up to the wait: the goroutines started, in order, and the
    fatal message of an unsupported mode, after which it returns at once. *)
Fixpoint start_subscriptions (c : DbClient) (updatesOnly : bool) (subs : list Subscription) :
    res (list routine * option string) :=
  match subs with
  | [] => Ret ([], None)
  | sub :: subs =>
      match s_Mode sub with
      | SAMPLE =>
          r ← streamSampleSubscription c sub updatesOnly;
          '(rs, f) ← start_subscriptions c updatesOnly subs; Ret (r :: rs, f)
      | ON_CHANGE =>
          r ← streamOnChangeSubscription c (s_Path sub);
          '(rs, f) ← start_subscriptions c updatesOnly subs; Ret (r :: rs, f)
      | TARGET_DEFINED => Ret ([], Some "unsupported subscription mode, TARGET_DEFINED")
      | UnknownSubscriptionMode n =>
          Ret ([], Some ("unsupported subscription mode, " +:+ pretty n))
      end
  end.

Definition StreamRun_start `{RangeOrder} (c : DbClient) (subscribe : option SubscriptionList) :
    res (list routine * option string) :=
  match subscribe with
  | Some sl =>
      if decide (sl_Subscription sl = [])
      then rs ← collectM (fun p => r ← streamOnChangeSubscription c p; Ret [r]) (range (pathG2S c)).*1;
           Ret (rs, None)
      else start_subscriptions c (sl_UpdatesOnly sl) (sl_Subscription sl)
  | None => rs ← collectM (fun p => r ← streamOnChangeSubscription c p; Ret [r]) (range (pathG2S c)).*1;
            Ret (rs, None)
  end.

(** ** Wait groups *)

#[local] Arguments sent : simpl never.
#[local] Arguments doing : simpl never.
#[local] Arguments more : simpl never.

Lemma sent_doing acts o :
  sent (doing acts o) = omap (fun a => match a with Put v => Some v | _ => None end) acts ++ sent o.
Proof. unfold sent, doing. simpl. apply omap_app. Qed.

Lemma sent_more vs o : sent (more vs o) = vs ++ sent o.
Proof. unfold more. rewrite sent_doing. f_equal. induction vs as [|v vs IH]; [done|]. simpl. by f_equal. Qed.

Lemma sent_synced o : sent (doing [synced_Done] o) = sent o.
Proof. by rewrite sent_doing. Qed.

Lemma running_more vs o : running (more vs o) = running o.
Proof. done. Qed.

Lemma defer_running m o : m = Ret o -> running o = true -> defer_w_Done m = Ret o.
Proof. intros -> Hr. unfold defer_w_Done. simpl. by rewrite Hr. Qed.

(** The values that were sent are there whether or not the goroutine
    returned. *)
Lemma defer_sent m o : defer_w_Done m = Ret o -> exists o', m = Ret o' /\ sent o = sent o' /\ running o = running o'.
Proof.
  intros Hd. unfold defer_w_Done in Hd. res_inv Hd. injection Hd as <-. exists a. split; [done|].
  destruct (running a) eqn:Hr; [by rewrite Hr|]. split; [|done]. unfold sent. simpl. rewrite omap_app. simpl. by rewrite app_nil_r.
Qed.

(** Only values are put on the queue. *)
Definition only_sends (o : outcome) : Prop := exists vs, log o = Put <$> vs.

Lemma only_still : only_sends still_running.
Proof. by exists []. Qed.
Lemma only_returned : only_sends returned.
Proof. by exists []. Qed.
Lemma only_more vs o : only_sends o -> only_sends (more vs o).
Proof. intros [ws Hw]. exists (vs ++ ws). unfold more, doing. simpl. by rewrite Hw, fmap_app. Qed.
#[local] Hint Resolve only_still only_returned only_more : core.

Lemma field_loop_sends c path t onChange evs : forall val o,
  field_loop c path t onChange val evs = Ret o -> only_sends o.
Proof.
  induction evs as [|[T now acc|] evs IH]; intros val o; simpl; [by intros [= <-]| |by intros [= <-]].
  intros Hr. res_inv Hr. case_decide; [|eauto].
  destruct acc; [|by injection Hr as <-]. res_inv Hr. injection Hr as <-. eauto.
Qed.

Lemma multi_loop_sends c path onChange updateOnly evs : forall pv o,
  multi_loop c path onChange updateOnly pv evs = Ret o -> only_sends o.
Proof.
  induction evs as [|[T now acc|] evs IH]; intros pv o; simpl; [by intros [= <-]| |by intros [= <-]].
  intros Hr. res_inv Hr. destruct a as [m pv']. case_decide; [|eauto].
  destruct acc; [|by injection Hr as <-]. simpl in Hr. res_inv Hr. injection Hr as <-. eauto.
Qed.

(** After the sync was signalled, a fatal message signals nothing. *)
Lemma handleFatalMsg_sends now acc msg o : handleFatalMsg true now acc msg = Ret o -> only_sends o.
Proof. intros [= <-]. auto. Qed.

Lemma table_loop_sends c path interval updateOnly evs : forall m o,
  table_loop c path interval updateOnly true m evs = Ret o -> only_sends o.
Proof.
  induction evs as [|[u now acc|now acc|] evs IH]; intros m o; cbn [table_loop]; [by intros [= <-]| | |by intros [= <-]].
  - case_decide; [|eauto]. destruct (sendMsiData _ _ _ _ _) as [v|e|p]; [|apply handleFatalMsg_sends|done].
    intros Hr. res_inv Hr. injection Hr as <-. eauto.
  - destruct (sendMsiData _ _ _ _ _) as [v|e|p]; [|apply handleFatalMsg_sends|done].
    intros Hr. res_inv Hr. injection Hr as <-. eauto.
Qed.

(** The calls of a goroutine: one message if the queue takes it, then
    [synced.Done], then only messages, and [w.Done] last, when it returns. *)
Definition once_each (acc : bool) (o : outcome) : Prop :=
  exists pre post, log o = (Put <$> pre) ++ synced_Done :: (Put <$> post) ++ (if running o then [] else [w_Done]) /\
    length pre = Nat.b2n acc.

Lemma deferred_once acc m o pre o' :
  m = Ret (more pre (doing [synced_Done] o')) -> only_sends o' -> length pre = Nat.b2n acc ->
  defer_w_Done m = Ret o -> once_each acc o.
Proof.
  intros -> [post Hp] Hpre. unfold defer_w_Done. simpl. change (running (more pre (doing [synced_Done] o'))) with (running o').
  intros [= <-]. exists pre, post. split; [|done]. destruct (running o') eqn:Hr.
  - unfold more, doing. simpl. by rewrite Hr, Hp, app_nil_r.
  - unfold more, doing. simpl. by rewrite Hp, <- !app_assoc.
Qed.

Lemma no_omap {B} (f : action -> option B) vs : (forall v, f (Put v) = None) -> omap f (Put <$> vs) = [].
Proof. intros Hf. induction vs as [|v vs IH]; [done|]. simpl. by rewrite Hf. Qed.

Lemma once_each_counts acc o :
  once_each acc o -> synced o = 1 /\ w_done o = (if running o then 0 else 1).
Proof.
  intros (pre & post & Hl & _). unfold synced, w_done. rewrite Hl, !omap_app. cbn [omap list_omap].
  rewrite !omap_app, !no_omap by done. destruct (running o); by split.
Qed.

Lemma table_once c path interval updateOnly T0 conf now0 acc evs o :
  dbTableKeySubscribe c path interval updateOnly T0 conf now0 acc evs = Ret o -> once_each acc o.
Proof.
  unfold dbTableKeySubscribe. cbv zeta. intros Hr.
  assert (forall msg, defer_w_Done (handleFatalMsg false now0 acc msg) = Ret o -> once_each acc o) as Hf.
  { intros msg Hd. eapply (deferred_once acc _ o (if acc then [FatalValue now0 msg] else [])); [| |by destruct acc|exact Hd]; done. }
  destruct (foldM _ _ _) as [[m rsd]|e|p]; [|by eapply Hf|done].
  destruct (sendMsiData _ _ _ _ _) as [v|e|p] eqn:Es; [|by eapply Hf|done].
  assert (acc = true) as -> by (unfold sendMsiData in Es; res_inv Es; by destruct acc).
  destruct (defer_sent _ _ Hr) as (o' & E & _). unfold signalSync in E.
  pose proof E as E'. res_inv E'. injection E' as <-. simpl in E0. res_inv E0. injection E0 as <-.
  eapply deferred_once; [exact E|by eapply table_loop_sends|done|exact Hr].
Qed.

(** C33. Wait groups: whatever events a subscription goroutine sees and
    however it ends, it calls [synced.Done] exactly once and [w.Done] exactly
    once, when it returns and not before.  [synced.Done] comes right after its
    first message, which it has put on the queue unless the queue was disposed
    (then after none), so the sync response, which waits for these calls,
    follows the first messages of all subscriptions. *)
Theorem wait_groups_balanced c path onChange updateOnly interval T0 now0 acc o :
  (exists evs, dbFieldSubscribe c path onChange T0 now0 acc evs = Ret o) \/
  (exists evs, dbFieldMultiSubscribe c path onChange updateOnly T0 now0 acc evs = Ret o) \/
  (exists conf evs, dbTableKeySubscribe c path interval updateOnly T0 conf now0 acc evs = Ret o) \/
  (exists msg, o = invalid_subscription msg now0 acc) ->
  synced o = 1 /\ w_done o = (if running o then 0 else 1) /\
  exists pre post, log o = (Put <$> pre) ++ synced_Done :: (Put <$> post) ++ (if running o then [] else [w_Done]) /\
    length pre = Nat.b2n acc.
Proof.
  intros Ho. enough (once_each acc o) as Hb by (destruct (once_each_counts acc o Hb); by split_and!).
  destruct Ho as [[evs Hr]|[[evs Hr]|[(conf & evs & Hr)|[msg ->]]]].
  - destruct (defer_sent _ _ Hr) as (o' & E & _). pose proof E as E'. res_inv E'. res_inv E'.
    destruct acc; [res_inv E'; injection E' as <-|injection E' as <-].
    + eapply deferred_once; [exact E|by eapply field_loop_sends|done|exact Hr].
    + by eapply (deferred_once _ _ _ []); [exact E|..].
  - destruct (defer_sent _ _ Hr) as (o' & E & _). pose proof E as E'. res_inv E'. destruct a as [m pv]. simpl in E'.
    destruct acc; [res_inv E'; injection E' as <-|injection E' as <-].
    + eapply deferred_once; [exact E|by eapply multi_loop_sends|done|exact Hr].
    + by eapply (deferred_once _ _ _ []); [exact E|..].
  - by eapply table_once.
  - exists (if acc then [FatalValue now0 msg] else []), []. split; [|by destruct acc].
    unfold invalid_subscription, more, doing. by destruct acc.
Qed.

(** ** One field *)

(** The entries whose value differs from the one before. *)
Fixpoint changes (val : string) (l : list (Z * string)) : list (Z * string) :=
  match l with
  | [] => []
  | (now, v) :: l => if decide (v = val) then changes val l else (now, v) :: changes v l
  end.

Definition ticks (l : list (clients * Z)) : list event := (fun x => Tick x.1 x.2 true) <$> l.

(** The values of the field at the ticks. *)
Definition reads_are (t : tablePath) (l : list (clients * Z)) (vals : list (Z * string)) : Prop :=
  Forall2 (fun x y => read_field x.1 t = Ret y.2 /\ y.1 = x.2) l vals.

Lemma field_loop_sent c path t onChange l : forall val vals,
  reads_are t l vals ->
  exists o, field_loop c path t onChange val (ticks l) = Ret o /\ running o = true /\
    sent o = (fun x => DataValue (prefix c) path x.1 (StringVal x.2)) <$>
             (if onChange then changes val vals else vals).
Proof.
  induction l as [|[T now] l IH]; intros val vals Hr.
  - inversion Hr; subst. exists still_running. by destruct onChange.
  - inversion Hr as [|? [n v] ? vals' [Hv Hn] Hr']; subst. simpl in *. subst n. rewrite Hv. simpl.
    destruct (IH v vals' Hr') as (o & Ho & Hrun & Hs).
    destruct onChange.
    + destruct (decide (v = val)) as [->|Hne].
      * rewrite decide_False by naive_solver. by exists o.
      * rewrite decide_True by auto. rewrite Ho. simpl.
        eexists. split_and!; [done|done|]. by rewrite sent_more, Hs.
    + rewrite decide_True by auto. rewrite Ho. simpl.
      eexists. split_and!; [done|done|]. by rewrite sent_more, Hs.
Qed.

(** C31. A subscription to one field: the value at the start is sent first;
    on change, exactly the later values that differ from the one before are
    sent, in order; when sampling, the value at every tick. *)
Theorem field_subscription_sent c path t rest onChange T0 now0 v0 l vals :
  pathG2S c !! path = Some (t :: rest) ->
  read_field T0 t = Ret v0 -> reads_are t l vals ->
  exists o, dbFieldSubscribe c path onChange T0 now0 true (ticks l) = Ret o /\ running o = true /\
    sent o = (fun x => DataValue (prefix c) path x.1 (StringVal x.2)) <$>
             (now0, v0) :: (if onChange then changes v0 vals else vals).
Proof.
  intros Hp Hv Hr. unfold dbFieldSubscribe, table_paths. rewrite Hp. simpl. rewrite Hv. simpl.
  destruct (field_loop_sent c path t onChange l v0 vals Hr) as (o & Ho & Hrun & Hs).
  rewrite Ho. eexists. split_and!; [by apply defer_running|done|].
  by rewrite sent_more, sent_synced, Hs.
Qed.

(** ** Tables *)

(** The objects sampled and sent. *)
Fixpoint samples (updateOnly : bool) (m : msi) (evs : list table_event) : list (Z * msi) :=
  match evs with
  | Updated u _ _ :: evs => samples updateOnly (merge m u) evs
  | Elapsed now _ :: evs => (now, m) :: samples updateOnly (if updateOnly then ∅ else m) evs
  | _ => []
  end.

Definition updates (evs : list table_event) : list msi :=
  omap (fun e => match e with Updated u _ _ => Some u | _ => None end) evs.

Definition accepting (evs : list table_event) : Prop :=
  Forall (fun e => match e with Updated _ _ a | Elapsed _ a => a = true | Closed => False end) evs.

Definition json_value_at (c : DbClient) (path : PathPtr) (x : Z * msi) : Value :=
  DataValue (prefix c) path x.1 (JsonIetfVal (Marshal_msi x.2)).

Lemma table_loop_samples c path interval updateOnly synced evs : forall m,
  interval <> 0%Z -> accepting evs ->
  exists o, table_loop c path interval updateOnly synced m evs = Ret o /\ running o = true /\
    sent o = json_value_at c path <$> samples updateOnly m evs.
Proof.
  induction evs as [|[u now acc|now acc|] evs IH]; intros m Hi Ha; simpl.
  - by exists still_running.
  - apply Forall_cons in Ha as [-> Ha]. rewrite decide_False by done. by apply IH.
  - apply Forall_cons in Ha as [-> Ha].
    destruct (IH (if updateOnly then ∅ else m) Hi Ha) as (o & -> & Hrun & Hs).
    simpl. eexists. split_and!; [done|done|]. by rewrite sent_more, Hs.
  - by apply Forall_cons in Ha as [[] _].
Qed.

#[export] Instance merge_assoc : Assoc (=) merge.
Proof. intros m1 m2 m3. unfold merge. by rewrite (assoc_L (∪)). Qed.
#[export] Instance merge_left_id : LeftId (=) ∅ merge.
Proof. intros m. unfold merge. by rewrite (right_id_L ∅ (∪)). Qed.
#[export] Instance merge_right_id : RightId (=) ∅ merge.
Proof. intros m. unfold merge. by rewrite (left_id_L ∅ (∪)). Qed.

Lemma merge_idemp m : merge m m = m.
Proof. unfold merge. apply map_eq. intros k. rewrite lookup_union. by destruct (m !! k). Qed.

Lemma foldl_merge m l : foldl merge m l = merge m (foldl merge ∅ l).
Proof.
  revert m. induction l as [|x l IH]; intros m; simpl.
  - by rewrite (right_id ∅ merge).
  - by rewrite IH, (IH (merge ∅ x)), !(assoc merge), (right_id ∅ merge).
Qed.

(** Merging what was sent up to a last tick gives everything received. *)
Lemma samples_complete updateOnly evs now acc : forall m sent0,
  Forall (fun e => e <> Closed) evs ->
  (updateOnly = false -> exists d, m = merge sent0 d) ->
  foldl merge sent0 (samples updateOnly m (evs ++ [Elapsed now acc])).*2 =
  foldl merge (merge sent0 m) (updates evs).
Proof.
  induction evs as [|[u n a|n a|] evs IH]; intros m sent0 Hc Hm; simpl.
  - done.
  - apply Forall_cons in Hc as [_ Hc]. rewrite IH; [by rewrite (assoc merge)|done|].
    intros Hu. destruct (Hm Hu) as [d ->]. exists (merge d u). by rewrite (assoc merge).
  - apply Forall_cons in Hc as [_ Hc]. rewrite IH; [|done|].
    + destruct updateOnly; simpl.
      * by rewrite (right_id ∅ merge).
      * by rewrite <- (assoc merge sent0 m m), merge_idemp.
    + intros ->. exists ∅. destruct (Hm eq_refl) as [d ->].
      by rewrite (right_id ∅ merge), (assoc merge), merge_idemp.
  - by apply Forall_cons in Hc as [[] _].
Qed.

(** C8. A sampled table: no update is lost and none is invented.  At every
    tick of the interval, a client that merges the objects it was sent, the
    first one included, holds exactly the initial table with all updates so
    far applied in order, with and without updates-only. *)
Theorem sampled_table_complete c path interval updateOnly T0 conf now0 m0 rsd evs now :
  interval <> 0%Z ->
  foldM (register T0 conf) (∅, []) (table_paths c path) = Ret (m0, rsd) ->
  accepting (evs ++ [Elapsed now true]) ->
  exists o ms, dbTableKeySubscribe c path interval updateOnly T0 conf now0 true
                 (evs ++ [Elapsed now true]) = Ret o /\ running o = true /\
    sent o = json_value_at c path <$> ms /\
    foldl merge ∅ ms.*2 = foldl merge m0 (updates evs).
Proof.
  intros Hi Hreg Ha. unfold dbTableKeySubscribe. rewrite Hreg. simpl.
  destruct (table_loop_samples c path interval updateOnly true (evs ++ [Elapsed now true])
    (if updateOnly then ∅ else m0) Hi Ha) as (o & Ho & Hrun & Hs). rewrite Ho.
  eexists _, ((now0, m0) :: samples updateOnly (if updateOnly then ∅ else m0) (evs ++ [Elapsed now true])).
  split_and!; [by apply defer_running|done|by rewrite sent_more, sent_synced, Hs|]. simpl.
  assert (Forall (fun e => e <> Closed) evs) as Hc.
  { apply Forall_app in Ha as [Ha _]. eapply Forall_impl; [exact Ha|]. by intros []. }
  rewrite (left_id ∅ merge). rewrite samples_complete; [|done|].
  - destruct updateOnly; [by rewrite (right_id ∅ merge)|by rewrite merge_idemp].
  - intros ->. exists ∅. by rewrite (right_id ∅ merge).
Qed.

(** C32. An on-change table: the initial table, then every update, each in its
    own message and in the order received. *)
Theorem on_change_table_forwards c path updateOnly T0 conf now0 m0 rsd us :
  foldM (register T0 conf) (∅, []) (table_paths c path) = Ret (m0, rsd) ->
  exists o, dbTableKeySubscribe c path 0 updateOnly T0 conf now0 true
              ((fun x => Updated x.2 x.1 true) <$> us) = Ret o /\ running o = true /\
    sent o = json_value_at c path <$> (now0, m0) :: us.
Proof.
  intros Hreg. unfold dbTableKeySubscribe. rewrite Hreg. simpl.
  assert (forall m, exists o, table_loop c path 0 updateOnly true m ((fun x => Updated x.2 x.1 true) <$> us) = Ret o /\
    running o = true /\ sent o = json_value_at c path <$> us) as Hl.
  { induction us as [|[n u] us IH]; intros m; [by exists still_running|].
    destruct (IH m) as (o & Ho & Hrun & Hs). rewrite !fmap_cons. cbn [table_loop].
    rewrite decide_True by done. cbn [fst snd]. rewrite Ho. simpl.
    eexists. split_and!; [done|done|]. by rewrite sent_more, Hs. }
  destruct (Hl (if updateOnly then ∅ else m0)) as (o & -> & Hrun & Hs).
  eexists. split_and!; [by apply defer_running|done|]. by rewrite sent_more, sent_synced, Hs.
Qed.

(** ** The interval timer *)

(** The loop arms a new timer in every iteration.  [schedule n last ups]: the
    events of the first [n] iterations when the iteration begins at [last]
    and the updates still to come arrive at the times of [ups]. *)
Fixpoint schedule (interval : Z) (n : nat) (last : Z) (ups : list (Z * msi)) : list table_event :=
  match n with
  | O => []
  | S n =>
      match ups with
      | (at_, u) :: ups' =>
          if (at_ <? last + interval)%Z
          then Updated u at_ true :: schedule interval n at_ ups'
          else Elapsed (last + interval) true :: schedule interval n (last + interval) ups
      | [] => Elapsed (last + interval) true :: schedule interval n (last + interval) []
      end
  end.

(** Updates that follow each other faster than the interval. *)
Fixpoint busy (interval last : Z) (ups : list (Z * msi)) : Prop :=
  match ups with
  | [] => True
  | (at_, _) :: ups => (at_ < last + interval)%Z /\ busy interval at_ ups
  end.

(** C35. Starvation: the timer of a sampled table restarts with every update,
    so while updates arrive faster than the interval no sample is ever sent,
    however long that lasts; the first sample comes one interval after the
    last update. *)
Theorem busy_table_not_sampled c path interval updateOnly synced now0 m0 ups :
  (0 < interval)%Z -> busy interval now0 ups ->
  exists o, table_loop c path interval updateOnly synced m0 (schedule interval (length ups) now0 ups) = Ret o /\
    running o = true /\ sent o = [] /\
  exists o', table_loop c path interval updateOnly synced m0 (schedule interval (S (length ups)) now0 ups) = Ret o' /\
    sent o' = [json_value_at c path
                 ((default now0 (last ups.*1) + interval)%Z, foldl merge m0 ups.*2)].
Proof.
  intros Hi. revert now0 m0. induction ups as [|[at_ u] ups IH]; intros now0 m0 Hb.
  - exists still_running. split_and!; [done..|]. by eexists.
  - destruct Hb as [Hlt Hb]. destruct (IH at_ (merge m0 u) Hb) as (o & Ho & Hrun & Hs & o' & Ho' & Hs').
    change (length ((at_, u) :: ups)) with (S (length ups)).
    assert (forall n, table_loop c path interval updateOnly synced m0
        (schedule interval (S n) now0 ((at_, u) :: ups)) =
      table_loop c path interval updateOnly synced (merge m0 u) (schedule interval n at_ ups)) as Hstep.
    { intros n. cbn [schedule]. rewrite (proj2 (Z.ltb_lt _ _) Hlt). cbn [table_loop].
      by rewrite decide_False by lia. }
    rewrite !Hstep. exists o. split_and!; [done..|].
    exists o'. split; [exact Ho'|]. rewrite Hs'. cbn [fmap list_fmap fst snd foldl].
    do 3 f_equal. destruct ups as [|[a' u'] ups]; [done|].
    rewrite last_cons. simpl. by destruct (last _).
Qed.

(** ** A field of several tables *)

(** The view of a client that merges what it was sent agrees with the values
    the goroutine remembers. *)
Definition agrees (paths : list tablePath) (view : msi) (pv : saved) : Prop :=
  forall t v, t ∈ paths -> pv !! t = Some v ->
    view !! jsonTableKey t = Some (MFields {[jsonField t := v]}).

(** The names in the output tell the paths apart. *)
Definition distinct_names (paths : list tablePath) : Prop :=
  NoDup paths /\ forall t t', t ∈ paths -> t' ∈ paths -> jsonTableKey t = jsonTableKey t' -> t = t'.

(** The value of the field of a path. *)
Definition current (T : clients) (t : tablePath) : res string :=
  call (client_of T (dbNamespace t) (dbName t)) (fun r => HGet r (redis_key t) (field t)).

Lemma read_path_agrees T onChange updateOnly paths view m pv t m' pv' :
  distinct_names paths -> t ∈ paths ->
  agrees paths (merge view m) pv ->
  read_path T onChange updateOnly (m, pv) t = Ret (m', pv') ->
  agrees paths (merge view m') pv' /\
  (forall v, current T t = Ret v -> pv' !! t = Some v) /\
  (forall t', t' <> t -> pv' !! t' = pv !! t').
Proof.
  intros [Hnd Hdis] Ht Hag. unfold read_path, current.
  set (rd := call _ _).
  destruct rd as [v|e|p] eqn:Hrd; [| |done].
  - rewrite decide_False by (by intros [? _]). case_decide as Hsame.
    + intros [= <- <-]. split_and!; [done|by intros v' [= <-]; apply Hsame|done].
    + intros [= <- <-]. split_and!.
      * intros t' v' Ht' Hv'. unfold merge in *. rewrite lookup_union.
        destruct (decide (t = t')) as [->|Hne].
        -- rewrite lookup_insert_eq in Hv'. injection Hv' as <-. rewrite lookup_insert_eq. by destruct (view !! jsonTableKey t').
        -- rewrite lookup_insert_ne in Hv' by done.
           rewrite lookup_insert_ne by (intros Heq; by apply Hne, Hdis).
           rewrite <- lookup_union. by apply Hag.
      * intros v' [= <-]. by rewrite lookup_insert_eq.
      * intros t' Hne. by rewrite lookup_insert_ne.
  - case_decide; [intros [= <- <-]; by split_and!|]. case_decide.
    + intros [= <- <-]. by split_and!.
    + intros [= <- <-]. split_and!; [|done|intros t' Hne; by rewrite lookup_insert_ne].
      intros t' v' Ht' Hv'. unfold merge in *. rewrite lookup_union.
      destruct (decide (t = t')) as [->|Hne].
      * rewrite lookup_insert_eq in Hv'. injection Hv' as <-. rewrite lookup_insert_eq. by destruct (view !! jsonTableKey t').
      * rewrite lookup_insert_ne in Hv' by done.
        rewrite lookup_insert_ne by (intros Heq; by apply Hne, Hdis).
        rewrite <- lookup_union. by apply Hag.
Qed.

Lemma read_multi_agrees T onChange updateOnly paths view pv m' pv' :
  distinct_names paths -> agrees paths view pv ->
  read_multi T paths onChange updateOnly pv = Ret (m', pv') ->
  agrees paths (merge view m') pv' /\
  forall t v, t ∈ paths -> current T t = Ret v -> pv' !! t = Some v.
Proof.
  intros Hdis Hag. unfold read_multi.
  assert (forall l m pv, (forall t, t ∈ l -> t ∈ paths) -> NoDup l -> agrees paths (merge view m) pv ->
    foldM (read_path T onChange updateOnly) (m, pv) l = Ret (m', pv') ->
    agrees paths (merge view m') pv' /\
    (forall t v, t ∈ l -> current T t = Ret v -> pv' !! t = Some v) /\
    (forall t, t ∉ l -> pv' !! t = pv !! t)) as Hl.
  { induction l as [|x l IH]; intros m pv0 Hsub Hnd Ha Hf.
    - injection Hf as <- <-. split_and!; [done|by intros ?? ?%elem_of_nil|done].
    - cbn [foldM] in Hf. res_inv Hf. destruct a as [m1 pv1].
      apply NoDup_cons in Hnd as [Hx Hnd].
      destruct (read_path_agrees _ _ _ _ _ _ _ _ _ _ Hdis (Hsub x ltac:(left)) Ha E) as (Ha1 & Hc1 & Ho1).
      destruct (IH m1 pv1) as (Ha2 & Hc2 & Ho2); [intros; apply Hsub; by right|done..|].
      split_and!; [done| |].
      + intros t v [->|Ht]%elem_of_cons Hcur; [|by apply Hc2]. rewrite Ho2 by done. by apply Hc1.
      + intros t [Hne Ht]%not_elem_of_cons. rewrite Ho2 by done. by apply Ho1. }
  intros Hf. destruct (Hl paths ∅ pv) as (? & ? & _); [done|apply Hdis| |done|done].
  unfold merge. by rewrite (left_id_L ∅ (∪)).
Qed.

Lemma multi_loop_agrees c path updateOnly l : forall pv view o,
  distinct_names (table_paths c path) -> agrees (table_paths c path) view pv ->
  multi_loop c path true updateOnly pv (ticks l) = Ret o ->
  exists ms, sent o = json_value_at c path <$> ms /\
    forall pre T now t v, l = pre ++ [(T, now)] -> t ∈ table_paths c path -> current T t = Ret v ->
      foldl merge view ms.*2 !! jsonTableKey t = Some (MFields {[jsonField t := v]}).
Proof.
  induction l as [|[T now] l IH]; intros pv view o Hdis Hag Ho.
  - injection Ho as <-. exists []. split; [done|]. by intros [|? ?].
  - cbn [ticks fmap list_fmap multi_loop fst snd] in Ho. res_inv Ho. destruct a as [m pv1].
    destruct (read_multi_agrees _ _ _ _ _ _ _ _ Hdis Hag E) as [Hag1 Hcur1].
    assert (forall ms : list (Z * msi), (forall pre T' now' t v, l = pre ++ [(T', now')] -> t ∈ table_paths c path ->
        current T' t = Ret v ->
        foldl merge (merge view m) ms.*2 !! jsonTableKey t = Some (MFields {[jsonField t := v]})) ->
      (l = [] -> ms = []) ->
      forall pre T' now' t v, (T, now) :: l = pre ++ [(T', now')] -> t ∈ table_paths c path ->
        current T' t = Ret v ->
        foldl merge (merge view m) ms.*2 !! jsonTableKey t = Some (MFields {[jsonField t := v]})) as Hcons.
    { intros ms Hms Hnil [|y pre] T' now' t v Heq Ht Hc.
      - injection Heq as <- <- ->. rewrite (Hnil eq_refl). simpl. by apply Hag1; [|apply Hcur1].
      - injection Heq as <- ->. by eapply Hms. }
    case_decide as Hsend.
    + simpl in Ho. res_inv Ho. injection Ho as <-.
      destruct (IH pv1 (merge view m) a Hdis Hag1 E0) as (ms & Hs & Hv).
      exists ((now, m) :: ms). split; [by rewrite sent_more, Hs|]. simpl. apply Hcons; [done|].
      intros ->. injection E0 as <-. by destruct ms.
    + assert (m = ∅) as -> by (apply dec_stable; tauto).
      rewrite (right_id ∅ merge view) in Hag1, Hcons.
      destruct (IH pv1 view o Hdis Hag1 Ho) as (ms & Hs & Hv).
      exists ms. split; [done|]. apply Hcons; [done|]. intros ->. injection Ho as <-. by destruct ms.
Qed.

(** C14. A field of several tables, on change: only changed fields are sent,
    yet after every tick a client that merges the objects it was sent holds
    the current value of the field of every path that has one. *)
Theorem multi_field_view c path updateOnly T0 now0 l T now o :
  distinct_names (table_paths c path) ->
  dbFieldMultiSubscribe c path true updateOnly T0 now0 true (ticks (l ++ [(T, now)])) = Ret o ->
  exists ms, sent o = json_value_at c path <$> ms /\
    forall t v, t ∈ table_paths c path -> current T t = Ret v ->
      foldl merge ∅ ms.*2 !! jsonTableKey t = Some (MFields {[jsonField t := v]}).
Proof.
  intros Hdis Ho. unfold dbFieldMultiSubscribe in Ho. destruct (defer_sent _ _ Ho) as (o' & E & -> & _).
  pose proof E as Ho'. clear Ho E. res_inv Ho'. destruct a as [m pv].
  simpl in Ho'. res_inv Ho'. injection Ho' as <-.
  assert (agrees (table_paths c path) ∅ ∅) as Hag by (intros ?? _ ?; simplify_map_eq).
  destruct (read_multi_agrees _ _ _ _ _ _ _ _ Hdis Hag E) as [Hag1 _].
  destruct (multi_loop_agrees _ _ _ _ _ _ _ Hdis Hag1 E0) as (ms & Hs & Hv).
  exists ((now0, m) :: ms). split; [by rewrite sent_more, sent_synced, Hs|]. intros t v Ht Hc. simpl. by eapply Hv.
Qed.

(** ** Starting the stream *)

Definition routine_path (r : routine) : option PathPtr :=
  match r with
  | FieldMulti p _ _ _ | Field p _ _ | TableKey p _ _ => Some p
  | Invalid _ => None
  end.

(** The interval of the goroutine of a sampled subscription. *)
Definition routine_interval (r : routine) : option Z :=
  match r with
  | FieldMulti _ _ i _ | Field _ _ i | TableKey _ i _ => Some i
  | Invalid _ => None
  end.

Lemma validate_ok sub i :
  validateSampleInterval sub = Ret i -> (MinSampleInterval <= i < 2 ^ 63)%Z.
Proof.
  unfold validateSampleInterval. pose proof (i64_range (s_SampleInterval sub)).
  case_decide; [by intros [= <-]|].
  destruct (Z.ltb_spec (i64 (s_SampleInterval sub)) MinSampleInterval); [done|].
  intros [= <-]. lia.
Qed.

(** C34. Starting a stream whose paths all resolved to some table: every
    subscription, up to the first one whose mode is neither sample nor on
    change, starts one goroutine, for its own path; a sampled one runs at an
    interval of at least one second, whatever 64-bit interval was requested,
    or only reports the invalid interval; the start never panics. *)
Theorem StreamRun_starts c uo subs :
  Forall (fun sub => table_paths c (s_Path sub) <> []) subs ->
  exists rs f, start_subscriptions c uo subs = Ret (rs, f) /\
    (f = None <-> Forall (fun sub => s_Mode sub = SAMPLE \/ s_Mode sub = ON_CHANGE) subs) /\
    (f = None -> length rs = length subs) /\
    Forall2 (fun r sub => match r with
                          | Invalid _ => s_Mode sub = SAMPLE
                          | _ => routine_path r = Some (s_Path sub) /\
                                 (s_Mode sub = SAMPLE -> exists i, routine_interval r = Some i /\
                                    (MinSampleInterval <= i < 2 ^ 63)%Z)
                          end) rs (take (length rs) subs).
Proof.
  induction subs as [|sub subs IH]; intros Hp.
  - exists [], None. simpl. split_and!; [done|by split|done|constructor].
  - apply Forall_cons in Hp as [Hne Hp]. destruct (IH Hp) as (rs & f & Hs & Hf & Hlen & HF).
    destruct (table_paths c (s_Path sub)) as [|t tps] eqn:Ht; [done|].
    cbn [start_subscriptions]. destruct (s_Mode sub) eqn:Hm.
    + eexists [], _. split_and!; [done| |done|constructor].
      split; [done|]. intros [[?|?] _]%Forall_cons; congruence.
    + assert (exists r, streamOnChangeSubscription c (s_Path sub) = Ret r /\
        match r with Invalid _ => False | _ => routine_path r = Some (s_Path sub) end) as (r & Hr & Hrp).
      { unfold streamOnChangeSubscription. rewrite Ht. simpl. repeat case_decide; by eexists. }
      rewrite Hr. simpl. rewrite Hs. simpl. exists (r :: rs), f. split_and!; [done| | |].
      * rewrite Forall_cons, Hf. naive_solver.
      * intros H. simpl. by rewrite Hlen.
      * simpl. constructor; [|done]. rewrite Hm. by destruct r.
    + assert (exists r, streamSampleSubscription c sub uo = Ret r /\
        match r with Invalid _ => True | _ => routine_path r = Some (s_Path sub) /\
          exists i, routine_interval r = Some i /\ (MinSampleInterval <= i < 2 ^ 63)%Z end) as (r & Hr & Hrp).
      { unfold streamSampleSubscription. destruct (validateSampleInterval sub) as [i|e|p] eqn:Hv.
        - apply validate_ok in Hv. rewrite Ht. simpl.
          repeat case_decide; (eexists; split; [reflexivity|]; split; [done|]; by eexists).
        - by eexists.
        - unfold validateSampleInterval in Hv. repeat case_decide; try done. by case_match. }
      rewrite Hr. simpl. rewrite Hs. simpl. exists (r :: rs), f. split_and!; [done| | |].
      * rewrite Forall_cons, Hf. naive_solver.
      * intros H. simpl. by rewrite Hlen.
      * simpl. constructor; [|done]. rewrite Hm. destruct r; naive_solver.
    + eexists [], _. split_and!; [done| |done|constructor].
      split; [done|]. intros [[?|?] _]%Forall_cons; congruence.
Qed.

(** ** Witnesses and findings *)

Definition neigh_table : tablePath := mk_path "" "STATE_DB" "NEIGH_STATE_TABLE" "" "|" "" "" "".
Definition table_client : DbClient :=
  {| prefix := target_prefix "STATE_DB"; pathG2S := {[elems_path 2 ["NEIGH_STATE_TABLE"] := [neigh_table]]} |}.
Definition table_ptr : PathPtr := elems_path 2 ["NEIGH_STATE_TABLE"].
Definition neigh_field : tablePath :=
  mk_path "" "STATE_DB" "NEIGH_STATE_TABLE" "10.0.0.57" "|" "state" "" "".

(** The state database after the session of 10.0.0.57 went down. *)
Definition idle_clients : clients := {["" := {["STATE_DB" := @mem_redis default_order
  (<["NEIGH_STATE_TABLE|10.0.0.57" := {["state" := "Idle"]}]> sample_state_db)]}]}.

Lemma wait_groups_balanced_witness :
  let o := {| log := [Put (DataValue (target_prefix "STATE_DB") neigh_path 1 (StringVal "Established"));
                      synced_Done;
                      Put (DataValue (target_prefix "STATE_DB") neigh_path 2 (StringVal "Idle"));
                      w_Done]; running := false |} in
  synced o = 1 /\ w_done o = (if running o then 0 else 1) /\
  exists pre post, log o = (Put <$> pre) ++ synced_Done :: (Put <$> post) ++ (if running o then [] else [w_Done]) /\
    length pre = Nat.b2n true.
Proof.
  apply (wait_groups_balanced sample_client neigh_path true false 0 sample_clients 1 true).
  left. exists [Tick idle_clients 2 true; Stop]. vm_compute. reflexivity.
Defined.

Lemma field_subscription_sent_witness :
  exists o, dbFieldSubscribe sample_client neigh_path true sample_clients 1 true
              (ticks [(sample_clients, 2%Z); (idle_clients, 3%Z)]) = Ret o /\ running o = true /\
    sent o = (fun x => DataValue (target_prefix "STATE_DB") neigh_path x.1 (StringVal x.2)) <$>
             [(1%Z, "Established"); (3%Z, "Idle")].
Proof.
  apply (field_subscription_sent sample_client neigh_path neigh_field [] true sample_clients 1
    "Established" [(sample_clients, 2%Z); (idle_clients, 3%Z)] [(2%Z, "Established"); (3%Z, "Idle")]).
  - reflexivity.
  - vm_compute. reflexivity.
  - do 2 (apply Forall2_cons; split; [split; vm_compute; reflexivity|]). constructor.
Defined.

Definition all_confirmed (t : tablePath) : bool := true.

Lemma sampled_table_complete_witness :
  exists o ms, dbTableKeySubscribe table_client table_ptr 1000000000 true sample_clients all_confirmed 1 true
                 ([Updated {["a" := MStr "1"]} 2 true] ++ [Elapsed 3 true]) = Ret o /\ running o = true /\
    sent o = json_value_at table_client table_ptr <$> ms /\
    foldl merge ∅ ms.*2 =
    foldl merge (<["10.0.0.59" := MFields {["state" := "Idle"]}]>
                  {["10.0.0.57" := MFields {["state" := "Established"]}]})
      (updates [Updated {["a" := MStr "1"]} 2 true]).
Proof.
  apply (sampled_table_complete table_client table_ptr 1000000000 true sample_clients all_confirmed 1
    (<["10.0.0.59" := MFields {["state" := "Idle"]}]>
       {["10.0.0.57" := MFields {["state" := "Established"]}]})
    [(neigh_table, String.length "__keyspace@6__:NEIGH_STATE_TABLE|")]).
  - discriminate.
  - vm_compute. reflexivity.
  - repeat constructor.
Defined.

Lemma on_change_table_forwards_witness :
  exists o, dbTableKeySubscribe table_client table_ptr 0 true sample_clients all_confirmed 1 true
              ((fun x => Updated x.2 x.1 true) <$> [(2%Z, {["a" := MStr "1"]})]) = Ret o /\
    running o = true /\
    sent o = json_value_at table_client table_ptr <$>
      [(1%Z, <["10.0.0.59" := MFields {["state" := "Idle"]}]>
               {["10.0.0.57" := MFields {["state" := "Established"]}]});
       (2%Z, {["a" := MStr "1"]})].
Proof.
  apply (on_change_table_forwards table_client table_ptr true sample_clients all_confirmed 1
    (<["10.0.0.59" := MFields {["state" := "Idle"]}]>
       {["10.0.0.57" := MFields {["state" := "Established"]}]})
    [(neigh_table, String.length "__keyspace@6__:NEIGH_STATE_TABLE|")] [(2%Z, {["a" := MStr "1"]})]).
  vm_compute. reflexivity.
Defined.

Lemma busy_table_not_sampled_witness :
  let ups := [(1%Z, {["a" := MStr "1"]}); (2%Z, {["a" := MStr "2"]})] in
  exists o, table_loop table_client table_ptr 3 true true ∅ (schedule 3 (length ups) 0 ups) = Ret o /\
    running o = true /\ sent o = [] /\
  exists o', table_loop table_client table_ptr 3 true true ∅ (schedule 3 (S (length ups)) 0 ups) = Ret o' /\
    sent o' = [json_value_at table_client table_ptr
                 ((default 0 (last ups.*1) + 3)%Z, foldl merge ∅ ups.*2)].
Proof.
  apply (busy_table_not_sampled table_client table_ptr 3 true true 0 ∅
    [(1%Z, {["a" := MStr "1"]}); (2%Z, {["a" := MStr "2"]})]); [lia|].
  simpl. lia.
Defined.

(** The counter of two ports, by vendor alias. *)
Definition port_field (oid alias : string) : tablePath :=
  mk_path "" "COUNTERS_DB" "COUNTERS" oid ":" "RX" alias "RX".
Definition counters_clients (a b : string) : clients := {["" := {["COUNTERS_DB" := @mem_redis default_order
  (list_to_map [("COUNTERS:oid:1", {["RX" := a]}); ("COUNTERS:oid:2", {["RX" := b]})])]}]}.
Definition counters_ptr : PathPtr := elems_path 3 ["COUNTERS"; "Ethernet*"; "RX"].
Definition counters_client : DbClient :=
  {| prefix := target_prefix "COUNTERS_DB";
     pathG2S := {[counters_ptr := [port_field "oid:1" "Ethernet1/1"; port_field "oid:2" "Ethernet2/1"]]} |}.

Lemma multi_field_view_witness :
  exists ms, [json_value_at counters_client counters_ptr
      (1%Z, <["Ethernet2/1" := MFields {["RX" := "0"]}]> {["Ethernet1/1" := MFields {["RX" := "0"]}]});
      json_value_at counters_client counters_ptr (2%Z, {["Ethernet2/1" := MFields {["RX" := "5"]}]})]
    = json_value_at counters_client counters_ptr <$> ms /\
    forall t v, t ∈ table_paths counters_client counters_ptr ->
      current (counters_clients "0" "5") t = Ret v ->
      foldl merge ∅ ms.*2 !! jsonTableKey t = Some (MFields {[jsonField t := v]}).
Proof.
  apply (multi_field_view counters_client counters_ptr false (counters_clients "0" "0") 1 []
    (counters_clients "0" "5") 2
    {| log := [Put (json_value_at counters_client counters_ptr
      (1%Z, <["Ethernet2/1" := MFields {["RX" := "0"]}]> {["Ethernet1/1" := MFields {["RX" := "0"]}]}));
      synced_Done;
      Put (json_value_at counters_client counters_ptr (2%Z, {["Ethernet2/1" := MFields {["RX" := "5"]}]}))];
      running := true |}).
  - change (table_paths counters_client counters_ptr)
      with [port_field "oid:1" "Ethernet1/1"; port_field "oid:2" "Ethernet2/1"]. split.
    + apply NoDup_cons. split; [|apply NoDup_singleton].
      intros Heq%list_elem_of_singleton. discriminate.
    + intros t t' Ht Ht' Heq.
      apply elem_of_cons in Ht as [->|Ht%list_elem_of_singleton];
        apply elem_of_cons in Ht' as [->|Ht'%list_elem_of_singleton]; subst;
        first [reflexivity|discriminate].
  - vm_compute. reflexivity.
Defined.

Definition sample_sub (p : PathPtr) (mode : SubscriptionMode) (interval : Z) : Subscription :=
  {| s_Path := p; s_Mode := mode; s_SampleInterval := interval; s_SuppressRedundant := false;
     s_HeartbeatInterval := 0 |}.

Lemma StreamRun_starts_witness :
  let subs := [sample_sub neigh_path ON_CHANGE 0; sample_sub neigh_path SAMPLE (2 ^ 63)] in
  exists rs f, start_subscriptions sample_client false subs = Ret (rs, f) /\
    (f = None <-> Forall (fun sub => s_Mode sub = SAMPLE \/ s_Mode sub = ON_CHANGE) subs) /\
    (f = None -> length rs = length subs) /\
    Forall2 (fun r sub => match r with
                          | Invalid _ => s_Mode sub = SAMPLE
                          | _ => routine_path r = Some (s_Path sub) /\
                                 (s_Mode sub = SAMPLE -> exists i, routine_interval r = Some i /\
                                    (MinSampleInterval <= i < 2 ^ 63)%Z)
                          end) rs (take (length rs) subs).
Proof.
  apply (StreamRun_starts sample_client false
    [sample_sub neigh_path ON_CHANGE 0; sample_sub neigh_path SAMPLE (2 ^ 63)]).
  do 2 (apply Forall_cons; split; [vm_compute; discriminate|]). constructor.
Defined.

(** A path that resolves to no table at all, such as the PFC watchdog queues
    of a port that has none, makes the goroutine of its subscription panic. *)
Lemma empty_translation_panics :
  let _ := default_order in
  let path := elems_path 4 ["COUNTERS"; "Ethernet1"; "Pfcwd"] in
  exists c, resolve single_conf ∅ sample_vstate (target_prefix "COUNTERS_DB") path
              "COUNTERS_DB" "" false ∅ = Ret (pathG2S c) /\
    streamOnChangeSubscription c path = Panic IndexOutOfRange.
Proof.
  exists {| prefix := None; pathG2S := {[elems_path 4 ["COUNTERS"; "Ethernet1"; "Pfcwd"] := []]} |}.
  split; reflexivity.
Qed.

(** Two rows of a table that are set to the same fields: the second
    notification is taken for a repetition of the first and dropped. *)
Lemma second_row_suppressed :
  let T : clients := {["" := {["STATE_DB" := @mem_redis default_order (list_to_map
    [("NEIGH_STATE_TABLE|10.0.0.57", {["state" := "Idle"]});
     ("NEIGH_STATE_TABLE|10.0.0.59", {["state" := "Idle"]})])]}]} in
  let '(pattern, n) := keyspace neigh_table in
  dbSingleTableKeySubscribe neigh_table n
    [Message "__keyspace@6__:NEIGH_STATE_TABLE|10.0.0.57" "hset" T;
     Message "__keyspace@6__:NEIGH_STATE_TABLE|10.0.0.59" "hset" T]
  = Ret ([{["state" := MStr "Idle"]}], None).
Proof. vm_compute. reflexivity. Qed.

(** A row that is deleted and set again to the same fields: the deletion is
    sent, the new row is not. *)
Lemma row_restored_suppressed :
  let T : clients := {["" := {["STATE_DB" := @mem_redis default_order (list_to_map
    [("NEIGH_STATE_TABLE|10.0.0.57", {["state" := "Idle"]})])]}]} in
  dbSingleTableKeySubscribe neigh_table (keyspace neigh_table).2
    [Message "__keyspace@6__:NEIGH_STATE_TABLE|10.0.0.57" "hset" T;
     Message "__keyspace@6__:NEIGH_STATE_TABLE|10.0.0.57" "del" ∅;
     Message "__keyspace@6__:NEIGH_STATE_TABLE|10.0.0.57" "hset" T]
  = Ret ([{["state" := MStr "Idle"]}; {["10.0.0.57" := MFields ∅]}], None).
Proof. vm_compute. reflexivity. Qed.
