(* ===== verification/StatsRing.v ===== *)
(** * CPU statistics: [sonic_data_client/non_db_client.go]

    The ring of [/proc/stat] samples filled every 100 ms by [pollStats], and
    the utilization percentages [getCpuUtilStat] computes from it.  All the
    arithmetic is that of Go's [uint64]. *)

From stdpp Require Import base tactics list strings sets.
From Stdlib Require Import ZArith Lia Sorted.
From S2P Require Import Prelude.

Local Open Scope Z_scope.

(** The fields of [linuxproc.CPUStat] the source reads. *)
Record CPUStat := {
  Id : string;
  User : Z; Nice : Z; System : Z; Idle : Z; IOWait : Z; IRQ : Z; SoftIRQ : Z;
  Steal : Z; Guest : Z; GuestNice : Z;
}.

(** The fields of [linuxproc.Stat] the source reads. *)
Record Stat := { CPUStatAll : CPUStat; CPUStats : list CPUStat }.

Definition statsRingCap : Z := 3000.

Record statsRing := { writeIdx : Z; buff : list (option Stat) }.

(** [init]: an empty ring. *)
Definition init_ring : statsRing :=
  {| writeIdx := 0; buff := replicate (Z.to_nat statsRingCap) None |}.

(** [buff[i]], which panics out of range. *)
Definition slot (r : statsRing) (i : Z) : res (option Stat) :=
  match buff r !! Z.to_nat i with
  | Some s => if decide (0 <= i) then Ret s else Panic IndexOutOfRange
  | None => Panic IndexOutOfRange
  end.

(** One iteration of [pollStats]: a failed read of [/proc/stat] changes
    nothing, a sample goes to the slot of the write index. *)
Definition pollStats_step (r : statsRing) (read : option Stat) : res statsRing :=
  match read with
  | None => Ret r
  | Some stat =>
      if decide (Z.to_nat (writeIdx r) < length (buff r))%nat then
        Ret {| writeIdx := u64 (writeIdx r + 1) mod statsRingCap;
               buff := <[Z.to_nat (writeIdx r) := Some stat]> (buff r) |}
      else Panic IndexOutOfRange
  end.

Definition pollStats (r : statsRing) (reads : list (option Stat)) : res statsRing :=
  foldM pollStats_step r reads.

Definition cpu_total (c : CPUStat) : Z :=
  u64 (User c + Nice c + System c + Idle c + IOWait c + IRQ c + SoftIRQ c + Steal c
       + Guest c + GuestNice c).

Definition getCpuUtilPercents (cur last : CPUStat) : res Z :=
  let curTotal := cpu_total cur in
  let lastTotal := cpu_total last in
  let idleTicks := u64 (Idle cur - Idle last) in
  let totalTicks := u64 (curTotal - lastTotal) in
  if decide (totalTicks = 0) then Panic DivideByZero
  else Ret (u64 (100 * u64 (totalTicks - idleTicks)) / totalTicks).

Record cpuUtil := {
  util_Id : string;
  CpuUtil_100ms : Z; CpuUtil_1s : Z; CpuUtil_5s : Z; CpuUtil_1min : Z; CpuUtil_5min : Z;
}.

Record cpuStat := { CpuUsageAll : cpuUtil; CpuUsage : list cpuUtil }.

Definition zero_util : cpuUtil :=
  {| util_Id := ""; CpuUtil_100ms := 0; CpuUtil_1s := 0; CpuUtil_5s := 0;
     CpuUtil_1min := 0; CpuUtil_5min := 0 |}.

(** The five columns of a [cpuUtil]. *)
Inductive window := W100ms | W1s | W5s | W1min | W5min.

Definition set_window (w : window) (v : Z) (u : cpuUtil) : cpuUtil :=
  let set v100 v1 v5 v60 v300 :=
    {| util_Id := util_Id u; CpuUtil_100ms := v100; CpuUtil_1s := v1; CpuUtil_5s := v5;
       CpuUtil_1min := v60; CpuUtil_5min := v300 |} in
  match w with
  | W100ms => set v (CpuUtil_1s u) (CpuUtil_5s u) (CpuUtil_1min u) (CpuUtil_5min u)
  | W1s => set (CpuUtil_100ms u) v (CpuUtil_5s u) (CpuUtil_1min u) (CpuUtil_5min u)
  | W5s => set (CpuUtil_100ms u) (CpuUtil_1s u) v (CpuUtil_1min u) (CpuUtil_5min u)
  | W1min => set (CpuUtil_100ms u) (CpuUtil_1s u) (CpuUtil_5s u) v (CpuUtil_5min u)
  | W5min => set (CpuUtil_100ms u) (CpuUtil_1s u) (CpuUtil_5s u) (CpuUtil_1min u) v
  end.

(** The constant subtracted from the write index for each window. *)
Definition window_back (w : window) : Z :=
  match w with W100ms => 2 | W1s => 10 | W5s => 50 | W1min => 600 | W5min => 30000 end.

(** [(writeIdx + statsRingCap - k) % statsRingCap] in [uint64]. *)
Definition back_idx (r : statsRing) (k : Z) : Z :=
  u64 (u64 (writeIdx r + statsRingCap) - k) mod statsRingCap.

(** [&statsR.buff[current].CPUStats[i]]. *)
Definition cur_cpu (cur : Stat) (i : nat) : res CPUStat :=
  match CPUStats cur !! i with Some c => Ret c | None => Panic IndexOutOfRange end.

(** The loop over the CPUs for the 100 ms window, which appends one entry
    per CPU of the older sample. *)
Definition append_cpu (cur : Stat) (acc : list cpuUtil) (ic : nat * CPUStat) : res (list cpuUtil) :=
  c ← cur_cpu cur ic.1;
  v ← getCpuUtilPercents c ic.2;
  Ret (acc ++ [set_window W100ms v
                 {| util_Id := Id ic.2; CpuUtil_100ms := 0; CpuUtil_1s := 0;
                    CpuUtil_5s := 0; CpuUtil_1min := 0; CpuUtil_5min := 0 |}]).

Definition append_cpus (cur last : Stat) : res (list cpuUtil) :=
  foldM (append_cpu cur) [] (imap pair (CPUStats last)).

(** The loop for every other window, which updates the entry of each CPU. *)
Definition update_cpu (w : window) (cur : Stat) (acc : list cpuUtil) (ic : nat * CPUStat)
    : res (list cpuUtil) :=
  c ← cur_cpu cur ic.1;
  v ← getCpuUtilPercents c ic.2;
  match acc !! ic.1 with
  | Some u => Ret (<[ic.1 := set_window w v u]> acc)
  | None => Panic IndexOutOfRange
  end.

Definition update_cpus (w : window) (cur last : Stat) (us : list cpuUtil) : res (list cpuUtil) :=
  foldM (update_cpu w cur) us (imap pair (CPUStats last)).

(** One window after the first: [None] says the sample is missing, on which
    [getCpuUtilStat] returns what it has. *)
Definition one_window (r : statsRing) (w : window) (cur : Stat) (st : cpuStat)
    : res (option cpuStat) :=
  last ← slot r (back_idx r (window_back w));
  match last with
  | None => Ret None
  | Some last =>
      v ← getCpuUtilPercents (CPUStatAll cur) (CPUStatAll last);
      us ← update_cpus w cur last (CpuUsage st);
      Ret (Some {| CpuUsageAll := set_window w v (CpuUsageAll st); CpuUsage := us |})
  end.

Fixpoint windows (r : statsRing) (ws : list window) (cur : Stat) (st : cpuStat) : res cpuStat :=
  match ws with
  | [] => Ret st
  | w :: ws =>
      o ← one_window r w cur st;
      match o with
      | None => Ret st
      | Some st => windows r ws cur st
      end
  end.

Definition getCpuUtilStat (r : statsRing) : res cpuStat :=
  let stat := {| CpuUsageAll := zero_util; CpuUsage := [] |} in
  last ← slot r (back_idx r (window_back W100ms));
  match last with
  | None => Ret stat
  | Some last =>
      cur ← slot r (back_idx r 1);
      match cur with
      | None => Panic NilDereference
      | Some cur =>
          v ← getCpuUtilPercents (CPUStatAll cur) (CPUStatAll last);
          us ← append_cpus cur last;
          windows r [W1s; W5s; W1min; W5min] cur
            {| CpuUsageAll := set_window W100ms v
                 {| util_Id := Id (CPUStatAll cur); CpuUtil_100ms := 0; CpuUtil_1s := 0;
                    CpuUtil_5s := 0; CpuUtil_1min := 0; CpuUtil_5min := 0 |};
               CpuUsage := us |}
      end
  end.

(** ** The ring holds the latest samples *)

(** The samples read successfully, most recent first. *)
Definition history (reads : list (option Stat)) : list Stat := reverse (omap id reads).

(** [r] is the ring after the samples [hist], most recent first. *)
Record ring_of (r : statsRing) (hist : list Stat) : Prop := {
  ring_len : length (buff r) = Z.to_nat statsRingCap;
  ring_idx : writeIdx r = Z.of_nat (length hist) mod statsRingCap;
  ring_slots (k : nat) : (k < Z.to_nat statsRingCap)%nat ->
    buff r !! Z.to_nat ((Z.of_nat (length hist) - 1 - Z.of_nat k) mod statsRingCap)
    = Some (hist !! k);
}.

Lemma init_ring_of : ring_of init_ring [].
Proof.
  constructor; [apply length_replicate|done|].
  intros k Hk. change ([] !! k) with (@None Stat). apply lookup_replicate_2.
  pose proof (Z.mod_pos_bound (Z.of_nat (length ([] : list Stat)) - 1 - Z.of_nat k) statsRingCap).
  unfold statsRingCap in *. lia.
Qed.

Lemma mod_inj a b m : 0 < m -> a mod m = b mod m -> Z.abs (a - b) < m -> a = b.
Proof.
  intros Hm Hab Hd. assert (a - b = m * (a / m - b / m)) as Heq.
  { rewrite (Z.div_mod a m) at 1 by lia. rewrite (Z.div_mod b m) at 1 by lia. lia. }
  assert (a / m - b / m = 0); nia.
Qed.

Lemma pollStats_step_ring r hist stat :
  ring_of r hist -> exists r', pollStats_step r (Some stat) = Ret r' /\ ring_of r' (stat :: hist).
Proof.
  intros [Hlen Hidx Hslots]. unfold pollStats_step, statsRingCap in *.
  assert (0 <= writeIdx r < 3000) as Hw by (rewrite Hidx; apply Z.mod_pos_bound; lia).
  rewrite decide_True by lia. eexists. split; [done|]. constructor; simpl.
  - by rewrite length_insert.
  - unfold statsRingCap. rewrite u64_small by lia. rewrite Hidx, Zplus_mod_idemp_l. f_equal. lia.
  - intros [|k] Hk; unfold statsRingCap in *.
    + replace (Z.of_nat (S (length hist)) - 1 - Z.of_nat 0) with (Z.of_nat (length hist)) by lia.
      rewrite <- Hidx. apply list_lookup_insert_eq. lia.
    + replace (Z.of_nat (S (length hist)) - 1 - Z.of_nat (S k))
        with (Z.of_nat (length hist) - 1 - Z.of_nat k) by lia.
      rewrite list_lookup_insert_ne; [apply Hslots; lia|].
      set (a := Z.of_nat (length hist) - 1 - Z.of_nat k) in *.
      pose proof (Z.mod_pos_bound a 3000 ltac:(lia)).
      intros Heq%Z2Nat.inj; [|lia..]. rewrite Hidx in Heq.
      apply mod_inj in Heq; lia.
Qed.

Lemma pollStats_ring reads r hist :
  ring_of r hist -> exists r', pollStats r reads = Ret r' /\ ring_of r' (history reads ++ hist).
Proof.
  unfold pollStats. revert r hist.
  induction reads as [|[stat|] reads IH]; intros r hist Hr; cbn [foldM].
  - by exists r.
  - destruct (pollStats_step_ring r hist stat Hr) as (r1 & -> & Hr1). simpl.
    destruct (IH r1 _ Hr1) as (r' & ? & ?). exists r'. split; [done|].
    unfold history in *. simpl. by rewrite reverse_cons, <- app_assoc.
  - apply IH, Hr.
Qed.

(** The index arithmetic reaches the [k]-th most recent sample when [k] does
    not exceed the capacity. *)
Lemma back_idx_small r hist k :
  ring_of r hist -> 1 <= k <= statsRingCap ->
  slot r (back_idx r k) = Ret (hist !! Z.to_nat (k - 1)).
Proof.
  intros [Hlen Hidx Hslots] Hk. unfold slot, back_idx, statsRingCap in *.
  pose proof (Z.mod_pos_bound (Z.of_nat (length hist)) 3000 ltac:(lia)).
  rewrite (u64_small (writeIdx r + 3000)), u64_small by lia.
  replace ((writeIdx r + 3000 - k) mod 3000)
    with ((Z.of_nat (length hist) - 1 - Z.of_nat (Z.to_nat (k - 1))) mod 3000).
  - rewrite Hslots by lia. rewrite decide_True; [done|]. apply Z.mod_pos_bound. lia.
  - rewrite Hidx. rewrite Z2Nat.id by lia.
    rewrite <- (Z.mod_add (Z.of_nat (length hist) - 1 - (k - 1)) 1 3000) by lia.
    replace (Z.of_nat (length hist) mod 3000 + 3000 - k)
      with (Z.of_nat (length hist) mod 3000 + (3000 - k)) by lia.
    rewrite Zplus_mod_idemp_l. f_equal. lia.
Qed.

(** The index of the five-minute window wraps around [2^64]: it is the index
    of the 2384th most recent sample. *)
Lemma back_idx_5min r hist :
  ring_of r hist -> back_idx r 30000 = back_idx r 2384.
Proof.
  intros [Hlen Hidx _]. unfold back_idx, statsRingCap in *.
  pose proof (Z.mod_pos_bound (Z.of_nat (length hist)) 3000 ltac:(lia)).
  rewrite (u64_small (writeIdx r + 3000)) by lia.
  rewrite (u64_small (writeIdx r + 3000 - 2384)) by lia.
  assert (u64 (writeIdx r + 3000 - 30000) = writeIdx r + 3000 - 30000 + 2 ^ 64) as ->.
  { unfold u64. symmetry. apply (Z.mod_unique_pos _ _ (-1)); lia. }
  replace (writeIdx r + 3000 - 30000 + 2 ^ 64)
    with (writeIdx r + 3000 - 2384 + 6148914691236508 * 3000) by lia.
  by rewrite Z.mod_add.
Qed.

(** How many samples before the current one each window looks back. *)
Definition window_age (w : window) : nat :=
  match w with W100ms => 1 | W1s => 9 | W5s => 49 | W1min => 599 | W5min => 2383 end.

Lemma slot_window r hist w :
  ring_of r hist -> slot r (back_idx r (window_back w)) = Ret (hist !! window_age w).
Proof.
  intros Hr. destruct w; simpl window_back.
  5: rewrite (back_idx_5min r hist Hr).
  all: rewrite (back_idx_small r hist) by (unfold statsRingCap; done || lia); done.
Qed.

(** ** Percentages *)

Lemma cpu_total_range c : 0 <= cpu_total c < 2 ^ 64.
Proof. apply u64_range. Qed.

Lemma getCpuUtilPercents_Ret cur last :
  cpu_total cur <> cpu_total last -> exists v, getCpuUtilPercents cur last = Ret v.
Proof.
  intros Hne. unfold getCpuUtilPercents. rewrite decide_False; [eauto|].
  intros H0. apply Hne. pose proof (cpu_total_range cur) as H1.
  pose proof (cpu_total_range last) as H2.
  revert H1 H2 H0. generalize (cpu_total cur) (cpu_total last). intros a b H1 H2 H0.
  unfold u64 in H0. apply Z.mod_divide in H0 as [q Hq]; [|lia].
  assert (q = 0) by nia. lia.
Qed.

Definition percents (cur last : CPUStat) : Z :=
  match getCpuUtilPercents cur last with Ret v => v | _ => 0 end.

Lemma getCpuUtilPercents_percents cur last :
  cpu_total cur <> cpu_total last -> getCpuUtilPercents cur last = Ret (percents cur last).
Proof.
  intros [v Hv]%getCpuUtilPercents_Ret. unfold percents. by rewrite Hv.
Qed.

(** Two samples with the same CPUs whose tick totals all differ. *)
Definition comparable (cur last : Stat) : Prop :=
  cpu_total (CPUStatAll cur) <> cpu_total (CPUStatAll last) /\
  Forall2 (fun c l => cpu_total c <> cpu_total l) (CPUStats cur) (CPUStats last).

#[local] Opaque cpu_total percents getCpuUtilPercents.

Definition new_util (cur last : CPUStat) : cpuUtil :=
  set_window W100ms (percents cur last)
    {| util_Id := Id last; CpuUtil_100ms := 0; CpuUtil_1s := 0; CpuUtil_5s := 0;
       CpuUtil_1min := 0; CpuUtil_5min := 0 |}.

Lemma append_cpu_step cur acc i c x :
  cur_cpu cur i = Ret c -> cpu_total c <> cpu_total x ->
  append_cpu cur acc (i, x) = Ret (acc ++ [new_util c x]).
Proof.
  intros Hc Hne. unfold append_cpu. cbn [fst snd].
  by rewrite Hc, bind_ret_l, getCpuUtilPercents_percents, bind_ret_l by done.
Qed.

Lemma append_cpus_from cur l k acc :
  Forall2 (fun c l => cpu_total c <> cpu_total l) (drop k (CPUStats cur)) l ->
  foldM (append_cpu cur) acc (imap (fun i x => ((k + i)%nat, x)) l)
  = Ret (acc ++ zip_with new_util (drop k (CPUStats cur)) l).
Proof.
  revert k acc. induction l as [|x l IH]; intros k acc HF.
  - inversion HF. simpl. by rewrite app_nil_r.
  - inversion HF as [|c ? cs ? Hne HF' Hcs]; subst.
    assert (cur_cpu cur (k + 0) = Ret c) as Hc.
    { unfold cur_cpu. by rewrite <- lookup_drop, <- Hcs. }
    assert (cs = drop (S k) (CPUStats cur)) as ->.
    { by rewrite <- Nat.add_1_r, <- drop_drop, <- Hcs. }
    rewrite imap_cons. cbn [foldM].
    rewrite (append_cpu_step cur acc _ c) by done. cbn [mbind res_bind].
    rewrite (imap_ext _ (fun i x => ((S k + i)%nat, x))) by (clear; intros; simpl; f_equal; lia).
    rewrite IH by done. cbn [zip_with]. by rewrite <- app_assoc.
Qed.

Lemma append_cpus_spec cur last :
  comparable cur last ->
  append_cpus cur last = Ret (zip_with new_util (CPUStats cur) (CPUStats last)).
Proof. intros [_ HF]. apply (append_cpus_from cur (CPUStats last) 0 [] HF). Qed.

Definition update_util (w : window) (cl : CPUStat * CPUStat) (u : cpuUtil) : cpuUtil :=
  set_window w (percents cl.1 cl.2) u.

Lemma update_cpu_step w cur us i c x u :
  cur_cpu cur i = Ret c -> cpu_total c <> cpu_total x -> us !! i = Some u ->
  update_cpu w cur us (i, x) = Ret (<[i := update_util w (c, x) u]> us).
Proof.
  intros Hc Hne Hu. unfold update_cpu. cbn [fst snd].
  by rewrite Hc, bind_ret_l, getCpuUtilPercents_percents, bind_ret_l, Hu by done.
Qed.

Lemma update_cpus_from w cur l k us :
  Forall2 (fun c l => cpu_total c <> cpu_total l) (drop k (CPUStats cur)) l ->
  length us = length (CPUStats cur) ->
  foldM (update_cpu w cur) us (imap (fun i x => ((k + i)%nat, x)) l)
  = Ret (take k us ++ zip_with (update_util w) (zip (drop k (CPUStats cur)) l) (drop k us)).
Proof.
  revert k us. induction l as [|x l IH]; intros k us HF Hlen.
  - inversion HF as [Hnil|]. simpl. rewrite (take_ge us), app_nil_r; [done|].
    apply (f_equal length) in Hnil. rewrite length_drop in Hnil. simpl in Hnil. lia.
  - inversion HF as [|c ? cs ? Hne HF' Hcs]; subst.
    assert (cur_cpu cur (k + 0) = Ret c) as Hc.
    { unfold cur_cpu. by rewrite <- lookup_drop, <- Hcs. }
    assert (cs = drop (S k) (CPUStats cur)) as ->.
    { by rewrite <- Nat.add_1_r, <- drop_drop, <- Hcs. }
    destruct (lookup_lt_is_Some_2 us k) as [u Hu].
    { rewrite Hlen. apply (f_equal length) in Hcs. rewrite length_drop in Hcs. simpl in Hcs.
      clear - Hcs. lia. }
    rewrite imap_cons. cbn [foldM]. rewrite Nat.add_0_r in *.
    rewrite (update_cpu_step w cur us k c x u) by done. cbn [mbind res_bind].
    rewrite (imap_ext _ (fun i x => ((S k + i)%nat, x))) by (clear; intros; simpl; f_equal; lia).
    rewrite IH by (done || by rewrite length_insert).
    rewrite (drop_S us u k Hu). f_equal.
    rewrite (take_S_r _ _ (update_util w (c, x) u))
      by (apply list_lookup_insert_eq; by eapply lookup_lt_Some).
    rewrite take_insert_ge, drop_insert_lt by lia. rewrite <- app_assoc. done.
Qed.

Lemma update_cpus_spec w cur last us :
  comparable cur last -> length us = length (CPUStats cur) ->
  update_cpus w cur last us =
    Ret (zip_with (update_util w) (zip (CPUStats cur) (CPUStats last)) us).
Proof. intros [_ HF] Hlen. apply (update_cpus_from w cur (CPUStats last) 0 us HF Hlen). Qed.

(** ** The report *)

#[export] Instance window_eq_dec : EqDecision window.
Proof. solve_decision. Defined.

Definition column (w : window) (u : cpuUtil) : Z :=
  match w with
  | W100ms => CpuUtil_100ms u | W1s => CpuUtil_1s u | W5s => CpuUtil_5s u
  | W1min => CpuUtil_1min u | W5min => CpuUtil_5min u
  end.

Lemma column_set_window w w' v u :
  column w' (set_window w v u) = if decide (w' = w) then v else column w' u.
Proof. by destruct w, w'. Qed.

(** What a column reports for the CPU that [sel] selects: the utilization
    between the current sample and the one [window_age w] samples before, 0
    while there is none. *)
Definition expected (w : window) (hist : list Stat) (sel : Stat -> option CPUStat) : Z :=
  match hist !! 0%nat ≫= sel, hist !! window_age w ≫= sel with
  | Some c, Some l => percents c l
  | _, _ => 0
  end.

Section report.
Context (r : statsRing) (cur : Stat) (older : list Stat).
Let hist := cur :: older.
Context (Hring : ring_of r hist) (Hcmp : Forall (comparable cur) older).

(** The columns of [D] are filled in, the others still 0. *)
Definition col_ok (D : list window) (sel : Stat -> option CPUStat) (u : cpuUtil) : Prop :=
  forall w, column w u = if decide (w ∈ D) then expected w hist sel else 0.

Definition report_ok (D : list window) (st : cpuStat) : Prop :=
  col_ok D (Some ∘ CPUStatAll) (CpuUsageAll st) /\
  (forall i u, CpuUsage st !! i = Some u -> col_ok D (fun s => CPUStats s !! i) u) /\
  length (CpuUsage st) = length (CPUStats cur).

Lemma older_comparable w last : hist !! window_age w = Some last -> comparable cur last.
Proof.
  intros Hl. rewrite Forall_forall in Hcmp. apply Hcmp, list_elem_of_lookup.
  exists (pred (window_age w)). by destruct w.
Qed.

Lemma col_ok_set D sel u w c l last :
  col_ok D sel u -> hist !! window_age w = Some last -> sel cur = Some c -> sel last = Some l ->
  col_ok (w :: D) sel (set_window w (percents c l) u).
Proof.
  intros Hu Hl Hc Hs w'. rewrite column_set_window, Hu.
  destruct (decide (w' = w)) as [->|Hne].
  - rewrite decide_True by left. unfold expected. rewrite Hl. simpl. by rewrite Hc, Hs.
  - by repeat case_decide; set_solver.
Qed.

Lemma one_window_ok w D st last :
  report_ok D st -> hist !! window_age w = Some last ->
  exists st', one_window r w cur st = Ret (Some st') /\ report_ok (w :: D) st'.
Proof.
  intros (HA & HC & Hlen) Hl. pose proof (older_comparable w last Hl) as Hc.
  assert (length (CPUStats cur) = length (CPUStats last)) as Hcl
    by (by destruct Hc as [_ ?%Forall2_length]).
  unfold one_window. rewrite (slot_window r hist) by done. rewrite bind_ret_l, Hl.
  rewrite getCpuUtilPercents_percents, bind_ret_l, update_cpus_spec, bind_ret_l by (apply Hc || done).
  eexists. split; [done|]. split_and!; simpl.
  - by eapply col_ok_set.
  - intros i u ([c l] & u' & -> & Hcl' & Hu)%lookup_zip_with_Some.
    apply lookup_zip_with_Some in Hcl' as (c' & l' & [= -> ->] & Hc' & Hl').
    eapply col_ok_set; eauto.
  - rewrite length_zip_with, length_zip_with. lia.
Qed.

Lemma report_ok_missing D w st :
  report_ok D st -> hist !! window_age w = None -> report_ok (w :: D) st.
Proof.
  intros (HA & HC & Hlen) Hn.
  assert (forall sel u, col_ok D sel u -> col_ok (w :: D) sel u) as Hadd; [|split_and!; eauto].
  intros sel u Hu w'. rewrite Hu. destruct (decide (w' = w)) as [->|].
  - rewrite (decide_True (P := w ∈ w :: D)) by left.
    unfold expected. rewrite Hn. destruct (hist !! 0%nat ≫= sel); by case_decide.
  - by repeat case_decide; set_solver.
Qed.

Lemma windows_ok ws D st :
  report_ok D st -> StronglySorted (fun w w' => window_age w <= window_age w')%nat ws ->
  exists st', windows r ws cur st = Ret st' /\ report_ok (rev ws ++ D) st'.
Proof.
  intros Hst Hsort. revert D st Hst.
  induction Hsort as [|w ws Hsort IH Hle]; intros D st Hst; simpl; [eauto|].
  destruct (hist !! window_age w) as [last|] eqn:Hl.
  - destruct (one_window_ok w D st last Hst Hl) as (st' & -> & Hst').
    rewrite bind_ret_l, <- app_assoc. by apply IH.
  - unfold one_window. rewrite (slot_window r hist) by done. rewrite !bind_ret_l, Hl.
    rewrite bind_ret_l. eexists. split; [done|].
    assert (forall ws' D, Forall (fun w' => window_age w <= window_age w')%nat ws' ->
      report_ok D st -> report_ok (rev ws' ++ D) st) as Hall.
    { intros ws' D' HF. revert D'.
      induction HF as [|w' ws' Hw' _ IH']; intros D' HD; simpl; [done|].
      rewrite <- app_assoc. apply IH', report_ok_missing; [done|].
      apply lookup_ge_None. apply lookup_ge_None in Hl. lia. }
    rewrite <- app_assoc. apply Hall; [done|]. by apply report_ok_missing.
Qed.
End report.

(** ** Theorems *)

(** C19. The ring after any sequence of polls: the indices [getCpuUtilStat]
    computes modulo [2^64] and the capacity are in range, the current slot
    holds the latest sample read, and the slot of each window holds the
    sample 1, 9, 49, 599 or 2383 polls before it (nil while there are not
    that many).  The comments of the source say 10, 50, 600 and 3000 polls:
    see the findings. *)
Theorem pollStats_slots reads :
  exists r, pollStats init_ring reads = Ret r /\
    slot r (back_idx r 1) = Ret (history reads !! 0%nat) /\
    forall w, slot r (back_idx r (window_back w)) = Ret (history reads !! window_age w).
Proof.
  destruct (pollStats_ring reads init_ring [] init_ring_of) as (r & Hr & Hring).
  rewrite app_nil_r in Hring. exists r. split_and!; [done| |].
  - by rewrite (back_idx_small r (history reads)) by (unfold statsRingCap; done || lia).
  - intros w. by apply slot_window.
Qed.

#[local] Transparent getCpuUtilPercents.

(** C36. A percentage is the busy share of the elapsed ticks, rounded down, and
    lies between 0 and 100, when no counter went back or overflowed between
    the two samples; two samples with equal totals divide by zero. *)
Theorem getCpuUtilPercents_bounds cur last busy idle :
  0 <= busy -> 0 <= idle -> 0 < busy + idle -> 100 * busy < 2 ^ 64 -> idle < 2 ^ 64 ->
  u64 (Idle cur - Idle last) = idle ->
  u64 (cpu_total cur - cpu_total last) = busy + idle ->
  getCpuUtilPercents cur last = Ret (100 * busy / (busy + idle)) /\
  0 <= 100 * busy / (busy + idle) <= 100 /\
  (forall c, cpu_total c = cpu_total last -> getCpuUtilPercents c last = Panic DivideByZero).
Proof.
  intros Hb Hi Ht Hb64 Hi64 Hidle Htotal. unfold getCpuUtilPercents.
  rewrite Hidle, Htotal. split_and!.
  - rewrite decide_False by lia.
    replace (busy + idle - idle) with busy by lia.
    rewrite (u64_small busy), u64_small by lia. done.
  - apply Z.div_pos; lia.
  - apply Z.div_le_upper_bound; lia.
  - intros c ->. by rewrite Z.sub_diag.
Qed.

#[local] Opaque getCpuUtilPercents.

(** C37. The report: with at least two samples, all over the same CPUs and with
    totals different from the latest, [getCpuUtilStat] returns a report (it
    neither panics nor divides by zero) whose every column, for the whole
    machine and for each CPU, is the utilization since the sample of its
    window, or 0 while that sample does not exist. *)
Theorem getCpuUtilStat_report reads cur last older :
  history reads = cur :: last :: older ->
  Forall (comparable cur) (last :: older) ->
  exists r st, pollStats init_ring reads = Ret r /\ getCpuUtilStat r = Ret st /\
    length (CpuUsage st) = length (CPUStats cur) /\
    (forall w, column w (CpuUsageAll st) = expected w (history reads) (Some ∘ CPUStatAll)) /\
    (forall i u w, CpuUsage st !! i = Some u ->
      column w u = expected w (history reads) (fun s => CPUStats s !! i)).
Proof.
  intros Hh Hcmp.
  destruct (pollStats_ring reads init_ring [] init_ring_of) as (r & Hr & Hring).
  rewrite app_nil_r, Hh in Hring. rewrite Hh. exists r.
  pose proof Hcmp as [Hc _]%Forall_cons.
  assert (length (CPUStats cur) = length (CPUStats last)) as Hlen
    by (by destruct Hc as [_ ?%Forall2_length]).
  unfold getCpuUtilStat. rewrite (slot_window r _ W100ms Hring), bind_ret_l.
  change ((cur :: last :: older) !! window_age W100ms) with (Some last). cbv beta iota.
  rewrite (back_idx_small r (cur :: last :: older) 1), bind_ret_l
    by (unfold statsRingCap; done || lia).
  change ((cur :: last :: older) !! Z.to_nat (1 - 1)) with (Some cur). cbv beta iota.
  rewrite getCpuUtilPercents_percents, bind_ret_l, append_cpus_spec, bind_ret_l
    by (apply Hc || done).
  match goal with |- context [windows r _ cur ?st] => set (st0 := st) end.
  destruct (windows_ok r cur (last :: older) Hring Hcmp [W1s; W5s; W1min; W5min] [W100ms] st0)
    as (st & -> & HA & HC & Hl).
  - split_and!; simpl.
    + intros w. by destruct w.
    + intros i u (c & l & -> & Hci & Hli)%lookup_zip_with_Some w.
      unfold expected. destruct w; simpl; rewrite ?Hci, ?Hli; done.
    + rewrite length_zip_with. lia.
  - repeat first [apply SSorted_cons|apply SSorted_nil|apply Forall_cons_2|apply Forall_nil_2];
      simpl; lia.
  - exists st. split_and!; [done..| |].
    + intros w. rewrite HA. by destruct w.
    + intros i u w Hu. rewrite (HC i u Hu). by destruct w.
Qed.

(** ** Witnesses *)

Definition sample_cpu (user idle : Z) : CPUStat :=
  {| Id := "cpu"; User := user; Nice := 0; System := 0; Idle := idle; IOWait := 0; IRQ := 0;
     SoftIRQ := 0; Steal := 0; Guest := 0; GuestNice := 0 |}.

Definition sample_stat (user idle : Z) : Stat :=
  {| CPUStatAll := sample_cpu user idle; CPUStats := [sample_cpu user idle] |}.

Lemma getCpuUtilPercents_bounds_witness :
  getCpuUtilPercents (sample_cpu 13 27) (sample_cpu 10 20) = Ret (100 * 3 / (3 + 7)) /\
  0 <= 100 * 3 / (3 + 7) <= 100 /\
  (forall c, cpu_total c = cpu_total (sample_cpu 10 20) ->
     getCpuUtilPercents c (sample_cpu 10 20) = Panic DivideByZero).
Proof.
  apply (getCpuUtilPercents_bounds (sample_cpu 13 27) (sample_cpu 10 20) 3 7);
    [lia|lia|lia|lia|lia|reflexivity|reflexivity].
Defined.

Definition sample_reads : list (option Stat) :=
  [Some (sample_stat 10 20); None; Some (sample_stat 13 27); Some (sample_stat 20 30)].

Lemma getCpuUtilStat_report_witness :
  exists r st, pollStats init_ring sample_reads = Ret r /\ getCpuUtilStat r = Ret st /\
    length (CpuUsage st) = length (CPUStats (sample_stat 20 30)) /\
    (forall w, column w (CpuUsageAll st) = expected w (history sample_reads) (Some ∘ CPUStatAll)) /\
    (forall i u w, CpuUsage st !! i = Some u ->
      column w u = expected w (history sample_reads) (fun s => CPUStats s !! i)).
Proof.
  apply (getCpuUtilStat_report sample_reads (sample_stat 20 30) (sample_stat 13 27)
           [sample_stat 10 20]); [reflexivity|].
  repeat first [apply Forall_cons_2|apply Forall_nil_2|split|apply Forall2_cons_2|apply Forall2_nil_2];
    vm_compute; discriminate.
Defined.
