(* ===== verification/NonDb.v ===== *)
(** * The non-database client: [sonic_data_client/non_db_client.go]

    Data that is not in redis: CPU utilization (the ring of [StatsRing.v]),
    files of /proc and the build version.  What the goprocinfo library and
    the encoder give for a /proc file, the reading of the version file and
    the YAML parser are the environment [env].  [lookupGetFunc] finds the
    getter of a path with the trie; its table has no wildcards, so the trie
    is used through [Find_literal], that is as a finite map. *)

From stdpp Require Import base tactics list fin_maps gmap strings pretty.
From Stdlib Require Import ZArith Ascii Lia.
From S2P Require Import Prelude GoStrings Messages Trie StatsRing RedisDb Msi DbClient DbStream.

Local Open Scope string_scope.
Local Open Scope list_scope.

(** ** Getters *)

Inductive dataGetFunc :=
  | getCpuUtil | getSysUptime | getProcMeminfo | getProcDiskstats
  | getProcLoadavg | getProcVmstat | getProcStat | getBuildVersion.

Definition path2DataFuncTbl : list (list string * dataGetFunc) :=
  [(["OTHERS"; "platform"; "cpu"], getCpuUtil);
   (["OTHERS"; "proc"; "uptime"], getSysUptime);
   (["OTHERS"; "proc"; "meminfo"], getProcMeminfo);
   (["OTHERS"; "proc"; "diskstats"], getProcDiskstats);
   (["OTHERS"; "proc"; "loadavg"], getProcLoadavg);
   (["OTHERS"; "proc"; "vmstat"], getProcVmstat);
   (["OTHERS"; "proc"; "stat"], getProcStat);
   (["OTHERS"; "osversion"; "build"], getBuildVersion)].

Definition clientTriePopulate : res (Trie dataGetFunc) := populate path2DataFuncTbl.

Definition SonicVersionFilePath : string := "/etc/sonic/sonic_version.yml".

Record SonicVersionInfo := { BuildVersion : string; VersionError : string }.

(** [once] and the information it guards. *)
Record sonicVersionYmlStash := { loaded : bool; versionInfo : SonicVersionInfo }.

Definition InvalidateVersionFileStash : sonicVersionYmlStash :=
  {| loaded := false; versionInfo := {| BuildVersion := ""; VersionError := "" |} |}.

Record env := {
  (** the JSON of a /proc file *)
  proc_json : dataGetFunc -> string;
  ImplIoutilReadFile : string -> res string;
  (** [yaml.Unmarshal] into the structure: what it leaves there, and its error *)
  yaml_Unmarshal : string -> SonicVersionInfo -> SonicVersionInfo * option error;
}.

(** [json.Marshal] of a JSON object with the given fields. *)
Definition json_fields (l : list (string * string)) : string :=
  "{" +:+ Join ((fun kv => json_string kv.1 +:+ ":" +:+ kv.2) <$> l) "," +:+ "}".

Definition json_util (u : cpuUtil) : string := json_fields
  [("id", json_string (util_Id u)); ("100ms", pretty (CpuUtil_100ms u)); ("1s", pretty (CpuUtil_1s u));
   ("5s", pretty (CpuUtil_5s u)); ("1min", pretty (CpuUtil_1min u)); ("5min", pretty (CpuUtil_5min u))].

(** A nil slice is printed as null. *)
Definition json_cpuStat (st : cpuStat) : string := json_fields
  [("cpu_all", json_util (CpuUsageAll st));
   ("cpus", match CpuUsage st with
            | [] => "null"
            | us => "[" +:+ Join (json_util <$> us) "," +:+ "]"
            end)].

Definition json_version (v : SonicVersionInfo) : string := json_fields
  [("build_version", json_string (BuildVersion v)); ("error", json_string (VersionError v))].

(** The body of [once.Do]. *)
Definition load_version (e : env) : SonicVersionInfo :=
  let v := {| BuildVersion := "sonic.NA"; VersionError := "" |} in
  match ImplIoutilReadFile e SonicVersionFilePath with
  | Fail err => {| BuildVersion := BuildVersion v; VersionError := err_text err |}
  | Panic _ => v
  | Ret fileContent =>
      let '(v, err) := yaml_Unmarshal e fileContent v in
      match err with
      | Some err => {| BuildVersion := BuildVersion v; VersionError := err_text err |}
      | None => if decide (BuildVersion v <> "sonic.NA")
                then {| BuildVersion := "sonic." +:+ BuildVersion v; VersionError := VersionError v |}
                else v
      end
  end.

Definition getBuildVersion_run (e : env) (stash : sonicVersionYmlStash) :
    string * sonicVersionYmlStash :=
  let stash := if loaded stash then stash else {| loaded := true; versionInfo := load_version e |} in
  (json_version (versionInfo stash), stash).

(** Running a getter: the environment and the ring at that time. *)
Definition run_getter (f : dataGetFunc) (e : env) (r : statsRing) (stash : sonicVersionYmlStash) :
    res (string * sonicVersionYmlStash) :=
  match f with
  | getCpuUtil => st ← getCpuUtilStat r; Ret (json_cpuStat st, stash)
  | getBuildVersion => Ret (getBuildVersion_run e stash)
  | _ => Ret (proc_json e f, stash)
  end.

(** ** The client *)

Record NonDbClient := { nd_prefix : option Path; path2Getter : gmap PathPtr dataGetFunc }.

Section Client.
Context `{RangeOrder}.

(** The slice [lookupGetFunc] looks up. *)
Definition getter_path (prefix : option Path) (path : Path) : list string :=
  GetTarget prefix :: (Name <$> Elem (gnmiFullPath prefix path)).

Definition lookupGetFunc (t : Trie dataGetFunc) (prefix : option Path) (path : Path) :
    res dataGetFunc :=
  let stringSlice := getter_path prefix path in
  o ← Find t stringSlice;
  match o with
  | Some n => match Meta t n with Some f => Ret f | None => Panic TypeAssertion end
  | None => Fail (Errorf "%v not found in clientTrie tree" [show_list stringSlice])
  end.

Definition NewNonDbClient (t : Trie dataGetFunc) (paths : list PathPtr) (prefix : option Path) :
    res NonDbClient :=
  m ← foldM (fun m path => getter ← lookupGetFunc t prefix (pointee path); Ret (<[path := getter]> m))
        ∅ paths;
  Ret {| nd_prefix := prefix; path2Getter := m |}.

(** What a getter sees at one point of time. *)
Record moment := { m_env : env; m_ring : statsRing; m_now : Z }.

(** [runGetterAndSend] into a queue that accepts the value. *)
Definition runGetterAndSend (c : NonDbClient) (path : PathPtr) (getter : dataGetFunc) (t : moment)
    (stash : sonicVersionYmlStash) : res (Value * sonicVersionYmlStash) :=
  '(v, stash) ← run_getter getter (m_env t) (m_ring t) stash;
  Ret (DataValue (nd_prefix c) path (m_now t) (JsonIetfVal v), stash).

(** The getters of a list of paths, one after the other. *)
Fixpoint send_all (c : NonDbClient) (t : moment) (l : list (PathPtr * dataGetFunc))
    (stash : sonicVersionYmlStash) : res (list Value * sonicVersionYmlStash) :=
  match l with
  | [] => Ret ([], stash)
  | (path, getter) :: l =>
      '(v, stash) ← runGetterAndSend c path getter t stash;
      '(vs, stash) ← send_all c t l stash;
      Ret (v :: vs, stash)
  end.

Definition Get (c : NonDbClient) (t : moment) (stash : sonicVersionYmlStash) :
    res (list Value * sonicVersionYmlStash) := send_all c t (range (path2Getter c)) stash.

(** [PollRun] up to the closing of the channel. *)
Fixpoint PollRun (c : NonDbClient) (polls : list moment) (stash : sonicVersionYmlStash) :
    res (list Value * sonicVersionYmlStash) :=
  match polls with
  | [] => Ret ([], stash)
  | t :: polls =>
      '(vs, stash) ← send_all c t (range (path2Getter c)) stash;
      '(rest, stash) ← PollRun c polls stash;
      Ret (vs ++ [SyncValue (m_now t)] ++ rest, stash)
  end.

(** The validation of [StreamRun]: the subscriptions with their intervals, or
    the fatal message. *)
Fixpoint validate_subs (c : NonDbClient) (subs : list Subscription) :
    res (list (Subscription * Z)) :=
  match subs with
  | [] => Ret []
  | sub :: subs =>
      if decide (s_Mode sub <> SAMPLE) then
        Fail (Errorf "Unsupported subscription mode: %v."
                [match s_Mode sub with
                 | TARGET_DEFINED => "TARGET_DEFINED" | ON_CHANGE => "ON_CHANGE" | SAMPLE => "SAMPLE"
                 | UnknownSubscriptionMode n => pretty n end])
      else
        interval ← validateSampleInterval sub;
        rest ← validate_subs c subs;
        Ret (match path2Getter c !! s_Path sub with
             | Some _ => (sub, interval) :: rest
             | None => rest
             end)
  end.

(** The getter of a validated subscription. *)
Definition sub_getter (c : NonDbClient) (sub : Subscription) : option (PathPtr * dataGetFunc) :=
  (fun f => (s_Path sub, f)) <$> path2Getter c !! s_Path sub.

(** One tick: which of the goroutines [streamSample] it is, one of each
    validated subscription, and when. *)
Record sample_tick := { t_index : nat; t_at : moment }.

(** A goroutine that was not started has no ticks. *)
Fixpoint stream_ticks (c : NonDbClient) (validated : list (Subscription * Z)) (ts : list sample_tick)
    (stash : sonicVersionYmlStash) : res (list Value * sonicVersionYmlStash) :=
  match ts with
  | [] => Ret ([], stash)
  | t :: ts =>
      match validated !! t_index t with
      | None => stream_ticks c validated ts stash
      | Some (sub, _) =>
          match sub_getter c sub with
          | None => Panic NilDereference
          | Some (path, getter) =>
              '(v, stash) ← runGetterAndSend c path getter (t_at t) stash;
              '(vs, stash) ← stream_ticks c validated ts stash;
              Ret (v :: vs, stash)
          end
      end
  end.

(** [StreamRun]: the first values, the sync response, then the ticks of the
    sampling goroutines in the order in which they happen, until the stop
    signal.  The map of validated subscriptions is visited in the order
    [ord] of its entries. *)
Definition StreamRun (c : NonDbClient) (subs : list Subscription)
    (ord : list (Subscription * Z) -> list (Subscription * Z)) (t : moment) (ticks : list sample_tick)
    (stash : sonicVersionYmlStash) : res (list Value * sonicVersionYmlStash) :=
  match validate_subs c subs with
  | Panic p => Panic p
  | Fail e => Ret ([FatalValue (m_now t) (err_text e)], stash)
  | Ret validated =>
      if decide (length validated = 0) then Ret ([], stash) else
      '(vs, stash) ← send_all c t (omap (fun si => sub_getter c si.1) (ord validated)) stash;
      '(rest, stash) ← stream_ticks c validated ticks stash;
      Ret (vs ++ [SyncValue (m_now t)] ++ rest, stash)
  end.
End Client.

(** ** Theorems *)

(** The table as a finite map: a later entry of a path would win. *)
Definition client_spec : gmap (list string) dataGetFunc :=
  foldl (fun S (pt : list string * dataGetFunc) => <[pt.1 := pt.2]> S) ∅ path2DataFuncTbl.

Lemma foldl_insert_elem {K V} `{Countable K} (l : list (K * V)) k v : forall m : gmap K V,
  foldl (fun S pt => <[pt.1 := pt.2]> S) m l !! k = Some v -> (k, v) ∈ l \/ m !! k = Some v.
Proof.
  induction l as [|[k' v'] l IH]; intros m Hm; simpl in Hm; [by right|].
  apply IH in Hm as [Hm|Hm]; [left; by right|].
  destruct (decide (k' = k)) as [->|Hne].
  - rewrite lookup_insert_eq in Hm. injection Hm as <-. left. by left.
  - rewrite lookup_insert_ne in Hm by done. by right.
Qed.

Lemma client_spec_elem r m : client_spec !! r = Some m -> (r, m) ∈ path2DataFuncTbl.
Proof. intros [?|Hr]%foldl_insert_elem; [done|]. by rewrite lookup_empty in Hr. Qed.

Lemma clientTrie_represents : exists t, clientTriePopulate = Ret t /\ Represents t client_spec.
Proof.
  destruct (populate_represents path2DataFuncTbl) as (t & Ht & HR & _).
  - repeat (apply Forall_cons; split; [set_solver|]). constructor.
  - exists t. split; [exact Ht|exact HR].
Qed.

#[local] Opaque client_spec clientTriePopulate.

Lemma client_spec_literal r m k :
  client_spec !! r = Some m -> k ∈ r -> HasSuffix k "*" = false.
Proof.
  intros Hr%client_spec_elem Hk.
  repeat (apply elem_of_cons in Hr as [[= -> ->]|Hr];
    [repeat (apply elem_of_cons in Hk as [->|Hk]; [reflexivity|]); by apply elem_of_nil in Hk|]).
  by apply elem_of_nil in Hr.
Qed.

Section theorems.
Context `{RangeOrder}.

(** The getter of a path is the one the table gives for the target and
    the names of the path; any other path is an error; the trie is
    invisible. *)
Theorem lookupGetFunc_table t prefix path :
  clientTriePopulate = Ret t ->
  lookupGetFunc t prefix path =
  match client_spec !! getter_path prefix path with
  | Some f => Ret f
  | None => Fail (Errorf "%v not found in clientTrie tree" [show_list (getter_path prefix path)])
  end.
Proof.
  intros Ht. destruct clientTrie_represents as (t' & Ht' & HR). rewrite Ht in Ht'. injection Ht' as <-.
  unfold lookupGetFunc.
  destruct (Find_literal t client_spec (getter_path prefix path) HR client_spec_literal)
    as (o & -> & <- & Ho).
  simpl. destruct o as [l|]; [|done]. destruct (Ho l eq_refl) as [f Hf]. simpl. by rewrite Hf.
Qed.

(** The build version is read once: after the first call every call
    returns the same text, whatever happens to the file. *)
Theorem build_version_cached e es stash :
  let '(v, stash') := getBuildVersion_run e stash in
  Forall (fun e' => getBuildVersion_run e' stash' = (v, stash')) es /\
  (loaded stash = false ->
   forall content info, ImplIoutilReadFile e SonicVersionFilePath = Ret content ->
     yaml_Unmarshal e content {| BuildVersion := "sonic.NA"; VersionError := "" |} = (info, None) ->
     BuildVersion info <> "sonic.NA" ->
     v = json_version {| BuildVersion := "sonic." +:+ BuildVersion info; VersionError := VersionError info |}).
Proof.
  unfold getBuildVersion_run. destruct (loaded stash) eqn:Hl; cbn [loaded versionInfo]; split.
  - apply Forall_forall. intros e' _. by rewrite Hl.
  - done.
  - apply Forall_forall. intros e' _. done.
  - intros _ content info Hr Hy Hne. f_equal. unfold load_version. rewrite Hr, Hy.
    by rewrite decide_True.
Qed.

Lemma send_all_values c t l : forall stash vs stash',
  send_all c t l stash = Ret (vs, stash') ->
  Forall2 (fun v pg => exists b, v = DataValue (nd_prefix c) pg.1 (m_now t) (JsonIetfVal b)) vs l.
Proof.
  induction l as [|[p f] l IH]; intros stash vs stash' Hs; simpl in Hs.
  - injection Hs as <- <-. constructor.
  - res_inv Hs. destruct a as [v st1]. res_inv Hs. destruct a as [vs1 st2]. injection Hs as <- <-.
    constructor; [|eauto]. unfold runGetterAndSend in E. res_inv E. destruct a as [b st3].
    injection E as <- <-. by exists b.
Qed.

(** A subscription that a stream refuses: it is not sampled, or its interval
    is below the minimum and not the default. *)
Definition refused (sub : Subscription) : Prop :=
  s_Mode sub <> SAMPLE \/ (i64 (s_SampleInterval sub) <> 0 /\ i64 (s_SampleInterval sub) < MinSampleInterval)%Z.

Lemma validateSampleInterval_cases sub :
  match validateSampleInterval sub with
  | Ret _ => ~ (i64 (s_SampleInterval sub) <> 0 /\ i64 (s_SampleInterval sub) < MinSampleInterval)%Z
  | Fail _ => (i64 (s_SampleInterval sub) <> 0 /\ i64 (s_SampleInterval sub) < MinSampleInterval)%Z
  | Panic _ => False
  end.
Proof.
  unfold validateSampleInterval. case_decide; [tauto|].
  destruct (Z.ltb_spec (i64 (s_SampleInterval sub)) MinSampleInterval); lia.
Qed.

Definition served (c : NonDbClient) (subs : list Subscription) : list Subscription :=
  filter (fun sub => is_Some (path2Getter c !! s_Path sub)) subs.

Lemma validate_subs_spec c subs :
  match validate_subs c subs with
  | Ret l => Forall (fun sub => ~ refused sub) subs /\ l.*1 = served c subs
  | Fail _ => List.Exists refused subs
  | Panic _ => False
  end.
Proof.
  induction subs as [|sub subs IH]; [done|]. cbn [validate_subs].
  case_decide as Hm; [by left; left|].
  pose proof (validateSampleInterval_cases sub) as Hi.
  destruct (validateSampleInterval sub) as [iv|e|p]; simpl; [|by left; right|done].
  destruct (validate_subs c subs) as [l|e|p]; simpl; [|by right|done]. destruct IH as [HF Hl]. split.
  - constructor; [|done]. by intros [?|?].
  - unfold served. rewrite filter_cons. destruct (path2Getter c !! s_Path sub) eqn:Hg.
    + rewrite decide_True by (by eexists). simpl. f_equal. exact Hl.
    + rewrite decide_False by (by intros []). exact Hl.
Qed.

(** The ticks send values of the subscriptions that are served. *)
Lemma stream_ticks_paths c validated ticks : forall stash vs stash',
  stream_ticks c validated ticks stash = Ret (vs, stash') ->
  omap VPath vs = omap (fun tk => s_Path <$> validated.*1 !! t_index tk) ticks.
Proof.
  induction ticks as [|tk ticks IH]; intros stash vs stash' Ht; simpl in Ht; [by injection Ht as <- <-|].
  cbn [omap list_omap]. rewrite list_lookup_fmap.
  destruct (validated !! t_index tk) as [[sub iv]|] eqn:Hv; simpl; [|by eapply IH].
  destruct (sub_getter c sub) as [[p f]|] eqn:Hg; [|done].
  res_inv Ht. destruct a as [v st3]. res_inv Ht. destruct a as [vs' st4]. injection Ht as <- <-.
  assert (VPath v = Some (s_Path sub)) as Hp.
  { unfold sub_getter in Hg. destruct (path2Getter c !! s_Path sub); [|done].
    injection Hg as <- _. unfold runGetterAndSend in E. res_inv E. destruct a as [b st5]. by injection E as <- <-. }
  cbn [omap list_omap]. rewrite Hp. f_equal. by eapply IH.
Qed.

(** C40. A stream of non-database data.  A subscription anywhere in the list
    whose mode is not SAMPLE, or whose interval is not zero and below the
    minimum, ends the stream with one fatal message and nothing else.  When
    there is none, and none of the paths is one the client knows, nothing at
    all is sent, not even the sync response.  Otherwise one value for every
    subscription of a known path comes before the sync response, whatever
    order they are visited in, and after it the ticks send values of these
    subscriptions only, each tick one of its own. *)
Theorem non_db_stream c subs ord t ticks stash vs stash' :
  (forall l, ord l ≡ₚ l) ->
  StreamRun c subs ord t ticks stash = Ret (vs, stash') ->
  (List.Exists refused subs -> exists msg, vs = [FatalValue (m_now t) msg]) /\
  (Forall (fun sub => ~ refused sub) subs -> served c subs = [] -> vs = []) /\
  (Forall (fun sub => ~ refused sub) subs -> served c subs <> [] ->
   exists first rest, vs = first ++ SyncValue (m_now t) :: rest /\
     omap VPath first ≡ₚ s_Path <$> served c subs /\
     omap VPath rest = omap (fun tk => s_Path <$> served c subs !! t_index tk) ticks).
Proof.
  intros Hord. unfold StreamRun. pose proof (validate_subs_spec c subs) as Hv.
  destruct (validate_subs c subs) as [l|e|p]; [| |done].
  2: { intros [= <- <-]. split; [by eexists|].
       assert (Forall (fun sub => ~ refused sub) subs -> False) as Hno.
       { intros HF. apply Exists_exists in Hv as (sub & Hin & Hr). rewrite Forall_forall in HF. by apply (HF sub). }
       by split; intros ?%Hno. }
  destruct Hv as [HF Hl]. intros Hs. split.
  { intros (sub & Hin & Hr)%Exists_exists. rewrite Forall_forall in HF. by destruct (HF sub). }
  rewrite <- Hl. case_decide as Hlen.
  - injection Hs as <- <-. split; [done|]. by destruct l.
  - split; [by destruct l|]. intros _ _. res_inv Hs. destruct a as [first st1]. res_inv Hs. destruct a as [rest st2].
    injection Hs as <- <-. exists first, rest. split_and!; [done| |by eapply stream_ticks_paths].
    assert (omap VPath first = (omap (fun si => sub_getter c si.1) (ord l)).*1) as ->.
    { apply send_all_values in E. induction E as [|v pg vs' l' (b & ->) _ IH]; [done|].
      simpl. f_equal. exact IH. }
    transitivity ((omap (fun si => sub_getter c si.1) l).*1).
    { apply fmap_Permutation, omap_Permutation, Hord. }
    assert (Forall (fun si => is_Some (path2Getter c !! s_Path si.1)) l) as HS.
    { apply Forall_forall. intros si Hsi. assert (si.1 ∈ l.*1) as Hin by (by apply list_elem_of_fmap_2).
      rewrite Hl in Hin. by apply list_elem_of_filter in Hin as [? _]. }
    clear -HS. induction HS as [|[sub i] l [f Hf] _ IH]; [done|].
    simpl in *. unfold sub_getter at 1. rewrite Hf. simpl. apply Permutation_skip. exact IH.
Qed.
End theorems.

(** ** Witnesses *)

Definition sample_env : env := {|
  proc_json _ := "{}";
  ImplIoutilReadFile f := if decide (f = SonicVersionFilePath) then Ret "build_version: 'master.1'"
                          else Fail (Err "no such file");
  yaml_Unmarshal content v := ({| BuildVersion := "master.1"; VersionError := VersionError v |}, None);
|}.

Definition broken_env : env := {|
  proc_json _ := "{}";
  ImplIoutilReadFile f := Fail (Err "no such file");
  yaml_Unmarshal content v := (v, None);
|}.

Lemma lookupGetFunc_table_witness :
  let _ := default_order in
  exists t, clientTriePopulate = Ret t /\
    lookupGetFunc t (target_prefix "OTHERS") (pointee (elems_path 1 ["proc"; "stat"])) = Ret getProcStat /\
    exists e, lookupGetFunc t (target_prefix "OTHERS") (pointee (elems_path 1 ["proc"; "*"])) = Fail e.
Proof.
  destruct clientTrie_represents as (t & Ht & _). exists t. split; [exact Ht|]. split.
  - rewrite (@lookupGetFunc_table default_order t (target_prefix "OTHERS") _ Ht).
    vm_compute. reflexivity.
  - eexists. rewrite (@lookupGetFunc_table default_order t (target_prefix "OTHERS") _ Ht).
    vm_compute. reflexivity.
Defined.

Lemma build_version_cached_witness :
  let '(v, stash') := getBuildVersion_run sample_env InvalidateVersionFileStash in
  Forall (fun e' => getBuildVersion_run e' stash' = (v, stash')) [broken_env] /\
  v = json_version {| BuildVersion := "sonic.master.1"; VersionError := "" |}.
Proof.
  pose proof (build_version_cached sample_env [broken_env] InvalidateVersionFileStash) as Hc.
  destruct (getBuildVersion_run sample_env InvalidateVersionFileStash) as [v stash'].
  destruct Hc as [H1 H2]. split; [exact H1|].
  apply (H2 eq_refl "build_version: 'master.1'" {| BuildVersion := "master.1"; VersionError := "" |}).
  - reflexivity.
  - reflexivity.
  - discriminate.
Defined.

Definition stat_path : PathPtr := elems_path 1 ["proc"; "stat"].
Definition sample_non_db : NonDbClient :=
  {| nd_prefix := target_prefix "OTHERS"; path2Getter := {[stat_path := getProcStat]} |}.
Definition sample_moment (now : Z) : moment :=
  {| m_env := sample_env; m_ring := init_ring; m_now := now |}.

(** One subscription of a known path and one of an unknown path; the second
    tick is of a goroutine that was not started. *)
Lemma non_db_stream_witness :
  let subs := [sample_sub stat_path SAMPLE 0; sample_sub (elems_path 2 ["nowhere"]) SAMPLE 0] in
  let vs := [DataValue (target_prefix "OTHERS") stat_path 1 (JsonIetfVal "{}"); SyncValue 1;
             DataValue (target_prefix "OTHERS") stat_path 2 (JsonIetfVal "{}")] in
  exists first rest, vs = first ++ SyncValue 1 :: rest /\
    omap VPath first ≡ₚ s_Path <$> served sample_non_db subs /\ omap VPath rest = [stat_path].
Proof.
  intros subs vs.
  assert (Forall (fun sub => ~ refused sub) subs) as Hok.
  { repeat constructor; intros [Hm|[Hz _]]; [by apply Hm|by apply Hz|by apply Hm|by apply Hz]. }
  assert (served sample_non_db subs <> []) as Hne.
  { unfold served, subs. rewrite filter_cons_True; [discriminate|]. by eexists. }
  destruct (non_db_stream sample_non_db subs id (sample_moment 1)
    [{| t_index := 0; t_at := sample_moment 2 |}; {| t_index := 1; t_at := sample_moment 3 |}]
    InvalidateVersionFileStash vs InvalidateVersionFileStash ltac:(reflexivity) ltac:(reflexivity)) as (_ & _ & Hs).
  destruct (Hs Hok Hne) as (first & rest & E & Hf & Hr). exists first, rest. split; [exact E|]. split; [exact Hf|].
  rewrite Hr. reflexivity.
Defined.
