(* ===== verification/Auth.v ===== *)
(** * Authentication: [gnmi_server] (server.go, basicAuth.go,
    clientCertAuth.go, jwtAuth.go, pamAuth.go), [common_utils/context.go]
    and the modes chosen in [telemetry/telemetry.go]

    [AuthTypes] is a map that its methods mutate.  A request context carries
    the metadata and the peer of the call and, once [GetContext] was called,
    a pointer to a [RequestContext]; along one call there is one such object,
    so it is a field of the context.  The user database, the ssh daemon and
    the JWT library are the environment [world]. *)

From stdpp Require Import base tactics list fin_maps gmap strings pretty.
From Stdlib Require Import ZArith Ascii Lia.
From S2P Require Import Prelude GoStrings.

Local Open Scope string_scope.
Local Open Scope list_scope.

(** ** AuthTypes *)

Abbreviation AuthTypes := (gmap string bool).

(** Reading a missing key gives false. *)
Definition mode_value (i : AuthTypes) (m : string) : bool := default false (i !! m).

Definition expecting : error := Err "Expecting one or more of 'cert', 'password' or 'jwt'".

Section Types.
Context `{RangeOrder}.

Definition AuthTypes_String (i : AuthTypes) : string :=
  if mode_value i "none" then ""
  else Join ((fun kv => if (kv.2 : bool) then kv.1 +:+ " " else "") <$> range i) "".

Definition Any (i : AuthTypes) : bool :=
  if mode_value i "none" then false else existsb snd (range i).

Definition Enabled (i : AuthTypes) (mode : string) : bool :=
  if mode_value i "none" then false else mode_value i mode.
End Types.

Fixpoint set_modes (modes : list string) : SE AuthTypes unit := fun i =>
  match modes with
  | [] => (i, Ret tt)
  | m :: modes =>
      let m := Trim m " " in
      if decide (m = "none" \/ m = "") then (<["none" := true]> i, Ret tt)
      else match i !! m with
           | None => (i, Fail expecting)
           | Some _ => set_modes modes (<[m := true]> i)
           end
  end.

Definition AuthTypes_Set (mode : string) : SE AuthTypes unit := set_modes (Split mode ",").

Fixpoint unset_modes (modes : list string) : SE AuthTypes unit := fun i =>
  match modes with
  | [] => (i, Ret tt)
  | m :: modes =>
      let m := Trim m " " in
      match i !! m with
      | None => (i, Fail expecting)
      | Some _ => unset_modes modes (<[m := false]> i)
      end
  end.

Definition AuthTypes_Unset (mode : string) : SE AuthTypes unit := unset_modes (Split mode ",").

(** ** Contexts *)

Record AuthInfo := { User : string; AuthEnabled : bool; Roles : list string }.

Record RequestContext := { ID : string; rc_Auth : AuthInfo; BundleVersion : option string }.

(** What the TLS handshake says of the peer: the common names of the
    verified certificate chains. *)
Inductive authInfo := TLSInfo (VerifiedChains : list (list string)) | OtherAuthInfo.

Record Peer := { p_AuthInfo : authInfo; p_Addr : option string }.

Record Ctx := {
  requestContext : option RequestContext;
  metadata : option (gmap string (list string));
  peer : option Peer;
}.

Definition new_rc (n : Z) : RequestContext := {|
  ID := "TELEMETRY-" +:+ pretty n;
  rc_Auth := {| User := ""; AuthEnabled := false; Roles := [] |}; BundleVersion := None |}.

Definition with_rc (ctx : Ctx) (rc : RequestContext) : Ctx :=
  {| requestContext := Some rc; metadata := metadata ctx; peer := peer ctx |}.

(** [GetContext]; the state is the counter of request ids. *)
Definition GetContext (ctx : Ctx) (counter : Z) : RequestContext * Ctx * Z :=
  match requestContext ctx with
  | Some rc => (rc, ctx, counter)
  | None => let n := u64 (counter + 1) in let rc := new_rc n in (rc, with_rc ctx rc, n)
  end.

Definition GetUsername (ctx : Ctx) (counter : Z) : string := User (rc_Auth (GetContext ctx counter).1.1).

Definition set_auth (ctx : Ctx) (rc : RequestContext) (a : AuthInfo) : Ctx :=
  with_rc ctx {| ID := ID rc; rc_Auth := a; BundleVersion := BundleVersion rc |}.

(** ** Users and tokens *)

Record Claims := { c_Username : string; c_Roles : list string; ExpiresAt : Z }.

Record world := {
  (** the account of a user name, the group ids of an account, and the name
      of a group *)
  Lookup : string -> res string;
  GroupIds : string -> res (list string);
  LookupGroupId : string -> res string;
  (** whether the ssh daemon accepts user name and password *)
  ssh_accepts : string -> string -> bool;
  (** [jwt.ParseWithClaims] with the secret: the claims and [tkn.Valid] *)
  ParseWithClaims : string -> res (Claims * bool);
  SignedString : Claims -> string;
}.

Section Mechanisms.
Context `{RangeOrder} (w : world).

Definition GetUserRoles (usr : string) : res (list string) :=
  gids ← GroupIds w usr;
  collectM (fun gid => name ← LookupGroupId w gid; Ret [name]) gids.

(** The AuthInfo [PopulateAuthStruct] leaves: the roles given, or those of
    the user database. *)
Definition PopulateAuthStruct (username : string) (auth : AuthInfo) (r : list string) : res AuthInfo :=
  roles ← (if decide (r = []) then usr ← Lookup w username; GetUserRoles usr else Ret r);
  Ret {| User := username; AuthEnabled := AuthEnabled auth; Roles := roles |}.

Definition UserPwAuth (username passwd : string) : bool := ssh_accepts w username passwd.

(** [md[key][0]]; a key of incoming metadata has at least one value. *)
Definition md_value (md : gmap string (list string)) (key : string) (missing : string) : res string :=
  match md !! key with
  | Some (v :: _) => Ret v
  | Some [] => Panic IndexOutOfRange
  | None => Fail (StatusErr Unauthenticated missing)
  end.

(** A mechanism gets the context with its request object, and returns the
    context with what it wrote there, also when it refuses. *)
Definition mechanism : Type := Ctx -> RequestContext -> Ctx * res unit.

Definition populate (ctx : Ctx) (rc : RequestContext) (username : string) (r : list string)
    (k : Ctx -> Ctx * res unit) : Ctx * res unit :=
  match PopulateAuthStruct username (rc_Auth rc) r with
  | Ret a => k (set_auth ctx rc a)
  | Fail _ => (ctx, Fail (StatusErr Unauthenticated ""))
  | Panic p => (ctx, Panic p)
  end.

Definition BasicAuthenAndAuthor : mechanism := fun ctx rc =>
  match metadata ctx with
  | None => (ctx, Fail (StatusErr Unknown "Invalid context"))
  | Some md =>
      match (username ← md_value md "username" "No Username Provided";
             passwd ← md_value md "password" "No Password Provided"; Ret (username, passwd)) with
      | Fail e => (ctx, Fail e)
      | Panic p => (ctx, Panic p)
      | Ret (username, passwd) =>
          populate ctx rc username [] (fun ctx =>
            if UserPwAuth username passwd then (ctx, Ret tt)
            else (ctx, Fail (StatusErr PermissionDenied "Invalid Password")))
      end
  end.

Definition JwtAuthenAndAuthor : mechanism := fun ctx rc =>
  match metadata ctx with
  | None => (ctx, Fail (StatusErr Unknown "Invalid context"))
  | Some md =>
      match md_value md "access_token" "No JWT Token Provided" with
      | Fail e => (ctx, Fail e)
      | Panic p => (ctx, Panic p)
      | Ret token =>
          match ParseWithClaims w token with
          | Panic p => (ctx, Panic p)
          | Fail e => (ctx, Fail (StatusErr Unauthenticated (err_text e)))
          | Ret (claims, valid) =>
              if negb valid then (ctx, Fail (StatusErr Unauthenticated "Invalid JWT Token"))
              else populate ctx rc (c_Username claims) (c_Roles claims) (fun ctx => (ctx, Ret tt))
          end
      end
  end.

Definition ClientCertAuthenAndAuthor : mechanism := fun ctx rc =>
  match peer ctx with
  | None => (ctx, Fail (StatusErr Unauthenticated "no peer found"))
  | Some p =>
      match p_AuthInfo p with
      | OtherAuthInfo => (ctx, Fail (StatusErr Unauthenticated "unexpected peer transport credentials"))
      | TLSInfo ((username :: _) :: _) =>
          if decide (username = "")
          then (ctx, Fail (StatusErr Unauthenticated "invalid username in certificate common name."))
          else populate ctx rc username [] (fun ctx => (ctx, Ret tt))
      | TLSInfo _ => (ctx, Fail (StatusErr Unauthenticated "could not verify peer certificate"))
      end
  end.

(** Trying an enabled mechanism when none before it succeeded. *)
Definition attempt (UserAuth : AuthTypes) (mode : string) (m : mechanism) (st : Ctx * bool) : res (Ctx * bool) :=
  let '(ctx, success) := st in
  if negb success && Enabled UserAuth mode then
    match requestContext ctx with
    | None => Panic NilDereference
    | Some rc => match m ctx rc with
                 | (ctx, Ret _) => Ret (ctx, true)
                 | (ctx, Fail _) => Ret (ctx, false)
                 | (_, Panic p) => Panic p
                 end
    end
  else Ret st.

Definition authenticate (UserAuth : AuthTypes) (ctx : Ctx) (counter : Z) : res (Ctx * Z) :=
  let '(rc, ctx, counter) := GetContext ctx counter in
  let a := rc_Auth rc in
  if negb (Any UserAuth)
  then Ret (set_auth ctx rc {| User := User a; AuthEnabled := false; Roles := Roles a |}, counter)
  else
    let ctx := set_auth ctx rc {| User := User a; AuthEnabled := true; Roles := Roles a |} in
    st ← attempt UserAuth "password" BasicAuthenAndAuthor (ctx, false);
    st ← attempt UserAuth "jwt" JwtAuthenAndAuthor st;
    '(ctx, success) ← attempt UserAuth "cert" ClientCertAuthenAndAuthor st;
    if (success : bool) then Ret (ctx, counter)
    else Fail (StatusErr Unauthenticated "Unauthenticated").

(** ** Tokens *)

Record JwtToken := { AccessToken : string; t_Type : string; ExpiresIn : Z }.

(** [tokenResp] at time [now] (nanoseconds), for tokens valid [JwtValidInt]. *)
Definition tokenResp (JwtValidInt now : Z) (username : string) (roles : list string) : JwtToken := {|
  AccessToken := SignedString w {| c_Username := username; c_Roles := roles;
                                   ExpiresAt := ((now + JwtValidInt) / Second)%Z |};
  t_Type := "Bearer"; ExpiresIn := (Z.quot JwtValidInt Second) |}.

(** [Authenticate] of gnoi.go. *)
Definition gnoi_Authenticate (UserAuth : AuthTypes) (JwtValidInt now : Z) (username passwd : string) :
    res JwtToken :=
  if negb (Enabled UserAuth "jwt") then Fail (StatusErr Unimplemented "")
  else
    let denied := Fail (StatusErr PermissionDenied "Invalid Username or Password") in
    if UserPwAuth username passwd then
      match (usr ← Lookup w username; GetUserRoles usr) with
      | Ret roles => Ret (tokenResp JwtValidInt now username roles)
      | Fail _ => denied
      | Panic p => Panic p
      end
    else denied.

(** [Refresh] of gnoi.go: [t.Sub(now)] saturates at 64 bits. *)
Definition gnoi_Refresh (UserAuth : AuthTypes) (JwtRefreshInt JwtValidInt now : Z) (ctx : Ctx) (counter : Z) :
    res JwtToken :=
  '(ctx, counter) ← authenticate UserAuth ctx counter;
  if negb (Enabled UserAuth "jwt") then Fail (StatusErr Unimplemented "")
  else
    match requestContext ctx, metadata ctx ≫= lookup "access_token" with
    | Some rc, tok =>
        let '(_, r) := JwtAuthenAndAuthor ctx rc in
        _ ← r;
        match tok with
        | Some (token :: _) =>
            let claims := match ParseWithClaims w token with
                          | Ret (c, _) => c
                          | _ => {| c_Username := ""; c_Roles := []; ExpiresAt := 0 |} end in
            let left_ := Z.max (- 2 ^ 63) (Z.min (2 ^ 63 - 1) (ExpiresAt claims * Second - now)) in
            if (JwtRefreshInt <? left_)%Z then Fail (StatusErr InvalidArgument "Invalid JWT Token")
            else Ret (tokenResp JwtValidInt now (c_Username claims) (c_Roles claims))
        | _ => Panic IndexOutOfRange
        end
    | None, _ => Panic NilDereference
    end.
End Mechanisms.

(** ** The modes of the server process: [main] *)

Record Flags := {
  client_auth : list string;      (* the values of -client_auth, in order *)
  noTLS : bool;
  ca_crt_given : bool;
}.

Definition all_modes (p c j : bool) : AuthTypes :=
  list_to_map [("password", p); ("cert", c); ("jwt", j)].

(** [main] up to [NewServer]: the modes it works out and logs, and those of
    the configuration [NewServer] gets; a flag value that is refused ends the
    process.  With TLS the modes are stored in a configuration that is declared
    in the block of [if !*noTLS] and hides the one outside; [NewServer] is
    called after that block, with the one outside. *)
Definition server_auth `{RangeOrder} (READ_WRITE_MODE : bool) (f : Flags) : res (AuthTypes * AuthTypes) :=
  let step (i : AuthTypes) (v : string) : res AuthTypes :=
    match AuthTypes_Set v i with (i, Ret _) => Ret i | (_, Fail e) => Fail e | (_, Panic p) => Panic p end in
  let cfg_UserAuth : AuthTypes := ∅ in
  userAuth ← (if decide (client_auth f = [])
              then Ret (if READ_WRITE_MODE then all_modes true false true else all_modes false false false)
              else foldM step (all_modes false false false) (client_auth f));
  if noTLS f then Ret (userAuth, cfg_UserAuth)
  else
    let userAuth := if negb (ca_crt_given f) && Enabled userAuth "cert"
                    then (AuthTypes_Unset "cert" userAuth).1 else userAuth in
    let _cfg_UserAuth := userAuth in     (* the inner [cfg] ends with its block *)
    Ret (userAuth, cfg_UserAuth).

(** ** The modes *)

Lemma Any_spec `{RangeOrder} i :
  Any i = true <-> mode_value i "none" = false /\ exists m, i !! m = Some true.
Proof.
  unfold Any. destruct (mode_value i "none"); [by split; [|intros [? _]]|].
  rewrite existsb_exists. split.
  - intros ([m b] & Hin & Hb). simpl in Hb. subst b. split; [done|]. exists m.
    by apply elem_of_range, list_elem_of_In.
  - intros (_ & m & Hm). exists (m, true). split; [|done]. by apply list_elem_of_In, elem_of_range.
Qed.

Definition known (i : AuthTypes) (m : string) : Prop := m <> "none" /\ m <> "" /\ is_Some (i !! m).

(** Setting known modes turns on exactly those, and leaves the others. *)
Lemma set_modes_known (modes : list string) i :
  Forall (fun m => known i (Trim m " ")) modes ->
  exists i', set_modes modes i = (i', Ret tt) /\
    forall m, i' !! m = if decide (m ∈ (fun m => Trim m " ") <$> modes) then Some true else i !! m.
Proof.
  revert i. induction modes as [|m0 modes IH]; intros i Hk; [by exists i|].
  inversion Hk as [|? ? (Hn & He & b & Hb) Hk']; subst. simpl.
  rewrite decide_False by (by intros [?|?]). rewrite Hb.
  destruct (IH (<[Trim m0 " " := true]> i)) as (i' & -> & Hi').
  { eapply Forall_impl; [exact Hk'|]. intros m (? & ? & ?). split_and!; [done|done|].
    rewrite lookup_insert. by case_decide. }
  exists i'. split; [done|]. intros m. rewrite Hi', lookup_insert.
  repeat case_decide; try done; try (by rewrite elem_of_cons in *; naive_solver).
Qed.

(** [none], or an empty element, after known modes: everything is off. *)
Lemma set_modes_none `{RangeOrder} pre (m0 : string) post i :
  Forall (fun m => known i (Trim m " ")) pre -> Trim m0 " " = "none" \/ Trim m0 " " = "" ->
  exists i', set_modes (pre ++ m0 :: post) i = (i', Ret tt) /\ Any i' = false /\ forall m, Enabled i' m = false.
Proof.
  revert i. induction pre as [|p pre IH]; intros i Hk Hm; simpl.
  - rewrite decide_True by done. eexists. split; [done|]. unfold Any, Enabled, mode_value.
    rewrite lookup_insert_eq. by split.
  - inversion Hk as [|? ? (Hn & He & b & Hb) Hk']; subst.
    rewrite decide_False by (by intros [?|?]). rewrite Hb. apply IH; [|done].
    eapply Forall_impl; [exact Hk'|]. intros m (? & ? & ?). split_and!; [done|done|].
    rewrite lookup_insert. by case_decide.
Qed.

(** An unknown mode is refused, but the modes before it stay on. *)
Lemma set_modes_refused pre (m0 : string) post i :
  Forall (fun m => known i (Trim m " ")) pre ->
  Trim m0 " " <> "none" -> Trim m0 " " <> "" -> i !! Trim m0 " " = None ->
  set_modes (pre ++ m0 :: post) i = ((set_modes pre i).1, Fail expecting).
Proof.
  revert i. induction pre as [|p pre IH]; intros i Hk Hn0 He0 Hm; simpl.
  - rewrite decide_False by (by intros [?|?]). by rewrite Hm.
  - inversion Hk as [|? ? (Hn & He & b & Hb) Hk']; subst.
    rewrite !decide_False by (by intros [?|?]). rewrite Hb. apply IH; [|done|done|].
    + eapply Forall_impl; [exact Hk'|]. intros m (? & ? & ?). split_and!; [done|done|].
      rewrite lookup_insert. by case_decide.
    + rewrite lookup_insert_ne; [done|]. intros E. rewrite E in Hb. congruence.
Qed.

(** ** What the mechanisms promise

    [accepted_as w mode ctx u r]: the credentials of the call are those of
    user [u] with roles [r] under the mode.  It says nothing of the request
    object or of the order of the checks. *)

Definition database_roles (w : world) (u : string) : res (list string) :=
  usr ← Lookup w u; GetUserRoles w usr.

Definition md_first (ctx : Ctx) (key : string) : option string :=
  md ← metadata ctx; vs ← md !! key; head vs.

Inductive accepted_as (w : world) : string -> Ctx -> string -> list string -> Prop :=
  | by_password ctx u p r :
      md_first ctx "username" = Some u -> md_first ctx "password" = Some p ->
      ssh_accepts w u p = true -> database_roles w u = Ret r ->
      accepted_as w "password" ctx u r
  | by_token ctx tok c r :
      md_first ctx "access_token" = Some tok -> ParseWithClaims w tok = Ret (c, true) ->
      (c_Roles c = [] -> database_roles w (c_Username c) = Ret r) ->
      (c_Roles c <> [] -> r = c_Roles c) ->
      accepted_as w "jwt" ctx (c_Username c) r
  | by_certificate ctx p u chain chains r :
      peer ctx = Some p -> p_AuthInfo p = TLSInfo ((u :: chain) :: chains) -> u <> "" ->
      database_roles w u = Ret r ->
      accepted_as w "cert" ctx u r.

(** The metadata gRPC delivers has a value for every key, and the libraries
    report their failures as errors. *)
Definition md_wf (ctx : Ctx) : Prop :=
  forall md k, metadata ctx = Some md -> md !! k <> Some [].

Definition no_panic {A} (m : res A) : Prop := forall p, m <> Panic p.

Record total_world (w : world) : Prop := {
  total_Lookup u : no_panic (Lookup w u);
  total_GroupIds u : no_panic (GroupIds w u);
  total_LookupGroupId g : no_panic (LookupGroupId w g);
  total_Parse t : no_panic (ParseWithClaims w t);
}.

(** Two contexts of one call: the request object may differ. *)
Definition same_call (ctx ctx' : Ctx) : Prop :=
  metadata ctx' = metadata ctx /\ peer ctx' = peer ctx.

#[export] Instance same_call_equiv : Equivalence same_call.
Proof. split; [by intros []|by intros ?? []|intros ??? [] []; split; congruence]. Qed.

Lemma set_auth_call ctx rc a : same_call ctx (set_auth ctx rc a).
Proof. by destruct ctx. Qed.

Lemma md_first_call ctx ctx' k : same_call ctx ctx' -> md_first ctx' k = md_first ctx k.
Proof. intros [Hm _]. unfold md_first. by rewrite Hm. Qed.

#[export] Instance accepted_call w mode :
  Proper (same_call ==> eq ==> eq ==> iff) (accepted_as w mode).
Proof.
  assert (forall ctx ctx' u r, same_call ctx ctx' -> accepted_as w mode ctx u r -> accepted_as w mode ctx' u r) as Himp.
  { intros ctx ctx' u r Hc Ha. pose proof (fun k => md_first_call ctx ctx' k Hc) as Hmd.
    destruct Ha; [eapply by_password|eapply by_token|eapply by_certificate]; eauto; try by rewrite Hmd.
    destruct Hc; congruence. }
  intros ctx ctx' Hc u ? <- r ? <-. split; apply Himp; [done|by symmetry].
Qed.
Section Mechanism_lemmas.
Context `{RangeOrder} (w : world) (Hw : total_world w).

Lemma database_total u : no_panic (database_roles w u).
Proof.
  intros p. unfold database_roles. destruct (Lookup w u) as [usr|e|p'] eqn:E; simpl; [|done|].
  2: { by destruct (total_Lookup _ Hw u p'). }
  unfold GetUserRoles. destruct (GroupIds w usr) as [gids|e|p'] eqn:E'; simpl; [|done|].
  2: { by destruct (total_GroupIds _ Hw usr p'). }
  clear E'. induction gids as [|g gids IH]; [done|]. rewrite collectM_cons.
  destruct (LookupGroupId w g) as [n|e|p'] eqn:Eg; simpl; [|done|].
  - by destruct (collectM _ gids).
  - by destruct (total_LookupGroupId _ Hw g p').
Qed.

(** What no mechanism changes in the request object. *)
Definition kept (rc rc' : RequestContext) : Prop :=
  AuthEnabled (rc_Auth rc') = AuthEnabled (rc_Auth rc) /\ BundleVersion rc' = BundleVersion rc.

#[local] Instance kept_preorder : PreOrder kept.
Proof. split; [done|]. intros ??? [] []. split; congruence. Qed.

(** What a call of a mechanism for a mode leaves: acceptance with the user
    and roles in the request object, or refusal. *)
Definition outcome (mode : string) (ctx : Ctx) (rc : RequestContext) (o : Ctx * res unit) : Prop :=
  same_call ctx o.1 /\
  match o.2 with
  | Ret _ => exists u r, accepted_as w mode ctx u r /\
      requestContext o.1 = Some {| ID := ID rc; BundleVersion := BundleVersion rc;
        rc_Auth := {| User := u; AuthEnabled := AuthEnabled (rc_Auth rc); Roles := r |} |}
  | Fail _ => (forall u r, ~ accepted_as w mode ctx u r) /\
      exists rc', requestContext o.1 = Some rc' /\ kept rc rc'
  | Panic _ => False
  end.

Definition m_spec (mode : string) (m : mechanism) : Prop :=
  forall ctx rc, md_wf ctx -> requestContext ctx = Some rc -> outcome mode ctx rc (m ctx rc).

Lemma refuse mode ctx rc e :
  requestContext ctx = Some rc -> (forall u r, ~ accepted_as w mode ctx u r) ->
  outcome mode ctx rc (ctx, Fail e).
Proof. intros Hrc Hn. split; [done|]. split; [done|]. by exists rc. Qed.

Lemma populate_outcome mode ctx rc u rs k :
  requestContext ctx = Some rc ->
  (forall r, (rs = [] -> database_roles w u = Ret r) -> (rs <> [] -> r = rs) ->
     outcome mode ctx rc (k (set_auth ctx rc {| User := u; AuthEnabled := AuthEnabled (rc_Auth rc); Roles := r |}))) ->
  (forall u' r, accepted_as w mode ctx u' r -> u' = u /\ (rs = [] -> database_roles w u = Ret r)) ->
  outcome mode ctx rc (populate w ctx rc u rs k).
Proof.
  intros Hrc Hk Hn. unfold populate, PopulateAuthStruct. destruct (decide (rs = [])) as [E|E].
  - fold (database_roles w u). destruct (database_roles w u) as [r|e|p] eqn:Er; simpl.
    + by apply Hk.
    + apply refuse; [done|]. intros u' r [-> Hr]%Hn. by specialize (Hr E).
    + by apply database_total in Er.
  - simpl. by apply Hk.
Qed.

Lemma md_value_first md k msg :
  md !! k <> Some [] ->
  md_value md k msg = match md !! k ≫= head with
                      | Some v => Ret v | None => Fail (StatusErr Unauthenticated msg) end.
Proof. unfold md_value. destruct (md !! k) as [[|v vs]|]; done. Qed.

Lemma Basic_spec : m_spec "password" (BasicAuthenAndAuthor w).
Proof.
  intros ctx rc Hmd Hrc. unfold BasicAuthenAndAuthor.
  destruct (metadata ctx) as [md|] eqn:Em.
  2: { apply refuse; [done|]. intros u r Ha. inversion Ha as [? ? p ? Hu| |]; subst.
       unfold md_first in Hu. by rewrite Em in Hu. }
  assert (forall k, md_first ctx k = md !! k ≫= head) as Hf by (intros; unfold md_first; by rewrite Em).
  rewrite !md_value_first by by apply Hmd.
  destruct (md !! "username" ≫= head) as [u|] eqn:Eu; simpl.
  2: { apply refuse; [done|]. intros ? ? Ha. inversion Ha; subst; congruence. }
  destruct (md !! "password" ≫= head) as [p|] eqn:Ep; simpl.
  2: { apply refuse; [done|]. intros ? ? Ha. inversion Ha; subst; congruence. }
  apply populate_outcome; [done| |].
  - intros r Hr _. specialize (Hr eq_refl). unfold UserPwAuth.
    destruct (ssh_accepts w u p) eqn:Es; (split; [apply set_auth_call|]); simpl.
    + exists u, r. split; [|done]. eapply by_password; [by rewrite Hf|by rewrite Hf|done|done].
    + split; [|by eexists]. intros u' r' Ha. inversion Ha as [? ? p' ? Hu Hp| |]; subst.
      rewrite Hf in Hu, Hp. congruence.
  - intros u' r Ha. inversion Ha as [? ? p' ? Hu Hp| |]; subst. rewrite Hf in Hu.
    split; [congruence|]. intros _. congruence.
Qed.

Lemma Jwt_spec : m_spec "jwt" (JwtAuthenAndAuthor w).
Proof.
  intros ctx rc Hmd Hrc. unfold JwtAuthenAndAuthor.
  destruct (metadata ctx) as [md|] eqn:Em.
  2: { apply refuse; [done|]. intros u r Ha. inversion Ha as [|? ? ? ? Hu|]; subst.
       unfold md_first in Hu. by rewrite Em in Hu. }
  assert (forall k, md_first ctx k = md !! k ≫= head) as Hf by (intros; unfold md_first; by rewrite Em).
  rewrite md_value_first by by apply Hmd.
  destruct (md !! "access_token" ≫= head) as [tok|] eqn:Et; simpl.
  2: { apply refuse; [done|]. intros ? ? Ha. inversion Ha; subst; congruence. }
  destruct (ParseWithClaims w tok) as [[c valid]|e|p] eqn:Ec.
  2: { apply refuse; [done|]. intros ? ? Ha. inversion Ha; subst; congruence. }
  2: { by apply (total_Parse _ Hw) in Ec. }
  destruct valid; simpl.
  2: { apply refuse; [done|]. intros ? ? Ha. inversion Ha; subst; congruence. }
  apply populate_outcome; [done| |].
  - intros r Hr Hr'. split; [apply set_auth_call|]. simpl. exists (c_Username c), r. split; [|done].
    eapply by_token; [by rewrite Hf|done|done|done].
  - intros u' r Ha. inversion Ha as [|? tok' c' ? Ht Hc Hr| ]; subst. rewrite Hf in Ht.
    assert (c' = c) as -> by congruence. done.
Qed.

Lemma Cert_spec : m_spec "cert" (ClientCertAuthenAndAuthor w).
Proof.
  intros ctx rc Hmd Hrc. unfold ClientCertAuthenAndAuthor.
  destruct (peer ctx) as [p|] eqn:Ep.
  2: { apply refuse; [done|]. intros u r Ha. inversion Ha; subst; congruence. }
  destruct (p_AuthInfo p) as [[|[|u chain] chains]|] eqn:Ei.
  1,2,4: apply refuse; [done|]; intros ? r Ha; inversion Ha; subst; congruence.
  destruct (decide (u = "")) as [->|Hu].
  { apply refuse; [done|]. intros u r Ha. inversion Ha; subst; congruence. }
  apply populate_outcome; [done| |].
  - intros r Hr _. split; [apply set_auth_call|]. simpl. exists u, r. split; [|done]. eapply by_certificate; eauto.
  - intros u' r Ha. inversion Ha as [| |? p' ? chain' chains' ? Hp Hi]; subst.
    assert (u' = u) as -> by congruence. done.
Qed.

(** An attempt is skipped after a success, or when its mode is off. *)
Lemma attempt_spec UserAuth mode m ctx rc :
  m_spec mode m -> md_wf ctx -> requestContext ctx = Some rc ->
  exists ctx' ok, attempt UserAuth mode m (ctx, false) = Ret (ctx', ok) /\ same_call ctx ctx' /\
    if ok : bool
    then Enabled UserAuth mode = true /\ outcome mode ctx rc (ctx', Ret tt)
    else (Enabled UserAuth mode = true -> forall u r, ~ accepted_as w mode ctx u r) /\
         exists rc', requestContext ctx' = Some rc' /\ kept rc rc'.
Proof.
  intros Hm Hmd Hrc. unfold attempt. simpl. rewrite Hrc. destruct (Enabled UserAuth mode) eqn:E.
  - destruct (Hm ctx rc Hmd Hrc) as [Hc Ho]. destruct (m ctx rc) as [ctx' [[]|e|p]]; simpl in *; [| |done].
    + exists ctx', true. by split_and!.
    + exists ctx', false. split; [done|]. split; [done|]. destruct Ho as [Hn Hr]. by split.
  - exists ctx, false. split_and!; [done|done|done|]. by exists rc.
Qed.

Lemma attempt_off UserAuth mode m st : Enabled UserAuth mode = false -> attempt UserAuth mode m st = Ret st.
Proof. intros E. unfold attempt. destruct st as [ctx success]. by rewrite E, andb_false_r. Qed.

Lemma attempt_on UserAuth mode (m : mechanism) ctx rc :
  Enabled UserAuth mode = true -> requestContext ctx = Some rc ->
  attempt UserAuth mode m (ctx, false) =
  match m ctx rc with
  | (ctx, Ret _) => Ret (ctx, true)
  | (ctx, Fail _) => Ret (ctx, false)
  | (_, Panic p) => Panic p
  end.
Proof. intros E Hrc. unfold attempt. by rewrite E, Hrc. Qed.

Lemma attempt_done UserAuth mode m ctx : attempt UserAuth mode m (ctx, true) = Ret (ctx, true).
Proof. done. Qed.

Definition attempts (UserAuth : AuthTypes) (l : list (string * mechanism)) (st : Ctx * bool) : res (Ctx * bool) :=
  foldM (fun st '(mode, m) => attempt UserAuth mode m st) st l.

Lemma attempts_done UserAuth l ctx : attempts UserAuth l (ctx, true) = Ret (ctx, true).
Proof. induction l as [|[mode m] l IH]; [done|]. exact IH. Qed.

(** [a] is the user and the roles of the first enabled mode of [modes] whose
    credentials the call has. *)
Definition authenticated_as (UserAuth : AuthTypes) (modes : list string) (ctx : Ctx) (a : AuthInfo) : Prop :=
  exists pre mode post, modes = pre ++ mode :: post /\ Enabled UserAuth mode = true /\
    accepted_as w mode ctx (User a) (Roles a) /\
    forall m, m ∈ pre -> Enabled UserAuth m = true -> forall u r, ~ accepted_as w m ctx u r.

Lemma authenticated_later UserAuth mode modes ctx a :
  (Enabled UserAuth mode = true -> forall u r, ~ accepted_as w mode ctx u r) ->
  authenticated_as UserAuth modes ctx a -> authenticated_as UserAuth (mode :: modes) ctx a.
Proof.
  intros Hn (pre & mode' & post & -> & He & Ha & Hpre). exists (mode :: pre), mode', post.
  split_and!; [done..|]. intros m [->|Hm]%elem_of_cons; [done|by apply Hpre].
Qed.

#[local] Instance authenticated_call UserAuth modes :
  Proper (same_call ==> eq ==> iff) (authenticated_as UserAuth modes).
Proof. intros ctx ctx' Hc a ? <-. unfold authenticated_as. by setoid_rewrite Hc. Qed.

Lemma attempts_spec UserAuth l ctx rc :
  Forall (fun x => m_spec x.1 x.2) l -> md_wf ctx -> requestContext ctx = Some rc ->
  exists ctx' ok rc', attempts UserAuth l (ctx, false) = Ret (ctx', ok) /\ same_call ctx ctx' /\
    requestContext ctx' = Some rc' /\ kept rc rc' /\
    if ok : bool then authenticated_as UserAuth l.*1 ctx (rc_Auth rc')
    else forall m u r, m ∈ l.*1 -> Enabled UserAuth m = true -> ~ accepted_as w m ctx u r.
Proof.
  revert ctx rc. induction l as [|[mode m] l IH]; intros ctx rc Hl Hmd Hrc.
  { exists ctx, false, rc. split_and!; try done. by intros ? ? ? ?%elem_of_nil. }
  inversion Hl as [|? ? Hm Hl']; subst. 
  change (attempts UserAuth ((mode, m) :: l) (ctx, false))
    with (attempt UserAuth mode m (ctx, false) ≫= attempts UserAuth l).
  destruct (attempt_spec UserAuth mode m ctx rc Hm Hmd Hrc) as (ctx1 & ok & -> & Hc & Ho). rewrite bind_ret_l. destruct ok.
  - rewrite attempts_done. destruct Ho as [He [_ (u & r & Ha & Hrc')]].
    eexists _, _, _. split_and!; [done|done|exact Hrc'|done|].
    exists [], mode, l.*1. split_and!; [done..|]. by intros ? ?%elem_of_nil.
  - destruct Ho as [Hn (rc1 & Hrc1 & Hen)].
    destruct (IH ctx1 rc1) as (ctx2 & ok & rc2 & E2 & Hc2 & Hrc2 & Hen2 & Ho); [done| |done|].
    { intros md k Hmd'. apply Hmd. by destruct Hc as [<- _]. }
    exists ctx2, ok, rc2. split; [done|]. split; [by etransitivity|]. split; [done|]. split; [by etransitivity|].
    destruct ok.
    + apply authenticated_later; [done|]. by rewrite Hc.
    + intros m' u r [->|Hm']%elem_of_cons He; [by apply Hn|]. rewrite Hc. by apply Ho.
Qed.
End Mechanism_lemmas.

(** The modes, in the order they are tried. *)
Definition mechanisms `{RangeOrder} (w : world) : list (string * mechanism) :=
  [("password", BasicAuthenAndAuthor w); ("jwt", JwtAuthenAndAuthor w); ("cert", ClientCertAuthenAndAuthor w)].

Definition tried : list string := ["password"; "jwt"; "cert"].

Lemma mechanisms_spec `{RangeOrder} w : total_world w -> Forall (fun x => m_spec w x.1 x.2) (mechanisms w).
Proof. 
  intros Hw. apply Forall_cons_2; [by apply Basic_spec|]. apply Forall_cons_2; [by apply Jwt_spec|].
  apply Forall_cons_2; [by apply Cert_spec|constructor].
 Qed.

Lemma authenticate_unfold `{RangeOrder} w UserAuth ctx counter :
  authenticate w UserAuth ctx counter =
  let '(rc, ctx, counter) := GetContext ctx counter in
  let set b := set_auth ctx rc {| User := User (rc_Auth rc); AuthEnabled := b; Roles := Roles (rc_Auth rc) |} in
  if Any UserAuth
  then '(ctx, success) ← attempts UserAuth (mechanisms w) (set true, false);
       if (success : bool) then Ret (ctx, counter) else Fail (StatusErr Unauthenticated "Unauthenticated")
  else Ret (set false, counter).
Proof.
  unfold authenticate, attempts, mechanisms. destruct (GetContext ctx counter) as [[rc ctx0] n]. simpl foldM.
  destruct (Any UserAuth); simpl negb; [|done]. rewrite !bind_assoc.
  apply res_bind_ext. intros st1. rewrite bind_assoc. apply res_bind_ext. intros st2.
  rewrite bind_assoc. apply res_bind_ext. by intros [ctx3 ok].
Qed.

Lemma GetContext_call ctx counter : same_call ctx (GetContext ctx counter).1.2.
Proof. unfold GetContext. by destruct ctx as [[] ? ?]. Qed.

(** The outcome of authentication, with what it leaves in the request
    object. *)
Lemma authenticate_outcome `{RangeOrder} (w : world) (UserAuth : AuthTypes) (ctx : Ctx) (counter : Z) :
  total_world w -> md_wf ctx ->
  match authenticate w UserAuth ctx counter with
  | Ret (ctx', _) =>
      same_call ctx ctx' /\
      exists rc, requestContext ctx' = Some rc /\ AuthEnabled (rc_Auth rc) = Any UserAuth /\
        BundleVersion rc = requestContext ctx ≫= BundleVersion /\
        (Any UserAuth = true -> authenticated_as w UserAuth tried ctx (rc_Auth rc))
  | Fail e =>
      e = StatusErr Unauthenticated "Unauthenticated" /\ Any UserAuth = true /\
      forall m u r, m ∈ tried -> Enabled UserAuth m = true -> ~ accepted_as w m ctx u r
  | Panic _ => False
  end.
Proof.
  intros Hw Hmd.
  rewrite authenticate_unfold. pose proof (GetContext_call ctx counter) as Hc0.
  assert (BundleVersion (GetContext ctx counter).1.1 = requestContext ctx ≫= BundleVersion) as Hb0
    by (unfold GetContext; by destruct ctx as [[] ? ?]).
  destruct (GetContext ctx counter) as [[rc0 ctx0] n]. simpl in Hc0, Hb0.
  destruct (Any UserAuth) eqn:EA.
  2: { simpl. split; [rewrite Hc0; apply set_auth_call|]. eexists. by split_and!. }
  cbv beta iota zeta. set (a := {| User := User (rc_Auth rc0); AuthEnabled := true; Roles := Roles (rc_Auth rc0) |}).
  assert (same_call ctx (set_auth ctx0 rc0 a)) as Hc by (rewrite Hc0; apply set_auth_call).
  destruct (attempts_spec w UserAuth (mechanisms w) (set_auth ctx0 rc0 a) {| ID := ID rc0; rc_Auth := a; BundleVersion := BundleVersion rc0 |})
    as (ctx1 & ok & rc1 & -> & Hc1 & Hrc1 & Hen & Ho); [by apply mechanisms_spec| |done|].
  { intros md k Hm. apply Hmd. by destruct Hc as [<- _]. }
  simpl. destruct ok; simpl.
  - split; [by rewrite Hc|]. exists rc1. destruct Hen as [Hen Hb]. split_and!; [done|done|by rewrite Hb|]. intros _. revert Ho.
    unfold authenticated_as. by setoid_rewrite <- Hc.
  - split_and!; [done|done|]. intros m u r. rewrite Hc. apply Ho.
Qed.

(** C5. Authentication lets a call in exactly when no mode is on, or the call
    carries the credentials of some mode that is on; it then records in the
    request object the user and the roles of the first such mode, in the order
    password, token, certificate, and whether authentication was on.  What a
    refused attempt wrote there does not survive.  Otherwise the call ends
    with the code Unauthenticated, and nothing panics. *)
Theorem authenticate_spec `{RangeOrder} (w : world) (UserAuth : AuthTypes) (ctx : Ctx) (counter : Z)
  (Hw : total_world w) (Hmd : md_wf ctx) :
  match authenticate w UserAuth ctx counter with
  | Ret (ctx', _) =>
      same_call ctx ctx' /\
      exists rc, requestContext ctx' = Some rc /\ AuthEnabled (rc_Auth rc) = Any UserAuth /\
        (Any UserAuth = true -> authenticated_as w UserAuth tried ctx (rc_Auth rc))
  | Fail e =>
      e = StatusErr Unauthenticated "Unauthenticated" /\ Any UserAuth = true /\
      forall m u r, m ∈ tried -> Enabled UserAuth m = true -> ~ accepted_as w m ctx u r
  | Panic _ => False
  end.
Proof.
  pose proof (authenticate_outcome w UserAuth ctx counter Hw Hmd) as Ho.
  destruct (authenticate w UserAuth ctx counter) as [[ctx' n]|e|p]; [|done|done].
  destruct Ho as (Hc & rc & Hrc & Hen & _ & Ha). split; [done|]. by exists rc.
Qed.

(** Two users, [admin] with a password and [monitor] with a certificate; the
    database knows both.  The token library of the sample writes user name and
    expiry time side by side. *)
Definition sample_world : world := {|
  Lookup := fun u => if decide (u ∈ ["admin"; "monitor"]) then Ret u else Fail (Err "unknown user");
  GroupIds := fun u => Ret (if decide (u = "admin") then ["27"; "1000"] else ["1001"]);
  LookupGroupId := fun g => Ret (if decide (g = "27") then "sudo" else g);
  ssh_accepts := fun u p => bool_decide (u = "admin" /\ p = "secret");
  ParseWithClaims := fun t =>
    if decide (t = "admin@7200")
    then Ret ({| c_Username := "admin"; c_Roles := ["sudo"; "1000"]; ExpiresAt := 7200 |}, true)
    else Fail (Err "signature is invalid");
  SignedString := fun c => c_Username c +:+ "@" +:+ pretty (ExpiresAt c);
|}.

Lemma sample_world_total : total_world sample_world.
Proof. split; intros x p; simpl; try done; by case_decide. Qed.

Definition sample_modes : AuthTypes := list_to_map [("password", true); ("cert", true); ("jwt", true)].

(** A call with a wrong password and the certificate of another user. *)
Definition sample_ctx : Ctx := {|
  requestContext := None;
  metadata := Some (list_to_map [("username", ["admin"]); ("password", ["guess"])]);
  peer := Some {| p_AuthInfo := TLSInfo [["monitor"]]; p_Addr := Some "10.0.0.1:5000" |};
|}.

Lemma sample_ctx_wf : md_wf sample_ctx.
Proof.
  intros md k [= <-]. simpl. rewrite !lookup_insert. by repeat case_decide.
Qed.

Lemma authenticate_spec_witness :
  authenticate (H := default_order) sample_world sample_modes sample_ctx 0 =
    Ret ({| requestContext := Some {| ID := "TELEMETRY-1"; BundleVersion := None;
              rc_Auth := {| User := "monitor"; AuthEnabled := true; Roles := ["1001"] |} |};
            metadata := metadata sample_ctx; peer := peer sample_ctx |}, 1%Z) /\
  authenticated_as sample_world sample_modes tried sample_ctx
    {| User := "monitor"; AuthEnabled := true; Roles := ["1001"] |}.
Proof.
  assert (authenticate (H := default_order) sample_world sample_modes sample_ctx 0 =
    Ret ({| requestContext := Some {| ID := "TELEMETRY-1"; BundleVersion := None;
              rc_Auth := {| User := "monitor"; AuthEnabled := true; Roles := ["1001"] |} |};
            metadata := metadata sample_ctx; peer := peer sample_ctx |}, 1%Z)) as E
    by (vm_compute; reflexivity).
  split; [exact E|].
  pose proof (@authenticate_spec default_order sample_world sample_modes sample_ctx 0 sample_world_total sample_ctx_wf) as Hs.
  rewrite E in Hs. destruct Hs as [_ (rc & [= <-] & _ & Ha)]. apply Ha. vm_compute. reflexivity.
Defined.

(** ** Tokens that were handed out *)

(** The law of the token library the login relies on: a token signed with the
    secret parses, as valid, to the claims that were signed, as long as they
    have not expired. *)
Definition jwt_law (w : world) (now : Z) : Prop :=
  forall c, (now / Second <= ExpiresAt c)%Z -> ParseWithClaims w (SignedString w c) = Ret (c, true).

(** A call that carries a token and no user name; whatever else it carries. *)
Definition carries (tok : JwtToken) (ctx : Ctx) : Prop :=
  exists md more, metadata ctx = Some md /\ md !! "username" = None /\
    md !! "access_token" = Some (AccessToken tok :: more).

Lemma carries_call tok ctx ctx' : same_call ctx ctx' -> carries tok ctx -> carries tok ctx'.
Proof. intros [Hm _] (md & more & Hmd & ?). exists md, more. by rewrite Hm. Qed.

Lemma Enabled_Any `{RangeOrder} UserAuth m : Enabled UserAuth m = true -> Any UserAuth = true.
Proof.
  intros He. apply Any_spec. unfold Enabled, mode_value in *. destruct (default false (UserAuth !! "none")); [done|].
  split; [done|]. exists m. by destruct (UserAuth !! m) as [[]|].
Qed.

(** Without a user name the password attempt leaves the call as it was. *)
Lemma no_username `{RangeOrder} w UserAuth tok ctx rc :
  carries tok ctx -> requestContext ctx = Some rc ->
  attempt UserAuth "password" (BasicAuthenAndAuthor w) (ctx, false) = Ret (ctx, false).
Proof.
  intros (md & more & Hmd & Hu & _) Hrc. unfold attempt. simpl. destruct (Enabled UserAuth "password"); [|done].
  rewrite Hrc. unfold BasicAuthenAndAuthor. rewrite Hmd. unfold md_value. by rewrite Hu.
Qed.

(** What a login that succeeds gives. *)
Lemma login_claims `{RangeOrder} (w : world) (UserAuth : AuthTypes) (JwtValidInt t0 : Z)
    (username passwd : string) (tok : JwtToken) (rs : list string) :
  gnoi_Authenticate w UserAuth JwtValidInt t0 username passwd = Ret tok -> database_roles w username = Ret rs ->
  Enabled UserAuth "jwt" = true /\ ssh_accepts w username passwd = true /\ tok = tokenResp w JwtValidInt t0 username rs.
Proof.
  unfold gnoi_Authenticate. destruct (Enabled UserAuth "jwt"); [|done]. simpl.
  unfold UserPwAuth. destruct (ssh_accepts w username passwd); [|done].
  intros Hlogin Hroles. fold (database_roles w username) in Hlogin. rewrite Hroles in Hlogin. by injection Hlogin as <-.
Qed.

(** A call with a valid token and no user name is that of the user of the
    token, where token authentication is on: whatever its certificate says. *)
Lemma token_identity `{RangeOrder} (w : world) (UserAuth : AuthTypes) (ctx : Ctx) (t : string) (c : Claims) (a : AuthInfo) :
  Enabled UserAuth "jwt" = true -> md_first ctx "username" = None -> md_first ctx "access_token" = Some t ->
  ParseWithClaims w t = Ret (c, true) -> c_Roles c <> [] ->
  authenticated_as w UserAuth tried ctx a -> User a = c_Username c /\ Roles a = c_Roles c.
Proof.
  intros Hj Hu Ht Hp Hr (pre & mode & post & Htr & He & Ha & Hpre).
  assert (accepted_as w "jwt" ctx (c_Username c) (c_Roles c)) as Hacc by by eapply by_token.
  destruct Ha as [ctx u p r Hu'|ctx tok' c' r Ht' Hp' _ Hr'|ctx p u chain chains r _ _ _ _]; [congruence| |].
  - assert (c' = c) as -> by congruence. auto.
  - assert ("jwt" ∈ pre) as Hin.
    { unfold tried in Htr. destruct pre as [|? [|? [|? pre]]]; simpl in Htr; simplify_eq; set_solver. }
    destruct (Hpre "jwt" Hin Hj _ _ Hacc).
Qed.

(** A token that parses to claims with a role. *)
Lemma jwt_accepts `{RangeOrder} w tok ctx rc c :
  carries tok ctx -> ParseWithClaims w (AccessToken tok) = Ret (c, true) -> c_Roles c <> [] ->
  JwtAuthenAndAuthor w ctx rc =
  (set_auth ctx rc {| User := c_Username c; AuthEnabled := AuthEnabled (rc_Auth rc); Roles := c_Roles c |}, Ret tt).
Proof.
  intros (md & more & Hmd & _ & Ht) Hp Hr. unfold JwtAuthenAndAuthor. rewrite Hmd. unfold md_value. rewrite Ht, Hp.
  simpl. unfold populate, PopulateAuthStruct. by rewrite decide_False.
Qed.

Lemma token_authenticates `{RangeOrder} w UserAuth tok ctx counter c :
  Enabled UserAuth "jwt" = true -> carries tok ctx -> ParseWithClaims w (AccessToken tok) = Ret (c, true) ->
  c_Roles c <> [] ->
  exists ctx' n rc, authenticate w UserAuth ctx counter = Ret (ctx', n) /\ same_call ctx ctx' /\
    requestContext ctx' = Some rc /\
    rc_Auth rc = {| User := c_Username c; AuthEnabled := true; Roles := c_Roles c |}.
Proof.
  intros Hj Hc Hp Hr. rewrite authenticate_unfold. pose proof (GetContext_call ctx counter) as Hc0.
  destruct (GetContext ctx counter) as [[rc0 ctx0] n]. simpl in Hc0. rewrite (Enabled_Any _ _ Hj). cbv beta iota zeta.
  set (a := {| User := User (rc_Auth rc0); AuthEnabled := true; Roles := Roles (rc_Auth rc0) |}).
  set (rc := {| ID := ID rc0; rc_Auth := a; BundleVersion := BundleVersion rc0 |}).
  assert (same_call ctx (set_auth ctx0 rc0 a)) as Hc1 by (rewrite Hc0; apply set_auth_call).
  assert (carries tok (set_auth ctx0 rc0 a)) as Hc2 by (by eapply carries_call).
  unfold attempts, mechanisms. cbn [foldM]. rewrite (no_username w UserAuth tok _ rc Hc2) by done. rewrite bind_ret_l.
  rewrite (attempt_on _ _ _ _ rc Hj) by done. rewrite (jwt_accepts w tok _ _ c Hc2 Hp Hr). rewrite bind_ret_l, attempt_done.
  do 3 eexists. split; [reflexivity|]. split; [by rewrite Hc1; apply set_auth_call|]. by split.
Qed.

(** C26. The life of a token: a user who logs in with his password gets one
    only when token authentication is on.  Until it expires, a call to the
    same server that carries it and no user name is authenticated as that user
    with the roles he had at login, whatever other modes are on and whatever
    else the call carries; and with such a call it can be exchanged for a
    fresh one, for the same user and roles, exactly in its last
    [JwtRefreshInt]. *)
Theorem login_token `{RangeOrder} (w : world) (UserAuth : AuthTypes) (JwtValidInt JwtRefreshInt t0 t : Z)
    (username passwd : string) (tok : JwtToken) (r0 : string) (rs : list string) (call : Ctx) (counter : Z)
  (Hlaw : jwt_law w t) (Hlogin : gnoi_Authenticate w UserAuth JwtValidInt t0 username passwd = Ret tok)
  (Hroles : database_roles w username = Ret (r0 :: rs))
  (Htime : (t / Second <= (t0 + JwtValidInt) / Second)%Z)
  (Hfit : (- 2 ^ 63 <= (t0 + JwtValidInt) / Second * Second - t < 2 ^ 63)%Z)
  (Hcall : carries tok call) :
  Enabled UserAuth "jwt" = true /\ ssh_accepts w username passwd = true /\
  (exists ctx n rc, authenticate w UserAuth call counter = Ret (ctx, n) /\ requestContext ctx = Some rc /\
     rc_Auth rc = {| User := username; AuthEnabled := true; Roles := r0 :: rs |}) /\
  gnoi_Refresh w UserAuth JwtRefreshInt JwtValidInt t call counter =
    (if (JwtRefreshInt <? (t0 + JwtValidInt) / Second * Second - t)%Z
     then Fail (StatusErr InvalidArgument "Invalid JWT Token")
     else Ret (tokenResp w JwtValidInt t username (r0 :: rs))).
Proof.
  destruct (login_claims _ _ _ _ _ _ _ _ Hlogin Hroles) as (Hj & Hssh & Etok).
  set (c := {| c_Username := username; c_Roles := r0 :: rs; ExpiresAt := (t0 + JwtValidInt) / Second |}).
  assert (ParseWithClaims w (AccessToken tok) = Ret (c, true)) as Hp by (rewrite Etok; exact (Hlaw c Htime)).
  destruct (token_authenticates w UserAuth tok call counter c Hj Hcall Hp ltac:(done)) as (ctx & n & rc & E & Hsame & Hrc & Ha).
  split_and!; [done|done|by exists ctx, n, rc|].
  pose proof (carries_call _ _ _ Hsame Hcall) as Hc'. unfold gnoi_Refresh. rewrite E, bind_ret_l, Hj. simpl.
  rewrite Hrc, (jwt_accepts w tok ctx rc c Hc' Hp) by done. destruct Hc' as (md & more & Hmd & _ & Ht).
  rewrite Hmd. simpl. rewrite Ht, Hp. simpl. by rewrite Z.min_r, Z.max_r by lia.
Qed.

(** A token library for the sample: the claims, written in binary. *)
Fixpoint pos_string (p : positive) : string :=
  match p with
  | xH => ""
  | xO p => String "0" (pos_string p)
  | xI p => String "1" (pos_string p)
  end.

Fixpoint string_pos (s : string) : positive :=
  match s with
  | "" => xH
  | String c s => if Ascii.eqb c "1" then xI (string_pos s) else xO (string_pos s)
  end.

Lemma string_pos_string p : string_pos (pos_string p) = p.
Proof. induction p as [p IH|p IH|]; simpl; by rewrite ?IH. Qed.

Definition token_world (now : Z) : world := {|
  Lookup := Lookup sample_world; GroupIds := GroupIds sample_world; LookupGroupId := LookupGroupId sample_world;
  ssh_accepts := ssh_accepts sample_world;
  SignedString := fun c => pos_string (encode (c_Username c, c_Roles c, ExpiresAt c));
  ParseWithClaims := fun t =>
    match decode (string_pos t) with
    | Some (u, r, e) =>
        if (now / Second <=? e)%Z then Ret ({| c_Username := u; c_Roles := r; ExpiresAt := e |}, true)
        else Fail (Err "token is expired")
    | None => Fail (Err "token contains an invalid number of segments")
    end;
|}.

Lemma token_world_law now : jwt_law (token_world now) now.
Proof.
  intros [u r e] He. simpl. rewrite string_pos_string, decode_encode.
  by rewrite (proj2 (Z.leb_le _ _)).
Qed.

(** The call of a client with the token, over a connection that presents the
    certificate of somebody else. *)
Definition token_call (tok : JwtToken) : Ctx :=
  {| requestContext := None; metadata := Some {["access_token" := [AccessToken tok]]}; peer := peer sample_ctx |}.

(** A token valid for an hour, of a server with all modes on: in its fiftieth
    minute it is accepted and can be refreshed. *)
Lemma login_token_witness :
  let w := token_world (3000 * Second) in
  exists tok, gnoi_Authenticate w sample_modes (3600 * Second) 0 "admin" "secret" = Ret tok /\
    (exists ctx n rc, authenticate (H := default_order) w sample_modes (token_call tok) 0 = Ret (ctx, n) /\
       requestContext ctx = Some rc /\ User (rc_Auth rc) = "admin") /\
    gnoi_Refresh (H := default_order) w sample_modes (900 * Second) (3600 * Second) (3000 * Second) (token_call tok) 0 =
      Ret (tokenResp w (3600 * Second) (3000 * Second) "admin" ["sudo"; "1000"]).
Proof.
  intros w. set (tok := tokenResp w (3600 * Second) 0 "admin" ["sudo"; "1000"]). exists tok.
  assert (gnoi_Authenticate w sample_modes (3600 * Second) 0 "admin" "secret" = Ret tok) as E
    by reflexivity.
  split; [exact E|].
  pose proof (@login_token default_order w sample_modes (3600 * Second) (900 * Second) 0 (3000 * Second)
    "admin" "secret" tok "sudo" ["1000"] (token_call tok) 0 (token_world_law _) E eq_refl) as Hl.
  destruct Hl as (_ & _ & (ctx & n & rc & Ea & Hrc & Hid) & Hr);
    [by vm_compute|by split; vm_compute|eexists _, []; split; [reflexivity|]; split; vm_compute; reflexivity|].
  split; [|exact Hr]. exists ctx, n, rc. split; [exact Ea|]. split; [exact Hrc|]. rewrite Hid. reflexivity.
Defined.

(** ** What the server process turns on *)

(** Whatever -client_auth says, with TLS or without, the server gets no modes:
    no call is authenticated. *)
Lemma server_auth_lost `{RangeOrder} w rw f logged i ctx counter ctx' n :
  server_auth rw f = Ret (logged, i) -> authenticate w i ctx counter = Ret (ctx', n) ->
  Any i = false /\ exists rc, requestContext ctx' = Some rc /\ AuthEnabled (rc_Auth rc) = false.
Proof.
  intros Hf. assert (i = ∅) as ->.
  { unfold server_auth in Hf. res_inv Hf. by destruct (noTLS f); injection Hf as _ <-. }
  assert (Any ∅ = false) as HA by (unfold Any; by rewrite range_empty).
  rewrite authenticate_unfold. destruct (GetContext ctx counter) as [[rc0 ctx0] m]. rewrite HA.
  cbv beta iota zeta. intros [= <- <-]. split; [done|]. by eexists.
Qed.

(** The modes it logs by default. *)
Lemma server_auth_default `{RangeOrder} rw tls ca :
  server_auth rw {| client_auth := []; noTLS := tls; ca_crt_given := ca |} =
  Ret (if rw then all_modes true false true else all_modes false false false, ∅).
Proof. by destruct rw, tls, ca. Qed.
