(* ===== verification/TranslUtils.v ===== *)
(** * Requests to translib: [transl_utils/transl_utils.go]

    translib (the management framework) and the syslog daemon are the
    environment [translib]: what translib answers may depend on everything it
    was asked before.  The functions run in [SE tstate], whose state records
    the requests made so far, the audit messages, the values put on the
    queue of the subscription, and the counter of request ids.

    The JSON scanner behind [json.Compact] and the decoder of the protobuf
    library are kept abstract. *)

From stdpp Require Import base tactics list fin_maps gmap strings pretty.
From Stdlib Require Import ZArith Ascii Lia.
From S2P Require Import Prelude GoStrings Messages Auth.

Local Open Scope string_scope.
Local Open Scope list_scope.

(** ** translib *)

(** An error: its text and whether it is a [tlerr.NotFoundError]. *)
Record tl_error := { tl_NotFound : bool; tl_text : string }.

(** What every request says of its origin. *)
Record origin {Version : Type} := {
  o_User : string;
  o_Roles : list string;
  o_AuthEnabled : bool;
  o_ClientVersion : option Version;   (* None: the zero value *)
}.
Arguments origin : clear implicits.

Record SetRequest {Version : Type} := {
  sr_Path : string; sr_Payload : string; sr_origin : origin Version }.
Arguments SetRequest : clear implicits.

Record BulkRequest {Version : Type} := {
  DeleteRequest : list (SetRequest Version);
  ReplaceRequest : list (SetRequest Version);
  UpdateRequest : list (SetRequest Version);
}.
Arguments BulkRequest : clear implicits.

Record BulkResponse := {
  DeleteResponse : list (option tl_error);
  ReplaceResponse : list (option tl_error);
  UpdateResponse : list (option tl_error);
}.

Inductive request {Version : Type} :=
  | GetReq (path : string) (o : origin Version)
  | DeleteReq (r : SetRequest Version)
  | ReplaceReq (r : SetRequest Version)
  | UpdateReq (r : SetRequest Version)
  | BulkReq (br : BulkRequest Version)
  | ActionReq (path payload : string) (o : origin Version)
  | IsSubscribeSupportedReq (paths : list string)
  | SubscribeReq (paths : list string) (v : option Version)
  | GetModelsReq.
Arguments request : clear implicits.

Inductive NotificationType := PreferSample | PreferOnChange | PreferOther.

Record IsSubscribeResponse := {
  is_Err : option tl_error;
  IsOnChangeSupported : bool;
  MinInterval : Z;                (* int, seconds *)
  PreferredType : NotificationType;
}.

Record ModelData := { md_Name : string; md_Org : string; md_Ver : string }.

Record translib {Version : Type} := {
  NewVersion : string -> Version + tl_error;
  tl_Get : list (request Version) -> string -> string * option tl_error;
  tl_Delete : list (request Version) -> SetRequest Version -> option tl_error;
  tl_Replace : list (request Version) -> SetRequest Version -> option tl_error;
  tl_Update : list (request Version) -> SetRequest Version -> option tl_error;
  tl_Bulk : list (request Version) -> BulkRequest Version -> BulkResponse * option tl_error;
  tl_Action : list (request Version) -> string -> string -> string * option tl_error;
  tl_IsSubscribeSupported : list (request Version) -> list string -> list IsSubscribeResponse;
  tl_GetModels : list (request Version) -> list ModelData;
  syslog_Dial : list string -> option string;    (* None: connected *)
  json_Compact : string -> string;
  Unmarshal_BundleVersion : string -> string;    (* of a protobuf message *)
  Now : nat -> Z;                                (* the n-th reading of the clock *)
}.
Arguments translib : clear implicits.

Record tstate {Version : Type} := {
  calls : list (request Version);
  audit : list string;
  Writer : bool;                 (* connected to syslog *)
  requestCounter : Z;
  enqueued : list Value;
  clock_reads : nat;
}.
Arguments tstate : clear implicits.

(** ** Paths and URIs *)

(** [append(prefix.GetElem(), path.GetElem()...)] when the path has elements;
    elements of the prefix alone are not taken. *)
Definition GnmiTranslFullPath (prefix : option Path) (path : Path) : Path := {|
  Origin := Origin path; Target := "";
  Element := match Element path with [] => [] | l => GetElement prefix ++ l end;
  Elem := match Elem path with [] => [] | l => GetElem prefix ++ l end;
|}.

Section URI.
Context `{RangeOrder}.

Definition uri_elem (e : PathElem) : string :=
  match Key e with
  | None => Name e +:+ "/"
  | Some key => Name e +:+ Join ((fun kv => "[" +:+ kv.1 +:+ "=" +:+ kv.2 +:+ "]") <$> range key) "" +:+ "/"
  end.

(** The path after the prefix, if there is a prefix; reading the origin of a
    nil path panics, having no elements to iterate over does not. *)
Definition ConvertToURI (prefix path : option Path) : res string :=
  fullPath ← match prefix, path with
             | Some _, Some p => Ret (Some (GnmiTranslFullPath prefix p))
             | Some _, None => Panic NilDereference
             | None, _ => Ret path
             end;
  Ret (TrimSuffix ("/" +:+ Join (uri_elem <$> GetElem fullPath) "") "/").

Definition PopulateClientPaths (prefix : option Path) (paths : list PathPtr) : res (gmap PathPtr string) :=
  foldM (fun m path => uri ← ConvertToURI prefix (Some (pointee path)); Ret (<[path := uri]> m)) ∅ paths.
End URI.

(** ** The operations *)

Definition err_of (e : tl_error) : error := Err (tl_text e).

(** The newlines of a value are dropped. *)
Definition body (t : option TypedValue) : string := remove_byte "010" (GetJsonIetfVal t).

Definition isTranslibSuccess (e : option tl_error) : bool :=
  match e with Some e => bool_decide (tl_text e = "Success") | None => true end.

Section Operations.
Context {Version : Type} (tl : translib Version).
Abbreviation M := (SE (tstate Version)).

Definition ask {A} (f : list (request Version) -> A) (r : request Version) : M A := fun s =>
  ({| calls := calls s ++ [r]; audit := audit s; Writer := Writer s; requestCounter := requestCounter s;
      enqueued := enqueued s; clock_reads := clock_reads s |}, Ret (f (calls s))).

Definition now : M Z := fun s =>
  ({| calls := calls s; audit := audit s; Writer := Writer s; requestCounter := requestCounter s;
      enqueued := enqueued s; clock_reads := S (clock_reads s) |}, Ret (Now tl (clock_reads s))).

Definition enqueue (v : Value) : M unit := modify (fun s =>
  {| calls := calls s; audit := audit s; Writer := Writer s; requestCounter := requestCounter s;
     enqueued := enqueued s ++ [v]; clock_reads := clock_reads s |}).

(** [common_utils.GetContext]. *)
Definition get_context (ctx : Ctx) : M (RequestContext * Ctx) := fun s =>
  let '(rc, ctx, n) := GetContext ctx (requestCounter s) in
  ({| calls := calls s; audit := audit s; Writer := Writer s; requestCounter := n;
      enqueued := enqueued s; clock_reads := clock_reads s |}, Ret (rc, ctx)).

Definition log_info (msg : string) : M unit := modify (fun s =>
  {| calls := calls s; audit := audit s ++ [msg]; Writer := Writer s; requestCounter := requestCounter s;
     enqueued := enqueued s; clock_reads := clock_reads s |}).

(** The connection is made by the first message, and kept. *)
Definition connect : M bool := fun s =>
  let up := Writer s || bool_decide (syslog_Dial tl (audit s) = None) in
  ({| calls := calls s; audit := audit s; Writer := up; requestCounter := requestCounter s;
      enqueued := enqueued s; clock_reads := clock_reads s |}, Ret up).

Definition dquote : string := String "034" "".

Definition __log_audit_msg (ctx : Ctx) (reqType uriPath : string) (err : option tl_error) : M unit :=
  let statusMsg := match err with None => "success" | Some _ => "failure" end in
  let errMsg := match err with None => "None" | Some e => tl_text e end in
  up ← connect;
  if (up : bool) then
    '(rc, _) ← get_context ctx;
    log_info (Sprintf "User %s%s%s request %s%s %s%s status - %s error - %s"
                [dquote; User (rc_Auth rc); dquote; dquote; reqType; uriPath; dquote; statusMsg; errMsg])
  else mret tt.

Definition client_version (rc : RequestContext) : M (option Version) :=
  match BundleVersion rc with
  | None => mret None
  | Some v => match NewVersion tl v with
              | inl nver => mret (Some nver)
              | inr e => lift (Fail (err_of e))
              end
  end.

Definition origin_of (rc : RequestContext) (v : option Version) : origin Version := {|
  o_User := User (rc_Auth rc); o_Roles := Roles (rc_Auth rc);
  o_AuthEnabled := AuthEnabled (rc_Auth rc); o_ClientVersion := v |}.

Definition TranslProcessGet (uriPath : string) (ctx : Ctx) : M TypedValue :=
  '(rc, _) ← get_context ctx;
  v ← client_version rc;
  let o := origin_of rc v in
  '(payload, err1) ← ask (fun h => tl_Get tl h uriPath) (GetReq uriPath o);
  if isTranslibSuccess err1 then mret (JsonIetfVal (json_Compact tl payload))
  else lift (Fail (from_option err_of (Err "") err1)).

Definition fail_of (e : option tl_error) : M unit :=
  match e with None => mret tt | Some e => lift (Fail (err_of e)) end.

Definition set_request (uri payload : string) (ctx : Ctx) : M (SetRequest Version) :=
  '(rc, _) ← get_context ctx;
  v ← client_version rc;
  mret {| sr_Path := uri; sr_Payload := payload; sr_origin := origin_of rc v |}.

Definition TranslProcessDelete (uri : string) (ctx : Ctx) : M unit :=
  req ← set_request uri "" ctx;
  err ← ask (fun h => tl_Delete tl h req) (DeleteReq req);
  fail_of err.

Definition TranslProcessReplace (uri : string) (t : option TypedValue) (ctx : Ctx) : M unit :=
  req ← set_request uri (body t) ctx;
  err1 ← ask (fun h => tl_Replace tl h req) (ReplaceReq req);
  fail_of err1.

Definition TranslProcessUpdate (uri : string) (t : option TypedValue) (ctx : Ctx) : M unit :=
  req ← set_request uri (body t) ctx;
  err ← ask (fun h => tl_Update tl h req) (UpdateReq req);
  match err with
  | Some e =>
      if tl_NotFound e
      then err ← ask (fun h => tl_Replace tl h req) (ReplaceReq req); fail_of err
      else lift (Fail (err_of e))
  | None => mret tt
  end.

(** The audit messages of one list of responses; [uris] are those of the
    requests. *)
Fixpoint log_responses (ctx : Ctx) (reqType : string) (uris : list string) (rs : list (option tl_error)) : M unit :=
  match rs with
  | [] => mret tt
  | r :: rs =>
      match uris with
      | [] => lift (Panic IndexOutOfRange)
      | uri :: uris => __log_audit_msg ctx reqType uri r ≫= fun _ => log_responses ctx reqType uris rs
      end
  end.

Definition response_errors (resp : BulkResponse) : list string :=
  omap (fmap tl_text) (DeleteResponse resp ++ ReplaceResponse resp ++ UpdateResponse resp).

(** An element of [replace] or [update]: [GetPath] and [GetVal]. *)
Definition update_path (u : Update) : option Path := pointee <$> u_Path u.

Definition bulk_request `{RangeOrder} (prefix : option Path) (o : origin Version) (path : option Path) (payload : string) :
    M (SetRequest Version) :=
  uri ← lift (ConvertToURI prefix path);
  mret {| sr_Path := uri; sr_Payload := payload; sr_origin := o |}.

Definition TranslProcessBulk `{RangeOrder} (delete : list PathPtr) (replace update : list Update)
    (prefix : option Path) (ctx : Ctx) : M unit :=
  '(rc, ctx) ← get_context ctx;
  v ← client_version rc;
  let o := origin_of rc v in
  dels ← mapS (fun d => bulk_request prefix o (Some (pointee d)) "") delete;
  reps ← mapS (fun r => bulk_request prefix o (update_path r) (body (u_Val r))) replace;
  upds ← mapS (fun u => bulk_request prefix o (update_path u) (body (u_Val u))) update;
  let br := {| DeleteRequest := dels; ReplaceRequest := reps; UpdateRequest := upds |} in
  '(resp, err) ← ask (fun h => tl_Bulk tl h br) (BulkReq br);
  log_responses ctx "DELETE" (sr_Path <$> dels) (DeleteResponse resp) ≫= fun _ =>
  log_responses ctx "REPLACE" (sr_Path <$> reps) (ReplaceResponse resp) ≫= fun _ =>
  log_responses ctx "UPDATE" (sr_Path <$> upds) (UpdateResponse resp) ≫= fun _ =>
  match err with
  | Some _ => lift (Fail (Errorf "SET failed: %s" [Join (response_errors resp) "; "]))
  | None => mret tt
  end.

Definition TranslProcessAction (uri payload : string) (ctx : Ctx) : M string :=
  '(rc, ctx) ← get_context ctx;
  v ← client_version rc;
  '(out, err) ← ask (fun h => tl_Action tl h uri payload) (ActionReq uri payload (origin_of rc v));
  __log_audit_msg ctx "ACTION" uri err ≫= fun _ =>
  match err with Some e => lift (Fail (err_of e)) | None => mret out end.

Definition GetModels : M (list ModelData) := ask (tl_GetModels tl) GetModelsReq.
End Operations.

(** ** Who translib is asked for *)

(** What a context says of the caller; without a request object it is nobody,
    with authentication off. *)
Definition caller (ctx : Ctx) : AuthInfo * option string :=
  match requestContext ctx with
  | Some rc => (rc_Auth rc, BundleVersion rc)
  | None => ({| User := ""; AuthEnabled := false; Roles := [] |}, None)
  end.

Section Identity.
Context {Version : Type} (tl : translib Version).

(** The version of a request is the one the caller asked for. *)
Definition version_of (bv : option string) (v : option Version) : Prop :=
  match bv with
  | None => v = None
  | Some b => exists nver, NewVersion tl b = inl nver /\ v = Some nver
  end.

Definition is_from (who : AuthInfo * option string) (o : origin Version) : Prop :=
  o_User o = User who.1 /\ o_Roles o = Roles who.1 /\ o_AuthEnabled o = AuthEnabled who.1 /\
  version_of who.2 (o_ClientVersion o).

(** Every part of a request that names a user names the caller. *)
Definition on_behalf (who : AuthInfo * option string) (r : request Version) : Prop :=
  match r with
  | GetReq _ o | ActionReq _ _ o => is_from who o
  | DeleteReq r | ReplaceReq r | UpdateReq r => is_from who (sr_origin r)
  | BulkReq br => Forall (fun r => is_from who (sr_origin r))
                    (DeleteRequest br ++ ReplaceRequest br ++ UpdateRequest br)
  | SubscribeReq _ v => version_of who.2 v
  | IsSubscribeSupportedReq _ | GetModelsReq => True
  end.

(** Requests are only added, and those that are satisfy [P]. *)
Definition only_asks (P : request Version -> Prop) : relation (tstate Version) := fun s s' =>
  exists cs, calls s' = calls s ++ cs /\ Forall P cs.

#[export] Instance only_asks_preorder P : PreOrder (only_asks P).
Proof.
  split.
  - intros s. exists []. by rewrite app_nil_r.
  - intros s1 s2 s3 (c1 & E1 & H1) (c2 & E2 & H2). exists (c1 ++ c2).
    rewrite E2, E1, app_assoc. by split; [|apply Forall_app].
Qed.

Definition asks_ret {A} P := @does_ret _ (only_asks P) _ A.
Definition asks_lift {A} P := @does_lift _ (only_asks P) _ A.
Definition asks_bind {A B} P := @does_bind _ (only_asks P) _ A B.
Definition asks_catch {A B} P := @does_catch _ (only_asks P) _ A B.
Definition asks_forM {A} P := @does_forM _ (only_asks P) _ A.
Definition asks_mapS {A B} P := @does_mapS _ (only_asks P) _ A B.

Lemma quiet {A} P (m : SE (tstate Version) A) (Q : A -> Prop) :
  (forall s, calls (m s).1 = calls s) -> (forall s a, (m s).2 = Ret a -> Q a) -> does (only_asks P) m Q.
Proof.
  intros Hc HQ s. split; [exists []; by rewrite Hc, app_nil_r|].
  specialize (HQ s). destruct (m s).2; auto.
Qed.

Lemma asks {A} (P : request Version -> Prop) (f : list (request Version) -> A) r (Q : A -> Prop) :
  P r -> (forall h, Q (f h)) -> does (only_asks P) (ask f r) Q.
Proof. intros Hr HQ s. split; [|apply HQ]. exists [r]. split; [done|by constructor]. Qed.

Lemma get_context_does P ctx :
  does (only_asks P) (get_context ctx)
    (fun x => caller ctx = (rc_Auth x.1, BundleVersion x.1) /\ requestContext x.2 = Some x.1 /\ same_call ctx x.2).
Proof.
  apply quiet.
  - intros s. unfold get_context. by destruct (GetContext ctx _) as [[rc ctx'] n].
  - intros s [rc ctx']. unfold get_context, GetContext, caller.
    destruct (requestContext ctx) as [rc0|] eqn:E; intros [= <- <-]; [done|]. destruct ctx. by repeat split.
Qed.

Lemma client_version_does P rc :
  does (only_asks P) (client_version tl rc) (version_of (BundleVersion rc)).
Proof.
  unfold client_version, version_of. destruct (BundleVersion rc) as [b|]; [|by apply asks_ret].
  destruct (NewVersion tl b) as [nver|e] eqn:E; [apply asks_ret; eauto|by apply asks_lift].
Qed.

Lemma origin_is_from ctx rc v :
  caller ctx = (rc_Auth rc, BundleVersion rc) -> version_of (BundleVersion rc) v ->
  is_from (caller ctx) (origin_of rc v).
Proof. intros E Hv. unfold is_from. rewrite E. by split_and!. Qed.

Lemma fail_of_does P e : does (only_asks P) (fail_of (Version := Version) e) (fun _ => True).
Proof. destruct e; [by apply asks_lift|by apply asks_ret]. Qed.

Lemma now_does P : does (only_asks P) (now tl) (fun _ => True).
Proof. by apply quiet. Qed.
Lemma enqueue_does P v : does (only_asks P) (enqueue v) (fun _ => True).
Proof. by apply quiet. Qed.

Lemma audit_does P ctx ty uri err : does (only_asks P) (__log_audit_msg tl ctx ty uri err) (fun _ => True).
Proof.
  unfold __log_audit_msg. eapply (asks_bind _ _ _ (fun _ => True)); [by apply quiet|].
  intros [] _; [|by apply asks_ret].
  eapply asks_bind; [apply get_context_does|]. intros [rc ctx'] _. by apply quiet.
Qed.

Lemma log_responses_does P ctx ty uris rs :
  does (only_asks P) (log_responses tl ctx ty uris rs) (fun _ => True).
Proof.
  revert uris. induction rs as [|r rs IH]; intros [|uri uris]; simpl.
  1,2: by apply asks_ret.
  - by apply asks_lift.
  - eapply asks_bind; [apply audit_does|]. intros _ _. apply IH.
Qed.

Lemma set_request_does ctx uri payload :
  does (only_asks (on_behalf (caller ctx))) (set_request tl uri payload ctx) (fun r => is_from (caller ctx) (sr_origin r)).
Proof.
  unfold set_request. eapply asks_bind; [apply get_context_does|]. intros [rc ctx'] (Hrc & _ & _).
  eapply asks_bind; [apply client_version_does|]. intros v Hv. apply asks_ret. by apply origin_is_from.
Qed.

Lemma TranslProcessGet_does uri ctx :
  does (only_asks (on_behalf (caller ctx))) (TranslProcessGet tl uri ctx) (fun _ => True).
Proof.
  unfold TranslProcessGet. eapply asks_bind; [apply get_context_does|]. intros [rc ctx'] (Hrc & _ & _).
  eapply asks_bind; [apply client_version_does|]. intros v Hv.
  eapply (asks_bind _ _ _ (fun _ => True)); [apply asks; [by apply origin_is_from|done]|].
  intros [payload err] _. destruct (isTranslibSuccess err); [by apply asks_ret|by apply asks_lift].
Qed.

Lemma TranslProcessDelete_does uri ctx :
  does (only_asks (on_behalf (caller ctx))) (TranslProcessDelete tl uri ctx) (fun _ => True).
Proof.
  eapply asks_bind; [apply set_request_does|]. intros r Hr.
  eapply (asks_bind _ _ _ (fun _ => True)); [by apply asks|]. intros e _. apply fail_of_does.
Qed.

Lemma TranslProcessReplace_does uri t ctx :
  does (only_asks (on_behalf (caller ctx))) (TranslProcessReplace tl uri t ctx) (fun _ => True).
Proof.
  eapply asks_bind; [apply set_request_does|]. intros r Hr.
  eapply (asks_bind _ _ _ (fun _ => True)); [by apply asks|]. intros e _. apply fail_of_does.
Qed.

Lemma TranslProcessUpdate_does uri t ctx :
  does (only_asks (on_behalf (caller ctx))) (TranslProcessUpdate tl uri t ctx) (fun _ => True).
Proof.
  eapply asks_bind; [apply set_request_does|]. intros r Hr.
  eapply (asks_bind _ _ _ (fun _ => True)); [by apply asks|]. intros [e|] _; [|by apply asks_ret].
  destruct (tl_NotFound e); [|by apply asks_lift].
  eapply (asks_bind _ _ _ (fun _ => True)); [by apply asks|]. intros e' _. apply fail_of_does.
Qed.

Lemma TranslProcessBulk_does `{RangeOrder} ds rs us prefix ctx :
  does (only_asks (on_behalf (caller ctx))) (TranslProcessBulk tl ds rs us prefix ctx) (fun _ => True).
Proof.
  unfold TranslProcessBulk. eapply asks_bind; [apply get_context_does|]. intros [rc ctx'] (Hrc & _ & _).
  eapply asks_bind; [apply client_version_does|]. intros v Hv.
  pose proof (origin_is_from ctx rc v Hrc Hv) as Ho.
  assert (forall (A : Type) (p : A -> option Path) (pl : A -> string) l,
    does (only_asks (on_behalf (caller ctx)))
      (mapS (fun a => bulk_request prefix (origin_of rc v) (p a) (pl a)) l)
      (Forall (fun r => is_from (caller ctx) (sr_origin r)))) as Hmap.
  { intros A p pl l. eapply does_weaken; [|apply (asks_mapS _ _ _ (fun _ r => is_from (caller ctx) (sr_origin r)))].
    - intros ys Hys. by induction Hys; constructor.
    - intros a. eapply (asks_bind _ _ _ (fun _ => True)); [by apply asks_lift|].
      intros uri _. by apply asks_ret. }
  eapply asks_bind; [apply (Hmap _ _ (fun _ => ""))|]. intros dels Hd.
  eapply asks_bind; [apply (Hmap _ _ (fun u => body (u_Val u)))|]. intros reps Hr.
  eapply asks_bind; [apply (Hmap _ _ (fun u => body (u_Val u)))|]. intros upds Hu.
  eapply (asks_bind _ _ _ (fun _ => True)).
  { apply asks; [|done]. simpl. by rewrite !Forall_app. }
  intros [resp err] _.
  do 3 (eapply asks_bind; [apply log_responses_does|]; intros _ _).
  destruct err; [by apply asks_lift|by apply asks_ret].
Qed.

Lemma TranslProcessAction_does uri payload ctx :
  does (only_asks (on_behalf (caller ctx))) (TranslProcessAction tl uri payload ctx) (fun _ => True).
Proof.
  unfold TranslProcessAction. eapply asks_bind; [apply get_context_does|]. intros [rc ctx'] (Hrc & _ & _).
  eapply asks_bind; [apply client_version_does|]. intros v Hv.
  eapply (asks_bind _ _ _ (fun _ => True)); [apply asks; [by apply origin_is_from|done]|].
  intros [out err] _. eapply asks_bind; [apply audit_does|]. intros _ _.
  destruct err; [by apply asks_lift|by apply asks_ret].
Qed.
End Identity.

#[export] Hint Resolve now_does enqueue_does TranslProcessGet_does TranslProcessDelete_does
  TranslProcessReplace_does TranslProcessUpdate_does TranslProcessBulk_does TranslProcessAction_does : telemetry.
