(* ===== verification/TranslClient.v ===== *)
(** * The management-framework client: [sonic_data_client/transl_data_client.go]

    [Get], [Set], [Capabilities] and the three kinds of subscription, over the
    requests of [TranslUtils.v].  [c.ctx] is the only field of the client an
    operation changes; it is passed along here.

    [StreamRun] is [stream_setup] followed by steps: the goroutine
    [TranslSubscribe], the main goroutine and whoever closes the channel take
    steps in any order, so a stream is a list of [event]s. *)

From stdpp Require Import base tactics list fin_maps gmap strings pretty.
From Stdlib Require Import ZArith Ascii Lia.
From S2P Require Import Prelude GoStrings Messages Auth TranslUtils.

Local Open Scope string_scope.
Local Open Scope list_scope.

Inductive Extension :=
  | RegisteredExt (Id : Z) (Msg : string)
  | OtherExt.

Definition BUNDLE_VERSION_EXT : Z := 700.

Record TranslClient := {
  t_prefix : option Path;
  path2URI : gmap PathPtr string;
  t_ctx : Ctx;
  extensions : list Extension;
}.

(** [getpaths] is nil when there are none. *)
Definition NewTranslClient `{RangeOrder} (prefix : option Path) (getpaths : list PathPtr) (ctx : Ctx)
    (extensions : list Extension) : res TranslClient :=
  m ← PopulateClientPaths prefix getpaths;
  Ret {| t_prefix := prefix; path2URI := m; t_ctx := ctx; extensions := extensions |}.

(** One ticker: the subscriptions it serves, and whether as a heartbeat. *)
Record ticker_info := { ti_sub : Subscription; heartbeat : bool }.

(** The local variables of [StreamRun].  [cases] lists the interval of each
    case of the select, in order, so that case [k] is that of the ticker with
    interval [cases_map[k]]. *)
Record locals := {
  subscribe_mode : SubscriptionMode;
  ticker_map : gmap Z (list ticker_info);
  cases : list Z;
  onChangeSubs : list (PathPtr * string);
  onChangeMap : gmap string PathPtr;
  valueCache : gmap string string;
}.

Definition no_locals : locals := {|
  subscribe_mode := TARGET_DEFINED; ticker_map := ∅; cases := []; onChangeSubs := [];
  onChangeMap := ∅; valueCache := ∅ |}.

Definition with_mode (m : SubscriptionMode) (l : locals) : locals := {|
  subscribe_mode := m; ticker_map := ticker_map l; cases := cases l; onChangeSubs := onChangeSubs l;
  onChangeMap := onChangeMap l; valueCache := valueCache l |}.
Definition with_onChange (p : PathPtr) (uri : string) (l : locals) : locals := {|
  subscribe_mode := subscribe_mode l; ticker_map := ticker_map l; cases := cases l;
  onChangeSubs := onChangeSubs l ++ [(p, uri)]; onChangeMap := <[uri := p]> (onChangeMap l);
  valueCache := valueCache l |}.
Definition with_cache (uri v : string) (l : locals) : locals := {|
  subscribe_mode := subscribe_mode l; ticker_map := ticker_map l; cases := cases l;
  onChangeSubs := onChangeSubs l; onChangeMap := onChangeMap l; valueCache := <[uri := v]> (valueCache l) |}.

(** [addTimer]: [time.NewTicker] panics unless the interval is positive. *)
Definition addTimer (interval : Z) (sub : Subscription) (hb : bool) (l : locals) : res locals :=
  let info := {| ti_sub := sub; heartbeat := hb |} in
  match ticker_map l !! interval with
  | None =>
      if (interval <=? 0)%Z then Panic (PanicErr "non-positive interval for NewTicker")
      else Ret {| subscribe_mode := subscribe_mode l; ticker_map := <[interval := [info]]> (ticker_map l);
                  cases := cases l ++ [interval]; onChangeSubs := onChangeSubs l;
                  onChangeMap := onChangeMap l; valueCache := valueCache l |}
  | Some ts =>
      Ret {| subscribe_mode := subscribe_mode l; ticker_map := <[interval := ts ++ [info]]> (ticker_map l);
             cases := cases l; onChangeSubs := onChangeSubs l;
             onChangeMap := onChangeMap l; valueCache := valueCache l |}
  end.

(** ** The state of a stream *)

Inductive goroutine := Waiting | Looping | Returned.

Record stream := {
  vars : locals;
  main : goroutine;                (* the goroutine of [StreamRun] *)
  subscriber : option bool;        (* [TranslSubscribe] while it runs: its [sync_done] *)
  synced : nat;                    (* the counter of [c.synced] *)
  channel_closed : bool;
  w_added : nat;                   (* calls of [c.w.Add(1)], the caller's included *)
  w_done : nat;                    (* calls of [c.w.Done] *)
}.

(** What translib puts on the queue of [TranslSubscribe]. *)
Record tl_SubscribeResponse := {
  sr_IsTerminated : bool;
  sr_Response : string;            (* the payload *)
  sr_PathName : string;
  sr_Timestamp : Z;
  sr_SyncComplete : bool;
}.

Inductive event :=
  | Item (v : tl_SubscribeResponse)   (* [TranslSubscribe] takes a response *)
  | OtherItem                      (* ... or something else *)
  | QueueError                     (* ... or its queue was disposed *)
  | Proceed                        (* [synced.Wait] returns *)
  | Tick (chosen : nat)            (* the select chooses a ticker *)
  | CloseChannel                   (* the client closes the channel *)
  | SeeClosed.                     (* the select chooses the closed channel *)

Definition with_vars (l : locals) (st : stream) : stream := {|
  vars := l; main := main st; subscriber := subscriber st; synced := synced st;
  channel_closed := channel_closed st; w_added := w_added st; w_done := w_done st |}.
Definition with_main (m : goroutine) (st : stream) : stream := {|
  vars := vars st; main := m; subscriber := subscriber st; synced := synced st;
  channel_closed := channel_closed st; w_added := w_added st; w_done := w_done st |}.
Definition with_subscriber (b : option bool) (st : stream) : stream := {|
  vars := vars st; main := main st; subscriber := b; synced := synced st;
  channel_closed := channel_closed st; w_added := w_added st; w_done := w_done st |}.
Definition synced_Done (st : stream) : res stream :=
  match synced st with
  | O => Panic (PanicErr "sync: negative WaitGroup counter")
  | S n => Ret {| vars := vars st; main := main st; subscriber := subscriber st; synced := n;
                  channel_closed := channel_closed st; w_added := w_added st; w_done := w_done st |}
  end.
Definition with_closed (st : stream) : stream := {|
  vars := vars st; main := main st; subscriber := subscriber st; synced := synced st;
  channel_closed := true; w_added := w_added st; w_done := w_done st |}.
Definition w_Done (st : stream) : stream := {|
  vars := vars st; main := main st; subscriber := subscriber st; synced := synced st;
  channel_closed := channel_closed st; w_added := w_added st; w_done := S (w_done st) |}.

(** The deferred [Done] of the two goroutines. *)
Definition main_returns (st : stream) : stream := w_Done (with_main Returned st).
Definition subscriber_returns (st : stream) : stream := w_Done (with_subscriber None st).

(** [close(c.channel)]. *)
Definition close_channel (st : stream) : res stream :=
  if channel_closed st then Panic CloseOfClosedChannel else Ret (with_closed st).

Section Client.
Context `{RangeOrder} {Version : Type} (tl : translib Version).
Abbreviation M := (SE (tstate Version)).

Fixpoint getBundleVersion (extensions : list Extension) : option string :=
  match extensions with
  | [] => None
  | RegisteredExt Id Msg :: extensions =>
      if decide (Id = BUNDLE_VERSION_EXT) then Some (Unmarshal_BundleVersion tl Msg)
      else getBundleVersion extensions
  | OtherExt :: extensions => getBundleVersion extensions
  end.

(** The first lines of every operation: the request object, with the bundle
    version the client asked for. *)
Definition enter (c : TranslClient) : M Ctx :=
  '(rc, ctx) ← get_context (t_ctx c);
  mret (match getBundleVersion (extensions c) with
        | None => ctx
        | Some v => with_rc ctx {| ID := ID rc; rc_Auth := rc_Auth rc; BundleVersion := Some v |}
        end).

Definition Get (c : TranslClient) : M (list Value) :=
  ctx ← enter c;
  ts ← now tl;
  mapS (fun pu => val ← TranslProcessGet tl pu.2 ctx; mret (DataValue (t_prefix c) pu.1 ts val))
    (range (path2URI c)).

(** The choice between one operation and a bulk operation. *)
Definition set_ops (c : TranslClient) (delete : list PathPtr) (replace update : list Update) (ctx : Ctx) : M unit :=
  if decide (1 < length delete + length replace + length update)
  then TranslProcessBulk tl delete replace update (t_prefix c) ctx
  else match delete, replace, update with
       | [d], _, _ =>
           uri ← lift (ConvertToURI (t_prefix c) (Some (pointee d))); TranslProcessDelete tl uri ctx
       | _, [r], _ =>
           uri ← lift (ConvertToURI (t_prefix c) (update_path r)); TranslProcessReplace tl uri (u_Val r) ctx
       | _, _, [u] =>
           uri ← lift (ConvertToURI (t_prefix c) (update_path u)); TranslProcessUpdate tl uri (u_Val u) ctx
       | _, _, _ => mret tt
       end.

Definition Set_ (c : TranslClient) (delete : list PathPtr) (replace update : list Update) : M unit :=
  ctx ← enter c; set_ops c delete replace update ctx.

Definition Capabilities (c : TranslClient) : M (list ModelData) :=
  enter c ≫= fun _ => GetModels tl.

(** Reading a path and putting its value on the queue. *)
Definition send (c : TranslClient) (ctx : Ctx) (path : PathPtr) (uri : string) : M TypedValue :=
  val ← TranslProcessGet tl uri ctx;
  t ← now tl;
  enqueue (DataValue (t_prefix c) path t val) ≫= fun _ => mret val.

Definition enqueFatalMsgTranslib (msg : string) : M unit := t ← now tl; enqueue (FatalValue t msg).
Definition send_sync : M unit := t ← now tl; enqueue (SyncValue t).

(** ** Polling *)

(** One round; an error ends the goroutine. *)
Definition poll_round (c : TranslClient) (ctx : Ctx) (synced : bool) (subscribe : SubscriptionList) : M unit :=
  forM (fun pu : PathPtr * string =>
    if synced || negb (sl_UpdatesOnly subscribe) then send c ctx pu.1 pu.2 ≫= fun _ => mret tt else mret tt)
    (range (path2URI c)) ≫= fun _ => send_sync.

(** [polls] messages on the channel, then its closing.  The result says
    whether the goroutine ended there; it ends earlier on an error. *)
Fixpoint poll_loop (c : TranslClient) (ctx : Ctx) (subscribe : SubscriptionList) (synced : bool) (polls : nat) : M bool :=
  match polls with
  | O => mret true
  | S polls => catch (poll_round c ctx synced subscribe)
                 (fun _ => poll_loop c ctx subscribe true polls) (fun _ => mret false)
  end.

Definition PollRun (c : TranslClient) (subscribe : SubscriptionList) (polls : nat) : M bool :=
  ctx ← enter c; poll_loop c ctx subscribe false polls.

(** [OnceRun]: [more] is false when the channel was closed first. *)
Definition OnceRun (c : TranslClient) (subscribe : SubscriptionList) (more : bool) : M bool :=
  ctx ← enter c;
  if negb more then mret true
  else catch
    (forM (fun pu : PathPtr * string =>
       val ← TranslProcessGet tl pu.2 ctx;
       if sl_UpdatesOnly subscribe then mret tt
       else t ← now tl; enqueue (DataValue (t_prefix c) pu.1 t val)) (range (path2URI c)) ≫= fun _ => send_sync)
    (fun _ => mret true) (fun _ => mret false).

(** ** Streaming: the subscriptions *)

Definition uri_of (c : TranslClient) (p : PathPtr) : string := default "" (path2URI c !! p).

(** The mode a subscription gets, or the fatal message.  A target that
    prefers neither sampling nor changes leaves the variable as it is. *)
Definition choose_mode (mode : SubscriptionMode) (sub : Subscription) (sup : IsSubscribeResponse) (uri : string) :
    SubscriptionMode + string :=
  let on_change := bool_decide (is_Err sup = None) && IsOnChangeSupported sup in
  match s_Mode sub with
  | TARGET_DEFINED =>
      inl (if on_change
           then match PreferredType sup with
                | PreferSample => SAMPLE
                | PreferOnChange => ON_CHANGE
                | PreferOther => mode
                end
           else SAMPLE)
  | ON_CHANGE =>
      if on_change
      then if (0 <? MinInterval sup)%Z then inl ON_CHANGE
           else inr (Sprintf "Invalid subscribe path %v" [uri])
      else inr (Sprintf "ON_CHANGE Streaming mode invalid for %v" [uri])
  | SAMPLE =>
      if (0 <? MinInterval sup)%Z then inl SAMPLE
      else inr (Sprintf "Invalid subscribe path %v" [uri])
  | UnknownSubscriptionMode n => inr (Sprintf "Invalid Subscription Mode %d" [pretty n])
  end.

Definition min_nanoseconds (sup : IsSubscribeResponse) : Z := i64 (MinInterval sup * Second).

(** The sampling interval, or the fatal message. *)
Definition sample_interval (sub : Subscription) (sup : IsSubscribeResponse) : Z + string :=
  let interval := i64 (s_SampleInterval sub) in
  if decide (interval = 0%Z) then inl (min_nanoseconds sup)
  else if (interval <? min_nanoseconds sup)%Z
  then inr (Sprintf "Invalid Sample Interval %ds, minimum interval is %ds"
              [pretty (Z.quot interval Second); pretty (MinInterval sup)])
  else inl interval.

Definition heartbeat_interval (sub : Subscription) (sup : IsSubscribeResponse) : Z + string :=
  let interval := i64 (s_HeartbeatInterval sub) in
  if (interval <? min_nanoseconds sup)%Z
  then inr (Sprintf "Invalid Heartbeat Interval %ds, minimum interval is %ds"
              [pretty (Z.quot interval Second); pretty (MinInterval sup)])
  else inl interval.

Definition fatal (msg : string) : M (option locals) := enqueFatalMsgTranslib msg ≫= fun _ => mret None.

(** A heartbeat ticker, if the subscription asks for one. *)
Definition add_heartbeat (sub : Subscription) (sup : IsSubscribeResponse) (wanted : bool) (l : locals) :
    M (option locals) :=
  if wanted && (0 <? s_HeartbeatInterval sub)%Z then
    match heartbeat_interval sub sup with
    | inr msg => fatal msg
    | inl interval => l ← lift (addTimer interval sub true l); mret (Some l)
    end
  else mret (Some l).

(** One iteration of the loop over the subscriptions; [None] when [StreamRun]
    returns. *)
Definition subscribe_one (c : TranslClient) (ctx : Ctx) (updatesOnly : bool) (sub : Subscription)
    (sup : option IsSubscribeResponse) (l : locals) : M (option locals) :=
  let uri := uri_of c (s_Path sub) in
  match sup with
  | None => match s_Mode sub with
            | UnknownSubscriptionMode n => fatal (Sprintf "Invalid Subscription Mode %d" [pretty n])
            | _ => lift (Panic IndexOutOfRange)
            end
  | Some sup =>
      match choose_mode (subscribe_mode l) sub sup uri with
      | inr msg => fatal msg
      | inl SAMPLE =>
          let l := with_mode SAMPLE l in
          match sample_interval sub sup with
          | inr msg => fatal msg
          | inl interval =>
              catch (if updatesOnly then mret l
                     else val ← send c ctx (s_Path sub) uri;
                          mret (with_cache uri (GetJsonIetfVal (Some val)) l))
                (fun l => l ← lift (addTimer interval sub false l);
                          add_heartbeat sub sup (s_SuppressRedundant sub) l)
                (fun _ => mret None)
          end
      | inl ON_CHANGE => add_heartbeat sub sup true (with_onChange (s_Path sub) uri (with_mode ON_CHANGE l))
      | inl m => mret (Some (with_mode m l))
      end
  end.

Fixpoint subscribe_all (c : TranslClient) (ctx : Ctx) (updatesOnly : bool) (subs : list Subscription)
    (sups : list IsSubscribeResponse) (l : locals) : M (option locals) :=
  match subs with
  | [] => mret (Some l)
  | sub :: subs =>
      o ← subscribe_one c ctx updatesOnly sub (head sups) l;
      match o with
      | None => mret None
      | Some l => subscribe_all c ctx updatesOnly subs (tail sups) l
      end
  end.

(** [StreamRun] up to the start of [TranslSubscribe]. *)
Definition stream_setup (c : TranslClient) (subscribe : SubscriptionList) : M (Ctx * option locals) :=
  ctx ← enter c;
  let subs := sl_Subscription subscribe in
  let stringPaths := (fun sub => uri_of c (s_Path sub)) <$> subs in
  sups ← ask (fun h => tl_IsSubscribeSupported tl h stringPaths) (IsSubscribeSupportedReq stringPaths);
  o ← subscribe_all c ctx (sl_UpdatesOnly subscribe) subs sups no_locals;
  mret (ctx, o).

(** ** Streaming: the goroutines *)

(** The beginning of [TranslSubscribe]; the error of [translib.Subscribe] is
    ignored. *)
Definition subscriber_start (ctx : Ctx) (paths : list string) (st : stream) : M stream :=
  '(rc, _) ← get_context ctx;
  catch (client_version tl rc)
    (fun v => ask (fun _ => tt) (SubscribeReq paths v) ≫= fun _ => mret st)
    (fun err => enqueFatalMsgTranslib (Sprintf "Subscribe operation failed with error =%v" [err_text err])
       ≫= fun _ => mret (subscriber_returns st)).

(** [StreamRun] up to [c.synced.Wait()]; the caller of [StreamRun] added one to
    [c.w]. *)
Definition stream_start (c : TranslClient) (subscribe : SubscriptionList) : M (Ctx * stream) :=
  '(ctx, o) ← stream_setup c subscribe;
  let st l := {| vars := l; main := Waiting; subscriber := None; synced := 0; channel_closed := false;
                 w_added := 1; w_done := 0 |} in
  match o with
  | None => mret (ctx, main_returns (st no_locals))
  | Some l =>
      if decide (onChangeSubs l = []) then mret (ctx, st l)
      else st ← subscriber_start ctx (onChangeSubs l).*2
             {| vars := l; main := Waiting; subscriber := Some false; synced := 1; channel_closed := false;
                w_added := 2; w_done := 0 |};
           mret (ctx, st)
  end.

(** The subscriptions of one ticker; [None] when a read fails. *)
Fixpoint tick_all (c : TranslClient) (ctx : Ctx) (ticks : list ticker_info) (l : locals) : M (option locals) :=
  match ticks with
  | [] => mret (Some l)
  | tick :: ticks =>
      let sub := ti_sub tick in
      let uri := uri_of c (s_Path sub) in
      catch (TranslProcessGet tl uri ctx)
        (fun val =>
           t ← now tl;
           let json := GetJsonIetfVal (Some val) in
           if s_SuppressRedundant sub && negb (heartbeat tick) && bool_decide (json = default "" (valueCache l !! uri))
           then tick_all c ctx ticks l
           else enqueue (DataValue (t_prefix c) (s_Path sub) t val) ≫= fun _ =>
                tick_all c ctx ticks (with_cache uri json l))
        (fun _ => mret None)
  end.

(** One response in [TranslSubscribe]. *)
Definition on_item (c : TranslClient) (updates_only : bool) (v : tl_SubscribeResponse) (sync_done : bool) (st : stream) :
    M stream :=
  if sr_IsTerminated v then
    enqueFatalMsgTranslib "DB Connection Error" ≫= fun _ =>
    st ← lift (close_channel st);
    mret (subscriber_returns st)
  else
    let spbv := {| Prefix := t_prefix c; VPath := onChangeMap (vars st) !! sr_PathName v;
                   Timestamp := sr_Timestamp v; Val := Some (JsonIetfVal (json_Compact tl (sr_Response v)));
                   SyncResponse := false; Fatal := "" |} in
    (if updates_only && negb sync_done then mret tt else enqueue spbv) ≫= fun _ =>
    if sr_SyncComplete v && negb sync_done
    then st ← lift (synced_Done st); mret (with_subscriber (Some true) st)
    else mret st.

(** One step; a step that is not possible in the state does nothing. *)
Definition stream_event (c : TranslClient) (ctx : Ctx) (updates_only : bool) (e : event) (st : stream) : M stream :=
  match e, subscriber st, main st with
  | Item v, Some sync_done, _ => on_item c updates_only v sync_done st
  | QueueError, Some _, _ => mret (subscriber_returns st)
  | Proceed, _, Waiting =>
      if decide (synced st = 0) then send_sync ≫= fun _ => mret (with_main Looping st) else mret st
  | Tick chosen, _, Looping =>
      match cases (vars st) !! chosen with
      | None => mret st
      | Some interval =>
          o ← tick_all c ctx (default [] (ticker_map (vars st) !! interval)) (vars st);
          match o with
          | Some l => mret (with_vars l st)
          | None => mret (main_returns st)
          end
      end
  | CloseChannel, _, _ => lift (close_channel st)
  | SeeClosed, _, Looping => if channel_closed st then mret (main_returns st) else mret st
  | _, _, _ => mret st
  end.

Fixpoint run_stream (c : TranslClient) (ctx : Ctx) (updates_only : bool) (es : list event) (st : stream) : M stream :=
  match es with
  | [] => mret st
  | e :: es => st ← stream_event c ctx updates_only e st; run_stream c ctx updates_only es st
  end.

(** [StreamRun] with the goroutine it starts, for one order of their steps. *)
Definition StreamRun (c : TranslClient) (subscribe : SubscriptionList) (es : list event) : M stream :=
  '(ctx, st) ← stream_start c subscribe;
  run_stream c ctx (sl_UpdatesOnly subscribe) es st.
End Client.

(** ** The caller of an operation *)

(** The user of the context, and the bundle version of the extensions, or
    else of the context. *)
Definition client_caller {Version} (tl : translib Version) (c : TranslClient) : AuthInfo * option string :=
  ((caller (t_ctx c)).1,
   match getBundleVersion tl (extensions c) with Some v => Some v | None => (caller (t_ctx c)).2 end).

Inductive operation :=
  | OpGet
  | OpSet (delete : list PathPtr) (replace update : list Update)
  | OpCapabilities
  | OpPoll (subscribe : SubscriptionList) (polls : nat)
  | OpOnce (subscribe : SubscriptionList) (more : bool)
  | OpStream (subscribe : SubscriptionList) (es : list event).

Definition perform `{RangeOrder} {Version} (tl : translib Version) (c : TranslClient) (op : operation) :
    SE (tstate Version) unit :=
  match op with
  | OpGet => _ ← Get tl c; mret tt
  | OpSet d r u => Set_ tl c d r u
  | OpCapabilities => _ ← Capabilities tl c; mret tt
  | OpPoll sub n => _ ← PollRun tl c sub n; mret tt
  | OpOnce sub more => _ ← OnceRun tl c sub more; mret tt
  | OpStream sub es => _ ← StreamRun tl c sub es; mret tt
  end.

Section Identity.
Context `{RangeOrder} {Version : Type} (tl : translib Version) (c : TranslClient).
Abbreviation who := (client_caller tl c).
Abbreviation asked m := (does (only_asks (on_behalf tl who)) m (fun _ => True)).

Lemma then_ {A B} (m : SE (tstate Version) A) (k : A -> SE (tstate Version) B) :
  asked m -> (forall a, asked (k a)) -> asked (m ≫= k).
Proof. intros Hm Hk. eapply asks_bind; [exact Hm|]. auto. Qed.

Lemma catch_ {A B} (m : SE (tstate Version) A) (k : A -> SE (tstate Version) B) h :
  asked m -> (forall a, asked (k a)) -> (forall e, asked (h e)) -> asked (catch m k h).
Proof. intros Hm Hk Hh. eapply asks_catch; [exact Hm|auto..]. Qed.

Lemma ret_ {A} (a : A) : asked (mret a).
Proof. by apply asks_ret. Qed.
Lemma lift_ {A} (m : res A) : asked (lift m).
Proof. by apply asks_lift. Qed.
Lemma ask_ {A} (f : list (request Version) -> A) r : on_behalf tl who r -> asked (ask f r).
Proof. intros Hr. by apply asks. Qed.

Lemma enter_does :
  does (only_asks (on_behalf tl who)) (enter tl c) (fun ctx => caller ctx = who).
Proof.
  unfold enter. eapply asks_bind; [apply get_context_does|]. intros [rc ctx] (Hc & Hrc & _).
  apply asks_ret. unfold client_caller. rewrite Hc. simpl in *.
  destruct (getBundleVersion tl (extensions c)); [done|]. unfold caller. by rewrite Hrc.
Qed.

Lemma entered {A} (k : Ctx -> SE (tstate Version) A) :
  (forall ctx, caller ctx = who -> asked (k ctx)) -> asked (enter tl c ≫= k).
Proof. intros Hk. eapply asks_bind; [apply enter_does|exact Hk]. Qed.

Context (ctx : Ctx) (Hctx : caller ctx = who).

(** What the context may be used for. *)
Lemma get_ uri : asked (TranslProcessGet tl uri ctx).
Proof. rewrite <- Hctx. apply TranslProcessGet_does. Qed.

Lemma send_ path uri : asked (send tl c ctx path uri).
Proof.
  apply then_; [apply get_|]. intros val. apply then_; [apply now_does|]. intros t.
  apply then_; [apply enqueue_does|]. intros _. apply ret_.
Qed.
End Identity.

Ltac asked_step :=
  match goal with
  | |- forall _, _ => intros ?
  | |- does _ (match ?x with _ => _ end) _ => destruct x
  | |- does _ (if ?x then _ else _) _ => destruct x
  | |- does _ (_ ≫= _) _ => apply then_
  | |- does _ (catch _ _ _) _ => apply catch_
  | |- does _ (mret _) _ => apply ret_
  | |- does _ (lift _) _ => apply lift_
  | |- does _ (now _) _ => apply now_does
  | |- does _ (enqueue _) _ => apply enqueue_does
  | |- does _ (TranslProcessGet _ _ _) _ => apply get_; assumption
  | |- does _ (send _ _ _ _ _) _ => apply send_; assumption
  | |- does _ (ask _ _) _ => apply ask_; [first [done|assumption]]
  | |- does _ (enqueFatalMsgTranslib _ _) _ => unfold enqueFatalMsgTranslib
  | |- does _ (send_sync _) _ => unfold send_sync
  | |- does _ (fatal _ _) _ => unfold fatal
  | |- does _ (add_heartbeat _ _ _ _ _) _ => unfold add_heartbeat
  end.

Section Operations.
Context `{RangeOrder} {Version : Type} (tl : translib Version) (c : TranslClient).
Abbreviation who := (client_caller tl c).
Abbreviation asked m := (does (only_asks (on_behalf tl who)) m (fun _ => True)).

Lemma Get_asked : asked (Get tl c).
Proof.
  apply entered. intros ctx Hctx. apply then_; [apply now_does|]. intros ts.
  eapply does_weaken; [|apply (asks_mapS _ _ _ (fun _ _ => True))]; [done|].
  intros [p uri]. repeat asked_step.
Qed.

Lemma Set_asked d r u : asked (Set_ tl c d r u).
Proof.
  apply entered. intros ctx Hctx. unfold set_ops. case_decide.
  { rewrite <- Hctx. apply TranslProcessBulk_does. }
  repeat asked_step; rewrite <- Hctx;
    first [apply TranslProcessDelete_does|apply TranslProcessReplace_does|apply TranslProcessUpdate_does].
Qed.

Lemma PollRun_asked sub polls : asked (PollRun tl c sub polls).
Proof.
  apply entered. intros ctx Hctx. generalize false.
  induction polls as [|polls IH]; intros synced; simpl; [apply ret_|].
  apply catch_; [|intros _; apply IH|intros _; apply ret_].
  apply then_; [|intros _; repeat asked_step].
  apply asks_forM. intros pu. repeat asked_step.
Qed.

Lemma OnceRun_asked sub more : asked (OnceRun tl c sub more).
Proof.
  apply entered. intros ctx Hctx. destruct more; [|apply ret_].
  apply catch_; [|intros _; apply ret_|intros _; apply ret_].
  apply then_; [|intros _; repeat asked_step].
  apply asks_forM. intros pu. repeat asked_step.
Qed.

Lemma subscribe_one_asked ctx uo sub sup l : caller ctx = who -> asked (subscribe_one tl c ctx uo sub sup l).
Proof. intros Hctx. unfold subscribe_one. repeat asked_step. Qed.

Lemma stream_setup_does subscribe :
  does (only_asks (on_behalf tl who)) (stream_setup tl c subscribe) (fun x => caller x.1 = who).
Proof.
  unfold stream_setup. eapply asks_bind; [apply enter_does|]. intros ctx Hctx.
  eapply asks_bind; [apply ask_; done|]. intros sups _.
  eapply (asks_bind _ _ _ (fun _ => True)); [|intros o _; by apply asks_ret].
  generalize no_locals. revert sups.
  induction (sl_Subscription subscribe) as [|sub subs IH]; intros sups l; simpl; [apply ret_|].
  apply then_; [by apply subscribe_one_asked|]. intros [l'|]; [apply IH|apply ret_].
Qed.

Lemma stream_start_does subscribe :
  does (only_asks (on_behalf tl who)) (stream_start tl c subscribe) (fun x => caller x.1 = who).
Proof.
  unfold stream_start. eapply asks_bind; [apply stream_setup_does|]. intros [ctx [l|]] Hctx; simpl in Hctx.
  2: { by apply asks_ret. }
  case_decide; [by apply asks_ret|].
  eapply (asks_bind _ _ _ (fun _ => True)); [|intros st _; by apply asks_ret].
  unfold subscriber_start. eapply asks_bind; [apply get_context_does|]. intros [rc ctx'] (Hrc & _ & _).
  eapply asks_catch; [apply client_version_does| |intros e; repeat asked_step].
  intros v Hv. apply then_; [|intros _; apply ret_]. apply ask_. unfold on_behalf.
  assert (who.2 = BundleVersion rc) as -> by by rewrite <- Hctx, Hrc. exact Hv.
Qed.

Lemma tick_all_asked ctx ticks l : caller ctx = who -> asked (tick_all tl c ctx ticks l).
Proof.
  intros Hctx. revert l. induction ticks as [|tick ticks IH]; intros l; simpl; [apply ret_|].
  repeat first [apply IH|asked_step].
Qed.

Lemma run_stream_asked ctx uo es st : caller ctx = who -> asked (run_stream tl c ctx uo es st).
Proof.
  intros Hctx. revert st. induction es as [|e es IH]; intros st; simpl; [apply ret_|].
  apply then_; [|apply IH]. unfold stream_event, on_item.
  repeat first [by apply tick_all_asked|asked_step].
Qed.

Lemma perform_asked op : asked (perform tl c op).
Proof.
  destruct op as [| | |sub n|sub more|sub es]; simpl.
  - apply then_; [apply Get_asked|intros _; apply ret_].
  - apply Set_asked.
  - apply then_; [|intros _; apply ret_]. apply entered. intros _ _. by apply ask_.
  - apply then_; [apply PollRun_asked|intros _; apply ret_].
  - apply then_; [apply OnceRun_asked|intros _; apply ret_].
  - apply then_; [|intros _; apply ret_]. eapply asks_bind; [apply stream_start_does|].
    intros [ctx st] Hctx. by apply run_stream_asked.
Qed.

(** Whatever a client of the management framework does, translib is
    asked on behalf of the caller: every request it receives names the user
    and the roles of the request context, says whether authentication is on,
    and carries the bundle version of the extensions (or of the context) when
    one was given.  Requests made before are not touched. *)
Theorem translib_identity op s :
  exists cs, calls (perform tl c op s).1 = calls s ++ cs /\ Forall (on_behalf tl who) cs.
Proof. by destruct (perform_asked op s). Qed.
End Operations.
