(* ===== verification/TranslSet.v ===== *)
(** * What a gNMI Set asks of the management framework

    [Set_] of [TranslClient.v] against what the request wants: the changes in
    order, each once, in one transaction, and the result of the call. *)

From stdpp Require Import base tactics list fin_maps gmap strings pretty.
From Stdlib Require Import ZArith Ascii Lia.
From S2P Require Import Prelude GoStrings Messages Auth TranslUtils TranslClient.

Local Open Scope string_scope.
Local Open Scope list_scope.

(** ** What [Set] asks *)

Inductive change := Deletes | Replaces | Updates.

(** The changes a request makes, in order: kind, URI and value. *)
Definition changes_of {Version} (r : request Version) : list (change * string * string) :=
  let as_ k := fmap (fun q : SetRequest Version => (k, sr_Path q, sr_Payload q)) in
  match r with
  | DeleteReq q => as_ Deletes [q]
  | ReplaceReq q => as_ Replaces [q]
  | UpdateReq q => as_ Updates [q]
  | BulkReq br => as_ Deletes (DeleteRequest br) ++ as_ Replaces (ReplaceRequest br) ++ as_ Updates (UpdateRequest br)
  | _ => []
  end.

(** The URI of a path the request gives. *)
Definition full_uri `{RangeOrder} (prefix path : option Path) : string := match ConvertToURI prefix path with Ret u => u | _ => "" end.

(** The changes a SetRequest of gNMI asks for. *)
Definition wanted `{RangeOrder} (prefix : option Path) (delete : list PathPtr) (replace update : list Update) :
    list (change * string * string) :=
  ((fun d => (Deletes, full_uri prefix (Some (pointee d)), "")) <$> delete) ++
  ((fun u => (Replaces, full_uri prefix (update_path u), body (u_Val u))) <$> replace) ++
  ((fun u => (Updates, full_uri prefix (update_path u), body (u_Val u))) <$> update).

(** The error translib answers a request with. *)
Definition answer {Version} (tl : translib Version) (h : list (request Version)) (r : request Version) : option tl_error :=
  match r with
  | DeleteReq q => tl_Delete tl h q
  | ReplaceReq q => tl_Replace tl h q
  | UpdateReq q => tl_Update tl h q
  | BulkReq br => (tl_Bulk tl h br).2
  | _ => None
  end.

(** translib answers a bulk request with at most one response per change. *)
Definition bulk_law {Version} (tl : translib Version) : Prop := forall h br,
  let resp := (tl_Bulk tl h br).1 in
  length (DeleteResponse resp) <= length (DeleteRequest br) /\
  length (ReplaceResponse resp) <= length (ReplaceRequest br) /\
  length (UpdateResponse resp) <= length (UpdateRequest br).

Definition version_accepted {Version} (tl : translib Version) (who : AuthInfo * option string) : Prop :=
  match who.2 with Some b => exists nver, NewVersion tl b = inl nver | None => True end.

(** The updates of a request, and what it was answered. *)
Definition succeeded (r : res unit) (e : option tl_error) : Prop :=
  match e with None => r = Ret tt | Some _ => exists err, r = Fail err end.

Section Set_lemmas.
Context `{RangeOrder} {Version : Type} (tl : translib Version).

(** [m] asks nothing and returns a value. *)
Definition silently {A} (m : SE (tstate Version) A) s (Q : A -> Prop) : Prop :=
  exists s' a, m s = (s', Ret a) /\ calls s' = calls s /\ Q a.

Lemma silently_bind {A B} (m : SE (tstate Version) A) (k : A -> SE (tstate Version) B) s P Q :
  silently m s P -> (forall s' a, calls s' = calls s -> P a -> silently (k a) s' Q) -> silently (m ≫= k) s Q.
Proof.
  intros (s1 & a & E & Hs & Ha) Hk. destruct (Hk s1 a Hs Ha) as (s2 & b & E2 & Hs2 & Hb).
  exists s2, b. unfold mbind, SE_bind. rewrite E. split_and!; [done|congruence|done].
Qed.

Lemma get_context_silent ctx s :
  silently (get_context ctx) s (fun x => caller ctx = (rc_Auth x.1, BundleVersion x.1) /\ requestContext x.2 = Some x.1).
Proof.
  unfold silently, get_context, GetContext, caller. destruct (requestContext ctx) eqn:E; [|destruct ctx];
    do 2 eexists; split_and!; done.
Qed.

Lemma client_version_silent rc s :
  version_accepted tl (rc_Auth rc, BundleVersion rc) -> silently (client_version tl rc) s (fun _ => True).
Proof.
  unfold version_accepted, client_version, silently. simpl. destruct (BundleVersion rc) as [b|]; [|by do 2 eexists].
  intros [nver ->]. by do 2 eexists.
Qed.

Lemma enter_silent c s : silently (enter tl c) s (fun ctx => caller ctx = client_caller tl c).
Proof.
  eapply silently_bind; [apply get_context_silent|]. intros s' [rc ctx] Hs' [Hc Hrc].
  do 2 eexists. split_and!; [done|done|]. unfold client_caller. rewrite Hc. simpl in *.
  destruct (getBundleVersion tl (extensions c)); [done|]. unfold caller. by rewrite Hrc.
Qed.

Lemma set_request_silent ctx uri payload s :
  version_accepted tl (caller ctx) ->
  silently (set_request tl uri payload ctx) s (fun q => sr_Path q = uri /\ sr_Payload q = payload).
Proof.
  intros Hv. eapply silently_bind; [apply get_context_silent|]. intros s1 [rc ctx'] _ [Hc _].
  rewrite Hc in Hv. eapply silently_bind; [by apply client_version_silent|]. intros s2 v _ _. by do 2 eexists.
Qed.

Lemma audit_silent ctx ty uri err s : silently (__log_audit_msg tl ctx ty uri err) s (fun _ => True).
Proof.
  unfold __log_audit_msg. eapply (silently_bind _ _ _ (fun _ => True)); [by do 2 eexists|].
  intros s1 [] _ _; [|by do 2 eexists].
  eapply silently_bind; [apply get_context_silent|]. intros s2 [rc ctx'] _ _. by do 2 eexists.
Qed.

Lemma log_responses_silent ctx ty uris rs s :
  length rs <= length uris -> silently (log_responses tl ctx ty uris rs) s (fun _ => True).
Proof.
  revert uris s. induction rs as [|r rs IH]; intros [|uri uris] s Hl; simpl in *; try lia.
  1,2: by do 2 eexists.
  eapply silently_bind; [apply audit_silent|]. intros s1 _ _ _. apply IH. lia.
Qed.

Lemma mapS_silent {A B} (f : A -> SE (tstate Version) B) (g : A -> B) l s :
  (forall s x, x ∈ l -> f x s = (s, Ret (g x))) -> mapS f l s = (s, Ret (g <$> l)).
Proof.
  induction l as [|x l IH]; intros Hf; [done|]. simpl. unfold mbind, SE_bind.
  rewrite Hf by left. rewrite IH; [done|]. intros; apply Hf; by right.
Qed.

Lemma uri_total prefix (path : option Path) :
  (prefix = None \/ path <> None) -> ConvertToURI prefix path = Ret (full_uri prefix path).
Proof. unfold full_uri, ConvertToURI. destruct prefix, path; intros [|]; done. Qed.

(** One request with the wanted changes, whose answer is the result; an update
    is not answered that there is nothing to update. *)
Definition asked_once (want : list (change * string * string)) (m : SE (tstate Version) unit) (s : tstate Version) : Prop :=
  exists r, calls (m s).1 = calls s ++ [r] /\ changes_of r = want /\
    succeeded (m s).2 (answer tl (calls s) r) /\
    forall q, r = UpdateReq q -> forall e, answer tl (calls s) r = Some e -> tl_NotFound e = false.

(** An update that found nothing, followed by a replacement with the same
    path and value, whose answer is the result. *)
Definition asked_again (want : list (change * string * string)) (m : SE (tstate Version) unit) (s : tstate Version) : Prop :=
  exists q e, calls (m s).1 = calls s ++ [UpdateReq q; ReplaceReq q] /\ changes_of (UpdateReq q) = want /\
    tl_Update tl (calls s) q = Some e /\ tl_NotFound e = true /\
    succeeded (m s).2 (answer tl (calls s ++ [UpdateReq q]) (ReplaceReq q)).

Lemma succeeded_fail_of e (s : tstate Version) : succeeded (fail_of e s).2 e.
Proof. destruct e; simpl; [by eexists|done]. Qed.

Lemma fail_of_calls e (s : tstate Version) : (fail_of e s).1 = s.
Proof. by destruct e. Qed.

Lemma asked_call want m m' s s' :
  calls s' = calls s -> m s = m' s' ->
  asked_once want m' s' \/ asked_again want m' s' -> asked_once want m s \/ asked_again want m s.
Proof. intros Hs Hm. unfold asked_once, asked_again. by rewrite Hm, Hs. Qed.

Section One.
Context (ctx : Ctx) (Hv : version_accepted tl (caller ctx)).

Lemma Delete_once uri s : asked_once [(Deletes, uri, "")] (TranslProcessDelete tl uri ctx) s.
Proof.
  destruct (set_request_silent ctx uri "" s Hv) as (s' & q & E & Hs & Hp & Hb).
  exists (DeleteReq q). unfold TranslProcessDelete, mbind, SE_bind, ask. rewrite E. simpl.
  rewrite fail_of_calls, Hs, Hp, Hb. split_and!; [done|done|apply succeeded_fail_of|done].
Qed.

Lemma Replace_once uri t s : asked_once [(Replaces, uri, body t)] (TranslProcessReplace tl uri t ctx) s.
Proof.
  destruct (set_request_silent ctx uri (body t) s Hv) as (s' & q & E & Hs & Hp & Hb).
  exists (ReplaceReq q). unfold TranslProcessReplace, mbind, SE_bind, ask. rewrite E. simpl.
  rewrite fail_of_calls, Hs, Hp, Hb. split_and!; [done|done|apply succeeded_fail_of|done].
Qed.

Lemma Update_once uri t s :
  let m := TranslProcessUpdate tl uri t ctx in
  asked_once [(Updates, uri, body t)] m s \/ asked_again [(Updates, uri, body t)] m s.
Proof.
  cbv zeta. destruct (set_request_silent ctx uri (body t) s Hv) as (s' & q & E0 & Hs & Hp & Hb).
  unfold asked_once, asked_again, TranslProcessUpdate, mbind, SE_bind, ask. rewrite E0. simpl. rewrite Hs.
  destruct (tl_Update tl (calls s) q) as [e|] eqn:E.
  - destruct (tl_NotFound e) eqn:En.
    + right. exists q, e. simpl. rewrite fail_of_calls, Hp, Hb. simpl. rewrite <- app_assoc. simpl.
      split_and!; [done|done|done|done|apply succeeded_fail_of].
    + left. exists (UpdateReq q). simpl. rewrite E, Hp, Hb. split_and!; [done|done|by eexists|congruence].
  - left. exists (UpdateReq q). simpl. rewrite E, Hp, Hb. by split_and!.
Qed.
Lemma bulk_requests {A} (p : A -> option Path) (pl : A -> string) prefix (o : origin Version) l s :
  Forall (fun x => prefix = None \/ p x <> None) l ->
  mapS (fun x => bulk_request prefix o (p x) (pl x)) l s =
  (s, Ret ((fun x => {| sr_Path := full_uri prefix (p x); sr_Payload := pl x; sr_origin := o |}) <$> l)).
Proof.
  intros Hl. apply mapS_silent. intros s' x Hx. rewrite Forall_forall in Hl.
  unfold bulk_request, mbind, SE_bind, lift. rewrite uri_total by by apply Hl. done.
Qed.

Lemma log_all ctx' us1 rs1 us2 rs2 us3 rs3 (fin : SE (tstate Version) unit) s :
  length rs1 <= length us1 -> length rs2 <= length us2 -> length rs3 <= length us3 ->
  exists s', calls s' = calls s /\
    (log_responses tl ctx' "DELETE" us1 rs1 ≫= fun _ => log_responses tl ctx' "REPLACE" us2 rs2 ≫= fun _ =>
     log_responses tl ctx' "UPDATE" us3 rs3 ≫= fun _ => fin) s = fin s'.
Proof.
  intros H1 H2 H3.
  destruct (log_responses_silent ctx' "DELETE" us1 rs1 s H1) as (s1 & ? & E1 & Hs1 & _).
  destruct (log_responses_silent ctx' "REPLACE" us2 rs2 s1 H2) as (s2 & ? & E2 & Hs2 & _).
  destruct (log_responses_silent ctx' "UPDATE" us3 rs3 s2 H3) as (s3 & ? & E3 & Hs3 & _).
  exists s3. split; [congruence|].
  by rewrite (SE_bind_Ret _ _ _ _ _ E1), (SE_bind_Ret _ _ _ _ _ E2), (SE_bind_Ret _ _ _ _ _ E3).
Qed.

Definition has_paths (prefix : option Path) (us : list Update) : Prop :=
  prefix = None \/ Forall (fun x => u_Path x <> None) us.

Lemma has_paths_app prefix r u :
  has_paths prefix (r ++ u) <-> Forall (fun x => prefix = None \/ update_path x <> None) r /\
                                Forall (fun x => prefix = None \/ update_path x <> None) u.
Proof.
  unfold has_paths, update_path. rewrite <- Forall_app. split.
  - intros [->|Hp]; [apply Forall_true; by left|]. eapply Forall_impl; [exact Hp|]. intros x Hx. right.
    intros E. apply Hx. by destruct (u_Path x).
  - intros Hp. destruct prefix; [right|by left]. eapply Forall_impl; [exact Hp|].
    intros x [|Hx]; [done|]. intros E. apply Hx. by rewrite E.
Qed.

Lemma Bulk_once d r u prefix s :
  bulk_law tl -> has_paths prefix (r ++ u) -> 1 < length d + length r + length u ->
  asked_once (wanted prefix d r u) (TranslProcessBulk tl d r u prefix ctx) s.
Proof.
  intros Hlaw [Hr Hu]%has_paths_app Hlen. unfold TranslProcessBulk.
  destruct (get_context_silent ctx s) as (s1 & [rc ctx'] & E1 & Hs1 & Hc & _). simpl in Hc. rewrite Hc in Hv.
  destruct (client_version_silent rc s1 Hv) as (s2 & v & E2 & Hs2 & _).
  unfold asked_once. rewrite (SE_bind_Ret _ _ _ _ _ E1), (SE_bind_Ret _ _ _ _ _ E2).
  erewrite SE_bind_Ret by (apply (bulk_requests (fun d => Some (pointee d)) (fun _ => "")); apply Forall_true; by right).
  erewrite SE_bind_Ret by by apply bulk_requests. erewrite SE_bind_Ret by by apply bulk_requests.
  match goal with |- context [tl_Bulk tl _ ?b] => set (br := b) end.
  exists (BulkReq br). erewrite SE_bind_Ret by reflexivity.
  specialize (Hlaw (calls s2) br). rewrite Hs2, Hs1 in *. simpl answer.
  destruct (tl_Bulk tl (calls s) br) as [resp err]. destruct Hlaw as (Hld & Hlr & Hlu).
  edestruct log_all as (s3 & Hs3 & ->); [rewrite length_fmap; exact Hld|rewrite length_fmap; exact Hlr|
    rewrite length_fmap; exact Hlu|].
  split_and!; [| |by destruct err; [eexists|]|done].
  - by destruct err.
  - unfold changes_of, wanted. simpl. rewrite <- !list_fmap_compose. reflexivity.
Qed.

Lemma set_ops_changes c d r u s :
  bulk_law tl -> has_paths (t_prefix c) (r ++ u) ->
  let m := set_ops tl c d r u ctx in
  let want := wanted (t_prefix c) d r u in
  if decide (want = []) then m s = (s, Ret tt) else asked_once want m s \/ asked_again want m s.
Proof.
  intros Hlaw Hp. cbv zeta. unfold set_ops. destruct (decide (1 < length d + length r + length u)) as [Hl|Hl].
  { rewrite decide_False; [left; by apply Bulk_once|].
    intros Hw%(f_equal length). unfold wanted in Hw. rewrite !length_app, !length_fmap in Hw. simpl in Hw. lia. }
  apply has_paths_app in Hp as [Hr Hu].
  destruct d as [|p [|? d]], r as [|x [|? r]], u as [|y [|? u]]; simpl in Hl; try lia; try done;
    (rewrite decide_False by done).
  - inversion Hu; subst. eapply (asked_call _ _ (TranslProcessUpdate tl (full_uri _ _) (u_Val y) ctx) _ s);
      [done| |by apply Update_once].
    etransitivity; [apply SE_bind_Ret; unfold lift; by rewrite uri_total|done].
  - inversion Hr; subst. eapply (asked_call _ _ (TranslProcessReplace tl (full_uri _ _) (u_Val x) ctx) _ s);
      [done| |left; by apply Replace_once].
    etransitivity; [apply SE_bind_Ret; unfold lift; by rewrite uri_total|done].
  - eapply (asked_call _ _ (TranslProcessDelete tl (full_uri _ (Some (pointee p))) ctx) _ s);
      [done| |left; by apply Delete_once].
    etransitivity; [apply SE_bind_Ret; unfold lift; by rewrite uri_total by (by right)|done].
Qed.
End One.

(** C2. A gNMI Set becomes one request to translib with exactly the changes
    asked for (deletions, replacements and updates in that order, each with
    the URI of its full path and its value): as one transaction when there is
    more than one.  Only an update that is told there is nothing to update is
    followed by another request, which replaces the same path with the same
    value.  The call succeeds exactly when the last answer is a success. *)
Theorem Set_changes c d r u s
  (Hv : version_accepted tl (client_caller tl c)) (Hlaw : bulk_law tl) (Hp : has_paths (t_prefix c) (r ++ u)) :
  let m := Set_ tl c d r u in
  let want := wanted (t_prefix c) d r u in
  if decide (want = []) then (m s).2 = Ret tt /\ calls (m s).1 = calls s
  else asked_once want m s \/ asked_again want m s.
Proof.
  cbv zeta. destruct (enter_silent c s) as (s1 & ctx & E & Hs1 & Hctx). rewrite <- Hctx in Hv.
  pose proof (set_ops_changes ctx Hv c d r u s1 Hlaw Hp) as Ho. cbv zeta in Ho.
  assert (Set_ tl c d r u s = set_ops tl c d r u ctx s1) as Eq by exact (SE_bind_Ret _ (set_ops tl c d r u) _ _ _ E).
  case_decide.
  - rewrite Eq, Ho. by split.
  - by eapply asked_call.
Qed.
End Set_lemmas.

(** ** Examples *)

(** A backend that knows version 1.0.0; the value of a path changes with
    every fourth request, a path under [new] does not exist yet, and a path
    can be followed by its changes when its name says so. *)
Definition sample_translib : translib string := {|
  NewVersion := fun v => if decide (v = "1.0.0") then inl v else inr {| tl_NotFound := false; tl_text := "bad version" |};
  tl_Get := fun h uri => (pretty (Nat.div (length h) 4), None);
  tl_Delete := fun _ _ => None;
  tl_Replace := fun _ _ => None;
  tl_Update := fun _ q => if HasPrefix (sr_Path q) "/new" then Some {| tl_NotFound := true; tl_text := "not found" |} else None;
  tl_Bulk := fun _ br => ({| DeleteResponse := (fun _ => None) <$> DeleteRequest br;
                             ReplaceResponse := (fun _ => None) <$> ReplaceRequest br;
                             UpdateResponse := (fun _ => None) <$> UpdateRequest br |}, None);
  tl_Action := fun _ _ _ => ("{}", None);
  tl_IsSubscribeSupported := fun _ paths => (fun p =>
    {| is_Err := None; IsOnChangeSupported := HasPrefix p "/changes"; MinInterval := 20;
       PreferredType := PreferSample |}) <$> paths;
  tl_GetModels := fun _ => [];
  syslog_Dial := fun _ => None;
  json_Compact := fun s => s;
  Unmarshal_BundleVersion := fun s => s;
  Now := Z.of_nat;
|}.

Definition fresh_state : tstate string := {|
  calls := []; audit := []; Writer := false; requestCounter := 0; enqueued := []; clock_reads := 0 |}.

Definition names_path (addr : nat) (names : list string) : PathPtr := {|
  addr := addr;
  pointee := {| Origin := ""; Target := ""; Element := [];
                Elem := (fun n => {| Name := n; Key := None |}) <$> names |} |}.

Definition user_ctx : Ctx := {|
  requestContext := Some {| ID := "TELEMETRY-1"; BundleVersion := None;
    rc_Auth := {| User := "admin"; AuthEnabled := true; Roles := ["sudo"] |} |};
  metadata := None; peer := None |}.

Definition client_for (paths : list PathPtr) : TranslClient := {|
  t_prefix := None; t_ctx := user_ctx; extensions := [RegisteredExt BUNDLE_VERSION_EXT "1.0.0"];
  path2URI := list_to_map ((fun p => (p, "/" +:+ Join (Name <$> Elem (pointee p)) "/")) <$> paths) |}.

Lemma sample_bulk_law : bulk_law sample_translib.
Proof. intros h br. simpl. by rewrite !length_fmap. Qed.

Definition new_leaf : Update :=
  {| u_Path := Some (names_path 1 ["new"; "leaf"]); u_Val := Some (JsonIetfVal "1") |}.

(** An update of a leaf that does not exist, and two changes at once. *)
Lemma Set_changes_witness :
  let _ := default_order in
  let c := client_for [] in
  asked_again sample_translib (wanted None [] [] [new_leaf]) (Set_ sample_translib c [] [] [new_leaf]) fresh_state /\
  asked_once sample_translib (wanted None [names_path 2 ["old"]] [new_leaf] [])
    (Set_ sample_translib c [names_path 2 ["old"]] [new_leaf] []) fresh_state.
Proof.
  intros ord c. assert (version_accepted sample_translib (client_caller sample_translib c)) as Hv by by exists "1.0.0".
  split.
  - destruct (Set_changes sample_translib c [] [] [new_leaf] fresh_state Hv sample_bulk_law) as [Ho|Ho];
      [by left| |exact Ho].
    destruct Ho as (r & Hc & _). by destruct r.
  - destruct (Set_changes sample_translib c [names_path 2 ["old"]] [new_leaf] [] fresh_state Hv sample_bulk_law)
      as [Ho|Ho]; [by left|exact Ho|]. destruct Ho as (q & e & Hc & _). done.
Defined.
