(* ===== verification/TranslStream.v ===== *)
(** * The streams of the management-framework client

    Theorems on [stream_setup] and [run_stream] of [TranslClient.v]: which
    subscriptions are served and how, the suppression of redundant values, and
    the protocol of the sync response and the wait groups under every order of
    steps. *)

From stdpp Require Import base tactics list fin_maps gmap strings pretty.
From Stdlib Require Import ZArith Ascii Lia.
From S2P Require Import Prelude GoStrings Messages Auth TranslUtils TranslClient TranslSet.

Local Open Scope string_scope.
Local Open Scope list_scope.

(** ** What a stream serves *)

(** Subscription [sub] is served by the ticker of interval [iv]. *)
Definition ticking (sub : Subscription) (hb : bool) (iv : Z) (l : locals) : Prop :=
  exists infos, ticker_map l !! iv = Some infos /\ {| ti_sub := sub; heartbeat := hb |} ∈ infos.

(** One case of the select per ticker, and only positive intervals. *)
Record timers_wf (l : locals) : Prop := {
  wf_NoDup : NoDup (cases l);
  wf_dom iv : iv ∈ cases l <-> is_Some (ticker_map l !! iv);
  wf_pos iv : iv ∈ cases l -> (0 < iv)%Z;
}.

Definition extends (l l' : locals) : Prop :=
  (forall sub hb iv, ticking sub hb iv l -> ticking sub hb iv l') /\ onChangeSubs l `prefix_of` onChangeSubs l'.

#[export] Instance extends_preorder : PreOrder extends.
Proof. split; [by intros l; split|]. intros l1 l2 l3 [H1 P1] [H2 P2]. split; [eauto|by etransitivity]. Qed.

(** How a path can be followed, says translib. *)
Definition on_change_supported (sup : IsSubscribeResponse) : bool :=
  bool_decide (is_Err sup = None) && IsOnChangeSupported sup.

Definition wants_samples (sub : Subscription) (sup : IsSubscribeResponse) : bool :=
  match s_Mode sub with
  | SAMPLE => true
  | TARGET_DEFINED => negb (on_change_supported sup &&
                            match PreferredType sup with PreferOnChange => true | _ => false end)
  | _ => false
  end.

Definition wants_heartbeat (sub : Subscription) (sup : IsSubscribeResponse) : bool :=
  (if wants_samples sub sup then s_SuppressRedundant sub else true) && (0 <? s_HeartbeatInterval sub)%Z.

(** A subscription that can be served. *)
Definition valid (sub : Subscription) (sup : IsSubscribeResponse) : Prop :=
  match s_Mode sub with
  | UnknownSubscriptionMode _ => False
  | ON_CHANGE => on_change_supported sup = true
  | _ => True
  end /\
  (wants_samples sub sup = true ->
     i64 (s_SampleInterval sub) = 0%Z \/ (min_nanoseconds sup <= i64 (s_SampleInterval sub))%Z) /\
  (wants_heartbeat sub sup = true -> (min_nanoseconds sup <= i64 (s_HeartbeatInterval sub))%Z).

(** What translib promises of a path: a positive minimal interval, and a
    preference it can name. *)
Definition support_law (sup : IsSubscribeResponse) : Prop :=
  (0 < MinInterval sup)%Z /\ (MinInterval sup * Second < 2 ^ 63)%Z /\ PreferredType sup <> PreferOther.

(** How a subscription is served: samples at the interval asked for, or the
    minimal one; a heartbeat; the changes. *)
Definition serves (c : TranslClient) (l : locals) (sub : Subscription) (sup : IsSubscribeResponse) : Prop :=
  (wants_samples sub sup = true ->
     exists iv, ticking sub false iv l /\ (min_nanoseconds sup <= iv)%Z /\
       (i64 (s_SampleInterval sub) <> 0%Z -> iv = i64 (s_SampleInterval sub))) /\
  (wants_samples sub sup = false -> (s_Path sub, uri_of c (s_Path sub)) ∈ onChangeSubs l) /\
  (wants_heartbeat sub sup = true -> ticking sub true (i64 (s_HeartbeatInterval sub)) l).

Lemma serves_extends c l l' sub sup : extends l l' -> serves c l sub sup -> serves c l' sub sup.
Proof.
  intros [Ht Hp] (H1 & H2 & H3). split_and!; [| |auto].
  - intros Hw. destruct (H1 Hw) as (iv & ? & ? & ?). exists iv. split_and!; [auto|done|done].
  - intros Hw. destruct Hp as [k ->]. apply elem_of_app. left. auto.
Qed.

Lemma min_nanoseconds_pos sup : support_law sup -> (0 < min_nanoseconds sup)%Z.
Proof. intros (Hp & Hb & _). unfold min_nanoseconds. unfold Second in *. rewrite i64_small; lia. Qed.

Lemma addTimer_spec iv sub hb l :
  (0 < iv)%Z -> timers_wf l ->
  exists l', addTimer iv sub hb l = Ret l' /\ timers_wf l' /\ extends l l' /\ ticking sub hb iv l'.
Proof.
  intros Hiv [Hn Hd Hp]. unfold addTimer. destruct (ticker_map l !! iv) as [ts|] eqn:E.
  - eexists. split; [done|]. split_and!.
    + split; simpl; [done| |done]. intros iv'. rewrite Hd, lookup_insert. case_decide as Hi; [|done].
      subst. rewrite E. by split; intros _.
    + split; [|done]. intros sub' hb' iv' (infos & Hi & Hin). unfold ticking. simpl. rewrite lookup_insert.
      case_decide as Hv; [|eauto]. subst. eexists. split; [done|]. apply elem_of_app. left. congruence.
    + unfold ticking. simpl. rewrite lookup_insert_eq. eexists. split; [done|]. apply elem_of_app. right. by left.
  - assert ((iv <=? 0)%Z = false) as -> by lia. eexists. split; [done|].
    assert (iv ∉ cases l) as Hni by (rewrite Hd, E; by intros []). split_and!.
    + split; simpl.
      * apply NoDup_app. split_and!; [done| |apply NoDup_singleton]. intros iv' Hin ->%list_elem_of_singleton. done.
      * intros iv'. rewrite elem_of_app, list_elem_of_singleton, Hd, lookup_insert. case_decide as Hi; [|naive_solver].
        subst. split; [by eexists|by right].
      * intros iv' [Hin| ->%list_elem_of_singleton]%elem_of_app; [auto|done].
    + split; [|done]. intros sub' hb' iv' (infos & Hi & Hin). unfold ticking. simpl.
      rewrite lookup_insert_ne by congruence. eauto.
    + unfold ticking. simpl. rewrite lookup_insert_eq. eexists. split; [done|]. by left.
Qed.

Section Stream_lemmas.
Context `{RangeOrder} {Version : Type} (tl : translib Version).

(** The request for the data at [uri] on behalf of the caller. *)
Definition caller_version (ctx : Ctx) : option Version :=
  match (caller ctx).2 with
  | None => None
  | Some b => match NewVersion tl b with inl nver => Some nver | inr _ => None end
  end.

Definition read_req (ctx : Ctx) (uri : string) : request Version :=
  GetReq uri {| o_User := User (caller ctx).1; o_Roles := Roles (caller ctx).1;
                o_AuthEnabled := AuthEnabled (caller ctx).1; o_ClientVersion := caller_version ctx |}.

(** A read succeeds after the requests [h]: the version of the caller is
    accepted and translib answers. *)
Definition read_ok (ctx : Ctx) (h : list (request Version)) (uri : string) : Prop :=
  version_accepted tl (caller ctx) /\ isTranslibSuccess (tl_Get tl h uri).2 = true.

(** Reads one after the other. *)
Fixpoint reads_ok (ctx : Ctx) (h : list (request Version)) (uris : list string) : Prop :=
  match uris with
  | [] => True
  | uri :: uris => read_ok ctx h uri /\ reads_ok ctx (h ++ [read_req ctx uri]) uris
  end.

Lemma reads_ok_app ctx h us vs :
  reads_ok ctx h (us ++ vs) <-> reads_ok ctx h us /\ reads_ok ctx (h ++ (read_req ctx <$> us)) vs.
Proof.
  revert h. induction us as [|u us IH]; intros h; simpl; [rewrite app_nil_r; tauto|].
  rewrite IH, <- app_assoc. simpl. tauto.
Qed.

(** What a read does with the list of requests. *)
Definition read_done (ctx : Ctx) (uri : string) (s s' : tstate Version) : Prop :=
  read_ok ctx (calls s) uri /\ calls s' = calls s ++ [read_req ctx uri].

Definition read_failed (ctx : Ctx) (uri : string) (s s' : tstate Version) : Prop :=
  ~ read_ok ctx (calls s) uri /\ enqueued s' = enqueued s /\
  exists rest, calls s' = calls s ++ rest /\ rest `prefix_of` [read_req ctx uri].

(** What becomes of a computation that reads. *)
Definition read_outcome {A} (ctx : Ctx) (uri : string) (s : tstate Version) (P : A -> tstate Version -> Prop)
    (out : tstate Version * res A) : Prop :=
  (exists s' a, out = (s', Ret a) /\ P a s' /\ read_done ctx uri s s') \/
  (exists s' e, out = (s', Fail e) /\ read_failed ctx uri s s').

Lemma ask_get_outcome uri ctx s s0 o :
  calls s0 = calls s -> enqueued s0 = enqueued s -> version_accepted tl (caller ctx) -> GetReq uri o = read_req ctx uri ->
  read_outcome ctx uri s (fun v s' => (exists b, v = JsonIetfVal b) /\ enqueued s' = enqueued s)
    (('(payload, err1) ← ask (fun h => tl_Get tl h uri) (GetReq uri o);
      if isTranslibSuccess err1 then mret (JsonIetfVal (json_Compact tl payload))
      else lift (Fail (from_option err_of (Err "") err1))) s0).
Proof.
  intros Hc He Hacc Hreq. unfold mbind, SE_bind. simpl. rewrite Hc, Hreq.
  destruct (tl_Get tl (calls s) uri) as [payload err1] eqn:Eg.
  destruct (isTranslibSuccess err1) eqn:Es; [left|right]; do 2 eexists; (split; [reflexivity|]).
  - split; [split; [by eexists|done]|]. unfold read_done, read_ok. rewrite Eg. by split_and!.
  - split; [unfold read_ok; rewrite Eg; intros [_ Hs]; simpl in Hs; congruence|]. split; [done|]. by exists [read_req ctx uri].
Qed.

Lemma TranslProcessGet_outcome uri ctx s :
  read_outcome ctx uri s (fun v s' => (exists b, v = JsonIetfVal b) /\ enqueued s' = enqueued s)
    (TranslProcessGet tl uri ctx s).
Proof.
  unfold TranslProcessGet. unfold get_context. unfold mbind at 1, SE_bind at 1.
  destruct (GetContext ctx (requestCounter s)) as [[rc ctx'] n] eqn:EG.
  assert (caller ctx = (rc_Auth rc, BundleVersion rc)) as Hc.
  { unfold GetContext in EG. unfold caller. by destruct (requestContext ctx); injection EG as <- <- <-. }
  assert (forall v, caller_version ctx = v -> GetReq uri (origin_of rc v) = read_req ctx uri) as Hreq
    by (intros v <-; unfold read_req; by rewrite Hc).
  set (s0 := {| calls := calls s |}). unfold client_version. unfold caller_version in Hreq. rewrite Hc in Hreq. simpl in Hreq.
  destruct (BundleVersion rc) as [b|] eqn:Eb.
  - destruct (NewVersion tl b) as [nver|e] eqn:En.
    + apply (ask_get_outcome uri ctx s s0 (origin_of rc (Some nver))); [done|done| |by apply Hreq].
      unfold version_accepted. rewrite Hc. by exists nver.
    + right. do 2 eexists. split; [reflexivity|]. split; [|split; [done|]].
      * unfold read_ok, version_accepted. rewrite Hc. simpl. intros [[nver Hn] _]. congruence.
      * exists []. simpl. rewrite app_nil_r. by split; [|apply prefix_nil].
  - apply (ask_get_outcome uri ctx s s0 (origin_of rc None)); [done|done| |by apply Hreq].
    unfold version_accepted. by rewrite Hc.
Qed.

Lemma send_outcome c ctx path uri s :
  read_outcome ctx uri s (fun v s' => exists b t, v = JsonIetfVal b /\
    enqueued s' = enqueued s ++ [DataValue (t_prefix c) path t (JsonIetfVal b)]) (send tl c ctx path uri s).
Proof.
  unfold send. destruct (TranslProcessGet_outcome uri ctx s) as [(s' & v & E & [[b ->] He] & Hd)|(s' & e & E & Hf)].
  - left. rewrite (SE_bind_Ret _ _ _ _ _ E). do 2 eexists. split; [reflexivity|]. simpl. rewrite He. split; [by do 2 eexists|done].
  - right. exists s', e. unfold mbind, SE_bind. by rewrite E.
Qed.

Lemma add_heartbeat_spec sub sup (wanted : bool) l s :
  support_law sup -> timers_wf l ->
  exists s' o, add_heartbeat tl sub sup wanted l s = (s', Ret o) /\ calls s' = calls s /\
    match o with
    | Some l' => enqueued s' = enqueued s /\ timers_wf l' /\ extends l l' /\
        (wanted && (0 <? s_HeartbeatInterval sub)%Z = true ->
           ticking sub true (i64 (s_HeartbeatInterval sub)) l' /\
           (min_nanoseconds sup <= i64 (s_HeartbeatInterval sub))%Z)
    | None => wanted && (0 <? s_HeartbeatInterval sub)%Z = true /\
              (i64 (s_HeartbeatInterval sub) < min_nanoseconds sup)%Z
    end.
Proof.
  intros Hsup Hwf. pose proof (min_nanoseconds_pos sup Hsup) as Hpos. unfold add_heartbeat.
  destruct (wanted && (0 <? s_HeartbeatInterval sub)%Z); [|by exists s, (Some l)].
  unfold heartbeat_interval. destruct (Z.ltb_spec (i64 (s_HeartbeatInterval sub)) (min_nanoseconds sup)) as [Hlt|Hge].
  - do 2 eexists. by split.
  - destruct (addTimer_spec (i64 (s_HeartbeatInterval sub)) sub true l) as (l' & Ea & Hwf' & Hx & Ht); [lia|done|].
    exists s, (Some l'). unfold mbind, SE_bind, lift. rewrite Ea. by split_and!.
Qed.

(** The mode of a subscription that is served. *)
Lemma choose_mode_spec mode sub sup uri :
  support_law sup ->
  match choose_mode mode sub sup uri with
  | inl m => m = (if wants_samples sub sup then SAMPLE else ON_CHANGE) /\
             match s_Mode sub with
             | UnknownSubscriptionMode _ => False
             | ON_CHANGE => on_change_supported sup = true
             | _ => True
             end
  | inr _ => forall P, valid sub sup -> P
  end.
Proof.
  intros (Hmin & _ & Hpref). unfold choose_mode, valid, wants_samples. apply Z.ltb_lt in Hmin. rewrite Hmin.
  fold (on_change_supported sup). destruct (s_Mode sub).
  - destruct (on_change_supported sup), (PreferredType sup); done.
  - destruct (on_change_supported sup); [done|]. by intros P [? _].
  - done.
  - by intros P [? _].
Qed.

Lemma sample_interval_spec sub sup :
  support_law sup ->
  match sample_interval sub sup with
  | inl iv => (min_nanoseconds sup <= iv)%Z /\ (i64 (s_SampleInterval sub) <> 0%Z -> iv = i64 (s_SampleInterval sub))
  | inr _ => i64 (s_SampleInterval sub) <> 0%Z /\ (i64 (s_SampleInterval sub) < min_nanoseconds sup)%Z
  end.
Proof.
  intros _. unfold sample_interval. case_decide as Hz; [by split; [done|intros ?]|].
  destruct (Z.ltb_spec (i64 (s_SampleInterval sub)) (min_nanoseconds sup)); by split.
Qed.

(** The values a subscription sends at once. *)
Definition at_once (updatesOnly : bool) (sub : Subscription) (sup : IsSubscribeResponse) : list PathPtr :=
  if negb updatesOnly && wants_samples sub sup then [s_Path sub] else [].

(** What [subscribe_one] leaves. *)
Definition mode_ok (sub : Subscription) (sup : IsSubscribeResponse) : Prop :=
  match s_Mode sub with
  | UnknownSubscriptionMode _ => False
  | ON_CHANGE => on_change_supported sup = true
  | _ => True
  end.

(** The URIs it reads for that. *)
Definition reads (c : TranslClient) (ps : list PathPtr) : list string := uri_of c <$> ps.

Definition served_one (c : TranslClient) (ctx : Ctx) (uo : bool) (sub : Subscription) (sup : IsSubscribeResponse)
    (l : locals) (s : tstate Version) (out : tstate Version * res (option locals)) : Prop :=
  exists s' o, out = (s', Ret o) /\
    match o with
    | Some l' => timers_wf l' /\ extends l l' /\ (valid sub sup /\ serves c l' sub sup) /\
        reads_ok ctx (calls s) (reads c (at_once uo sub sup)) /\
        calls s' = calls s ++ (read_req ctx <$> reads c (at_once uo sub sup)) /\
        exists vs, enqueued s' = enqueued s ++ vs /\ omap VPath vs = at_once uo sub sup
    | None => (~ valid sub sup \/ ~ reads_ok ctx (calls s) (reads c (at_once uo sub sup))) /\
        exists rest, calls s' = calls s ++ rest /\ rest `prefix_of` (read_req ctx <$> reads c (at_once uo sub sup))
    end.

Lemma with_mode_wf m l : timers_wf l -> timers_wf (with_mode m l).
Proof. by intros []. Qed.

Lemma subscribe_on_change c ctx uo sub sup l s :
  support_law sup -> timers_wf l -> wants_samples sub sup = false -> mode_ok sub sup ->
  served_one c ctx uo sub sup l s
    (add_heartbeat tl sub sup true (with_onChange (s_Path sub) (uri_of c (s_Path sub)) (with_mode ON_CHANGE l)) s).
Proof.
  intros Hsup [Hn Hd Hp] Hw Hmode. set (l1 := with_onChange _ _ _).
  assert (extends l l1) as Hx by (split; [done|by eexists]).
  destruct (add_heartbeat_spec sub sup true l1 s Hsup) as (s' & o & -> & Hcs & Ho); [done|].
  assert (at_once uo sub sup = []) as Hat by (unfold at_once; by rewrite Hw, andb_false_r).
  exists s', o. split; [done|]. rewrite Hat, Hcs. destruct o as [l'|].
  - destruct Ho as (He & Hwf' & Hx' & Ht). split_and!; [done|by etransitivity| | |done|by rewrite app_nil_r|].
    + unfold valid, wants_heartbeat. rewrite Hw. split_and!; [done|done|]. by intros [_ ?]%Ht.
    + unfold serves, wants_heartbeat. rewrite Hw. split_and!; [done| |by intros [? _]%Ht].
      intros _. destruct Hx' as [_ [k ->]]. apply elem_of_app. left. simpl. apply elem_of_app. right. by left.
    + exists []. by rewrite He, app_nil_r.
  - split; [|exists []; by rewrite app_nil_r].
    left. intros (_ & _ & Hv). unfold wants_heartbeat in Hv. rewrite Hw in Hv. destruct Ho as [Ho Hlt].
    specialize (Hv Ho). lia.
Qed.

Lemma subscribe_timers c ctx uo sub sup l l0 iv s vs :
  support_law sup -> timers_wf l -> extends l0 l -> wants_samples sub sup = true -> mode_ok sub sup ->
  i64 (s_SampleInterval sub) = 0%Z \/ (min_nanoseconds sup <= i64 (s_SampleInterval sub))%Z ->
  (min_nanoseconds sup <= iv)%Z -> (i64 (s_SampleInterval sub) <> 0%Z -> iv = i64 (s_SampleInterval sub)) ->
  omap VPath vs = at_once uo sub sup ->
  forall s0, enqueued s = enqueued s0 ++ vs -> reads_ok ctx (calls s0) (reads c (at_once uo sub sup)) ->
  calls s = calls s0 ++ (read_req ctx <$> reads c (at_once uo sub sup)) ->
  served_one c ctx uo sub sup l0 s0
    ((l ← lift (addTimer iv sub false l); add_heartbeat tl sub sup (s_SuppressRedundant sub) l) s).
Proof.
  intros Hsup Hwf Hx Hw Hmode Hval Hiv Hreq Hvs s0 Hs0 Hreads Hcalls. pose proof (min_nanoseconds_pos sup Hsup) as Hpos.
  destruct (addTimer_spec iv sub false l) as (l1 & Ea & Hwf1 & Hx1 & Ht1); [lia|done|].
  rewrite (SE_bind_Ret _ _ s s l1) by (unfold lift; by rewrite Ea).
  destruct (add_heartbeat_spec sub sup (s_SuppressRedundant sub) l1 s Hsup Hwf1) as (s' & o & -> & Hcs & Ho).
  exists s', o. split; [done|]. rewrite Hcs. destruct o as [l2|].
  - destruct Ho as (He & Hwf2 & Hx2 & Ht2). split_and!; [done|by rewrite Hx, Hx1| | |done|done|].
    + unfold valid, wants_heartbeat. rewrite Hw. split_and!; [done|done|]. by intros [_ ?]%Ht2.
    + unfold serves, wants_heartbeat. rewrite Hw. split_and!; [|done|by intros [? _]%Ht2].
      intros _. exists iv. split_and!; [by apply Hx2|done|done].
    + exists vs. by rewrite He.
  - split; [|by eexists]. left. intros (_ & _ & Hv). unfold wants_heartbeat in Hv. rewrite Hw in Hv. destruct Ho as [Ho Hlt].
    specialize (Hv Ho). lia.
Qed.

(** Refused before anything is read. *)
Lemma refused_one c ctx uo sub sup l s msg :
  ~ valid sub sup -> served_one c ctx uo sub sup l s (fatal tl msg s).
Proof.
  intros Hv. do 2 eexists. split; [reflexivity|]. split; [by left|]. exists []. split; [by rewrite app_nil_r|apply prefix_nil].
Qed.

Lemma subscribe_one_spec c ctx uo sub sup l s :
  support_law sup -> timers_wf l -> served_one c ctx uo sub sup l s (subscribe_one tl c ctx uo sub (Some sup) l s).
Proof.
  intros Hsup Hwf. unfold subscribe_one. pose proof (choose_mode_spec (subscribe_mode l) sub sup (uri_of c (s_Path sub)) Hsup) as Hm.
  destruct (choose_mode _ _ _ _) as [m|msg]; [|apply refused_one; intros Hv; by apply Hm].
  destruct Hm as [-> Hmode]. destruct (wants_samples sub sup) eqn:Hw; [|by apply subscribe_on_change].
  pose proof (sample_interval_spec sub sup Hsup) as Hi. destruct (sample_interval sub sup) as [iv|msg].
  2: { apply refused_one. intros (_ & Hv & _). destruct (Hv Hw); [tauto|lia]. }
  destruct Hi as [Hiv Hreq]. unfold catch.
  assert (i64 (s_SampleInterval sub) = 0%Z \/ (min_nanoseconds sup <= i64 (s_SampleInterval sub))%Z) as Hval.
  { destruct (decide (i64 (s_SampleInterval sub) = 0%Z)) as [|Hne]; [by left|right]. by rewrite <- (Hreq Hne). } destruct uo.
  - apply (subscribe_timers c ctx true sub sup (with_mode SAMPLE l) l iv s []); try done;
      [by apply with_mode_wf|simpl; by rewrite app_nil_r..].
  - assert (at_once false sub sup = [s_Path sub]) as Hat by (unfold at_once; by rewrite Hw).
    destruct (send_outcome c ctx (s_Path sub) (uri_of c (s_Path sub)) s)
      as [(s1 & v & E & (b & t & -> & He) & Hok & Hcs)|(s1 & e & E & Hno & _ & Hcs)].
    + rewrite (SE_bind_Ret _ _ _ _ _ E). simpl.
      eapply subscribe_timers; try done; [by destruct Hwf|by rewrite Hat|by rewrite Hat|by rewrite Hat].
    + unfold mbind, SE_bind. rewrite E. do 2 eexists. split; [reflexivity|]. rewrite Hat. split; [|exact Hcs].
      right. by intros [? _].
Qed.

(** The paths whose values a stream sends first. *)
Definition first_paths (uo : bool) (subs : list Subscription) (sups : list IsSubscribeResponse) : list PathPtr :=
  concat (zip_with (at_once uo) subs sups).

Lemma subscribe_all_spec c ctx uo subs sups l s :
  length sups = length subs -> Forall support_law sups -> timers_wf l ->
  exists s' o, subscribe_all tl c ctx uo subs sups l s = (s', Ret o) /\
    match o with
    | Some l' => timers_wf l' /\ extends l l' /\ Forall2 (fun sub sup => valid sub sup /\ serves c l' sub sup) subs sups /\
        reads_ok ctx (calls s) (reads c (first_paths uo subs sups)) /\
        calls s' = calls s ++ (read_req ctx <$> reads c (first_paths uo subs sups)) /\
        exists vs, enqueued s' = enqueued s ++ vs /\ omap VPath vs = first_paths uo subs sups
    | None => ~ (Forall2 valid subs sups /\ reads_ok ctx (calls s) (reads c (first_paths uo subs sups))) /\
        exists rest, calls s' = calls s ++ rest /\ rest `prefix_of` (read_req ctx <$> reads c (first_paths uo subs sups))
    end.
Proof.
  revert sups l s. induction subs as [|sub subs IH]; intros [|sup sups] l s Hlen Hsup Hwf; try done.
  { exists s, (Some l). split_and!; [done|done|done|constructor|done|by rewrite app_nil_r|]. exists []. by rewrite app_nil_r. }
  inversion Hsup as [|? ? Hs Hss]; subst. simpl subscribe_all. unfold first_paths. cbn [zip_with concat].
  fold (first_paths uo subs sups). unfold reads. rewrite fmap_app, fmap_app.
  fold (reads c (at_once uo sub sup)). fold (reads c (first_paths uo subs sups)).
  destruct (subscribe_one_spec c ctx uo sub sup l s Hs Hwf) as (s1 & o & E & Ho).
  rewrite (SE_bind_Ret _ _ _ _ _ E). destruct o as [l1|].
  2: { exists s1, None. split; [done|]. destruct Ho as [Hbad (rest & Hcs & Hpre)]. split.
       - intros [HF Hrs]. apply reads_ok_app in Hrs as [Hr1 _]. inversion HF; subst. by destruct Hbad.
       - exists rest. split; [done|]. by apply prefix_app_r. }
  destruct Ho as (Hwf1 & Hx1 & Hserve & Hr1 & Hcs1 & vs & He & Hvs).
  destruct (IH sups l1 s1) as (s2 & o & E2 & Ho2); [by injection Hlen|done|done|]. exists s2, o. split; [done|].
  rewrite Hcs1 in Ho2. destruct o as [l2|].
  - destruct Ho2 as (Hwf2 & Hx2 & HF & Hr2 & Hcs2 & vs2 & He2 & Hvs2).
    split_and!; [done|by etransitivity| |by apply reads_ok_app|by rewrite Hcs2, app_assoc|].
    + constructor; [|done]. destruct Hserve. split; [done|by eapply serves_extends].
    + exists (vs ++ vs2). rewrite He2, He, omap_app, Hvs, Hvs2, app_assoc. done.
  - destruct Ho2 as [Hbad (rest & Hcs2 & Hpre)]. split.
    + intros [HF Hrs]. apply reads_ok_app in Hrs as [_ Hr2]. inversion HF; subst. by apply Hbad.
    + eexists. split; [by rewrite Hcs2, <- app_assoc|]. by apply prefix_app.
Qed.

Lemma enter_run c s :
  exists s' ctx, enter tl c s = (s', Ret ctx) /\ calls s' = calls s /\ enqueued s' = enqueued s /\
    caller ctx = client_caller tl c.
Proof.
  destruct (enter_silent tl c s) as (s' & ctx & E & Hs & Hc). exists s', ctx. split_and!; try done.
  revert E. unfold enter, mbind, SE_bind, get_context. destruct (GetContext _ _) as [[rc ctx'] n].
  by intros [= <- <-].
Qed.

(** C15. The start of a stream, when translib answers as it promises: nothing
    panics, and the stream is served exactly when every subscription of the
    list is valid and the first reads succeed.  These are the reads of the
    paths that are sampled, one after the other in the order of the list, and
    none when the client wants updates only; a read succeeds when the version
    of the caller is accepted and translib answers it, after the requests made
    before.  Translib is asked for these reads and nothing else, as the
    caller, and a refused stream has asked for the first of them only.  In a
    stream that is served every subscription is sampled by a ticker of its own
    interval (or the minimal one), with a heartbeat if it asks for one, or
    followed by its changes, as its mode and translib's preference say; every
    ticker has a positive interval and one case of the select; and the values
    that were read are sent first, in that order. *)
Theorem stream_subscriptions c subscribe s
  (Hsup : let sups := tl_IsSubscribeSupported tl (calls s) (uri_of c ∘ s_Path <$> sl_Subscription subscribe) in
     length sups = length (sl_Subscription subscribe) /\ Forall support_law sups) :
  let subs := sl_Subscription subscribe in
  let uris := uri_of c ∘ s_Path <$> subs in
  let sups := tl_IsSubscribeSupported tl (calls s) uris in
  let first := first_paths (sl_UpdatesOnly subscribe) subs sups in
  let before := calls s ++ [IsSubscribeSupportedReq uris] in
  exists s' ctx o, stream_setup tl c subscribe s = (s', Ret (ctx, o)) /\ caller ctx = client_caller tl c /\
    (is_Some o <-> Forall2 valid subs sups /\ reads_ok ctx before (reads c first)) /\
    match o with
    | Some l => timers_wf l /\ Forall2 (fun sub sup => valid sub sup /\ serves c l sub sup) subs sups /\
        calls s' = before ++ (read_req ctx <$> reads c first) /\
        exists vs, enqueued s' = enqueued s ++ vs /\ omap VPath vs = first
    | None => exists rest, calls s' = before ++ rest /\ rest `prefix_of` (read_req ctx <$> reads c first)
    end.
Proof.
  cbv zeta in *. destruct Hsup as [Hlen Hsup]. unfold stream_setup.
  destruct (enter_run c s) as (s1 & ctx & E & Hs1 & He1 & Hc). rewrite (SE_bind_Ret _ _ _ _ _ E).
  erewrite SE_bind_Ret by reflexivity. rewrite Hs1.
  match goal with |- context [subscribe_all tl c ctx ?uo ?subs ?sups no_locals ≫= _] =>
    match goal with |- context [(subscribe_all _ _ _ _ _ _ _ ≫= _) ?st] =>
      destruct (subscribe_all_spec c ctx uo subs sups no_locals st Hlen Hsup) as (s2 & o & E2 & Ho) end end.
  { split; [constructor| |by intros ? ?%elem_of_nil]. intros iv. simpl. rewrite elem_of_nil, lookup_empty.
    by split; [|intros []]. }
  rewrite (SE_bind_Ret _ _ _ _ _ E2). cbn [calls] in Ho.
  exists s2, ctx, o. split_and!; [done|done| |]; destruct o as [l|].
  - destruct Ho as (_ & _ & HF & Hr & _). split; [|by eexists]. intros _. split; [|exact Hr].
    eapply Forall2_impl; [exact HF|]. by intros ? ? [].
  - destruct Ho as [Hbad _]. split; [by intros []|]. intros Hok. by destruct (Hbad Hok).
  - destruct Ho as (Hwf & _ & HF & _ & Hcs & vs & He & Hvs). split_and!; [done|done|exact Hcs|].
    exists vs. simpl in He. by rewrite He, He1.
  - apply Ho.
Qed.
End Stream_lemmas.

(** ** Redundant values *)

(** The values sent for a URI. *)
Definition values_of (c : TranslClient) (uri : string) (vs : list Value) : list string :=
  omap (fun v => match VPath v, Val v with
                 | Some p, Some (JsonIetfVal b) => if decide (uri_of c p = uri) then Some b else None
                 | _, _ => None
                 end) vs.

(** No two neighbours are equal. *)
Definition changing (l : list string) : Prop :=
  forall i a b, l !! i = Some a -> l !! S i = Some b -> a <> b.

Lemma changing_snoc l a b : changing l -> last l = Some a -> a <> b -> changing (l ++ [b]).
Proof.
  intros Hl Ha Hab i x y Hx Hy. apply lookup_app_Some in Hy as [Hy|[Hle Hy]].
  - apply (Hl i x y); [|done]. apply lookup_app_Some in Hx as [Hx|[Hx _]]; [done|]. apply lookup_lt_Some in Hy. lia.
  - destruct (S i - length l) as [|n] eqn:En; [|by destruct n]. injection Hy as <-.
    rewrite last_lookup in Ha. rewrite lookup_app_l in Hx by lia.
    replace (pred (length l)) with i in Ha by lia. congruence.
Qed.

(** The URI is only sampled, suppressing what is redundant. *)
Definition suppressed_only (c : TranslClient) (uri : string) (l : locals) : Prop :=
  (forall sub hb iv, ticking sub hb iv l -> uri_of c (s_Path sub) = uri ->
     s_SuppressRedundant sub = true /\ hb = false) /\
  (forall u p, onChangeMap l !! u = Some p -> uri_of c p <> uri).

Section Redundant.
Context `{RangeOrder} {Version : Type} (tl : translib Version) (c : TranslClient) (uri : string).
Abbreviation M := (SE (tstate Version)).
Implicit Types s : tstate Version.

(** The values sent since [base], and the cached one. *)
Definition cache (l : locals) : string := default "" (valueCache l !! uri).

Lemma cache_with_eq b l : cache (with_cache uri b l) = b.
Proof. unfold cache. simpl. by rewrite lookup_insert_eq. Qed.

Lemma cache_with_ne u b l : u <> uri -> cache (with_cache u b l) = cache l.
Proof. intros Hu. unfold cache. simpl. by rewrite lookup_insert_ne. Qed.

Definition sent_since (base : list string) (w0 w : string) s : Prop := exists vs,
  values_of c uri (enqueued s) = base ++ vs /\ changing (w0 :: vs) /\ last (w0 :: vs) = Some w.

Definition changing_since (base : list string) (w0 : string) s : Prop := exists w, sent_since base w0 w s.

Lemma values_of_snoc vs v : values_of c uri (vs ++ [v]) = values_of c uri vs ++ values_of c uri [v].
Proof. apply omap_app. Qed.

Context (base : list string) (w0 : string).
Abbreviation since w := (sent_since base w0 w).
Abbreviation changed := (changing_since base w0).

Lemma since_changed w s : since w s -> changed s.
Proof. by exists w. Qed.

Lemma now_hoare w : hoare (since w) (now tl) (fun _ => since w) changed.
Proof. by intros s Hs. Qed.

Lemma Get_hoare w u ctx :
  hoare (since w) (TranslProcessGet tl u ctx) (fun v s => since w s /\ exists b, v = JsonIetfVal b) (since w).
Proof.
  intros s Hs. unfold sent_since in *.
  destruct (TranslProcessGet_outcome tl u ctx s) as [(s' & v & -> & [[b ->] He] & _)|(s' & e & -> & _ & He & _)]; rewrite He; eauto.
Qed.

Lemma since_other w v s s' : enqueued s' = enqueued s ++ [v] -> values_of c uri [v] = [] -> since w s -> since w s'.
Proof. intros He Hv. unfold sent_since. by rewrite He, values_of_snoc, Hv, app_nil_r. Qed.

Lemma enqueue_other w v : values_of c uri [v] = [] -> hoare (since w) (enqueue v) (fun _ => since w) changed.
Proof. intros Hv. apply hoare_modify. intros s. by apply (since_other w v). Qed.

Lemma enqueue_value w p t b :
  uri_of c p = uri -> w <> b ->
  hoare (since w) (enqueue (DataValue (t_prefix c) p t (JsonIetfVal b))) (fun _ => since b) changed.
Proof.
  intros Hp Hb. apply hoare_modify. intros s (vs & E & Hc & Hl). exists (vs ++ [b]). simpl.
  rewrite values_of_snoc, E. unfold values_of at 1. simpl. rewrite decide_True by done.
  split_and!; [by rewrite app_assoc|by eapply (changing_snoc (w0 :: vs))|]. by rewrite app_comm_cons, last_snoc.
Qed.

Definition same_maps (l l' : locals) : Prop :=
  ticker_map l' = ticker_map l /\ onChangeMap l' = onChangeMap l.

#[export] Instance same_maps_preorder : PreOrder same_maps.
Proof. split; [done|]. intros ??? [] []. split; congruence. Qed.

Lemma tick_all_hoare ctx ticks l :
  (forall i, i ∈ ticks -> uri_of c (s_Path (ti_sub i)) = uri ->
     s_SuppressRedundant (ti_sub i) = true /\ heartbeat i = false) ->
  hoare (since (cache l)) (tick_all tl c ctx ticks l)
    (fun o s => match o with Some l' => since (cache l') s /\ same_maps l l' | None => changed s end) changed.
Proof.
  revert l. induction ticks as [|i ticks IH]; intros l Hi; simpl; [by apply hoare_ret|].
  assert (forall l', hoare (since (cache l')) (tick_all tl c ctx ticks l')
    (fun o s => match o with Some l'' => since (cache l'') s /\ same_maps l' l'' | None => changed s end) changed) as IH'.
  { intros l'. apply IH. intros j Hj. apply Hi. by right. }
  eapply hoare_catch; [apply Get_hoare| |intros e; apply hoare_ret; apply since_changed|apply since_changed].
  intros v s [Hs [b ->]]. revert s Hs. eapply hoare_bind; [apply now_hoare|]. intros t. simpl.
  destruct (decide (uri_of c (s_Path (ti_sub i)) = uri)) as [Hu|Hu].
  - destruct (Hi i ltac:(by left) Hu) as [-> ->]. rewrite Hu. simpl. fold (cache l).
    case_bool_decide as Hb; [apply IH'|].
    eapply hoare_bind; [by apply enqueue_value|]. intros []. simpl.
    eapply hoare_weaken; [| |done|apply (IH' (with_cache uri b l))]; [by intros s; rewrite cache_with_eq|].
    by intros [l'|] s; [intros [? ?]|].
  - destruct (_ && _ && _); [apply IH'|].
    eapply hoare_bind; [apply enqueue_other; unfold values_of; simpl; by rewrite decide_False|]. intros []. simpl.
    eapply hoare_weaken; [| |done|apply (IH' (with_cache (uri_of c (s_Path (ti_sub i))) b l))];
      [by intros s; rewrite cache_with_ne|]. by intros [l'|] s; [intros [? ?]|].
Qed.

(** *** The events of a stream *)

Definition redundant_inv (st : stream) s : Prop :=
  suppressed_only c uri (vars st) /\ exists w, since w s /\ (main st <> Returned -> w = cache (vars st)).

Lemma inv_changed st s : redundant_inv st s -> changed s.
Proof. intros (_ & w & Hs & _). by exists w. Qed.

(** Enqueueing something else, and then changing what does not matter. *)
Lemma other_hoare {A} v (st : stream) (k : unit -> M A) Q :
  values_of c uri [v] = [] -> hoare (redundant_inv st) (k tt) Q changed ->
  hoare (redundant_inv st) (enqueue v ≫= k) Q changed.
Proof.
  intros Hv Hk s (Hsup & w & Hs & Hw). unfold mbind, SE_bind. simpl. apply Hk. split; [done|]. exists w. split; [|done].
  by apply (since_other w v s).
Qed.

Lemma fatal_hoare {A} msg (st : stream) (k : unit -> M A) Q :
  hoare (redundant_inv st) (k tt) Q changed ->
  hoare (redundant_inv st) (enqueFatalMsgTranslib tl msg ≫= k) Q changed.
Proof.
  intros Hk s (Hsup & w & Hs & Hw). unfold mbind, SE_bind. simpl. apply Hk. split; [done|]. exists w. split; [|done].
  eapply (since_other w _ s); [reflexivity|reflexivity|exact Hs].
Qed.

Lemma inv_moves st st' :
  vars st' = vars st -> (main st' <> Returned -> main st <> Returned) ->
  forall s, redundant_inv st s -> redundant_inv st' s.
Proof.
  intros Hv Hm s (Hsup & w & Hs & Hw). unfold redundant_inv. rewrite Hv. split; [done|]. exists w.
  split; [done|]. intros Hr. by apply Hw, Hm.
Qed.

Lemma on_item_hoare uo v sd st : hoare (redundant_inv st) (on_item tl c uo v sd st) redundant_inv changed.
Proof.
  unfold on_item. destruct (sr_IsTerminated v).
  { apply fatal_hoare. eapply hoare_bind.
    - apply (hoare_lift _ _ (fun st' s => redundant_inv st' s)); [|apply inv_changed].
      intros s st' Hs Hc. unfold close_channel in Hc. destruct (channel_closed st); [done|]. injection Hc as <-.
      by eapply inv_moves.
    - intros st'. apply hoare_ret. intros s. by eapply inv_moves. }
  intros s Hs. assert (values_of c uri [{| Prefix := t_prefix c; VPath := onChangeMap (vars st) !! sr_PathName v;
    Timestamp := sr_Timestamp v; Val := Some (JsonIetfVal (json_Compact tl (sr_Response v)));
    SyncResponse := false; Fatal := "" |}] = []) as Hv.
  { unfold values_of. simpl. destruct (onChangeMap (vars st) !! _) as [p|] eqn:Ep; [|done].
    destruct Hs as ((_ & Ho) & _). by rewrite decide_False by by eapply Ho. }
  revert s Hs. assert (hoare (redundant_inv st)
    (if sr_SyncComplete v && negb sd then st ← lift (synced_Done st); mret (with_subscriber (Some true) st) else mret st)
    redundant_inv changed) as Hk.
  { destruct (_ && _); [|by apply hoare_ret]. eapply hoare_bind.
    - apply (hoare_lift _ _ (fun st' s => redundant_inv st' s)); [|apply inv_changed].
      intros s st' Hs Hc. unfold synced_Done in Hc. destruct (synced st); [done|]. injection Hc as <-. by eapply inv_moves.
    - intros st'. apply hoare_ret. intros s. by eapply inv_moves. }
  destruct (uo && negb sd); [intros s Hs; exact (Hk s Hs)|by apply other_hoare].
Qed.

Lemma tick_hoare ctx interval st :
  main st = Looping ->
  hoare (redundant_inv st)
    (o ← tick_all tl c ctx (default [] (ticker_map (vars st) !! interval)) (vars st);
     match o with Some l => mret (with_vars l st) | None => mret (main_returns st) end) redundant_inv changed.
Proof.
  intros Hm s (Hsup & w & Hs & Hw). rewrite Hw in Hs by by rewrite Hm. revert s Hs.
  eapply hoare_bind; [apply tick_all_hoare|].
  - intros [sub hb] Hi Hu. destruct (ticker_map (vars st) !! interval) as [infos|] eqn:E; [|by apply elem_of_nil in Hi].
    simpl in *. eapply Hsup; [|exact Hu]. by exists infos.
  - intros [l|]; apply hoare_ret; intros s.
    + intros [Hs [Ht Ho]]. split; [|by exists (cache l)]. destruct Hsup as [H1 H2]. split; simpl.
      * intros sub hb iv (infos & Hin & Hi). rewrite Ht in Hin. eapply H1. by exists infos.
      * intros u p. rewrite Ho. apply H2.
    + intros [w' Hs]. split; [done|]. by exists w'.
Qed.

Lemma stream_event_hoare ctx uo e st : hoare (redundant_inv st) (stream_event tl c ctx uo e st) redundant_inv changed.
Proof.
  destruct e as [v| | | |k| |]; simpl.
  - destruct (subscriber st); [apply on_item_hoare|by apply hoare_ret].
  - by apply hoare_ret.
  - destruct (subscriber st); apply hoare_ret; [|done]. by apply inv_moves.
  - destruct (main st) eqn:Em; [|by apply hoare_ret..]. case_decide; [|by apply hoare_ret].
    intros s (Hsup & w & Hs & Hw). unfold send_sync, mbind, SE_bind. simpl. split; [done|]. exists w.
    split; [eapply (since_other w _ s); [reflexivity|reflexivity|exact Hs]|]. intros _. apply Hw. by rewrite Em.
  - destruct (main st) eqn:Em; [by apply hoare_ret| |by apply hoare_ret].
    destruct (cases (vars st) !! k); [by apply tick_hoare|by apply hoare_ret].
  - apply hoare_lift; [|apply inv_changed]. intros s st' Hs Hc. unfold close_channel in Hc.
    destruct (channel_closed st); [done|]. injection Hc as <-. by eapply inv_moves.
  - destruct (main st); [by apply hoare_ret| |by apply hoare_ret].
    destruct (channel_closed st); apply hoare_ret; [|done]. by apply inv_moves.
Qed.

Lemma run_stream_hoare ctx uo es st : hoare (redundant_inv st) (run_stream tl c ctx uo es st) redundant_inv changed.
Proof.
  revert st. induction es as [|e es IH]; intros st; simpl; [by apply hoare_ret|].
  eapply hoare_bind; [apply stream_event_hoare|exact IH].
Qed.
End Redundant.

Lemma addTimer_keeps iv sub hb l l' :
  addTimer iv sub hb l = Ret l' ->
  valueCache l' = valueCache l /\ onChangeMap l' = onChangeMap l /\
  forall sub' hb' iv', ticking sub' hb' iv' l' -> ticking sub' hb' iv' l \/ (sub' = sub /\ hb' = hb).
Proof.
  unfold addTimer. destruct (ticker_map l !! iv) as [ts|] eqn:E; [|destruct (iv <=? 0)%Z; [done|]]; intros [= <-];
    (split_and!; [done|done|]); intros sub' hb' iv' (infos & Hi & Hin); simpl in Hi;
    (destruct (decide (iv = iv')) as [<-|Hne];
      [rewrite lookup_insert_eq in Hi; injection Hi as <-|rewrite lookup_insert_ne in Hi by done; left; by exists infos]).
  - apply elem_of_app in Hin as [Hin|Hin%list_elem_of_singleton]; [left; by exists ts|right]. by injection Hin as -> ->.
  - apply list_elem_of_singleton in Hin. right. by injection Hin as -> ->.
Qed.

Section Redundant_start.
Context `{RangeOrder} {Version : Type} (tl : translib Version) (c : TranslClient) (uri : string).
Implicit Types s : tstate Version.

(** A subscription whose redundant values must be suppressed. *)
Definition only_suppressed (sub : Subscription) : Prop :=
  uri_of c (s_Path sub) = uri -> s_Mode sub = SAMPLE /\ s_SuppressRedundant sub = true /\ s_HeartbeatInterval sub = 0%Z.

Context (base : list string).

(** The cache holds the last value sent. *)
Definition start_inv (l : locals) s : Prop :=
  suppressed_only c uri l /\ exists vs, values_of c uri (enqueued s) = base ++ vs /\ valueCache l !! uri = last vs.

Lemma start_moves l l' s s' :
  enqueued s' = enqueued s -> valueCache l' = valueCache l -> onChangeMap l' = onChangeMap l ->
  (forall sub hb iv, ticking sub hb iv l' -> ticking sub hb iv l \/
     (uri_of c (s_Path sub) = uri -> s_SuppressRedundant sub = true /\ hb = false)) ->
  start_inv l s -> start_inv l' s'.
Proof.
  intros He Hv Ho Ht [[H1 H2] (vs & Hvs & Hl)]. split.
  - split; [|intros u p; rewrite Ho; apply H2]. intros sub hb iv [Hi|Hi]%Ht Hu; [by eapply H1|auto].
  - exists vs. by rewrite He, Hv.
Qed.

Abbreviation started := (fun (o : option locals) s => match o with Some l => start_inv l s | None => True end).
Abbreviation any := (fun _ : tstate Version => True).

Lemma fatal_started msg P : hoare P (fatal tl msg) started any.
Proof. by intros s _. Qed.

Lemma add_heartbeat_started sub sup wanted l :
  only_suppressed sub -> hoare (start_inv l) (add_heartbeat tl sub sup wanted l) started any.
Proof.
  intros Hsub. unfold add_heartbeat. destruct (wanted && (0 <? s_HeartbeatInterval sub)%Z) eqn:Ew; [|by apply hoare_ret].
  destruct (heartbeat_interval sub sup) as [iv|msg]; [|apply fatal_started].
  eapply (hoare_bind _ _ _ (fun l' s => start_inv l' s)); [apply hoare_lift; [|done]|intros l'; by apply hoare_ret].
  intros s l' Hs (Hv & Ho & Ht)%addTimer_keeps. eapply start_moves; [done|done|done| |exact Hs].
  intros sub' hb iv' [Hi|[-> ->]]%Ht; [by left|right]. intros Hu. destruct (Hsub Hu) as (_ & _ & Hh).
  rewrite Hh, andb_false_r in Ew. done.
Qed.

Lemma send_started ctx sub l :
  only_suppressed sub -> uri_of c (s_Path sub) = uri \/ uri_of c (s_Path sub) <> uri ->
  hoare (start_inv l) (send tl c ctx (s_Path sub) (uri_of c (s_Path sub)))
    (fun val s => start_inv (with_cache (uri_of c (s_Path sub)) (GetJsonIetfVal (Some val)) l) s) any.
Proof.
  intros Hsub Hu s [Hsup (vs & Hvs & Hl)].
  destruct (send_outcome tl c ctx (s_Path sub) (uri_of c (s_Path sub)) s) as [(s' & v & -> & (b & t & -> & He) & _)|(s' & e & -> & _)]; [|done].
  split; [done|]. simpl. rewrite He, values_of_snoc, Hvs. unfold values_of. simpl. destruct Hu as [Hu|Hu].
  - exists (vs ++ [b]). rewrite Hu, decide_True by done. simpl. by rewrite lookup_insert_eq, last_snoc, app_assoc.
  - exists vs. rewrite decide_False by done. rewrite lookup_insert_ne by done. by rewrite app_nil_r.
Qed.

Lemma subscribe_one_started ctx uo sub sup l :
  only_suppressed sub -> hoare (start_inv l) (subscribe_one tl c ctx uo sub sup l) started any.
Proof.
  intros Hsub. unfold subscribe_one. destruct sup as [sup|].
  2: { destruct (s_Mode sub); [by apply hoare_lift..|apply fatal_started]. }
  destruct (choose_mode _ _ _ _) as [m|msg] eqn:Em; [|apply fatal_started].
  assert (forall m, hoare (start_inv l) (mret (Some (with_mode m l))) started any) as Hmode.
  { intros m'. apply hoare_ret. intros s. by apply start_moves; [..|by left]. }
  destruct m; [apply Hmode| | |apply Hmode].
  - (* changes *)
    intros s [[H1 H2] Hs]. apply (add_heartbeat_started _ sup true (with_onChange _ _ _) Hsub s). split; [|exact Hs].
    split; [exact H1|]. simpl. intros u p. rewrite lookup_insert. case_decide as Hup; [|apply H2].
    intros [= <-] Hu. destruct (Hsub Hu) as (Hm & _). unfold choose_mode in Em. rewrite Hm in Em.
    by destruct (0 <? MinInterval sup)%Z.
  - destruct (sample_interval sub sup) as [iv|msg]; [|apply fatal_started].
    eapply (hoare_catch _ _ _ _ (fun l' s => start_inv l' s) _ any); [| |by intros e; apply hoare_ret|done].
    + destruct uo; [apply hoare_ret; intros s; by apply start_moves; [..|by left]|].
      eapply hoare_bind; [eapply hoare_weaken; [| | |apply (send_started ctx sub (with_mode SAMPLE l) Hsub)]|].
      * intros s. by apply start_moves; [..|by left].
      * done.
      * done.
      * destruct (decide (uri_of c (s_Path sub) = uri)); tauto.
      * intros val. apply hoare_ret. done.
    + intros l1. eapply (hoare_bind _ _ _ (fun l' s => start_inv l' s)); [|intros l2; by apply add_heartbeat_started].
      apply hoare_lift; [|done]. intros s l2 Hs (Hv & Ho & Ht)%addTimer_keeps.
      eapply start_moves; [done|done|done| |exact Hs].
      intros sub' hb iv' [Hi|[-> ->]]%Ht; [by left|right]. intros Hu. by destruct (Hsub Hu) as (_ & ? & _).
Qed.
End Redundant_start.

Section Redundant_stream.
Context `{RangeOrder} {Version : Type} (tl : translib Version) (c : TranslClient) (uri : string).
Implicit Types s : tstate Version.

Lemma subscribe_all_started base ctx uo subs sups l :
  Forall (only_suppressed c uri) subs ->
  hoare (start_inv c uri base l) (subscribe_all tl c ctx uo subs sups l)
    (fun o s => match o with Some l => start_inv c uri base l s | None => True end) (fun _ => True).
Proof.
  intros Hsubs. revert sups l. induction Hsubs as [|sub subs Hsub _ IH]; intros sups l; simpl; [by apply hoare_ret|].
  eapply hoare_bind; [by apply subscribe_one_started|]. intros [l'|]; [apply IH|by apply hoare_ret].
Qed.

Abbreviation sent_before base := (fun s => values_of c uri (enqueued s) = base).
Abbreviation any := (fun _ : tstate Version => True).

Lemma setup_started base subscribe :
  Forall (only_suppressed c uri) (sl_Subscription subscribe) ->
  hoare (sent_before base) (stream_setup tl c subscribe)
    (fun x s => match x.2 with Some l => start_inv c uri base l s | None => True end) any.
Proof.
  intros Hsubs. unfold stream_setup. eapply (hoare_bind _ _ _ (fun _ => sent_before base)).
  { intros s Hs. destruct (enter_run tl c s) as (s' & ctx & -> & _ & He & _). by rewrite He. }
  intros ctx. eapply (hoare_bind _ _ _ (fun _ => sent_before base)); [by intros s Hs|]. intros sups.
  eapply (hoare_bind _ _ _ (fun o s => match o with Some l => start_inv c uri base l s | None => True end));
    [|intros o; by apply hoare_ret].
  eapply hoare_weaken; [| | |by apply (subscribe_all_started base)]; [|done|done].
  intros s Hs. split; [split|exists []].
  - intros sub hb iv (infos & Hi & _). simpl in Hi. by rewrite lookup_empty in Hi.
  - intros u p Hp. simpl in Hp. by rewrite lookup_empty in Hp.
  - by rewrite app_nil_r.
Qed.

Lemma subscriber_started base ctx paths st l :
  vars st = l -> hoare (start_inv c uri base l) (subscriber_start tl ctx paths st)
    (fun st' s => start_inv c uri base (vars st') s) any.
Proof.
  intros <- s [Hsup (vs & Hvs & Hl)]. unfold subscriber_start, mbind, SE_bind, get_context.
  destruct (GetContext _ _) as [[rc ctx'] n]. unfold catch, client_version.
  destruct (BundleVersion rc) as [b|]; [destruct (NewVersion tl b)|]; simpl; (split; [done|]); exists vs; simpl.
  - done.
  - by rewrite values_of_snoc, app_nil_r.
  - done.
Qed.

Lemma start_started base subscribe :
  Forall (only_suppressed c uri) (sl_Subscription subscribe) ->
  hoare (sent_before base) (stream_start tl c subscribe)
    (fun x s => main x.2 = Waiting -> start_inv c uri base (vars x.2) s) any.
Proof.
  intros Hsubs. unfold stream_start. eapply hoare_bind; [by apply setup_started|]. intros [ctx [l|]]; [|by apply hoare_ret].
  case_decide; [by apply hoare_ret|].
  eapply (hoare_bind _ _ _ (fun st' s => start_inv c uri base (vars st') s)); [by apply subscriber_started|].
  intros st'. by apply hoare_ret.
Qed.

(** C25. Redundant values are suppressed: for a URI that is only sampled with
    suppress_redundant and no heartbeat, whatever the order of ticks, changes
    of other paths and closings, every value sent after the first ones
    differs from the one sent before it (or is not empty, when nothing was
    sent before). *)
Theorem redundant_suppressed subscribe es s s1 ctx st
  (Hsubs : Forall (only_suppressed c uri) (sl_Subscription subscribe))
  (Hstart : stream_start tl c subscribe s = (s1, Ret (ctx, st))) (Hok : main st = Waiting) :
  exists first rest,
    values_of c uri (enqueued s1) = values_of c uri (enqueued s) ++ first /\
    values_of c uri (enqueued (run_stream tl c ctx (sl_UpdatesOnly subscribe) es st s1).1) =
      values_of c uri (enqueued s1) ++ rest /\
    changing (default "" (last first) :: rest).
Proof.
  assert (start_inv c uri (values_of c uri (enqueued s)) (vars st) s1) as [Hsup (first & Hf & Hl)].
  { pose proof (start_started _ subscribe Hsubs s eq_refl) as Hs. rewrite Hstart in Hs. by apply Hs. }
  pose proof (run_stream_hoare tl c uri (values_of c uri (enqueued s1)) (default "" (last first))
    ctx (sl_UpdatesOnly subscribe) es st s1) as Hrun.
  assert (changing_since c uri (values_of c uri (enqueued s1)) (default "" (last first))
    (run_stream tl c ctx (sl_UpdatesOnly subscribe) es st s1).1) as (w & rest & Hr & Hc & _).
  { destruct (run_stream tl c ctx _ es st s1) as [s2 [st2|e|p]]; simpl; [eapply inv_changed| |]; apply Hrun;
      (split; [done|]; exists (default "" (last first)); split; [|by unfold cache; rewrite Hl];
       exists []; split_and!; [by rewrite app_nil_r| |done]; by intros [|] ? ? ? ?). }
  by exists first, rest.
Qed.
End Redundant_stream.

(** ** The sync response and the wait groups *)

(** The number of sync responses on the queue. *)
Definition syncs (vs : list Value) : nat := length (filter (fun v => SyncResponse v = true) vs).

Lemma syncs_snoc vs v : syncs (vs ++ [v]) = syncs vs + (if SyncResponse v then 1 else 0).
Proof. unfold syncs. rewrite filter_app, length_app. by destruct v as [? ? ? ? []]. Qed.

(** How the counters of the two wait groups go with the goroutines that
    still have to call [Done]. *)
Record stream_wf (st : stream) : Prop := {
  wf_w : w_done st + match main st with Returned => 0 | _ => 1 end +
         match subscriber st with Some _ => 1 | None => 0 end = w_added st;
  wf_synced : match subscriber st with
              | Some false => synced st = 1
              | Some true => synced st = 0
              | None => synced st <= 1
              end;
  wf_waiting : synced st = 1 -> main st = Waiting;
}.

(** The sync responses that were sent, by the state of the main goroutine. *)
Definition sync_sent (base : nat) (st : stream) (n : nat) : Prop :=
  match main st with Waiting => n = base | Looping => n = S base | Returned => base <= n <= S base end.

Section Protocol.
Context `{RangeOrder} {Version : Type} (tl : translib Version) (c : TranslClient) (base : nat).
Implicit Types s : tstate Version.

Definition protocol_inv (st : stream) s : Prop := stream_wf st /\ sync_sent base st (syncs (enqueued s)).

(** A result that keeps the invariant, or the one panic there can be. *)
Definition keeps (out : tstate Version * res stream) : Prop :=
  match out with
  | (s', Ret st') => protocol_inv st' s'
  | (_, Panic p) => p = CloseOfClosedChannel
  | (_, Fail _) => False
  end.

Lemma tick_all_total ctx ticks l s :
  exists s' o, tick_all tl c ctx ticks l s = (s', Ret o) /\ syncs (enqueued s') = syncs (enqueued s).
Proof.
  revert l s. induction ticks as [|i ticks IH]; intros l s; simpl; [by do 2 eexists|]. unfold catch.
  destruct (TranslProcessGet_outcome tl (uri_of c (s_Path (ti_sub i))) ctx s) as [(s1 & v & -> & [[b ->] He] & _)|(s1 & e & -> & _ & He & _)].
  2: { do 2 eexists. split; [reflexivity|]. by rewrite He. }
  unfold mbind at 1, SE_bind at 1. simpl. destruct (_ && _ && _).
  - edestruct IH as (s2 & o & -> & Hs); [do 2 eexists; split; [reflexivity|]]. rewrite Hs. simpl. by rewrite He.
  - unfold mbind, SE_bind. simpl. edestruct IH as (s2 & o & -> & Hs); [do 2 eexists; split; [reflexivity|]].
    rewrite Hs. simpl. rewrite syncs_snoc, He. simpl. lia.
Qed.

Lemma close_keeps st s : protocol_inv st s -> keeps (lift (close_channel st) s).
Proof. intros [[] Hn]. unfold lift, close_channel. destruct (channel_closed st); [done|]. by repeat split. Qed.

Lemma on_item_keeps uo v sd st s :
  subscriber st = Some sd -> protocol_inv st s -> keeps (on_item tl c uo v sd st s).
Proof.
  intros Hsd [[Hw Hs Hm] Hn]. rewrite Hsd in *. unfold on_item. destruct (sr_IsTerminated v).
  - unfold mbind, SE_bind, lift, close_channel. simpl. destruct (channel_closed st); [done|].
    split; [split|]; simpl; [lia|destruct sd; lia|done|]. unfold sync_sent in *. simpl.
    rewrite syncs_snoc. simpl. by rewrite Nat.add_0_r.
  - assert (forall s', syncs (enqueued s') = syncs (enqueued s) ->
      keeps ((if sr_SyncComplete v && negb sd then st ← lift (synced_Done st); mret (with_subscriber (Some true) st)
              else mret st) s')) as Hk.
    { intros s' He. unfold protocol_inv. destruct (sr_SyncComplete v && negb sd) eqn:E.
      - destruct sd; [by rewrite andb_false_r in E|]. unfold mbind, SE_bind, lift, synced_Done. rewrite Hs. simpl.
        split; [by split; simpl|]. unfold sync_sent in *. simpl. by rewrite He.
      - split; [by split; rewrite ?Hsd|]. by rewrite He. }
    unfold mbind at 1, SE_bind at 1. destruct (uo && negb sd); [by apply Hk|]. apply Hk. simpl. rewrite syncs_snoc.
    simpl. by rewrite Nat.add_0_r.
Qed.

Lemma stream_event_keeps ctx uo e st s : protocol_inv st s -> keeps (stream_event tl c ctx uo e st s).
Proof.
  intros Hinv. pose proof Hinv as [[Hw Hs Hm] Hn]. destruct e as [v| | | |k| |]; simpl.
  - destruct (subscriber st) as [sd|] eqn:E; [by apply on_item_keeps|done].
  - done.
  - destruct (subscriber st) as [sd|] eqn:E; [|done]. split; [split|]; simpl; [lia|destruct sd; lia|done|done].
  - destruct (main st) eqn:Em; [|done..]. destruct (decide (synced st = 0)) as [H0|H0]; [|exact Hinv].
    unfold send_sync, mbind, SE_bind. simpl. split; [split|]; simpl; [lia|done|intros ?; lia|].
    unfold sync_sent in *. rewrite Em in Hn. simpl in *. rewrite syncs_snoc, Hn. simpl. lia.
  - destruct (main st) eqn:Em; [done| |done]. destruct (cases (vars st) !! k) as [iv|]; [|done].
    destruct (tick_all_total ctx (default [] (ticker_map (vars st) !! iv)) (vars st) s) as (s' & o & E & He).
    unfold mbind, SE_bind. rewrite E. unfold sync_sent in Hn. rewrite Em in Hn.
    destruct o as [l|]; (split; [split|]); simpl; unfold sync_sent; simpl; rewrite ?Em, ?He; try done.
    all: first [lia|intros ?%Hm; congruence].
  - by apply close_keeps.
  - destruct (main st) eqn:Em; [done| |done]. destruct (channel_closed st); [|done].
    unfold sync_sent in Hn. rewrite Em in Hn. split; [split|]; simpl; unfold sync_sent; simpl; try done; try lia.
    intros ?%Hm. congruence.
Qed.

Lemma run_stream_keeps ctx uo es st s : protocol_inv st s -> keeps (run_stream tl c ctx uo es st s).
Proof.
  revert st s. induction es as [|e es IH]; intros st s Hinv; simpl; [done|].
  pose proof (stream_event_keeps ctx uo e st s Hinv) as He. unfold mbind, SE_bind.
  destruct (stream_event tl c ctx uo e st s) as [s' [st'|err|p]]; [by apply IH|done|done].
Qed.
End Protocol.

Section Protocol_theorem.
Context `{RangeOrder} {Version : Type} (tl : translib Version) (c : TranslClient).
Implicit Types s : tstate Version.

Lemma subscriber_start_wf ctx paths st s s' st' :
  stream_wf st -> subscriber st = Some false -> subscriber_start tl ctx paths st s = (s', Ret st') -> stream_wf st'.
Proof.
  intros [Hw Hs Hm] Hsub. unfold subscriber_start, mbind, SE_bind, get_context. rewrite Hsub in *.
  destruct (GetContext _ _) as [[rc ctx'] n].
  unfold catch, client_version. destruct (BundleVersion rc) as [b|]; [destruct (NewVersion tl b)|]; simpl;
    intros [= _ <-]; (split; simpl; rewrite ?Hsub; try done; lia).
Qed.

Lemma stream_start_wf subscribe s s' ctx st :
  stream_start tl c subscribe s = (s', Ret (ctx, st)) -> stream_wf st.
Proof.
  unfold stream_start. unfold mbind at 1, SE_bind at 1.
  destruct (stream_setup tl c subscribe s) as [s1 [[ctx1 [l|]]|e|p]]; [|intros [= _ _ <-]; split; simpl; intros; lia|done..].
  case_decide; [intros [= _ _ <-]; split; simpl; intros; lia|]. unfold mbind, SE_bind.
  destruct (subscriber_start _ _ _ _ _) as [s2 [st2|e|p]] eqn:E; [|done..].
  intros [= _ _ <-]. eapply subscriber_start_wf; [| |exact E]; [by split|done].
Qed.

(** [TranslSubscribe] ended before it reported the first values. *)
Definition lost_sync (st : stream) : Prop := main st = Waiting /\ subscriber st = None /\ synced st = 1.

Lemma lost_sync_forever ctx uo es st s s' st' :
  lost_sync st -> run_stream tl c ctx uo es st s = (s', Ret st') -> lost_sync st'.
Proof.
  revert st s. induction es as [|e es IH]; intros st s Hst; simpl; [by intros [= _ <-]|].
  destruct Hst as (Hm & Hsub & Hs).
  assert (forall s1 st1, stream_event tl c ctx uo e st s = (s1, Ret st1) -> lost_sync st1) as He.
  { intros s1 st1. unfold stream_event. rewrite Hm, Hsub. destruct e; try (by intros [= _ <-]).
    - rewrite decide_False by lia. by intros [= _ <-].
    - unfold lift, close_channel. destruct (channel_closed st); [done|]. by intros [= _ <-]. }
  unfold mbind, SE_bind. destruct (stream_event tl c ctx uo e st s) as [s1 [st1|err|p]]; [|done..].
  eapply IH. by eapply He.
Qed.

(** C6. The protocol of a stream, for every order of its steps: at most one
    sync response is sent, by the main goroutine when it leaves its wait; the
    wait groups never go negative, and the session's is released exactly when
    both goroutines ended; the only panic is that of closing the channel a
    second time.  A subscriber that ends before it reported the first values,
    because the backend failed or the bundle version is refused, leaves the
    main goroutine waiting for ever: the session is never released. *)
Theorem stream_protocol subscribe es s s1 ctx st
  (Hstart : stream_start tl c subscribe s = (s1, Ret (ctx, st))) :
  match run_stream tl c ctx (sl_UpdatesOnly subscribe) es st s1 with
  | (s2, Ret st2) =>
      sync_sent (syncs (enqueued s1)) st2 (syncs (enqueued s2)) /\
      w_done st2 <= w_added st2 /\
      (w_done st2 = w_added st2 <-> main st2 = Returned /\ subscriber st2 = None) /\
      (subscriber st2 = None -> synced st2 = 1 -> forall es' s3 st3,
         run_stream tl c ctx (sl_UpdatesOnly subscribe) es' st2 s2 = (s3, Ret st3) ->
         main st3 = Waiting /\ w_done st3 < w_added st3)
  | (_, Panic p) => p = CloseOfClosedChannel
  | (_, Fail _) => False
  end.
Proof.
  pose proof (stream_start_wf _ _ _ _ _ Hstart) as Hwf.
  assert (forall es' st' s', protocol_inv (syncs (enqueued s1)) st' s' ->
    keeps (syncs (enqueued s1)) (run_stream tl c ctx (sl_UpdatesOnly subscribe) es' st' s')) as Hall
    by (intros; by apply run_stream_keeps).
  assert (protocol_inv (syncs (enqueued s1)) st s1) as Hinv.
  { split; [done|]. unfold sync_sent. revert Hstart. unfold stream_start. unfold mbind at 1, SE_bind at 1.
    destruct (stream_setup tl c subscribe s) as [s' [[ctx1 [l|]]|e|p]]; [|intros [= -> _ <-]; simpl; lia|done..].
    case_decide; [by intros [= -> _ <-]|]. unfold mbind, SE_bind.
    destruct (subscriber_start _ _ _ _ _) as [s2 [st2|e|p]] eqn:E; [|done..]. intros [= -> _ <-].
    revert E. unfold subscriber_start, mbind, SE_bind, get_context. destruct (GetContext _ _) as [[rc ctx'] n].
    unfold catch, client_version. destruct (BundleVersion rc) as [b|]; [destruct (NewVersion tl b)|]; simpl; by intros [= _ <-]. }
  pose proof (Hall es st s1 Hinv) as Hk.
  destruct (run_stream tl c ctx (sl_UpdatesOnly subscribe) es st s1) as [s2 [st2|e|p]] eqn:Er; [|done..].
  destruct Hk as [[Hw Hs Hm] Hn]. split_and!; [done|lia| |].
  - destruct (main st2), (subscriber st2); split; try done; try lia; by intros [].
  - intros Hsub H1 es' s3 st3 E3.
    assert (lost_sync st3) as (Hm3 & Hsub3 & _) by (eapply lost_sync_forever; [|exact E3]; by split_and!; [apply Hm| |]).
    split; [done|]. assert (keeps (syncs (enqueued s1)) (s3, Ret st3)) as [[Hw3 _ _] _] by (rewrite <- E3; by apply Hall).
    rewrite Hm3, Hsub3 in Hw3. lia.
Qed.
End Protocol_theorem.

(** ** Examples *)

(** A stream with one sampled path and one followed by its changes. *)
Definition sampled_ptr : PathPtr := names_path 1 ["counters"].
Definition changes_ptr : PathPtr := names_path 2 ["changes"; "ports"].

Definition sub_of (p : PathPtr) (m : SubscriptionMode) (suppress : bool) : Subscription := {|
  s_Path := p; s_Mode := m; s_SampleInterval := 30 * Second; s_SuppressRedundant := suppress; s_HeartbeatInterval := 0 |}.

Definition sample_stream : SubscriptionList := {|
  sl_Prefix := None; sl_Subscription := [sub_of sampled_ptr SAMPLE true; sub_of changes_ptr ON_CHANGE false];
  sl_Mode := STREAM; sl_UpdatesOnly := false |}.

Definition stream_client : TranslClient := client_for [sampled_ptr; changes_ptr].

Lemma stream_subscriptions_witness :
  exists s' ctx l, stream_setup sample_translib stream_client sample_stream fresh_state = (s', Ret (ctx, Some l)) /\
    timers_wf l /\ omap VPath (enqueued s') = [sampled_ptr].
Proof.
  destruct (stream_subscriptions sample_translib stream_client sample_stream fresh_state) as (s' & ctx & o & E & _ & Hiff & Ho).
  { split; [done|]. repeat constructor; done. }
  destruct o as [l|].
  - destruct Ho as (Hwf & _ & _ & vs & Hvs & Hp). exists s', ctx, l. split_and!; [exact E|exact Hwf|].
    rewrite Hvs. exact Hp.
  - exfalso. apply (f_equal (fun x => match x.2 with Ret (_, None) => true | _ => false end)) in E.
    vm_compute in E. discriminate.
Defined.

Definition tick_events (v : tl_SubscribeResponse) : list event := [Item v; Proceed; Tick 0; Tick 0; Tick 0; Tick 0; Tick 0].
Definition first_response : tl_SubscribeResponse := {|
  sr_IsTerminated := false; sr_Response := "{}"; sr_PathName := "/changes/ports"; sr_Timestamp := 7;
  sr_SyncComplete := true |}.

(** Five ticks send two values: the others repeat what was sent. *)
Lemma redundant_suppressed_witness :
  match stream_start sample_translib stream_client sample_stream fresh_state with
  | (s1, Ret (ctx, st)) =>
      values_of stream_client "/counters" (enqueued
        (run_stream sample_translib stream_client ctx false (tick_events first_response) st s1).1) = ["0"; "1"] /\
      exists first rest, values_of stream_client "/counters" (enqueued s1) = first /\
        values_of stream_client "/counters" (enqueued
          (run_stream sample_translib stream_client ctx false (tick_events first_response) st s1).1) =
          first ++ rest /\ changing (default "" (last first) :: rest)
  | _ => False
  end.
Proof.
  assert (match stream_start sample_translib stream_client sample_stream fresh_state with
  | (s1, Ret (ctx, st)) => main st = Waiting /\
      values_of stream_client "/counters" (enqueued
        (run_stream sample_translib stream_client ctx false (tick_events first_response) st s1).1) = ["0"; "1"]
  | _ => False end) as Hc by (vm_compute; by split).
  destruct (stream_start sample_translib stream_client sample_stream fresh_state) as [s1 [[ctx st]|e|p]] eqn:E; [|done..].
  destruct Hc as [Hm Hv]. split; [exact Hv|].
  destruct (redundant_suppressed sample_translib stream_client "/counters" sample_stream (tick_events first_response)
    fresh_state s1 ctx st) as (first & rest & Hf & Hr & Hch); [|exact E|exact Hm|].
  - apply Forall_cons_2; [by intros _|apply Forall_cons_2; [|constructor]].
    intros Hu. vm_compute in Hu. discriminate.
  - change (values_of stream_client "/counters" (enqueued s1) = first) in Hf.
    exists first, rest. split_and!; [exact Hf| |exact Hch]. rewrite <- Hf. exact Hr.
Defined.

(** The backend fails before it reported the first values: the stream waits
    for ever, and the client that then closes its channel crashes the
    process. *)
Definition broken_response : tl_SubscribeResponse := {|
  sr_IsTerminated := true; sr_Response := ""; sr_PathName := ""; sr_Timestamp := 7; sr_SyncComplete := false |}.

Lemma stream_protocol_witness :
  match stream_start sample_translib stream_client sample_stream fresh_state with
  | (s1, Ret (ctx, st)) =>
      match run_stream sample_translib stream_client ctx false [Item broken_response] st s1 with
      | (s2, Ret st2) =>
          (w_done st2 = w_added st2 <-> main st2 = Returned /\ subscriber st2 = None) /\
          forall es' s3 st3, run_stream sample_translib stream_client ctx false es' st2 s2 = (s3, Ret st3) ->
            main st3 = Waiting /\ w_done st3 < w_added st3
      | _ => False
      end /\
      (run_stream sample_translib stream_client ctx false [Item broken_response; CloseChannel] st s1).2 =
        Panic CloseOfClosedChannel
  | _ => False
  end.
Proof.
  assert (match stream_start sample_translib stream_client sample_stream fresh_state with
  | (s1, Ret (ctx, st)) =>
      match run_stream sample_translib stream_client ctx false [Item broken_response] st s1 with
      | (_, Ret st2) => subscriber st2 = None /\ synced st2 = 1 | _ => False end /\
      (run_stream sample_translib stream_client ctx false [Item broken_response; CloseChannel] st s1).2 =
        Panic CloseOfClosedChannel
  | _ => False end) as Hc by (vm_compute; by split).
  destruct (stream_start sample_translib stream_client sample_stream fresh_state) as [s1 [[ctx st]|e|p]] eqn:E; [|done..].
  destruct Hc as [Hs Hp]. split; [|exact Hp].
  pose proof (stream_protocol sample_translib stream_client sample_stream [Item broken_response] fresh_state s1 ctx st E) as Ht.
  change (sl_UpdatesOnly sample_stream) with false in Ht.
  destruct (run_stream sample_translib stream_client ctx false [Item broken_response] st s1) as [s2 [st2|e|p]]; [|done..].
  destruct Ht as (_ & _ & Hd & Hl). destruct Hs as [Hsub Hs]. split; [exact Hd|exact (Hl Hsub Hs)].
Defined.
