(* ===== verification/Server.v ===== *)
(** * The gNMI and gNOI services: [gnmi_server/server.go], [gnmi_server/gnoi.go]

    The handlers of the server over the parts they call: authentication
    ([Auth.v]) and the three data clients ([DbClient.v], [NonDb.v],
    [TranslClient.v]).  The Go interface [sdc.Client] is [data_client].

    A handler runs in [SE gstate]: the requests to the management framework
    and the counter of request ids, what the virtual paths of the databases
    keep, and the stash of the version file.  The JSON and protobuf libraries
    that read and write whole messages are the environment [server]. *)

From stdpp Require Import base tactics list fin_maps gmap strings pretty.
From Stdlib Require Import ZArith Ascii Lia.
From S2P Require Import Prelude GoStrings Messages DbConfig RedisDb Trie VirtualDb DbClient StatsRing NonDb.
From S2P Require Import Auth TranslUtils TranslClient TranslSet.

Local Open Scope string_scope.
Local Open Scope list_scope.

(** ** The state and the environment *)

Record gstate {Version : Type} := {
  g_translib : tstate Version;
  g_virtual : vstate;
  g_stash : sonicVersionYmlStash;
}.
Arguments gstate : clear implicits.

Record server {Version : Type} := {
  READ_WRITE_MODE : bool;
  UserAuth : AuthTypes;                   (* [s.config.UserAuth] *)
  env_auth : world;
  env_translib : translib Version;
  env_db : dbconf;
  env_redis : clients;
  env_moment : moment;
  clientTrie : Trie dataGetFunc;
  (** the capability extension, marshalled *)
  supported_versions : string;
  (** [json.Unmarshal] into the response of an action *)
  action_response : string -> res unit;
}.
Arguments server : clear implicits.

(** ** Messages *)

Definition ALL : Z := 0.                  (* GetRequest_ALL *)
Definition supportedEncodings : list Z := [0; 4]%Z.   (* JSON, JSON_IETF *)

Record GetRequest := {
  gr_Type : Z; gr_Encoding : Z; gr_Prefix : option Path; gr_Path : list PathPtr;
  gr_Extension : list Extension;
}.

Record gnmi_SetRequest := {
  st_Prefix : option Path; st_Delete : list PathPtr; st_Replace : list Update; st_Update : list Update;
  st_Extension : list Extension;
}.

Inductive UpdateResult_Op := DELETE | REPLACE | UPDATE.

Record SetResponse := {
  rs_Prefix : option Path;
  rs_Response : list (option PathPtr * UpdateResult_Op);
}.

Record CapabilityResponse := {
  SupportedModels : list ModelData;
  SupportedEncodings : list Z;
  GNMIVersion : string;
  cr_Extension : Z * string;              (* its id and message *)
}.

Definition SUPPORTED_VERSIONS_EXT : Z := 701.

(** ** The data clients *)

Inductive data_client :=
  | OfNonDb (c : NonDbClient)
  | OfDb (c : DbClient)
  | OfTransl (c : TranslClient).

Section Server.
Context `{RangeOrder} {Version : Type} (srv : server Version).
Abbreviation M := (SE (gstate Version)).

(** Running a part of the state. *)
Definition in_translib {A} (m : SE (tstate Version) A) : M A := fun s =>
  let '(t, r) := m (g_translib s) in
  ({| g_translib := t; g_virtual := g_virtual s; g_stash := g_stash s |}, r).

Definition in_virtual {A} (m : SE vstate A) : M A := fun s =>
  let '(v, r) := m (g_virtual s) in
  ({| g_translib := g_translib s; g_virtual := v; g_stash := g_stash s |}, r).

Definition in_stash {A} (m : sonicVersionYmlStash -> res (A * sonicVersionYmlStash)) : M A := fun s =>
  match m (g_stash s) with
  | Ret (a, st) => ({| g_translib := g_translib s; g_virtual := g_virtual s; g_stash := st |}, Ret a)
  | Fail e => (s, Fail e)
  | Panic p => (s, Panic p)
  end.

(** An error with another status. *)
Definition with_status {A} (c : code) (m : M A) : M A :=
  catch m mret (fun e => lift (Fail (StatusErr c (err_text e)))).

(** [authenticate(s.config.UserAuth, ctx)]. *)
Definition authenticated (ctx : Ctx) : M Ctx := fun s =>
  match authenticate (env_auth srv) (UserAuth srv) ctx (requestCounter (g_translib s)) with
  | Ret (ctx, n) =>
      let t := g_translib s in
      ({| g_translib := {| calls := calls t; audit := audit t; Writer := Writer t; requestCounter := n;
                           enqueued := enqueued t; clock_reads := clock_reads t |};
          g_virtual := g_virtual s; g_stash := g_stash s |}, Ret ctx)
  | Fail e => (s, Fail e)
  | Panic p => (s, Panic p)
  end.

(** The client for a target: data that is in no database, a database, or
    else the management framework. *)
Definition new_data_client (target : string) (paths : list PathPtr) (prefix : option Path) (ctx : Ctx)
    (extensions : list Extension) : M data_client :=
  if decide (target = "OTHERS") then
    c ← lift (NewNonDbClient (clientTrie srv) paths prefix); mret (OfNonDb c)
  else
    '(_, ok, _, _) ← lift (IsTargetDb target);
    if (ok : bool) then c ← in_virtual (NewDbClient (env_db srv) (env_redis srv) paths prefix); mret (OfDb c)
    else c ← lift (NewTranslClient prefix paths ctx extensions); mret (OfTransl c).

Definition client_Get (c : data_client) : M (list Value) :=
  match c with
  | OfNonDb c => in_stash (NonDb.Get c (env_moment srv))
  | OfDb c => lift (DbClient.Get (env_redis srv) c (m_now (env_moment srv)))
  | OfTransl c => in_translib (TranslClient.Get (env_translib srv) c)
  end.

(** ** The gNMI service *)

Definition checkEncodingAndModel (encoding : Z) : res unit :=
  if decide (encoding ∈ supportedEncodings) then Ret tt
  else Fail (Errorf "unsupported encoding: %s"
         [match encoding with 1%Z => "BYTES" | 2%Z => "PROTO" | 3%Z => "ASCII" | _ => "" end]).

Definition notification (prefix : option Path) (v : Value) : Notification := {|
  n_Timestamp := Timestamp v; n_Prefix := prefix; n_Update := [{| u_Path := VPath v; u_Val := Val v |}] |}.

(** [notifications[index] = ...] for every value, in a slice of [n] nil
    pointers. *)
Definition fill_notifications (n : nat) (prefix : option Path) (vs : list Value) : res (list (option Notification)) :=
  if decide (length vs <= n)
  then Ret ((Some ∘ notification prefix <$> vs) ++ replicate (n - length vs) None)
  else Panic IndexOutOfRange.

Definition Get (ctx : Ctx) (req : GetRequest) : M (list (option Notification)) :=
  ctx ← authenticated ctx;
  if decide (gr_Type req <> ALL) then
    lift (Fail (StatusErr Unimplemented (Sprintf "unsupported request type: %s"
      [match gr_Type req with 1%Z => "CONFIG" | 2%Z => "STATE" | 3%Z => "OPERATIONAL" | _ => "" end])))
  else
    _ ← with_status Unimplemented (lift (checkEncodingAndModel (gr_Encoding req)));
    match gr_Prefix req with
    | None => lift (Fail (StatusErr Unimplemented "No target specified in prefix"))
    | Some p =>
        if decide (Target p = "")
        then lift (Fail (StatusErr Unimplemented "Empty target data not supported yet"))
        else
          dc ← with_status NotFound (new_data_client (Target p) (gr_Path req) (Some p) ctx (gr_Extension req));
          vs ← with_status NotFound (client_Get dc);
          lift (fill_notifications (length (gr_Path req)) (Some p) vs)
    end.

Definition set_results (req : gnmi_SetRequest) : list (option PathPtr * UpdateResult_Op) :=
  ((fun p => (Some p, DELETE)) <$> st_Delete req) ++
  ((fun u => (u_Path u, REPLACE)) <$> st_Replace req) ++
  ((fun u => (u_Path u, UPDATE)) <$> st_Update req).

(** [Set]; a response that comes with an error is not sent. *)
Definition Set_ (ctx : Ctx) (req : gnmi_SetRequest) : M SetResponse :=
  if negb (READ_WRITE_MODE srv)
  then lift (Fail (StatusErr Unimplemented "Telemetry is in read-only mode"))
  else
    ctx ← authenticated ctx;
    dc ← lift (NewTranslClient (st_Prefix req) [] ctx (st_Extension req));
    _ ← in_translib (TranslClient.Set_ (env_translib srv) dc (st_Delete req) (st_Replace req) (st_Update req));
    mret {| rs_Prefix := st_Prefix req; rs_Response := set_results req |}.

Definition Capabilities (ctx : Ctx) (exts : list Extension) : M CapabilityResponse :=
  ctx ← authenticated ctx;
  dc ← lift (NewTranslClient None [] ctx exts);
  models ← in_translib (TranslClient.Capabilities (env_translib srv) dc);
  mret {| SupportedModels := models; SupportedEncodings := supportedEncodings; GNMIVersion := "0.7.0";
          cr_Extension := (SUPPORTED_VERSIONS_EXT, supported_versions srv) |}.

(** ** The gNOI services *)

Definition unimplemented (ctx : Ctx) : M unit :=
  _ ← authenticated ctx; lift (Fail (StatusErr Unimplemented "")).

Definition Reboot := unimplemented.
Definition RebootStatus := unimplemented.
Definition CancelReboot := unimplemented.
Definition Ping := unimplemented.
Definition Traceroute := unimplemented.
Definition SetPackage := unimplemented.
Definition SwitchControlProcessor := unimplemented.

Definition Time (ctx : Ctx) : M Z :=
  _ ← authenticated ctx; mret (u64 (m_now (env_moment srv))).

(** An action of the management framework: [reqstr] is the request as JSON;
    the result is the JSON the response is read from. *)
Definition action (uri : string) (ctx : Ctx) (reqstr : string) : M string :=
  ctx ← authenticated ctx;
  jsresp ← with_status Unknown (in_translib (TranslProcessAction (env_translib srv) uri reqstr ctx));
  _ ← with_status Unknown (lift (action_response srv jsresp));
  mret jsresp.

Definition ClearNeighbors := action "/sonic-neighbor:clear-neighbors".
Definition CopyConfig := action "/sonic-config-mgmt:copy".
Definition ShowTechsupport := action "/sonic-show-techsupport:sonic-show-techsupport-info".
Definition ImageInstall := action "/sonic-image-management:image-install".
Definition ImageRemove := action "/sonic-image-management:image-remove".
Definition ImageDefault := action "/sonic-image-management:image-default".

(** The calls a client can make besides [Subscribe], [Authenticate] and
    [Refresh]. *)
Inductive rpc :=
  | RpcGet (req : GetRequest)
  | RpcSet (req : gnmi_SetRequest)
  | RpcCapabilities (exts : list Extension)
  | RpcUnimplemented
  | RpcTime
  | RpcAction (uri reqstr : string).

Definition serve (ctx : Ctx) (r : rpc) : M unit :=
  match r with
  | RpcGet req => _ ← Get ctx req; mret tt
  | RpcSet req => _ ← Set_ ctx req; mret tt
  | RpcCapabilities exts => _ ← Capabilities ctx exts; mret tt
  | RpcUnimplemented => unimplemented ctx
  | RpcTime => _ ← Time ctx; mret tt
  | RpcAction uri reqstr => _ ← action uri ctx reqstr; mret tt
  end.
End Server.

(** ** Who the server acts for *)

(** The bundle version a call asks for. *)
Definition rpc_version {Version} (tl : translib Version) (r : rpc) : option string :=
  match r with
  | RpcGet req => getBundleVersion tl (gr_Extension req)
  | RpcSet req => getBundleVersion tl (st_Extension req)
  | RpcCapabilities exts => getBundleVersion tl exts
  | _ => None
  end.

(** A call that is refused without looking at who makes it. *)
Definition read_only {Version} (srv : server Version) (r : rpc) : bool :=
  match r with RpcSet _ => negb (READ_WRITE_MODE srv) | _ => false end.

Section Server_lemmas.
Context `{RangeOrder} {Version : Type} (srv : server Version).
Abbreviation tl := (env_translib srv).
Abbreviation M := (SE (gstate Version)).

(** New requests to translib satisfy [P]; the rest of the state is free. *)
Definition server_asks (P : request Version -> Prop) : relation (gstate Version) := fun s s' =>
  only_asks P (g_translib s) (g_translib s').

#[local] Instance server_asks_preorder P : PreOrder (server_asks P).
Proof. split; [intros s; unfold server_asks; reflexivity|]. intros s1 s2 s3. unfold server_asks. apply transitivity. Qed.

Abbreviation asked P m := (does (server_asks P) m (fun _ => True)).

Lemma srv_then {A B} P (m : M A) (k : A -> M B) : asked P m -> (forall a, asked P (k a)) -> asked P (m ≫= k).
Proof. intros Hm Hk. eapply (does_bind _ _ _ (fun _ => True)); auto. Qed.

Lemma srv_ret {A} P (a : A) : asked P (mret a).
Proof. by apply (does_ret _). Qed.

Lemma srv_lift {A} P (m : res A) : asked P (lift m).
Proof. by apply (does_lift _). Qed.

Lemma in_translib_asked {A} P (m : SE (tstate Version) A) :
  does (only_asks P) m (fun _ => True) -> asked P (in_translib m).
Proof.
  intros Hm s. unfold in_translib. destruct (Hm (g_translib s)) as [HR _].
  destruct (m (g_translib s)) as [t [a|e|p]]; by split.
Qed.

Lemma in_virtual_asked {A} P (m : SE vstate A) : asked P (in_virtual m).
Proof.
  intros s. unfold in_virtual, server_asks. destruct (m (g_virtual s)) as [t [a|e|p]]; simpl; by split.
Qed.

Lemma in_stash_asked {A} P (m : sonicVersionYmlStash -> res (A * sonicVersionYmlStash)) : asked P (in_stash m).
Proof.
  intros s. unfold in_stash, server_asks. destruct (m (g_stash s)) as [[a t]|e|p]; simpl; by split.
Qed.

Lemma with_status_asked {A} P c (m : M A) : asked P m -> asked P (with_status c m).
Proof.
  intros Hm. eapply (does_catch _ _ _ _ (fun _ => True)); [exact Hm|intros a _; apply srv_ret|intros e; apply srv_lift].
Qed.

(** A client of the management framework that a call gets is its own. *)
Definition own_client (ctx : Ctx) (exts : list Extension) (c : data_client) : Prop :=
  match c with OfTransl c => t_ctx c = ctx /\ extensions c = exts | _ => True end.

Lemma NewTranslClient_own prefix paths ctx exts c :
  NewTranslClient prefix paths ctx exts = Ret c -> t_ctx c = ctx /\ extensions c = exts.
Proof. unfold NewTranslClient. intros Hc. res_inv Hc. by injection Hc as <-. Qed.

Lemma new_data_client_own P target paths prefix ctx exts :
  does (server_asks P) (new_data_client srv target paths prefix ctx exts) (own_client ctx exts).
Proof.
  unfold new_data_client. case_decide.
  { eapply (does_bind _ _ _ (fun _ => True)); [by apply srv_lift|]. intros c _. by apply (does_ret _). }
  eapply (does_bind _ _ _ (fun _ => True)); [by apply srv_lift|]. intros [[[? ok] ?] ?] _. destruct ok.
  { eapply (does_bind _ _ _ (fun _ => True)); [by apply in_virtual_asked|]. intros c _. by apply (does_ret _). }
  eapply (does_bind _ _ _ (fun c => t_ctx c = ctx /\ extensions c = exts)).
  { apply (does_lift _). intros c. apply NewTranslClient_own. }
  intros c Hc. by apply (does_ret _).
Qed.

Lemma client_Get_asked ctx exts c :
  own_client ctx exts c ->
  asked (on_behalf tl ((caller ctx).1, match getBundleVersion tl exts with Some v => Some v | None => (caller ctx).2 end))
    (client_Get srv c).
Proof.
  intros Hc. destruct c as [c|c|c]; simpl.
  - apply in_stash_asked.
  - apply srv_lift.
  - destruct Hc as [<- <-]. apply in_translib_asked. apply Get_asked.
Qed.

(** The call has the credentials of some mode that is on, or none is. *)
Definition may_call (ctx : Ctx) : Prop :=
  Any (UserAuth srv) = true ->
  exists m u r, m ∈ tried /\ Enabled (UserAuth srv) m = true /\ accepted_as (env_auth srv) m ctx u r.

(** What [m] asks translib for, it asks for on behalf of the caller: one
    user, who is authenticated unless no mode is on. *)
Definition acts_for {A} (bv : option string) (ctx : Ctx) (m : M A) (s : gstate Version) : Prop :=
  exists cs a, calls (g_translib (m s).1) = calls (g_translib s) ++ cs /\
    Forall (on_behalf tl (a, bv)) cs /\ AuthEnabled a = Any (UserAuth srv) /\
    (Any (UserAuth srv) = true -> authenticated_as (env_auth srv) (UserAuth srv) tried ctx a).

Definition unauthenticated : error := StatusErr Unauthenticated "Unauthenticated".

Definition guarded {A} (bv : option string) (ctx : Ctx) (m : M A) : Prop := forall s,
  (may_call ctx -> acts_for bv ctx m s) /\ (~ may_call ctx -> m s = (s, Fail unauthenticated)).

Lemma guarded_then {A B} bv ctx (m : M A) (b : B) : guarded bv ctx m -> guarded bv ctx (_ ← m; mret b).
Proof.
  intros Hm s. destruct (Hm s) as [Ha Hn]. unfold mbind, SE_bind, acts_for in *. split.
  - intros Hc. specialize (Ha Hc). by destruct (m s) as [s' [a|e|p]].
  - intros Hc. by rewrite (Hn Hc).
Qed.

Lemma authenticated_outcome ctx s :
  total_world (env_auth srv) -> md_wf ctx ->
  match authenticated srv ctx s with
  | (s', Ret ctx') => may_call ctx /\ calls (g_translib s') = calls (g_translib s) /\
      exists rc, requestContext ctx' = Some rc /\ AuthEnabled (rc_Auth rc) = Any (UserAuth srv) /\
        BundleVersion rc = requestContext ctx ≫= BundleVersion /\
        (Any (UserAuth srv) = true -> authenticated_as (env_auth srv) (UserAuth srv) tried ctx (rc_Auth rc))
  | (s', Fail e) => s' = s /\ e = unauthenticated /\ ~ may_call ctx
  | _ => False
  end.
Proof.
  intros Hw Hmd. unfold authenticated.
  pose proof (authenticate_outcome (env_auth srv) (UserAuth srv) ctx (requestCounter (g_translib s)) Hw Hmd) as Ho.
  destruct (authenticate _ _ _ _) as [[ctx' n]|e|p]; [| |done].
  - destruct Ho as (_ & rc & Hrc & Hen & Hb & Ha). split_and!; [|done|by exists rc].
    intros HA. destruct (Ha HA) as (pre & m & post & Ht & Hm & Hacc & _).
    exists m, (User (rc_Auth rc)), (Roles (rc_Auth rc)). split_and!; [|done|done]. rewrite Ht. set_solver.
  - destruct Ho as (-> & HA & Hn). split_and!; [done..|].
    intros Hc. destruct (Hc HA) as (m & u & r & Hm & He & Hacc). by destruct (Hn m u r Hm He).
Qed.

Lemma guarded_with (bv : option string) (ctx : Ctx) {A} (k : Ctx -> M A) :
  total_world (env_auth srv) -> md_wf ctx -> requestContext ctx = None ->
  (forall ctx', (caller ctx').2 = None -> asked (on_behalf tl ((caller ctx').1, bv)) (k ctx')) ->
  guarded bv ctx (authenticated srv ctx ≫= k).
Proof.
  intros Hw Hmd Hnew Hk s. pose proof (authenticated_outcome ctx s Hw Hmd) as Ho. unfold acts_for.
  destruct (authenticated srv ctx s) as [s1 [ctx'|e|p]] eqn:E; [| |done].
  - destruct Ho as (Hc & Hs1 & rc & Hrc & Hen & Hb & Ha). split; [intros _|done].
    assert (caller ctx' = (rc_Auth rc, None)) as Hcall by (unfold caller; by rewrite Hrc, Hb, Hnew).
    rewrite (SE_bind_Ret _ _ _ _ _ E). destruct (Hk ctx' ltac:(by rewrite Hcall) s1) as [(cs & Hcs & Hf) _].
    rewrite Hcall in Hf. exists cs, (rc_Auth rc). rewrite <- Hs1. by split_and!.
  - destruct Ho as (-> & -> & Hn). split; [done|]. intros _. unfold mbind, SE_bind. by rewrite E.
Qed.

Context (Hw : total_world (env_auth srv)) (ctx : Ctx) (Hmd : md_wf ctx) (Hnew : requestContext ctx = None).

Lemma Get_guarded req : guarded (getBundleVersion tl (gr_Extension req)) ctx (Get srv ctx req).
Proof.
  apply guarded_with; [done..|]. intros ctx' Hv. case_decide; [by apply srv_lift|].
  apply srv_then; [by apply with_status_asked, srv_lift|]. intros _.
  destruct (gr_Prefix req) as [p|]; [|by apply srv_lift]. case_decide; [by apply srv_lift|].
  eapply (does_bind _ _ _ (own_client ctx' (gr_Extension req))).
  { eapply (does_catch _ _ _ _ (own_client ctx' (gr_Extension req)));
      [apply new_data_client_own|intros c Hc; by apply (does_ret _)|intros e; by apply (does_lift _)]. }
  intros c Hc. apply srv_then; [|intros vs; by apply srv_lift].
  apply with_status_asked. pose proof (client_Get_asked _ _ _ Hc) as Hg. rewrite Hv in Hg.
  by destruct (getBundleVersion tl (gr_Extension req)).
Qed.

Lemma action_guarded uri reqstr : guarded None ctx (action srv uri ctx reqstr).
Proof.
  apply guarded_with; [done..|]. intros ctx' Hv. apply srv_then.
  - apply with_status_asked, in_translib_asked.
    assert (((caller ctx').1, None) = caller ctx') as -> by (rewrite <- Hv; by destruct (caller ctx')).
    apply TranslProcessAction_does.
  - intros resp. apply srv_then; [by apply with_status_asked, srv_lift|]. intros _. apply srv_ret.
Qed.

(** A call of a [TranslClient] made for the context. *)
Lemma own_Transl_asked {A} P prefix ctx' exts (k : TranslClient -> M A) :
  (forall c, t_ctx c = ctx' -> extensions c = exts -> asked P (k c)) ->
  asked P (lift (NewTranslClient prefix [] ctx' exts) ≫= k).
Proof.
  intros Hk. eapply (does_bind _ _ _ (fun c => t_ctx c = ctx' /\ extensions c = exts)).
  { apply (does_lift _). intros c. apply NewTranslClient_own. }
  intros c [Hc He]. by apply Hk.
Qed.

Lemma client_caller_own c ctx' exts :
  t_ctx c = ctx' -> extensions c = exts -> (caller ctx').2 = None ->
  client_caller tl c = ((caller ctx').1, getBundleVersion tl exts).
Proof. intros <- <- Hv. unfold client_caller. rewrite Hv. by destruct (getBundleVersion tl (extensions c)). Qed.

Lemma Set_guarded req : READ_WRITE_MODE srv = true -> guarded (getBundleVersion tl (st_Extension req)) ctx (Set_ srv ctx req).
Proof.
  intros Hrw. unfold Set_. rewrite Hrw. simpl. apply guarded_with; [done..|]. intros ctx' Hv.
  apply own_Transl_asked. intros c Hc He. apply srv_then; [|intros _; apply srv_ret].
  apply in_translib_asked. rewrite <- (client_caller_own _ _ _ Hc He Hv). apply Set_asked.
Qed.

Lemma Capabilities_guarded exts : guarded (getBundleVersion tl exts) ctx (Capabilities srv ctx exts).
Proof.
  apply guarded_with; [done..|]. intros ctx' Hv.
  apply own_Transl_asked. intros c Hc He. apply srv_then; [|intros ms; apply srv_ret].
  apply in_translib_asked. rewrite <- (client_caller_own _ _ _ Hc He Hv).
  apply entered. intros ? ?. by apply ask_.
Qed.
End Server_lemmas.

(** C1. Every call of the gNMI and gNOI services, Subscribe apart, is checked
    before anything happens: without the credentials of a mode that is on it
    ends with Unauthenticated and changes nothing (a Set in read-only mode
    ends with Unimplemented even earlier, whoever makes it).  Otherwise all
    that translib is asked is asked on behalf of one user: the one the first
    of the modes that accepts the call authenticates, with his roles, and the
    bundle version of this call's extensions. *)
Theorem server_identity `{RangeOrder} {Version : Type} (srv : server Version) (r : rpc) (ctx : Ctx)
    (s : gstate Version)
  (Hw : total_world (env_auth srv)) (Hmd : md_wf ctx) (Hnew : requestContext ctx = None) :
  if read_only srv r
  then serve srv ctx r s = (s, Fail (StatusErr Unimplemented "Telemetry is in read-only mode"))
  else (may_call srv ctx -> acts_for srv (rpc_version (env_translib srv) r) ctx (serve srv ctx r) s) /\
       (~ may_call srv ctx -> serve srv ctx r s = (s, Fail unauthenticated)).
Proof.
  destruct r as [req|req|exts| | |uri reqstr]; simpl.
  - by apply guarded_then, Get_guarded.
  - destruct (READ_WRITE_MODE srv) eqn:Hrw; simpl.
    + by apply guarded_then, Set_guarded.
    + unfold Set_, mbind, SE_bind. by rewrite Hrw.
  - by apply guarded_then, Capabilities_guarded.
  - apply guarded_with; [done..|]. intros ctx' _. apply srv_lift.
  - apply guarded_then, guarded_with; [done..|]. intros ctx' _. apply srv_ret.
  - by apply guarded_then, action_guarded.
Qed.

(** ** The answer of Get *)

Section Answers.
Context `{RangeOrder} {Version : Type} (srv : server Version).

(** The paths a client serves. *)
Definition client_paths (c : data_client) : list PathPtr :=
  match c with
  | OfNonDb c => (range (path2Getter c)).*1
  | OfDb c => (range (pathG2S c)).*1
  | OfTransl c => (range (path2URI c)).*1
  end.

Lemma new_data_client_paths target paths prefix ctx exts s s' c :
  NoDup paths -> new_data_client srv target paths prefix ctx exts s = (s', Ret c) -> client_paths c ≡ₚ paths.
Proof.
  intros Hnd. unfold new_data_client, mbind, SE_bind, lift. case_decide.
  { destruct (NewNonDbClient _ _ _) as [nc|e|p] eqn:E; [|done..]. intros [= <- <-].
    unfold NewNonDbClient in E. res_inv E. injection E as <-. apply foldM_insert_dom in E0.
    apply keys_range; [done|]. simpl. rewrite E0. set_solver. }
  destruct (IsTargetDb target) as [[[[? ok] ?] ?]|e|p]; [|done..]. destruct ok.
  - unfold in_virtual. destruct (NewDbClient _ _ _ _ _) as [v [dc|e|p]] eqn:E; [|done..]. intros [= <- <-].
    unfold NewDbClient, mbind, SE_bind in E. clear -E Hnd. set (g := env_db srv) in *.
    destruct (populateAllDbtablePath _ _ _ _ _ _) as [v1 [g1|e1|p1]] eqn:Hp; [|done..]. injection E as <- <-.
    apply keys_range; [done|]. simpl. rewrite (populateAll_dom _ _ _ _ _ _ _ _ Hp). set_solver.
  - destruct (NewTranslClient _ _ _ _) as [tc|e|p] eqn:E; [|done..]. intros [= <- <-].
    unfold NewTranslClient in E. res_inv E. injection E as <-. apply foldM_insert_dom in E0.
    apply keys_range; [done|]. simpl. rewrite E0. set_solver.
Qed.

Lemma client_Get_paths c s s' vs :
  client_Get srv c s = (s', Ret vs) -> VPath <$> vs = Some <$> client_paths c.
Proof.
  destruct c as [c|c|c]; simpl.
  - unfold in_stash. destruct (NonDb.Get _ _ _) as [[vs' st]|e|p] eqn:E; [|done..]. intros [= <- <-].
    apply send_all_values in E. clear -E. 
    induction E as [|v [p g] vs l (b & ->) _ IH]; [done|]. simpl. by f_equal.
  - intros [= <- E]. apply collectM_Ret in E as (rs & Hrs & ->).
    induction Hrs as [|[p tps] ys l rs Hv _ IH]; [done|]. res_inv Hv. injection Hv as <-. simpl. by f_equal.
  - unfold in_translib.
    assert (PreOrder (fun _ _ : tstate Version => True)) as Hpre by done.
    assert (does (fun _ _ => True) (TranslClient.Get (env_translib srv) c)
      (fun vs => VPath <$> vs = Some <$> (range (path2URI c)).*1)) as Hd.
    { eapply (does_bind _ _ _ (fun _ => True)); [by intros ?; repeat case_match|]. intros ctx _.
      eapply (does_bind _ _ _ (fun _ => True)); [by intros ?|]. intros ts _.
      eapply does_weaken; [|apply (does_mapS _ _ _ (fun pu v => VPath v = Some pu.1))].
      - intros ys Hys. induction Hys as [|pu v l ys Hv _ IH]; [done|]. rewrite !fmap_cons, Hv. by f_equal.
      - intros pu. eapply (does_bind _ _ _ (fun _ => True)); [by intros ?; repeat case_match|].
        intros v _. by apply (does_ret _). }
    specialize (Hd (g_translib s)). destruct (TranslClient.Get _ _ _) as [t r]. intros [= <- ->]. apply Hd.
Qed.
End Answers.

(** C12. The answer to a Get that is let in and asks for all data of a target
    in a supported encoding is settled by the data client of the target: its
    refusals and failures are reported with the code NotFound, and its values
    become the answer, one update under the prefix of the request in each
    notification.  There is exactly one notification per path: no index is
    out of range, no path stays without an answer and none is answered twice. *)
Theorem Get_response `{RangeOrder} {Version : Type} (srv : server Version) (ctx ctx' : Ctx) (req : GetRequest)
    (p : Path) (s s0 : gstate Version)
  (Hauth : authenticated srv ctx s = (s0, Ret ctx'))
  (Htype : gr_Type req = ALL) (Henc : gr_Encoding req = 0%Z \/ gr_Encoding req = 4%Z)
  (Hprefix : gr_Prefix req = Some p) (Htarget : Target p <> "") (Hpaths : NoDup (gr_Path req)) :
  match new_data_client srv (Target p) (gr_Path req) (Some p) ctx' (gr_Extension req) s0 with
  | (s1, Ret dc) =>
      match client_Get srv dc s1 with
      | (s2, Ret vs) =>
          Get srv ctx req s = (s2, Ret ((fun v => Some (notification (Some p) v)) <$> vs)) /\
          VPath <$> vs ≡ₚ Some <$> gr_Path req
      | (s2, Fail e) => Get srv ctx req s = (s2, Fail (StatusErr NotFound (err_text e)))
      | (s2, Panic pn) => Get srv ctx req s = (s2, Panic pn)
      end
  | (s1, Fail e) => Get srv ctx req s = (s1, Fail (StatusErr NotFound (err_text e)))
  | (s1, Panic pn) => Get srv ctx req s = (s1, Panic pn)
  end.
Proof.
  assert (Get srv ctx req s =
    (dc ← with_status NotFound (new_data_client srv (Target p) (gr_Path req) (Some p) ctx' (gr_Extension req));
     vs ← with_status NotFound (client_Get srv dc);
     lift (fill_notifications (length (gr_Path req)) (Some p) vs)) s0) as ->.
  { unfold Get. rewrite (SE_bind_Ret _ _ _ _ _ Hauth), Hprefix.
    rewrite decide_False by (by intros []). rewrite decide_False by done.
    assert (checkEncodingAndModel (gr_Encoding req) = Ret tt) as Hc
      by (unfold checkEncodingAndModel; rewrite decide_True; [done|destruct Henc as [-> | ->]; set_solver]).
    unfold with_status at 1. by rewrite Hc. }
  destruct (new_data_client _ _ _ _ _ _ _) as [s1 [dc|e|pn]] eqn:Edc;
    unfold with_status, catch, mbind, SE_bind; rewrite Edc; [|done..]. simpl.
  destruct (client_Get srv dc s1) as [s2 [vs|e|pn]] eqn:Evs; [|done..]. simpl.
  pose proof (new_data_client_paths _ _ _ _ _ _ _ _ _ Hpaths Edc) as Hp.
  pose proof (client_Get_paths _ _ _ _ _ Evs) as Hv.
  assert (length vs = length (gr_Path req)) as Hl.
  { rewrite <- Hp, <- (length_fmap VPath), Hv. by rewrite length_fmap. }
  split; [|by rewrite Hv, Hp].
  unfold lift, fill_notifications. rewrite decide_True by lia.
  replace (length (gr_Path req) - length vs) with 0 by lia. by rewrite app_nil_r.
Qed.

(** ** Witnesses *)

(** Password, token and certificate authentication are on. *)
Definition sample_server : server string := {|
  READ_WRITE_MODE := true; UserAuth := sample_modes; env_auth := sample_world; env_translib := sample_translib;
  env_db := single_conf; env_redis := sample_clients; env_moment := sample_moment 7; clientTrie := NewTrie;
  supported_versions := ""; action_response := fun _ => Ret tt |}.

Definition sample_gstate : gstate string :=
  {| g_translib := fresh_state; g_virtual := empty_vstate; g_stash := InvalidateVersionFileStash |}.

Definition openconfig : Path := {| Origin := ""; Target := "openconfig"; Element := []; Elem := [] |}.

Definition sample_get : GetRequest := {|
  gr_Type := ALL; gr_Encoding := 4; gr_Prefix := Some openconfig;
  gr_Path := [names_path 1 ["system"; "state"]; names_path 2 ["interfaces"]];
  gr_Extension := [RegisteredExt BUNDLE_VERSION_EXT "1.0.0"] |}.

(** A caller without credentials, and one with a certificate. *)
Definition nobody : Ctx := {| requestContext := None; metadata := Some ∅; peer := None |}.

Lemma nobody_may_not : ~ may_call (H := default_order) sample_server nobody.
Proof.
  intros Hc. destruct Hc as (m & u & r & _ & _ & Ha); [by vm_compute|].
  inversion Ha as [? ? ? ? Hu| ? ? ? ? Hu|? ? ? ? ? ? Hp]; subst; [unfold md_first in Hu; simpl in Hu|unfold md_first in Hu; simpl in Hu|discriminate].
  all: by rewrite lookup_empty in Hu.
Qed.

Lemma server_identity_witness :
  let _ := default_order in
  let srv := sample_server in
  acts_for srv (Some "1.0.0") sample_ctx (serve srv sample_ctx (RpcGet sample_get)) sample_gstate /\
  length (calls (g_translib (serve srv sample_ctx (RpcGet sample_get) sample_gstate).1)) = 2 /\
  serve srv nobody (RpcGet sample_get) sample_gstate = (sample_gstate, Fail unauthenticated).
Proof.
  intros ord srv.
  destruct (server_identity srv (RpcGet sample_get) sample_ctx sample_gstate sample_world_total sample_ctx_wf eq_refl)
    as [Ha _].
  assert (md_wf nobody) as Hn by (intros md k [= <-]; by rewrite lookup_empty).
  destruct (server_identity srv (RpcGet sample_get) nobody sample_gstate sample_world_total Hn eq_refl)
    as [_ Hr].
  split; [apply Ha|split; [vm_compute; reflexivity|apply Hr, nobody_may_not]].
  intros _. exists "cert", "monitor", ["1001"]. split; [by right; right; left|]. split; [by vm_compute|].
  eapply by_certificate; reflexivity || done.
Defined.

Definition monitor_ctx : Ctx :=
  set_auth sample_ctx (new_rc 1) {| User := "monitor"; AuthEnabled := true; Roles := ["1001"] |}.

Definition admitted_gstate : gstate string := {|
  g_translib := {| calls := []; audit := []; Writer := false; requestCounter := 1; enqueued := []; clock_reads := 0 |};
  g_virtual := empty_vstate; g_stash := InvalidateVersionFileStash |}.

Definition openconfig_client : TranslClient := {|
  t_prefix := Some openconfig; t_ctx := monitor_ctx; extensions := gr_Extension sample_get;
  path2URI := <[names_path 2 ["interfaces"] := "/interfaces"]>
                (<[names_path 1 ["system"; "state"] := "/system/state"]> ∅) |}.

Lemma Get_response_witness :
  let _ := default_order in
  exists s2 vs, Get sample_server sample_ctx sample_get sample_gstate =
      (s2, Ret ((fun v => Some (notification (Some openconfig) v)) <$> vs)) /\
    VPath <$> vs ≡ₚ [Some (names_path 1 ["system"; "state"]); Some (names_path 2 ["interfaces"])].
Proof.
  intros ord.
  assert (authenticated sample_server sample_ctx sample_gstate = (admitted_gstate, Ret monitor_ctx)) as E0
    by (vm_compute; reflexivity).
  assert (NoDup (gr_Path sample_get)) as Hnd.
  { apply NoDup_cons. split; [|apply NoDup_singleton]. by intros ?%list_elem_of_singleton. }
  pose proof (Get_response sample_server sample_ctx monitor_ctx sample_get openconfig sample_gstate admitted_gstate
    E0 eq_refl (or_intror eq_refl) eq_refl ltac:(discriminate) Hnd) as Hg.
  assert (new_data_client sample_server (Target openconfig) (gr_Path sample_get) (Some openconfig) monitor_ctx
    (gr_Extension sample_get) admitted_gstate = (admitted_gstate, Ret (OfTransl openconfig_client))) as E1
    by reflexivity.
  rewrite E1 in Hg.
  assert (match (client_Get sample_server (OfTransl openconfig_client) admitted_gstate).2 with
          | Ret _ => True | _ => False end) as Hr by (vm_compute; exact I).
  destruct (client_Get sample_server (OfTransl openconfig_client) admitted_gstate) as [s2 [vs|e|pn]]; [|destruct Hr..].
  exists s2, vs. exact Hg.
Defined.
