(* ===== verification/GnoiClient.v ===== *)
(** * The gNOI command-line client: [gnoi_client/gnoi_client.go]

    [main] makes one call of the server of [Server.v] and prints the answer.
    The connection is the composition: the metadata the client sends reaches
    the handler in its context, together with the headers gRPC adds, and the
    request and the answer are as JSON what [json.Marshal] and
    [json.Unmarshal] make of the protobuf messages.  A panic of the client
    ends it with an error; a panic of the server is passed on.

    The theorem follows a token from the login to the request the management
    framework gets. *)

From stdpp Require Import base tactics list fin_maps gmap strings pretty.
From Stdlib Require Import ZArith Lia.
From S2P Require Import Prelude GoStrings Messages DbConfig RedisDb Trie VirtualDb DbClient StatsRing NonDb.
From S2P Require Import Auth TranslUtils TranslClient TranslSet Server.

Local Open Scope string_scope.
Local Open Scope list_scope.

(** ** The client *)

Record flags := {
  module : string; rpc_name : string; args : string; jwtToken : string }.

(** The requests with fields the arguments can set. *)
Inductive request_type :=
  | TechsupportRequest | CopyConfigRequest | ImageInstallRequest | ImageRemoveRequest | ImageDefaultRequest
  | ClearNeighborsRequest.

Record client_env := {
  (** [grpc.Dial] *)
  dial : res unit;
  (** the headers gRPC adds to a call, and what the handshake says of us *)
  headers : gmap string (list string);
  own_peer : option Peer;
  (** the request with the fields the arguments set, as JSON; arguments that
      do not parse are ignored *)
  request_json : request_type -> string -> string;
  authenticate_args : string -> string * string;
  (** [json.Marshal] of an answer *)
  time_json : Z -> res string;
  response_json : request_type -> string -> res string;
  token_json : JwtToken -> res string;
  (** the lifetimes of tokens of the server *)
  JwtRefreshInt : Z; JwtValidInt : Z;
}.

(** The state: the server's, and the lines printed. *)
Record console {Version : Type} := { remote : gstate Version; printed : list string }.
Arguments console : clear implicits.

Definition println {Version} (line : string) : SE (console Version) unit :=
  modify (fun s => {| remote := remote s; printed := printed s ++ [line] |}).

(** [panic(err.Error())]. *)
Definition die {Version A} (e : error) : SE (console Version) A := lift (Panic (PanicErr (err_text e))).

Section Client.
Context `{RangeOrder} {Version : Type} (srv : server Version) (env : client_env) (fl : flags).
Abbreviation M := (SE (console Version)).

(** [setUserCreds], and what the server sees. *)
Definition setUserCreds (md : gmap string (list string)) : gmap string (list string) :=
  if decide (jwtToken fl = "") then md
  else <["access_token" := default [] (md !! "access_token") ++ [jwtToken fl]]> md.

Definition call_ctx : Ctx :=
  {| requestContext := None; metadata := Some (setUserCreds (headers env)); peer := own_peer env |}.

(** A call of the server. *)
Definition remotely {A} (m : SE (gstate Version) A) : M A := fun s =>
  let '(g, r) := m (remote s) in ({| remote := g; printed := printed s |}, r).

Definition run_call {A} (banner : string) (m : SE (gstate Version) A) (marshal : A -> res string) : M unit :=
  println banner ≫= fun _ =>
  catch (remotely m)
    (fun resp => match marshal resp with
                 | Ret respstr => println respstr
                 | Fail e => die e
                 | Panic p => lift (Panic p)
                 end)
    die.

(** A call whose request the arguments fill in. *)
Definition run_action (banner : string) (t : request_type) (m : Ctx -> string -> SE (gstate Version) string) : M unit :=
  run_call banner (m call_ctx (request_json env t (args fl))) (response_json env t).

Definition systemTime : M unit := run_call "System Time" (Time srv call_ctx) (time_json env).
Definition sonicShowTechSupport : M unit :=
  run_action "Sonic ShowTechsupport" TechsupportRequest (ShowTechsupport srv).
Definition copyConfig : M unit := run_action "Sonic CopyConfig" CopyConfigRequest (CopyConfig srv).
Definition imageInstall : M unit := run_action "Sonic ImageInstall" ImageInstallRequest (ImageInstall srv).
Definition imageRemove : M unit := run_action "Sonic ImageRemove" ImageRemoveRequest (ImageRemove srv).
Definition imageDefault : M unit := run_action "Sonic ImageDefault" ImageDefaultRequest (ImageDefault srv).
Definition clearNeighbors : M unit := run_action "Sonic ClearNeighbors" ClearNeighborsRequest (ClearNeighbors srv).

Definition authenticate_call : SE (gstate Version) JwtToken :=
  let '(username, passwd) := authenticate_args env (args fl) in
  lift (gnoi_Authenticate (env_auth srv) (UserAuth srv) (JwtValidInt env) (m_now (env_moment srv)) username passwd).

(** The counter of request ids moves as [authenticate] leaves it. *)
Definition refresh_call : SE (gstate Version) JwtToken := fun s =>
  ((authenticated srv call_ctx s).1,
   gnoi_Refresh (env_auth srv) (UserAuth srv) (JwtRefreshInt env) (JwtValidInt env) (m_now (env_moment srv))
     call_ctx (requestCounter (g_translib s))).

Definition authenticate : M unit := run_call "Sonic Authenticate" authenticate_call (token_json env).
Definition refresh : M unit := run_call "Sonic Refresh" refresh_call (token_json env).

Definition main : M unit :=
  catch (lift (dial env))
    (fun _ =>
      if decide (module fl = "System") then
        if decide (rpc_name fl = "Time") then systemTime
        else lift (Panic (PanicErr "Invalid RPC Name"))
      else if decide (module fl = "Sonic") then
        if decide (rpc_name fl = "showtechsupport") then sonicShowTechSupport
        else if decide (rpc_name fl = "copyConfig") then copyConfig
        else if decide (rpc_name fl = "authenticate") then authenticate
        else if decide (rpc_name fl = "imageInstall") then imageInstall
        else if decide (rpc_name fl = "imageDefault") then imageDefault
        else if decide (rpc_name fl = "imageRemove") then imageRemove
        else if decide (rpc_name fl = "refresh") then refresh
        else if decide (rpc_name fl = "clearNeighbors") then clearNeighbors
        else lift (Panic (PanicErr "Invalid RPC Name"))
      else lift (Panic (PanicErr "Invalid Module Name")))
    die.
End Client.

(** ** From the login to the management framework *)

(** The calls that are actions: what is printed first, and what is asked. *)
Definition actions : gmap string (string * string * request_type) := list_to_map [
  ("showtechsupport", ("Sonic ShowTechsupport", "/sonic-show-techsupport:sonic-show-techsupport-info", TechsupportRequest));
  ("copyConfig", ("Sonic CopyConfig", "/sonic-config-mgmt:copy", CopyConfigRequest));
  ("imageInstall", ("Sonic ImageInstall", "/sonic-image-management:image-install", ImageInstallRequest));
  ("imageDefault", ("Sonic ImageDefault", "/sonic-image-management:image-default", ImageDefaultRequest));
  ("imageRemove", ("Sonic ImageRemove", "/sonic-image-management:image-remove", ImageRemoveRequest));
  ("clearNeighbors", ("Sonic ClearNeighbors", "/sonic-neighbor:clear-neighbors", ClearNeighborsRequest))].

Section Client_lemmas.
Context `{RangeOrder} {Version : Type} (srv : server Version) (env : client_env) (fl : flags).

Lemma main_action banner uri t :
  dial env = Ret tt -> module fl = "Sonic" -> actions !! rpc_name fl = Some (banner, uri, t) ->
  main srv env fl = run_action env fl banner t (action srv uri).
Proof.
  intros Hd Hm Ha. unfold main, catch, lift. rewrite Hd, Hm. cbv iota.
  apply elem_of_list_to_map_2 in Ha. repeat apply elem_of_cons in Ha as [Ha|Ha]; try by apply elem_of_nil in Ha.
  all: injection Ha as -> -> -> ->; reflexivity.
Qed.

(** An action asks for exactly one thing, in the name of the context. *)
Lemma TranslProcessAction_once (tl : translib Version) uri payload ctx rc s :
  requestContext ctx = Some rc -> BundleVersion rc = None ->
  exists s1 r, TranslProcessAction tl uri payload ctx s = (s1, r) /\
    calls s1 = calls s ++ [ActionReq uri payload (origin_of rc None)].
Proof.
  intros Hrc Hv. unfold TranslProcessAction.
  assert (get_context ctx s = (s, Ret (rc, ctx))) as Eg.
  { unfold get_context, GetContext. rewrite Hrc. by destruct s. }
  rewrite (SE_bind_Ret _ _ _ _ _ Eg). unfold client_version. rewrite Hv.
  rewrite (SE_bind_Ret (mret None) _ s s None eq_refl).
  unfold ask, mbind at 1, SE_bind at 1. destruct (tl_Action tl (calls s) uri payload) as [out err].
  set (s0 := {| calls := calls s ++ _ |}).
  destruct (audit_does tl (fun _ => False) ctx "ACTION" uri err s0) as [(cs & Hcs & Hf) _].
  assert (cs = []) as -> by (destruct cs; [done|by inversion Hf]). rewrite app_nil_r in Hcs.
  unfold mbind, SE_bind. destruct (__log_audit_msg tl ctx "ACTION" uri err s0) as [s1 [u|e|p]]; simpl in Hcs; [|by eauto..].
  destruct err; by eauto.
Qed.

Lemma action_once uri reqstr ctx ctx' rc s s0 :
  authenticated srv ctx s = (s0, Ret ctx') -> requestContext ctx' = Some rc -> BundleVersion rc = None ->
  exists s1 r, action srv uri ctx reqstr s = (s1, r) /\
    calls (g_translib s1) = calls (g_translib s0) ++ [ActionReq uri reqstr (origin_of rc None)].
Proof.
  intros Ha Hrc Hv. unfold action. rewrite (SE_bind_Ret _ _ _ _ _ Ha).
  destruct (TranslProcessAction_once (env_translib srv) uri reqstr ctx' rc (g_translib s0) Hrc Hv) as (t & r & E & Hc).
  unfold with_status, catch, in_translib, mbind, SE_bind. rewrite E.
  destruct r as [jsresp|e|p]; simpl; [|by eauto..]. by destruct (action_response srv jsresp); eauto.
Qed.

(** The client prints the banner, makes the call, and prints its answer or
    dies of its error. *)
Lemma run_call_outcome {A} banner (m : SE (gstate Version) A) marshal (s : console Version) g r :
  m (remote s) = (g, r) ->
  exists s' o, run_call banner m marshal s = (s', o) /\ remote s' = g /\
    match o with
    | Ret _ => exists a line, r = Ret a /\ marshal a = Ret line /\ printed s' = printed s ++ [banner; line]
    | Fail _ => False
    | Panic _ => printed s' = printed s ++ [banner]
    end.
Proof.
  intros Hm. unfold run_call, println, modify, remotely, catch, die, lift, mbind, SE_bind. simpl. rewrite Hm.
  destruct r as [a|e|p]; simpl; [|by eauto..]. destruct (marshal a) as [line|e|p] eqn:Em; simpl; [|by eauto..].
  do 2 eexists. split; [done|]. split; [done|]. exists a, line. simpl. by rewrite <- app_assoc.
Qed.

(** The metadata with the token of the flags. *)
Lemma call_metadata tok :
  jwtToken fl = tok -> tok <> "" -> headers env !! "access_token" = None -> headers env !! "username" = None ->
  (forall k, headers env !! k <> Some []) ->
  md_wf (call_ctx env fl) /\ md_first (call_ctx env fl) "username" = None /\
  md_first (call_ctx env fl) "access_token" = Some tok.
Proof.
  intros Ht Hne Ha Hu Hmd. unfold md_wf, md_first, call_ctx, setUserCreds. simpl. rewrite Ht, decide_False, Ha by done.
  split_and!.
  - intros md k [= <-] [[_ ?]|[_ ?]]%lookup_insert_Some; [done|by eapply Hmd].
  - by rewrite lookup_insert_ne, Hu.
  - by rewrite lookup_insert_eq.
Qed.
End Client_lemmas.

(** C11. From the login to the management framework: whoever logged in with his
    password at [t0] and gives the token he got to the client with an action
    of the module Sonic, before it expires, has exactly one thing asked of
    translib: that action, with the arguments he gave, as himself, with the
    roles he had at login, whatever certificate his connection presents and
    whatever other modes are on.  The client prints what it was asked to do
    and then the answer, or dies of the error. *)
Theorem token_acts `{RangeOrder} {Version : Type} (srv : server Version) (env : client_env) (fl : flags)
    (s : console Version) (banner uri : string) (t : request_type)
    (validity t0 : Z) (username passwd : string) (tok : JwtToken) (r0 : string) (rs : list string)
  (Hw : total_world (env_auth srv)) (Hlaw : jwt_law (env_auth srv) (m_now (env_moment srv)))
  (Hlogin : gnoi_Authenticate (env_auth srv) (UserAuth srv) validity t0 username passwd = Ret tok)
  (Hroles : database_roles (env_auth srv) username = Ret (r0 :: rs))
  (Htime : (m_now (env_moment srv) / Second <= (t0 + validity) / Second)%Z)
  (Hflag : jwtToken fl = AccessToken tok) (Htok : AccessToken tok <> "")
  (Hname : headers env !! "username" = None) (Hsole : headers env !! "access_token" = None)
  (Hmd : forall k, headers env !! k <> Some [])
  (Hdial : dial env = Ret tt) (Hmodule : module fl = "Sonic") (Haction : actions !! rpc_name fl = Some (banner, uri, t)) :
  exists s' o, main srv env fl s = (s', o) /\
    calls (g_translib (remote s')) = calls (g_translib (remote s)) ++
      [ActionReq uri (request_json env t (args fl))
         {| o_User := username; o_Roles := r0 :: rs; o_AuthEnabled := true; o_ClientVersion := None |}] /\
    match o with
    | Ret _ => exists line, printed s' = printed s ++ [banner; line]
    | Fail _ => False
    | Panic _ => printed s' = printed s ++ [banner]
    end.
Proof.
  rewrite (main_action _ _ _ _ _ _ Hdial Hmodule Haction). unfold run_action.
  destruct (call_metadata env fl _ Hflag Htok Hsole Hname Hmd) as (Hwf & Hu & Ht).
  destruct (login_claims _ _ _ _ _ _ _ _ Hlogin Hroles) as (Hj & _ & ->).
  set (c := {| c_Username := username; c_Roles := r0 :: rs; ExpiresAt := (t0 + validity) / Second |}).
  pose proof (Hlaw c Htime) as Hp.
  assert (may_call srv (call_ctx env fl)) as Hmay.
  { intros _. exists "jwt", username, (r0 :: rs). split_and!; [set_solver|done|].
    change username with (c_Username c). by eapply by_token. }
  assert (Any (UserAuth srv) = true) as Hany.
  { by eapply Enabled_Any. }
  pose proof (authenticated_outcome srv (call_ctx env fl) (remote s) Hw Hwf) as Ho.
  destruct (authenticated srv (call_ctx env fl) (remote s)) as [g0 [ctx'|e|p]] eqn:Ea; [|by destruct Ho as (_ & _ & ?)|done].
  destruct Ho as (_ & Hcalls & rc & Hrc & Hen & Hb & Has).
  destruct (token_identity _ _ _ _ _ _ Hj Hu Ht Hp ltac:(done) (Has Hany)) as [Hus Hro].
  destruct (action_once srv uri (request_json env t (args fl)) _ _ _ _ _ Ea Hrc Hb) as (g1 & r & E & Hc).
  destruct (run_call_outcome banner _ (response_json env t) s g1 r E) as (s' & o & -> & Hr & Hout).
  exists s', o. split; [done|]. split.
  - rewrite Hr, Hc, Hcalls. unfold origin_of. by rewrite Hus, Hro, Hen, Hany.
  - destruct o; [|done..]. destruct Hout as (? & line & _ & _ & Hpr). by exists line.
Qed.

(** ** Witness *)

Definition token_server : server string := {|
  READ_WRITE_MODE := true; UserAuth := sample_modes; env_auth := token_world (3000 * Second);
  env_translib := sample_translib; env_db := single_conf; env_redis := sample_clients;
  env_moment := sample_moment (3000 * Second); clientTrie := NewTrie;
  supported_versions := ""; action_response := fun _ => Ret tt |}.

Definition sample_env : client_env := {|
  dial := Ret tt; headers := {["content-type" := ["application/grpc"]]}; own_peer := peer sample_ctx;
  request_json := fun _ a => a; authenticate_args := fun a => (a, "");
  time_json := fun z => Ret (pretty z); response_json := fun _ a => Ret a;
  token_json := fun tok => Ret (AccessToken tok); JwtRefreshInt := 900 * Second; JwtValidInt := 3600 * Second |}.

(** admin logged in at time 0; fifty minutes later he installs an image, over
    a connection with the certificate of somebody else. *)
Lemma token_acts_witness :
  let tok := tokenResp (token_world (3000 * Second)) (3600 * Second) 0 "admin" ["sudo"; "1000"] in
  let fl := {| module := "Sonic"; rpc_name := "imageInstall"; args := "{}"; jwtToken := AccessToken tok |} in
  exists s' o, main (H := default_order) token_server sample_env fl {| remote := sample_gstate; printed := [] |} = (s', o) /\
    calls (g_translib (remote s')) = [ActionReq "/sonic-image-management:image-install" "{}"
      {| o_User := "admin"; o_Roles := ["sudo"; "1000"]; o_AuthEnabled := true; o_ClientVersion := None |}].
Proof.
  intros tok fl.
  assert (total_world (token_world (3000 * Second))) as Hw.
  { destruct sample_world_total as [H1 H2 H3 _]. split; [exact H1|exact H2|exact H3|].
    intros x p. simpl. repeat case_match; discriminate. }
  destruct (token_acts (H := default_order) token_server sample_env fl {| remote := sample_gstate; printed := [] |}
    "Sonic ImageInstall" "/sonic-image-management:image-install" ImageInstallRequest (3600 * Second) 0 "admin" "secret" tok
    "sudo" ["1000"] Hw (token_world_law _) eq_refl eq_refl ltac:(by vm_compute) eq_refl ltac:(by vm_compute) eq_refl eq_refl
    ltac:(intros k; simpl; rewrite lookup_singleton; case_decide; discriminate) eq_refl eq_refl eq_refl)
    as (s' & o & E & Hc & _).
  exists s', o. split; [exact E|exact Hc].
Defined.
