(* ===== verification/ClientSubscribe.v ===== *)
(** * Subscribe sessions: [gnmi_server/client_subscribe.go] and [Subscribe]
    of [gnmi_server/server.go]

    A session is run by three goroutines: [Run] itself, which sends what is on
    the queue and at the end closes the client and waits; [recv], which reads
    the stream; and the routine of the data client.  They take steps in any
    order, as does another [Subscribe] that closes the client, so a session is
    a state with [session_event]: what an event does, or [None] when the
    goroutine it belongs to is blocked.  [Close] holds the mutex of the client
    and is one step.

    The data routine is an interface: a type of states with the next action of
    each ([Routine]).  [Settles] is what a session relies on, and the routines
    of the data clients are shown to keep it, or not to. *)

From stdpp Require Import base tactics list fin_maps gmap strings pretty.
From Stdlib Require Import ZArith Ascii Lia.
From S2P Require Import Prelude GoStrings Messages DbConfig RedisDb Trie VirtualDb DbClient StatsRing NonDb DbStream.
From S2P Require Import Auth TranslUtils TranslClient TranslSet Server.

Local Open Scope string_scope.
Local Open Scope list_scope.

(** ** The routine of a data client *)

Inductive daction (D : Type) :=
  | Put (v : Value) (k : bool -> D)      (* [q.Put]; whether it was accepted *)
  | Receive (k : bool -> D)              (* [_, more := <-c.channel] *)
  | CloseChan (k : D)                    (* [close(c.channel)] *)
  | Return (done : bool).                (* ... after [w.Done], or without it *)
Arguments Put {D} v k.
Arguments Receive {D} k.
Arguments CloseChan {D} k.
Arguments Return {D} done.

Class Routine (D : Type) := act : D -> daction D.

(** ** The state of a session *)

Inductive runner_state :=
  | Sending                              (* in [c.send] *)
  | RunClosing (err : error)             (* [c.send] returned *)
  | RunWaiting (err : error)             (* in [c.w.Wait] *)
  | RunReturned (err : error).

Inductive receiver_state :=
  | Receiving                            (* in [stream.Recv] *)
  | AwaitingDone                         (* [<-stream.Context().Done()] *)
  | Polling                              (* [c.polled <- struct{}{}] *)
  | RecvClosing                          (* the deferred [Close] *)
  | RecvReturned.

Record session {D : Type} := {
  mode : SubscriptionListMode;
  items : list Value;                    (* the queue; [pick] chooses *)
  disposed : bool;
  tokens : nat;                          (* in the channel, whose capacity is 1 *)
  closed : bool;
  wg : nat;                              (* the counter of [c.w] *)
  runner : runner_state;
  receiver : receiver_state;
  data : option D;                       (* None: the goroutine has ended *)
  responses : list SubscribeResponse;    (* what [stream.Send] was given *)
  sendMsg : nat; recvMsg : nat; errors : nat;
}.
Arguments session : clear implicits.

Inductive event :=
  | SendItem (i : nat) (ok : bool)       (* item [i] is sent; whether [stream.Send] succeeds *)
  | SendDisposed                         (* [q.Get] fails: the queue was disposed *)
  | RunClose
  | RunWait                              (* [c.w.Wait] returns *)
  | RecvError
  | RecvEOF
  | RecvPoll
  | RecvOther
  | CtxDone
  | PutPoll                              (* the token goes in the channel *)
  | RecvClose
  | DataStep
  | ServerClose.                         (* the server closes a duplicate client *)

Definition SendOnClosedChannel : panic := PanicErr "send on closed channel".
Definition NegativeWaitGroup : panic := PanicErr "sync: negative WaitGroup counter".
Definition ErrDisposed : error := Err "queue: disposed".

Section Session.
Context {D : Type} `{Routine D}.
Abbreviation session := (session D).

Definition with_runner (r : runner_state) (s : session) : session := {|
  mode := mode s; items := items s; disposed := disposed s; tokens := tokens s; closed := closed s;
  wg := wg s; runner := r; receiver := receiver s; data := data s; responses := responses s;
  sendMsg := sendMsg s; recvMsg := recvMsg s; errors := errors s |}.

Definition with_receiver (r : receiver_state) (received : nat) (s : session) : session := {|
  mode := mode s; items := items s; disposed := disposed s; tokens := tokens s; closed := closed s;
  wg := wg s; runner := runner s; receiver := r; data := data s; responses := responses s;
  sendMsg := sendMsg s; recvMsg := recvMsg s + received; errors := errors s |}.

Definition with_data (d : option D) (s : session) : session := {|
  mode := mode s; items := items s; disposed := disposed s; tokens := tokens s; closed := closed s;
  wg := wg s; runner := runner s; receiver := receiver s; data := d; responses := responses s;
  sendMsg := sendMsg s; recvMsg := recvMsg s; errors := errors s |}.

Definition with_tokens (n : nat) (s : session) : session := {|
  mode := mode s; items := items s; disposed := disposed s; tokens := n; closed := closed s;
  wg := wg s; runner := runner s; receiver := receiver s; data := data s; responses := responses s;
  sendMsg := sendMsg s; recvMsg := recvMsg s; errors := errors s |}.

Definition with_closing (q_disposed chan_closed : bool) (s : session) : session := {|
  mode := mode s; items := items s; disposed := q_disposed; tokens := tokens s; closed := chan_closed;
  wg := wg s; runner := runner s; receiver := receiver s; data := data s; responses := responses s;
  sendMsg := sendMsg s; recvMsg := recvMsg s; errors := errors s |}.

Definition with_wg (n : nat) (s : session) : session := {|
  mode := mode s; items := items s; disposed := disposed s; tokens := tokens s; closed := closed s;
  wg := n; runner := runner s; receiver := receiver s; data := data s; responses := responses s;
  sendMsg := sendMsg s; recvMsg := recvMsg s; errors := errors s |}.

Definition with_item (v : Value) (s : session) : session := {|
  mode := mode s; items := items s ++ [v]; disposed := disposed s; tokens := tokens s; closed := closed s;
  wg := wg s; runner := runner s; receiver := receiver s; data := data s; responses := responses s;
  sendMsg := sendMsg s; recvMsg := recvMsg s; errors := errors s |}.

Definition with_errors (n : nat) (s : session) : session := {|
  mode := mode s; items := items s; disposed := disposed s; tokens := tokens s; closed := closed s;
  wg := wg s; runner := runner s; receiver := receiver s; data := data s; responses := responses s;
  sendMsg := sendMsg s; recvMsg := recvMsg s; errors := n |}.

(** [Close]. *)
Definition Close (s : session) : res session :=
  if disposed s then Ret s
  else if closed s then Panic CloseOfClosedChannel
  else Ret (with_closing true true s).

(** The item the priority queue may hand out: none is before it. *)
Definition pick (i : nat) (l : list Value) : option (Value * list Value) :=
  match l !! i with
  | Some v => if decide (Forall (fun v' => Compare v v' <= 0)%Z l) then Some (v, delete i l) else None
  | None => None
  end.

(** One turn of [send]. *)
Definition send_item (v : Value) (rest : list Value) (ok : bool) (s : session) : session :=
  let out resp n_sent n_errors r := {|
    mode := mode s; items := rest; disposed := disposed s; tokens := tokens s; closed := closed s;
    wg := wg s; runner := r; receiver := receiver s; data := data s; responses := responses s ++ resp;
    sendMsg := sendMsg s + n_sent; recvMsg := recvMsg s; errors := errors s + n_errors |} in
  match ValToResp v with
  | Ret resp =>
      if ok then out [resp] 1 0 Sending
      else out [resp] 1 1 (RunClosing (Err "stream error"))
  | Fail e => out [] 0 1 (RunClosing e)
  | Panic p => out [] 0 1 (RunClosing (Err ""))
  end.

(** What the data goroutine does next. *)
Definition data_step (s : session) : option (res session) :=
  match data s with
  | None => None
  | Some d =>
      match act d with
      | Put v k => if disposed s then Some (Ret (with_data (Some (k false)) s))
                   else Some (Ret (with_item v (with_data (Some (k true)) s)))
      | Receive k =>
          match tokens s with
          | S n => Some (Ret (with_tokens n (with_data (Some (k true)) s)))
          | O => if closed s then Some (Ret (with_data (Some (k false)) s)) else None
          end
      | CloseChan k =>
          if closed s then Some (Panic CloseOfClosedChannel)
          else Some (Ret (with_closing (disposed s) true (with_data (Some k) s)))
      | Return false => Some (Ret (with_data None s))
      | Return true => match wg s with
                       | O => Some (Panic NegativeWaitGroup)
                       | S n => Some (Ret (with_wg n (with_data None s)))
                       end
      end
  end.

(** What [Run] returns: always an error, always of this code. *)
Definition run_error (e : error) : error := StatusErr InvalidArgument (err_text e).

Definition session_event (e : event) (s : session) : option (res session) :=
  match e, runner s, receiver s with
  | SendItem i ok, Sending, _ =>
      if disposed s then None
      else '(v, rest) ← pick i (items s); Some (Ret (send_item v rest ok s))
  | SendDisposed, Sending, _ =>
      if disposed s then Some (Ret (with_runner (RunClosing ErrDisposed) s)) else None
  | RunClose, RunClosing e, _ => Some (s ← Close s; Ret (with_runner (RunWaiting e) s))
  | RunWait, RunWaiting e, _ =>
      match wg s with O => Some (Ret (with_errors (S (errors s)) (with_runner (RunReturned (run_error e)) s))) | S _ => None end
  | RecvError, _, Receiving => Some (Ret (with_receiver RecvClosing 1 s))
  | RecvEOF, _, Receiving =>
      Some (Ret (with_receiver (if decide (mode s = STREAM) then AwaitingDone else RecvClosing) 1 s))
  | RecvPoll, _, Receiving =>
      Some (Ret (with_receiver (if decide (mode s = POLL) then Polling else Receiving) 1 s))
  | RecvOther, _, Receiving =>
      Some (Ret (with_receiver (if decide (mode s = POLL) then RecvClosing else Receiving) 1 s))
  | CtxDone, _, AwaitingDone => Some (Ret (with_receiver RecvClosing 0 s))
  | PutPoll, _, Polling =>
      if closed s then Some (Panic SendOnClosedChannel)
      else match tokens s with
           | O => Some (Ret (with_receiver Receiving 0 (with_tokens 1 s)))
           | S _ => None
           end
  | RecvClose, _, RecvClosing => Some (s ← Close s; Ret (with_receiver RecvReturned 0 s))
  | DataStep, _, _ => data_step s
  | ServerClose, _, _ => Some (Close s)
  | _, _, _ => None
  end.

(** A run; events that are not enabled do not happen. *)
Fixpoint run_session (es : list event) (s : session) : option (res session) :=
  match es with
  | [] => Some (Ret s)
  | e :: es =>
      r ← session_event e s;
      match r with Ret s => run_session es s | _ => Some r end
  end.

(** The session [Run] starts, once the data client is there, of a client that
    nobody has closed: the queue is in use, the channel is made.  [Subscribe]
    registers the client before [Run] makes the channel, so that another
    [Subscribe] may close it first: such a session starts as [start_disposed]
    below. *)
Definition start_session (m : SubscriptionListMode) (d : D) : session := {|
  mode := m; items := []; disposed := false; tokens := match m with STREAM => 0 | _ => 1 end; closed := false;
  wg := 1; runner := Sending; receiver := Receiving; data := Some d; responses := [];
  sendMsg := 0; recvMsg := 1; errors := 0 |}.
End Session.

(** ** The start of a session: [Run] up to the data routine, and [Subscribe] *)

(** What the first [stream.Recv] gives; [shown] is the message as the log
    package formats it. *)
Inductive first_message :=
  | FirstEOF
  | FirstError (e : error)
  | FirstMsg (subscribe : option SubscriptionList) (exts : list Extension) (shown : string).

(** [grpc.Code]. *)
Definition code_of (e : error) : code := match e with StatusErr c _ => c | Err _ => Unknown end.

(** [populateDbPathSubscrition]. *)
Definition populateDbPathSubscrition (sublist : SubscriptionList) : res (list PathPtr) :=
  match sl_Subscription sublist with
  | [] => Fail (Err "No Subscription")
  | subscriptions => Ret (s_Path <$> subscriptions)
  end.

Section Start.
Context `{RangeOrder} {Version : Type} (srv : server Version).
Abbreviation M := (SE (gstate Version)).

Definition refuse_stream {A} (c : code) (msg : string) : M A := lift (Fail (StatusErr c msg)).

(** [Run] until the data routine is started: [ctx] is the context of the
    stream. *)
Definition Run_start (ctx : Ctx) (first : first_message) : M (data_client * SubscriptionList) :=
  match first with
  | FirstEOF => refuse_stream Aborted "stream EOF received before init"
  | FirstError e => refuse_stream (code_of e) "received error from client"
  | FirstMsg None _ shown =>
      refuse_stream InvalidArgument (Sprintf "first message must be SubscriptionList: %q" [shown])
  | FirstMsg (Some subscribe) exts shown =>
      match sl_Prefix subscribe with
      | None => refuse_stream Unimplemented "No target specified in prefix"
      | Some p =>
          if decide (Target p = "") then refuse_stream Unimplemented "Empty target data not supported yet"
          else match populateDbPathSubscrition subscribe with
               | Ret paths =>
                   dc ← with_status NotFound (new_data_client srv (Target p) paths (Some p) ctx exts);
                   match sl_Mode subscribe with
                   | STREAM | POLL | ONCE => mret (dc, subscribe)
                   | UnknownListMode _ =>
                       refuse_stream InvalidArgument (Sprintf "Unkown subscription mode: %q" [shown])
                   end
               | Fail e =>
                   refuse_stream NotFound (Sprintf "Invalid subscription path: %v %q" [err_text e; shown])
               | Panic pn => lift (Panic pn)
               end
      end
  end.

(** The clients of the server, by address: registering closes and replaces
    an older client; the end of a session removes what is there. *)
Definition register {C} (addr : string) (c : C) (clients : gmap string C) : option C * gmap string C :=
  (clients !! addr, <[addr := c]> clients).

Definition unregister {C} (addr : string) (clients : gmap string C) : gmap string C := delete addr clients.

(** [Subscribe] until the session runs: the address of the client, and what
    [Run] starts.  The context of the stream, not the authenticated one, goes
    to [Run]. *)
Definition Subscribe (stream_ctx : Ctx) (first : first_message) : M (string * data_client * SubscriptionList) :=
  ctx ← authenticated srv stream_ctx;
  match peer ctx with
  | None => refuse_stream InvalidArgument "failed to get peer from ctx"
  | Some pr =>
      match p_Addr pr with
      | None => refuse_stream InvalidArgument "failed to get peer address"
      | Some addr => '(dc, subscribe) ← Run_start stream_ctx first; mret (addr, dc, subscribe)
      end
  end.

End Start.

(** ** What a session relies on *)

(** A data routine that, once the queue is disposed and the channel closed
    with [n] tokens left in it, returns within [work n d] steps; that never
    closes the channel itself; and that calls [w.Done]. *)
Class Settles (D : Type) `{Routine D} := {
  work : nat -> D -> nat;
  settles n d : match act d with
    | Put _ k => work n (k false) < work n d
    | Receive k => match n with
                   | O => work 0 (k false) < work 0 d
                   | S n => work n (k true) < work (S n) d
                   end
    | CloseChan _ => False
    | Return done => done = true
    end;
}.

(** ** Safety *)

Section Safety.
Context {D : Type} `{Settles D}.
Implicit Types s : session D.

(** [Run] waits only after closing, and returns only after the data routine. *)
Definition runner_ok (r : runner_state) (q_disposed : bool) (d : option D) : Prop :=
  match r with
  | Sending | RunClosing _ => True
  | RunWaiting _ => q_disposed = true
  | RunReturned _ => q_disposed = true /\ d = None
  end.

Definition session_wf s : Prop :=
  closed s = disposed s /\ tokens s <= 1 /\ wg s = match data s with Some _ => 1 | None => 0 end /\
  runner_ok (runner s) (disposed s) (data s) /\
  match receiver s with
  | Polling => mode s = POLL
  | RecvReturned => disposed s = true
  | _ => True
  end.

Definition allowed (m : SubscriptionListMode) (r : res (session D)) : Prop :=
  match r with
  | Ret s => session_wf s /\ mode s = m
  | Fail _ => False
  | Panic p => p = SendOnClosedChannel /\ m = POLL
  end.

Lemma Close_wf s : session_wf s -> exists s', Close s = Ret s' /\
  session_wf s' /\ disposed s' = true /\ mode s' = mode s /\ runner s' = runner s /\
  receiver s' = receiver s /\ data s' = data s /\ tokens s' = tokens s.
Proof.
  intros Hs. pose proof Hs as (Hc & Ht & Hw & Hr & Hv). unfold Close. destruct (disposed s) eqn:E.
  - by exists s.
  - rewrite Hc. eexists. split; [done|]. unfold session_wf. simpl. split_and!; try done.
    + destruct (runner s); naive_solver.
    + destruct (receiver s); naive_solver.
Qed.

Lemma runner_running r b0 b (d : D) x :
  (b0 = true -> b = true) -> runner_ok r b0 (Some d) -> runner_ok r b x.
Proof. intros Hb. destruct r; simpl; auto. by intros []. Qed.

Lemma data_step_wf s r : session_wf s -> data_step s = Some r -> allowed (mode s) r.
Proof.
  intros (Hc & Ht & Hw & Hr & Hv). unfold data_step. destruct (data s) as [d|] eqn:Ed; [|done].
  pose proof (settles (tokens s) d) as Hd. destruct (act d) as [v k|k|k|[]]; try done.
  - destruct (disposed s) eqn:E; intros [= <-]; (split; [|done]); unfold session_wf; simpl; rewrite ?E;
      (split_and!; try done); by eapply runner_running.
  - destruct (tokens s) as [|n] eqn:En; [destruct (closed s) eqn:E; [|done]|]; intros [= <-];
      (split; [|done]); unfold session_wf; simpl; (split_and!; try done; try lia);
      try congruence; try (by eapply runner_running).
  - rewrite Hw. intros [= <-]. split; [|done]. unfold session_wf. simpl.
    split_and!; try done. by eapply runner_running.
Qed.

Lemma session_event_wf e s r : session_wf s -> session_event e s = Some r -> allowed (mode s) r.
Proof.
  intros Hs. destruct (Close_wf s Hs) as (sc & Ec & Hsc & Hdc & Hmc & Hrc & Hvc & Hdac & _).
  pose proof Hs as (Hc & Ht & Hw & Hr & Hv).
  destruct e; simpl; [| | | | | | | | | | | apply (data_step_wf _ _ Hs)|].
  - destruct (runner s) eqn:Er; try done. destruct (disposed s) eqn:E; [done|].
    destruct (pick i (items s)) as [[v rest]|]; [|done]. simpl. intros [= <-]. unfold send_item.
    destruct (ValToResp v) as [resp|err|p], ok; simpl; (split; [|done]); unfold session_wf; simpl; rewrite ?E; by split_and!.
  - destruct (runner s) eqn:Er; try done. destruct (disposed s) eqn:E; [|done]. intros [= <-].
    split; [|done]. unfold session_wf. simpl. by rewrite E.
  - destruct (runner s) eqn:Er; try done. rewrite Ec. intros [= <-]. split; [|done].
    destruct Hsc as (? & ? & ? & ? & ?). unfold session_wf. simpl. by split_and!.
  - destruct (runner s) eqn:Er; try done. destruct (wg s) eqn:E; [|done]. intros [= <-]. split; [|done].
    unfold session_wf. simpl. rewrite E. split_and!; try done. by destruct (data s).
  - destruct (receiver s) eqn:Er; try done. intros [= <-]. split; [|done]. unfold session_wf. simpl. by split_and!.
  - destruct (receiver s) eqn:Er; try done. intros [= <-]. split; [|done]. unfold session_wf. simpl.
    split_and!; try done. by case_decide.
  - destruct (receiver s) eqn:Er; try done. intros [= <-]. split; [|done]. unfold session_wf. simpl.
    split_and!; try done. by case_decide.
  - destruct (receiver s) eqn:Er; try done. intros [= <-]. split; [|done]. unfold session_wf. simpl.
    split_and!; try done. by case_decide.
  - destruct (receiver s) eqn:Er; try done. intros [= <-]. split; [|done]. unfold session_wf. simpl. by split_and!.
  - destruct (receiver s) eqn:Er; try done. destruct (closed s) eqn:E; [by intros [= <-]|].
    destruct (tokens s); [|done]. intros [= <-]. split; [|done]. unfold session_wf. simpl. rewrite E. split_and!; done || lia.
  - destruct (receiver s) eqn:Er; try done. rewrite Ec. intros [= <-]. split; [|done].
    destruct Hsc as (? & ? & ? & ? & ?). unfold session_wf. simpl. by split_and!.
  - rewrite Ec. by intros [= <-].
Qed.

Lemma run_session_wf es s r : session_wf s -> run_session es s = Some r -> allowed (mode s) r.
Proof.
  revert s. induction es as [|e es IH]; intros s Hs; simpl; [by intros [= <-]|].
  destruct (session_event e s) as [r0|] eqn:E; [|done]. simpl.
  pose proof (session_event_wf _ _ _ Hs E) as Ha. destruct r0 as [s0|e0|p0]; [|done|by intros [= <-]].
  destruct Ha as [Hs0 <-]. by apply IH.
Qed.

Lemma start_session_wf m (d : D) : session_wf (start_session m d).
Proof. unfold session_wf. simpl. split_and!; try done. destruct m; lia. Qed.
End Safety.

(** C9. Safety of a session, for every order of the steps of its goroutines,
    of its client and of the server, and every data routine that keeps the
    contract [Settles] (a stream of the translib client, which closes the
    channel itself, does not), from a start at which nobody had closed the
    client yet ([start_session]): the channel is closed exactly when the queue is disposed, hence
    once; it holds at most one token; the wait group counts the data routine
    and never goes below zero; [Run] waits only after it closed, and returns
    only after the data routine did.  A single panic is possible: while a
    polled session is closed, [recv] may be putting a token in the channel. *)
Theorem session_safe {D : Type} `{Settles D} (m : SubscriptionListMode) (d : D) (es : list event)
    (r : res (session D)) (Hr : run_session es (start_session m d) = Some r) :
  match r with
  | Ret s => session_wf s
  | Fail _ => False
  | Panic p => p = SendOnClosedChannel /\ m = POLL
  end.
Proof.
  pose proof (run_session_wf _ _ _ (start_session_wf m d) Hr) as Ha. destruct r; [apply Ha|done..].
Qed.

(** ** Termination *)

(** The steps of [Run] and of the data routine; the others are those of the
    client and of [recv]. *)
Definition own (e : event) : bool :=
  match e with SendItem _ _ | SendDisposed | RunClose | RunWait | DataStep => true | _ => false end.

Definition own_steps (es : list event) : nat := length (filter (fun e => own e = true) es).

Section Termination.
Context {D : Type} `{Settles D}.
Implicit Types s : session D.

(** What is left to do once the session is closed. *)
Definition remaining s : nat :=
  match runner s with Sending => 3 | RunClosing _ => 2 | RunWaiting _ => 1 | RunReturned _ => 0 end +
  match data s with Some d => S (work (tokens s) d) | None => 0 end.

Lemma data_step_remaining s s' :
  session_wf s -> disposed s = true -> data_step s = Some (Ret s') ->
  disposed s' = true /\ remaining s' < remaining s.
Proof.
  intros (Hc & Ht & Hw & _) Hd. unfold data_step, remaining. destruct (data s) as [d|]; [|done].
  pose proof (settles (tokens s) d) as Hs. destruct (act d) as [v k|k|k|[]]; try done.
  - rewrite Hd. intros [= <-]. simpl. split; [done|lia].
  - destruct (tokens s) as [|n] eqn:En; [destruct (closed s); [|done]|]; intros [= <-]; simpl;
      rewrite ?En; (split; [done|lia]).
  - rewrite Hw. intros [= <-]. simpl. split; [done|lia].
Qed.

Lemma Close_closed s : disposed s = true -> Close s = Ret s.
Proof. intros Hd. unfold Close. by rewrite Hd. Qed.

Lemma event_remaining e s s' :
  session_wf s -> disposed s = true -> session_event e s = Some (Ret s') ->
  disposed s' = true /\ if own e then remaining s' < remaining s else remaining s' = remaining s.
Proof.
  intros Hs Hd. pose proof Hs as (Hc & _).
  destruct e; simpl; [| | | | | | | | | | | apply (data_step_remaining _ _ Hs Hd)|]; unfold remaining;
    rewrite ?(Close_closed _ Hd).
  - destruct (runner s); try done. by rewrite Hd.
  - destruct (runner s); try done. rewrite Hd. intros [= <-]. simpl. split; [done|lia].
  - destruct (runner s); try done. intros [= <-]. simpl. split; [done|lia].
  - destruct (runner s); try done. destruct (wg s); [|done]. intros [= <-]. simpl. split; [done|lia].
  - destruct (receiver s); try done. by intros [= <-].
  - destruct (receiver s); try done. by intros [= <-].
  - destruct (receiver s); try done. by intros [= <-].
  - destruct (receiver s); try done. by intros [= <-].
  - destruct (receiver s); try done. by intros [= <-].
  - destruct (receiver s); try done. by rewrite Hc, Hd.
  - destruct (receiver s); try done. by intros [= <-].
  - by intros [= <-].
Qed.

(** Unless [Run] returned, some step of its own is possible. *)
Lemma closed_progress s :
  session_wf s -> disposed s = true ->
  (exists err, runner s = RunReturned err) \/ (exists e r, own e = true /\ session_event e s = Some r).
Proof.
  intros (Hc & Ht & Hw & Hr & Hv) Hd. destruct (runner s) as [|err|err|err] eqn:Er; [right..|eauto].
  - exists SendDisposed. simpl. rewrite Er, Hd. eauto.
  - exists RunClose. simpl. rewrite Er. eauto.
  - destruct (data s) as [d|] eqn:Ed.
    + exists DataStep. simpl. unfold data_step. rewrite Ed.
      pose proof (settles (tokens s) d) as Hs. destruct (act d) as [v k|k|k|[]]; try done; rewrite ?Hd, ?Hw; eauto.
      destruct (tokens s); [|eauto]. rewrite Hc, Hd. eauto.
    + exists RunWait. simpl. rewrite Er, Hw. eauto.
Qed.

Lemma run_remaining es s s' :
  session_wf s -> disposed s = true -> run_session es s = Some (Ret s') ->
  session_wf s' /\ disposed s' = true /\ own_steps es + remaining s' <= remaining s.
Proof.
  revert s. induction es as [|e es IH]; intros s Hs Hd; simpl; [by intros [= <-]|].
  destruct (session_event e s) as [[s0|?|?]|] eqn:E; simpl; [|done..]. intros Hr.
  destruct (event_remaining _ _ _ Hs Hd E) as [Hd0 Hm].
  destruct (session_event_wf _ _ _ Hs E) as [Hs0 _].
  destruct (IH _ Hs0 Hd0 Hr) as (? & ? & Hl). split_and!; [done..|].
  unfold own_steps in *. rewrite filter_cons. destruct (own e); case_decide; simpl; (done || lia).
Qed.
End Termination.

(** C3. A session that was closed ends, provided its data routine keeps the
    contract [Settles] (once the channel is closed it returns within [work]
    steps of its own, after [w.Done], and it never closes the channel itself)
    and the session started as [start_session] says: nobody had closed the
    client before [Run] made its channel.  Then, from the closing on, [Run] and
    the data routine take at most [remaining] steps, whatever the client,
    [recv] and the server do in between; and when they can take no more, the
    data routine has ended and [Run] has returned, with the code
    InvalidArgument.

    The contract is proved ([poll_settles]) for [PollRun] of all three clients,
    [OnceRun] of the translib client and [StreamRun] of the non-DB client (no
    one waits for its sampling goroutines), as routines of [poll_state].  It
    does not hold of [OnceRun] of the other two, whose sessions never end
    ([once_never_returns]), nor of [StreamRun] of the translib client, which
    closes the channel itself and may wait for ever for a sync; and a session whose
    client was closed before the channel was made need not end
    ([start_disposed_stuck]).  The streams of the database client are
    modelled by what they do ([DbStream]), not as a routine here. *)
Theorem session_terminates {D : Type} `{Settles D} (m : SubscriptionListMode) (d : D) (es es' : list event)
    (s s' : session D)
  (Hs : run_session es (start_session m d) = Some (Ret s)) (Hd : disposed s = true)
  (Hs' : run_session es' s = Some (Ret s')) :
  own_steps es' <= remaining s /\
  ((forall e, own e = true -> session_event e s' = None) ->
   data s' = None /\ exists err, runner s' = RunReturned err).
Proof.
  pose proof (run_session_wf _ _ _ (start_session_wf m d) Hs) as [Hwf _].
  destruct (run_remaining _ _ _ Hwf Hd Hs') as (Hwf' & Hd' & Hl). split; [lia|]. intros Hn.
  destruct (closed_progress _ Hwf' Hd') as [[err Hr]|(e & r & He & E)]; [|by rewrite (Hn e He) in E].
  split; [|eauto]. destruct Hwf' as (_ & _ & _ & Hro & _). rewrite Hr in Hro. apply Hro.
Qed.

(** ** The routines of the data clients *)

(** [PollRun] of the three clients: values to put, then whether the loop goes
    on, with the [n]-th answer next.  [OnceRun] of [TranslClient] has one
    answer; [StreamRun] of [NonDbClient] starts with values and receives
    nothing but the closing.  None looks at what [q.Put] returns. *)
Record poll_state := { pending : list Value; more : bool; round : nat }.

Section Poll.
Context (answer : nat -> list Value * bool).

Definition poll_act (d : poll_state) : daction poll_state :=
  match pending d with
  | v :: vs => Put v (fun _ => {| pending := vs; more := more d; round := round d |})
  | [] =>
      if more d
      then Receive (fun m =>
             if m then {| pending := (answer (round d)).1; more := (answer (round d)).2; round := S (round d) |}
             else {| pending := []; more := false; round := round d |})
      else Return true
  end.

#[export] Instance poll_routine : Routine poll_state := poll_act.

Fixpoint poll_work (n : nat) (d : poll_state) : nat :=
  length (pending d) +
  if more d
  then S (match n with
          | O => 0
          | S n => poll_work n {| pending := (answer (round d)).1; more := (answer (round d)).2;
                                  round := S (round d) |}
          end)
  else 0.

#[export] Instance poll_settles : Settles poll_state.
Proof.
  refine {| work := poll_work |}. intros n [[|v vs] m r]; unfold act, poll_routine, poll_act; simpl.
  - destruct m; [|done]. destruct n; simpl; lia.
  - destruct n; simpl; lia.
Defined.
End Poll.

(** A routine on its own, with so many tokens and then the channel closed:
    what it puts, and whether it called [w.Done]. *)
Fixpoint drain {D} `{Routine D} (fuel n : nat) (d : D) : option (list Value * bool) :=
  match fuel with
  | O => None
  | S fuel =>
      match act d with
      | Put v k => '(vs, b) ← drain fuel n (k true); Some (v :: vs, b)
      | Receive k => match n with O => drain fuel 0 (k false) | S n => drain fuel n (k true) end
      | CloseChan k => drain fuel n k
      | Return done => Some ([], done)
      end
  end.

Section Poll_values.
Context `{RangeOrder} (c : DbClient) (answer : nat -> list Value * bool).
#[local] Existing Instance poll_routine.

Fixpoint poll_values (n r : nat) : list Value :=
  match n with
  | O => []
  | S n => (answer r).1 ++ if (answer r).2 then poll_values n (S r) else []
  end.

Lemma drain_poll fuel n (d : poll_state) :
  poll_work answer n d < fuel ->
  @drain _ (poll_routine answer) fuel n d =
    Some (pending d ++ if more d then poll_values n (round d) else [], true).
Proof.
  revert n d. induction fuel as [|fuel IH]; intros n [vs m r] Hf; [lia|].
  destruct vs as [|v vs]; simpl.
  - unfold act, poll_routine, poll_act. simpl. destruct m; [|done].
    destruct n as [|n]; simpl in Hf; rewrite IH by (simpl; lia); [done|]. done.
  - unfold act, poll_routine, poll_act. simpl. rewrite IH; [done|]. destruct n; simpl in *; lia.
Qed.

(** The routine is [PollRun] of the database client. *)
Lemma PollRun_values polls r :
  (forall i clock T, polls !! i = Some (clock, T) -> poll T c clock = Ret (answer (r + i))) ->
  DbClient.PollRun c polls = Ret (poll_values (length polls) r).
Proof.
  revert r. induction polls as [|[clock T] polls IH]; intros r Hp; [done|]. cbn [DbClient.PollRun length poll_values].
  rewrite (Hp 0 clock T eq_refl), Nat.add_0_r. destruct (answer r) as [vs m]. simpl. destruct m.
  - rewrite (IH (S r)); [done|]. intros i clock' T' Hi. rewrite (Hp (S i) _ _ Hi). f_equal. f_equal. lia.
  - by rewrite app_nil_r.
Qed.
End Poll_values.

(** [OnceRun] of [DbClient] and [NonDbClient]: it returns at once. *)
Definition once_routine : Routine unit := fun _ => Return false.

(** Its session never ends: [Run] waits for a [w.Done] nobody calls. *)
Section Once.
#[local] Existing Instance once_routine.

Definition waits_for_ever (s : session unit) : Prop := wg s = 1 /\ forall err, runner s <> RunReturned err.

Lemma Close_waits s s' : waits_for_ever s -> Close s = Ret s' -> waits_for_ever s' /\ runner s' = runner s.
Proof. intros Hs. unfold Close. repeat case_match; try done; intros [= <-]; done. Qed.

Lemma once_event e s s' : waits_for_ever s -> session_event e s = Some (Ret s') -> waits_for_ever s'.
Proof.
  intros Hs. pose proof Hs as [Hw Hn]. destruct e; simpl; [..|by intros [= [? _]%(Close_waits _ _ Hs)]].
  - destruct (runner s); try done. destruct (disposed s); [done|]. destruct (pick i (items s)) as [[v rest]|]; [|done].
    simpl. intros [= <-]. unfold send_item. by destruct (ValToResp v), ok.
  - destruct (runner s); try done. destruct (disposed s); [|done]. by intros [= <-].
  - destruct (runner s); try done. destruct (Close s) as [sc|?|?] eqn:E; [|done..]. simpl. intros [= <-].
    destruct (Close_waits _ _ Hs E) as [[? _] _]. done.
  - destruct (runner s); try done. by rewrite Hw.
  - destruct (receiver s); try done. by intros [= <-].
  - destruct (receiver s); try done. by intros [= <-].
  - destruct (receiver s); try done. by intros [= <-].
  - destruct (receiver s); try done. by intros [= <-].
  - destruct (receiver s); try done. by intros [= <-].
  - destruct (receiver s); try done. destruct (closed s); [done|]. destruct (tokens s); [|done]. by intros [= <-].
  - destruct (receiver s); try done. destruct (Close s) as [sc|?|?] eqn:E; [|done..]. simpl. intros [= <-].
    destruct (Close_waits _ _ Hs E) as [? _]. done.
  - unfold data_step. destruct (data s) as [d|]; [|done]. simpl. by intros [= <-].
Qed.

Lemma once_never_returns es s :
  run_session es (start_session ONCE tt) = Some (Ret s) -> forall err, runner s <> RunReturned err.
Proof.
  assert (waits_for_ever (start_session ONCE tt)) as Hs by done. revert Hs. generalize (start_session ONCE tt).
  induction es as [|e es IH]; intros s0 Hs; simpl; [intros [= <-]; apply Hs|].
  destruct (session_event e s0) as [[s1|?|?]|] eqn:E; simpl; [|done..]. intros Hr.
  eapply IH; [by eapply once_event|done].
Qed.
End Once.

(** A client can be closed before its session starts: it is registered before
    [Run] has read anything, and another [Subscribe] of the same connection
    closes it.  The queue is then disposed, while the channel is made later
    and never closed: no later [Close] gets past the disposed queue. *)
Definition start_disposed {D : Type} (m : SubscriptionListMode) (d : D) : session D :=
  with_closing true false (start_session m d).

Section Closed_early.
Context {D : Type} `{Routine D} (d : D) (k : bool -> D) (Hd : act d = Receive k).

Definition stuck (s : session D) : Prop :=
  mode s = STREAM /\ disposed s = true /\ closed s = false /\ tokens s = 0 /\ wg s = 1 /\ data s = Some d /\
  (forall err, runner s <> RunReturned err) /\ receiver s <> Polling.

Lemma stuck_event e s s' : stuck s -> session_event e s = Some (Ret s') -> stuck s'.
Proof.
  intros (Hm & Hq & Hc & Ht & Hw & Hda & Hr & Hv).
  assert (Close s = Ret s) as Ec by (unfold Close; by rewrite Hq).
  destruct e; simpl; rewrite ?Ec, ?Hq, ?Hw, ?Hm;
    try (destruct (runner s) eqn:Er; try done; intros [= <-]; by (repeat split));
    try (destruct (receiver s) eqn:Er; try done; intros [= <-]; by (repeat split)).
  - unfold data_step. by rewrite Hda, Hd, Ht, Hc.
  - intros [= <-]. by (repeat split).
Qed.

(** The session of such a client never ends: the data routine waits for the
    channel, and [Run] for the data routine. *)
Lemma start_disposed_stuck es s :
  run_session es (start_disposed STREAM d) = Some (Ret s) -> data s = Some d /\ forall err, runner s <> RunReturned err.
Proof.
  assert (stuck (start_disposed STREAM d)) as Hs by done. revert Hs. generalize (start_disposed STREAM d).
  induction es as [|e es IH]; intros s0 Hs; simpl; [intros [= <-]; split; apply Hs|].
  destruct (session_event e s0) as [[s1|?|?]|] eqn:E; simpl; [|done..]. intros Hr.
  eapply IH; [by eapply stuck_event|done].
Qed.
End Closed_early.

(** ** Who a session acts for *)

Lemma Run_start_own `{RangeOrder} {Version : Type} (srv : server Version) ctx first s s' dc sub :
  Run_start srv ctx first s = (s', Ret (dc, sub)) ->
  exists exts shown, first = FirstMsg (Some sub) exts shown /\ own_client ctx exts dc.
Proof.
  destruct first as [|e|[sub0|] exts shown]; simpl; try done.
  destruct (sl_Prefix sub0) as [p|]; [|done]. case_decide; [done|].
  destruct (populateDbPathSubscrition sub0) as [paths|e|pn]; [|done..].
  unfold with_status, catch, mbind, SE_bind.
  destruct (new_data_client_own srv (fun _ => True) (Target p) paths (Some p) ctx exts s) as [_ Ho].
  destruct (new_data_client _ _ _ _ _ _ s) as [s1 [c|e|pn]]; [|done..]. simpl in *.
  destruct (sl_Mode sub0); intros [= <- <- <-]; by exists exts, shown.
Qed.
(** The caller translib is told of in a subscription. *)
Definition nobody_at_all : AuthInfo := {| User := ""; AuthEnabled := false; Roles := [] |}.

(** C16. Subscribe lets in whom the other calls let in: without the credentials
    of a mode that is on it ends with Unauthenticated, and nothing is read
    from the stream.  But the session it starts is not the caller's: whatever
    the data client of the management framework does in it, translib is asked
    for nobody, without roles and with authentication off, even when
    authentication is on. *)
Theorem subscribe_identity `{RangeOrder} {Version : Type} (srv : server Version) (ctx : Ctx)
    (first : first_message) (s : gstate Version)
  (Hw : total_world (env_auth srv)) (Hmd : md_wf ctx) (Hnew : requestContext ctx = None) :
  (~ may_call srv ctx -> Subscribe srv ctx first s = (s, Fail unauthenticated)) /\
  match Subscribe srv ctx first s with
  | (_, Ret (_, dc, sub)) =>
      may_call srv ctx /\
      exists exts shown, first = FirstMsg (Some sub) exts shown /\
        match dc with
        | OfTransl c => forall op t, exists cs,
            calls (perform (env_translib srv) c op t).1 = calls t ++ cs /\
            Forall (on_behalf (env_translib srv) (nobody_at_all, getBundleVersion (env_translib srv) exts)) cs
        | _ => True
        end
  | _ => True
  end.
Proof.
  unfold Subscribe. pose proof (authenticated_outcome srv ctx s Hw Hmd) as Ho.
  destruct (authenticated srv ctx s) as [s1 [ctx'|e|p]] eqn:Ea; [| |done].
  2: { destruct Ho as (-> & -> & Hn). split; [intros _|]; unfold mbind, SE_bind; by rewrite Ea. }
  destruct Ho as [Hc _]. split; [by intros []|]. rewrite (SE_bind_Ret _ _ _ _ _ Ea).
  destruct (peer ctx') as [pr|]; [|done]. destruct (p_Addr pr) as [addr|]; [|done].
  unfold mbind, SE_bind. destruct (Run_start srv ctx first s1) as [s2 [[dc sub]|e|p]] eqn:Er; [|done..]. simpl.
  apply Run_start_own in Er as (exts & shown & -> & Hown). split; [done|]. exists exts, shown. split; [done|].
  destruct dc as [c|c|c]; [done..|]. intros op t. destruct Hown as [Hcx He].
  destruct (perform_asked (env_translib srv) c op t) as [(cs & Hcs & Hf) _]. exists cs. split; [done|].
  rewrite (client_caller_own srv c ctx exts Hcx He) in Hf by (unfold caller; by rewrite Hnew).
  unfold caller in Hf. by rewrite Hnew in Hf.
Qed.

(** ** Witnesses *)

(** A data routine that answers every poll with one value and a sync. *)
Definition sample_answer (n : nat) : list Value * bool :=
  ([DataValue (Some openconfig) (names_path 1 ["system"; "state"]) (Z.of_nat n) (JsonIetfVal "{}");
    SyncValue (Z.of_nat n)], true).

Definition poll_start : poll_state := {| pending := []; more := true; round := 0 |}.

#[local] Existing Instance poll_routine.
#[local] Existing Instance poll_settles.

(** The client polls twice before the first poll is answered, and goes away. *)
Lemma session_safe_witness :
  let _ := poll_routine sample_answer in
  exists s, run_session [DataStep; DataStep; RecvPoll; PutPoll; SendItem 0 true; RecvError; RecvClose]
      (start_session POLL poll_start) = Some (Ret s) /\ session_wf s /\
  run_session [RecvPoll; ServerClose; PutPoll] (start_session POLL poll_start) = Some (Panic SendOnClosedChannel) /\
  POLL = POLL.
Proof.
  intros R.
  destruct (run_session [DataStep; DataStep; RecvPoll; PutPoll; SendItem 0 true; RecvError; RecvClose]
      (start_session POLL poll_start)) as [[s|?|?]|] eqn:E.
  2-4: vm_compute in E; discriminate.
  assert (run_session [RecvPoll; ServerClose; PutPoll] (start_session POLL poll_start) =
    Some (Panic SendOnClosedChannel)) as E' by (vm_compute; reflexivity).
  exists s. split; [reflexivity|]. split.
  - apply (@session_safe poll_state (poll_routine sample_answer) (poll_settles sample_answer) POLL poll_start _ _ E).
  - split; [exact E'|].
    apply (@session_safe poll_state (poll_routine sample_answer) (poll_settles sample_answer) POLL poll_start _ _ E').
Defined.

(** The first value cannot be sent; the session ends in four more steps. *)
Lemma session_terminates_witness :
  let _ := poll_routine sample_answer in
  exists s s', run_session [DataStep; DataStep; SendItem 0 false; RunClose] (start_session POLL poll_start) = Some (Ret s) /\
    run_session [DataStep; DataStep; DataStep; RunWait] s = Some (Ret s') /\
    4 <= @remaining _ _ (poll_settles sample_answer) s /\
    data s' = None /\ exists err, runner s' = RunReturned err.
Proof.
  intros R.
  destruct (run_session [DataStep; DataStep; SendItem 0 false; RunClose] (start_session POLL poll_start))
    as [[s|?|?]|] eqn:E; [|vm_compute in E; discriminate..].
  destruct (run_session [DataStep; DataStep; DataStep; RunWait] s) as [[s'|?|?]|] eqn:E'.
  2-4: vm_compute in E; injection E as <-; vm_compute in E'; discriminate.
  assert (disposed s = true) as Hd by (vm_compute in E; injection E as <-; reflexivity).
  pose proof (@session_terminates poll_state (poll_routine sample_answer) (poll_settles sample_answer) POLL poll_start
    _ _ s s' E Hd E') as [Hl Hend].
  exists s, s'. split; [reflexivity|]. split; [exact E'|]. split; [exact Hl|].
  apply Hend. vm_compute in E. injection E as <-. vm_compute in E'. injection E' as <-.
  intros [i b| | | | | | | | | | | |]; try discriminate; reflexivity.
Defined.

Definition sample_first : first_message :=
  FirstMsg (Some {| sl_Prefix := Some openconfig; sl_Mode := POLL; sl_UpdatesOnly := false;
                    sl_Subscription := [sample_sub (names_path 1 ["system"; "state"]) TARGET_DEFINED 0] |})
    [] "".

(** The caller is [monitor], with authentication on; translib is not told. *)
Lemma subscribe_identity_witness :
  let _ := default_order in
  may_call sample_server sample_ctx /\
  Subscribe sample_server nobody sample_first sample_gstate = (sample_gstate, Fail unauthenticated).
Proof.
  intros ord.
  assert (md_wf nobody) as Hn by (intros md k [= <-]; by rewrite lookup_empty).
  split.
  - pose proof (subscribe_identity sample_server sample_ctx sample_first sample_gstate
      sample_world_total sample_ctx_wf eq_refl) as [_ Hs].
    destruct (Subscribe sample_server sample_ctx sample_first sample_gstate) as [s' [[[addr dc] sub]|e|p]] eqn:E.
    2,3: exfalso; apply (f_equal (fun x => match x.2 with Ret _ => true | _ => false end)) in E;
         vm_compute in E; discriminate.
    apply Hs.
  - apply (subscribe_identity sample_server nobody sample_first sample_gstate sample_world_total Hn eq_refl).
    apply nobody_may_not.
Defined.
