(* ===== verification/Dialout.v ===== *)
(** * Dial-out telemetry: [dialout/dialout_client/dialout_client.go]

    The configuration of the dial-out client and the publish routines it
    starts.  [ClientSubscriptionNameMap] holds pointers: the objects of
    [clientSubscription] are in the heap [subs], since [setupDestGroupClients]
    replaces an object by a copy while the routine of the old one runs on.
    Contexts, and the channel and queue a routine makes when it (re)starts,
    have identities, since copies share them.

    The goroutine of [DialOutRun] makes one change of the configuration after
    the other; [configMu] is held during a change, but the routines
    ([publishRun]) never take it.  A change is therefore a program of [Steps],
    and the routines step between its steps, in any order.  Steps of their own
    are what a change does to objects that routines share: every [Close] and
    every [cancel], the copy of an object, and starting an instance.  The maps
    and the groups belong to the goroutine that makes the changes alone, so
    reading or writing one is done along with the next step.  Dialling,
    publishing and the data are the environment: what they answer is part of
    the step.  [StringToPath] (ygot) and the way [fmt] prints a subscription
    and the groups are arguments. *)

From stdpp Require Import base tactics list fin_maps gmap strings pretty.
From Stdlib Require Import ZArith Ascii Lia.
From S2P Require Import Prelude Steps GoStrings Messages DbConfig RedisDb Trie VirtualDb DbClient StatsRing NonDb.
From S2P Require Import Auth TranslUtils TranslClient Server.

Local Open Scope string_scope.
Local Open Scope list_scope.

(** ** Data *)

Inductive reportType := Unknown_report | Once | Periodic | Stream.

Definition NewReportType (s : string) : reportType :=
  if decide (s = "once") then Once
  else if decide (s = "periodic") then Periodic
  else if decide (s = "stream") then Stream
  else Unknown_report.

(** A [Destination] is its address. *)
Definition Validate (addr : string) : res unit :=
  if decide (addr = "") then Fail (Err "Destination.Addrs is empty") else Ret tt.

Record ClientConfig := {
  SrcIp : string; RetryInterval : Z; cfg_Encoding : Z; Unidirectional : bool }.

(** The configuration data of a subscription, and what its routine keeps
    there.  [instance] is the channel [stop] and the queue [q], made together;
    [cancel] is the context the function [cancel] cancels. *)
Record clientSubscription := {
  cs_name : string;
  destGroupName : string;
  cs_prefix : option Path;
  paths : list PathPtr;
  report : reportType;
  interval : Z;
  cancel : nat;
  dc : option data_client;
  instance : option nat;
  opened : bool;
  connection : option nat;               (* [client] *)
  conTryCnt : Z; cs_sendMsg : Z; cs_errors : Z;
}.

Definition new_subscription (name : string) (cancel : nat) : clientSubscription := {|
  cs_name := name; destGroupName := ""; cs_prefix := None; paths := []; report := Unknown_report;
  interval := 5000; cancel := cancel; dc := None; instance := None; opened := false; connection := None;
  conTryCnt := 0; cs_sendMsg := 0; cs_errors := 0 |}.

(** A publish routine: the object it works on, its context and destinations,
    and where it is. *)
Inductive pub_phase :=
  | Restart
  | Dialing (dest : string)              (* in [newClient] *)
  | Connected (conn : nat)               (* in [Publish] *)
  | Reporting (conn : nat)               (* at the select of its report type *)
  | Streaming (conn : nat)               (* in [send] *)
  | Exited.

Record routine := {
  p_sub : nat; p_ctx : nat; p_dests : list string; destIdx : nat; phase : pub_phase;
  dialled : list string;                 (* the destinations it tried, in order *)
  published : list SubscribeResponse;
}.

Record dialout := {
  clientCfg : ClientConfig;
  destGrpNameMap : gmap string (list string);
  ClientSubscriptionNameMap : gmap string nat;
  DestGrp2ClientSubMap : gmap string (list string);
  subs : gmap nat clientSubscription;
  next : nat;                            (* fresh objects, contexts, channels, connections, paths *)
  cancelled : gset nat;                  (* contexts *)
  stopped : gset nat;                    (* instances: the channel is closed and the queue disposed *)
  hung_up : gset nat;                    (* connections that were closed *)
  routines : list routine;
  d_virtual : vstate;
}.

Definition with_cfg (c : ClientConfig) (s : dialout) : dialout := {|
  clientCfg := c; destGrpNameMap := destGrpNameMap s; ClientSubscriptionNameMap := ClientSubscriptionNameMap s;
  DestGrp2ClientSubMap := DestGrp2ClientSubMap s; subs := subs s; next := next s; cancelled := cancelled s;
  stopped := stopped s; hung_up := hung_up s; routines := routines s; d_virtual := d_virtual s |}.
Definition with_maps (d : gmap string (list string)) (n : gmap string nat) (g : gmap string (list string))
    (s : dialout) : dialout := {|
  clientCfg := clientCfg s; destGrpNameMap := d; ClientSubscriptionNameMap := n;
  DestGrp2ClientSubMap := g; subs := subs s; next := next s; cancelled := cancelled s;
  stopped := stopped s; hung_up := hung_up s; routines := routines s; d_virtual := d_virtual s |}.
Definition with_sub (l : nat) (cs : clientSubscription) (s : dialout) : dialout := {|
  clientCfg := clientCfg s; destGrpNameMap := destGrpNameMap s; ClientSubscriptionNameMap := ClientSubscriptionNameMap s;
  DestGrp2ClientSubMap := DestGrp2ClientSubMap s; subs := <[l := cs]> (subs s); next := next s; cancelled := cancelled s;
  stopped := stopped s; hung_up := hung_up s; routines := routines s; d_virtual := d_virtual s |}.
Definition with_next (n : nat) (s : dialout) : dialout := {|
  clientCfg := clientCfg s; destGrpNameMap := destGrpNameMap s; ClientSubscriptionNameMap := ClientSubscriptionNameMap s;
  DestGrp2ClientSubMap := DestGrp2ClientSubMap s; subs := subs s; next := n; cancelled := cancelled s;
  stopped := stopped s; hung_up := hung_up s; routines := routines s; d_virtual := d_virtual s |}.
Definition with_ended (ca st hu : gset nat) (s : dialout) : dialout := {|
  clientCfg := clientCfg s; destGrpNameMap := destGrpNameMap s; ClientSubscriptionNameMap := ClientSubscriptionNameMap s;
  DestGrp2ClientSubMap := DestGrp2ClientSubMap s; subs := subs s; next := next s; cancelled := ca;
  stopped := st; hung_up := hu; routines := routines s; d_virtual := d_virtual s |}.
Definition with_routines (r : list routine) (v : vstate) (s : dialout) : dialout := {|
  clientCfg := clientCfg s; destGrpNameMap := destGrpNameMap s; ClientSubscriptionNameMap := ClientSubscriptionNameMap s;
  DestGrp2ClientSubMap := DestGrp2ClientSubMap s; subs := subs s; next := next s; cancelled := cancelled s;
  stopped := stopped s; hung_up := hung_up s; routines := r; d_virtual := v |}.

Definition with_running (i : option nat) (o : bool) (c : option nat) (cs : clientSubscription) : clientSubscription := {|
  cs_name := cs_name cs; destGroupName := destGroupName cs; cs_prefix := cs_prefix cs; paths := paths cs;
  report := report cs; interval := interval cs; cancel := cancel cs; dc := dc cs; instance := i; opened := o;
  connection := c; conTryCnt := conTryCnt cs; cs_sendMsg := cs_sendMsg cs; cs_errors := cs_errors cs |}.
Definition with_counts (tries sends errs : Z) (cs : clientSubscription) : clientSubscription := {|
  cs_name := cs_name cs; destGroupName := destGroupName cs; cs_prefix := cs_prefix cs; paths := paths cs;
  report := report cs; interval := interval cs; cancel := cancel cs; dc := dc cs; instance := instance cs;
  opened := opened cs; connection := connection cs; conTryCnt := u64 (conTryCnt cs + tries);
  cs_sendMsg := u64 (cs_sendMsg cs + sends); cs_errors := u64 (cs_errors cs + errs) |}.
Definition with_dc (c : data_client) (cs : clientSubscription) : clientSubscription := {|
  cs_name := cs_name cs; destGroupName := destGroupName cs; cs_prefix := cs_prefix cs; paths := paths cs;
  report := report cs; interval := interval cs; cancel := cancel cs; dc := Some c; instance := instance cs;
  opened := opened cs; connection := connection cs; conTryCnt := conTryCnt cs; cs_sendMsg := cs_sendMsg cs;
  cs_errors := cs_errors cs |}.

(** ** Pointers *)

Definition load (l : option nat) : SE dialout (nat * clientSubscription) := fun s =>
  match (l ← l; cs ← subs s !! l; Some (l, cs)) with
  | Some x => (s, Ret x)
  | None => (s, Panic NilDereference)
  end.

Definition store (l : nat) (cs : clientSubscription) : SE dialout unit := modify (with_sub l cs).

Definition fresh : SE dialout nat := fun s => (with_next (S (next s)) s, Ret (next s)).

(** The channel [stop] of an object is closed. *)
Definition is_stopped (s : dialout) (cs : clientSubscription) : bool :=
  from_option (fun i => bool_decide (i ∈ stopped s)) false (instance cs).

(** [cs.Close]. *)
Definition Close (l : option nat) : SE dialout unit :=
  '(l, cs) ← load l;
  if negb (opened cs) then mret tt
  else
    s ← get_state;
    if is_stopped s cs then lift (Panic CloseOfClosedChannel)
    else
      modify (with_ended (cancelled s) (from_option singleton ∅ (instance cs) ∪ stopped s)
                (from_option singleton ∅ (connection cs) ∪ hung_up s)) ≫= fun _ =>
      store l (with_running (instance cs) false (connection cs) cs).

(** [cs.cancel()]. *)
Definition Cancel (l : option nat) : SE dialout unit :=
  '(_, cs) ← load l;
  modify (fun s => with_ended ({[cancel cs]} ∪ cancelled s) (stopped s) (hung_up s) s).

(** ** Starting a subscription *)

Section Config.
Context `{RangeOrder} (g : dbconf) (T : clients) (clientTrie : Trie dataGetFunc).
Context (StringToPath : string -> res Path) (fmt_sub : clientSubscription -> string)
  (fmt_groups : gmap string (list string) -> string).

(** The data client of a subscription. *)
Definition new_client (target : string) (cs : clientSubscription) : SE dialout data_client := fun s =>
  if decide (target = "OTHERS") then
    (s, c ← NewNonDbClient clientTrie (paths cs) (cs_prefix cs); Ret (OfNonDb c))
  else
    let '(v, r) := NewDbClient g T (paths cs) (cs_prefix cs) (d_virtual s) in
    (with_routines (routines s) v s, c ← r; Ret (OfDb c)).

Definition new_routine (l ctx : nat) (dests : list string) : routine := {|
  p_sub := l; p_ctx := ctx; p_dests := dests; destIdx := 0; phase := Restart; dialled := []; published := [] |}.

Definition go_publishRun (ctx l : nat) (dests : list string) : SE dialout unit :=
  modify (fun s => with_routines (routines s ++ [new_routine l ctx dests]) (d_virtual s) s).

Definition NewInstance (ctx l : nat) : SE dialout unit :=
  '(_, cs) ← load (Some l);
  if decide (destGroupName cs = "")
  then lift (Fail (Errorf "Destination group is not set for %v" [fmt_sub cs]))
  else
    s ← get_state;
    match destGrpNameMap s !! destGroupName cs with
    | None => lift (Fail (Errorf "Destination group %v doesn't exist" [destGroupName cs]))
    | Some dests =>
        let target := GetTarget (cs_prefix cs) in
        if decide (target = "") then lift (Fail (Err "Empty target data not supported yet"))
        else
          catch (new_client target cs)
            (fun c => store l (with_dc c cs) ≫= fun _ => go_publishRun ctx l dests)
            (fun e => lift (Fail (Errorf "Connection to DB for %v failed: %v" [fmt_sub cs; err_text e])))
    end.

(** [cs.NewInstance(ctx)] where the error is dropped. *)
Definition try_NewInstance (ctx l : nat) : SE dialout unit :=
  catch (NewInstance ctx l) mret (fun _ => mret tt).

(** ** Changes of the configuration *)

Definition users (grp : string) (s : dialout) : list string := default [] (DestGrp2ClientSubMap s !! grp).

Definition named (name : string) : SE dialout (option nat) := fun s =>
  (s, Ret (ClientSubscriptionNameMap s !! name)).

(** [cs.Close(); cs.cancel()] *)
Definition close_and_cancel (l : option nat) : prog dialout unit :=
  Step (Close l) (fun _ => atomically (Cancel l)).

Definition closeDestGroupClient (grp : string) : prog dialout unit :=
  Step get_state (fun s =>
    for_each (fun name => Step (named name) close_and_cancel) (users grp s)).

(** [cs := *ClientSubscriptionNameMap[name]]: an object of its own with the
    channel, the queue and [opened] the old one has now. *)
Definition copy_subscription (name : string) : SE dialout nat :=
  l ← named name;
  '(_, cs) ← load l;
  l' ← fresh;
  store l' cs ≫= fun _ => mret l'.

Definition install_copy (ctx : nat) (name : string) (l' : nat) : SE dialout unit :=
  try_NewInstance ctx l' ≫= fun _ =>
  modify (fun s => with_maps (destGrpNameMap s) (<[name := l']> (ClientSubscriptionNameMap s))
                     (DestGrp2ClientSubMap s) s).

Definition setupDestGroupClients (ctx : nat) (grp : string) : prog dialout unit :=
  Step get_state (fun s =>
    for_each (fun name => Step (copy_subscription name) (fun l' => atomically (install_copy ctx name l')))
      (users grp s)).

Definition MilliSecond : Z := 1000000.

(** The fields of [Global]. *)
Definition read_global (cfg : ClientConfig) (fv : hash) : ClientConfig :=
  foldl (fun cfg kv =>
    if decide (kv.1 = "src_ip") then
      {| SrcIp := kv.2; RetryInterval := RetryInterval cfg; cfg_Encoding := cfg_Encoding cfg;
         Unidirectional := Unidirectional cfg |}
    else if decide (kv.1 = "retry_interval") then
      match ParseUint kv.2 with
      | Ret itvl => {| SrcIp := SrcIp cfg; RetryInterval := i64 (Second * i64 itvl);
                       cfg_Encoding := cfg_Encoding cfg; Unidirectional := Unidirectional cfg |}
      | _ => cfg
      end
    else if decide (kv.1 = "encoding") then
      {| SrcIp := SrcIp cfg; RetryInterval := RetryInterval cfg; cfg_Encoding := 4;
         Unidirectional := Unidirectional cfg |}
    else if decide (kv.1 = "unidirectional") then
      {| SrcIp := SrcIp cfg; RetryInterval := RetryInterval cfg; cfg_Encoding := cfg_Encoding cfg;
         Unidirectional := true |}
    else cfg) cfg (range fv).

(** The fields of a destination group. *)
Definition read_dests (fv : hash) : res (list string) :=
  foldM (fun dests kv =>
    if decide (kv.1 = "dst_addr") then
      let addrs := Split kv.2 "," in
      foldM (fun dests addr =>
        match Validate addr with
        | Ret _ => Ret (dests ++ [addr])
        | _ => Fail (Errorf "Invalid destination address %v" [show_list addrs])
        end) dests addrs
    else Fail (Errorf "Invalid DestinationGroup value %v" [kv.2])) [] (range fv).

(** The fields of a subscription; the paths get the addresses from [a] on. *)
Definition read_field (a : nat) (cs : clientSubscription) (kv : string * string) : res clientSubscription :=
  let upd grp pre ps rep itv := {|
    cs_name := cs_name cs; destGroupName := grp; cs_prefix := pre; paths := ps; report := rep; interval := itv;
    cancel := cancel cs; dc := dc cs; instance := instance cs; opened := opened cs; connection := connection cs;
    conTryCnt := conTryCnt cs; cs_sendMsg := cs_sendMsg cs; cs_errors := cs_errors cs |} in
  let '(field, value) := kv in
  if decide (field = "dst_group") then Ret (upd value (cs_prefix cs) (paths cs) (report cs) (interval cs))
  else if decide (field = "report_type") then
    Ret (upd (destGroupName cs) (cs_prefix cs) (paths cs) (NewReportType value) (interval cs))
  else if decide (field = "report_interval") then
    match ParseUint value with
    | Ret intvl => Ret (upd (destGroupName cs) (cs_prefix cs) (paths cs) (report cs) (i64 (i64 intvl * MilliSecond)))
    | _ => Ret cs
    end
  else if decide (field = "path_target") then
    Ret (upd (destGroupName cs) (Some {| Origin := ""; Target := value; Element := []; Elem := [] |})
           (paths cs) (report cs) (interval cs))
  else if decide (field = "paths") then
    match collectM (fun p => pp ← StringToPath p; Ret [pp]) (Split value ",") with
    | Ret pps => Ret (upd (destGroupName cs) (cs_prefix cs)
                        (imap (fun i pp => {| addr := a + i; pointee := pp |}) pps) (report cs) (interval cs))
    | Panic p => Panic p
    | Fail _ => Fail (Errorf "Invalid paths %v" [value])
    end
  else Fail (Errorf "Invalid field %v value %v" [field; value]).

Definition read_subscription (a ctx : nat) (name : string) (fv : hash) : res clientSubscription :=
  foldM (read_field a) (new_subscription name ctx) (range fv).

(** Removing the first occurrence of a name. *)
Fixpoint remove_name (name : string) (l : list string) : list string :=
  match l with
  | [] => []
  | n :: l => if decide (name = n) then l else n :: remove_name name l
  end.

Definition delete_subscription (name : string) : SE dialout unit :=
  l ← named name;
  '(_, csub) ← load l;
  modify (fun s => with_maps (destGrpNameMap s) (delete name (ClientSubscriptionNameMap s))
    (<[destGroupName csub := remove_name name (users (destGroupName csub) s)]> (DestGrp2ClientSubMap s)) s).

Definition set_subscription (ctx : nat) (name : string) (fv : hash) : SE dialout unit :=
  s ← get_state;
  cs ← lift (read_subscription (next s) ctx name fv);
  if decide (destGroupName cs = "") then mret tt
  else
    let grp := destGroupName cs in
    let l := next s + length (paths cs) in
    modify (fun s =>
      with_maps (destGrpNameMap s) (<[name := l]> (ClientSubscriptionNameMap s))
        (if decide (name ∈ users grp s) then DestGrp2ClientSubMap s
         else <[grp := users grp s ++ [name]]> (DestGrp2ClientSubMap s))
        (with_next (S l) (with_sub l cs s))) ≫= fun _ =>
    try_NewInstance ctx l.

Definition process_global (ctx : nat) (hdel : bool) (tableKey : string) (fv : hash) : prog dialout unit :=
  if hdel then Done (Fail (Errorf "Invalid delete operation for %v" [tableKey]))
  else
    Step (modify (fun s => with_cfg (read_global (clientCfg s) fv) s)) (fun _ =>
    Step get_state (fun s =>
    for_each (fun kv : string * list string =>
      closeDestGroupClient kv.1 ≫= fun _ => setupDestGroupClients ctx kv.1) (range (destGrpNameMap s)))).

Definition delete_group (grp : string) : SE dialout unit :=
  s ← get_state;
  match DestGrp2ClientSubMap s !! grp with
  | Some _ => lift (Fail (Errorf "%v is being used: %v" [grp; fmt_groups (DestGrp2ClientSubMap s)]))
  | None => modify (fun s => with_maps (delete grp (destGrpNameMap s)) (ClientSubscriptionNameMap s)
                               (DestGrp2ClientSubMap s) s)
  end.

Definition set_group (grp : string) (fv : hash) : SE dialout unit :=
  dests ← lift (read_dests fv);
  modify (fun s => with_maps (<[grp := dests]> (destGrpNameMap s)) (ClientSubscriptionNameMap s)
                     (DestGrp2ClientSubMap s) s).

Definition process_group (ctx : nat) (hdel : bool) (key grp : string) (fv : hash) : prog dialout unit :=
  if decide (grp = "") then Done (Fail (Errorf "Empty  Destination Group name %v" [key]))
  else
    closeDestGroupClient grp ≫= fun _ =>
    if hdel then atomically (delete_group grp)
    else Step (set_group grp fv) (fun _ => setupDestGroupClients ctx grp).

Definition process_subscription (ctx : nat) (hdel : bool) (key name : string) (fv : hash) : prog dialout unit :=
  if decide (name = "") then Done (Fail (Errorf "Empty Subscription_ name %v" [key]))
  else
    Step (named name) (fun l =>
    match l with Some _ => close_and_cancel l | None => mret tt end ≫= fun _ =>
    atomically (if hdel then delete_subscription name else set_subscription ctx name fv)).

(** [processTelemetryClientConfig]: a context of its own for every change. *)
Definition processTelemetryClientConfig (r : redis) (key op : string) : prog dialout unit :=
  let separator := match GetTableKeySeparator g "CONFIG_DB" GetDbDefaultNamespace with Ret s => s | _ => "" end in
  let tableKey := "TELEMETRY_CLIENT" +:+ separator +:+ key in
  match HGetAll r tableKey with
  | Fail e => Done (Fail (Errorf "redis HGetAll failed for %s with error %v" [tableKey; err_text e]))
  | Panic p => Done (Panic p)
  | Ret fv =>
      Step fresh (fun ctx =>
      let hdel := bool_decide (op = "hdel") in
      if decide (key = "Global") then process_global ctx hdel tableKey fv
      else if HasPrefix key "DestinationGroup_" then
        process_group ctx hdel key (TrimPrefix key "DestinationGroup_") fv
      else if HasPrefix key "Subscription_" then
        process_subscription ctx hdel key (TrimPrefix key "Subscription_") fv
      else mret tt)
  end.

(** ** [DialOutRun] *)

(** The subscriptions there are at the start: [dbkeys] are the keys of the
    table.  The error of a change is dropped. *)
Definition initial_config (r : redis) (dbkey_prefix : string) (dbkeys : list string) : prog dialout unit :=
  for_each (fun dbkey => Step (lift (slice_from (String.length dbkey_prefix) dbkey)) (fun key =>
    ignore_error (processTelemetryClientConfig r key "hset"))) dbkeys.

(** A message of the keyspace channel: the change it asks for. *)
Definition on_message (r : redis) (prefixLen : nat) (channel payload : string) : prog dialout unit :=
  Step (lift (slice_from prefixLen channel)) (fun dbkey =>
  if decide (payload = "del" \/ payload = "hdel") then ignore_error (processTelemetryClientConfig r dbkey "hdel")
  else if decide (payload = "hset") then ignore_error (processTelemetryClientConfig r dbkey "hset")
  else mret tt).
End Config.

(** ** The publish routines *)

Inductive pub_event :=
  | StartTry                             (* from [restart] to the call of [newClient] *)
  | Dialled (ok : bool)                  (* [newClient] returns *)
  | Published (ok : bool)                (* [Publish] returns *)
  | Report (got : res (list Value)) (ok : bool)
                                         (* one turn of a periodic report: the data, and whether it was sent *)
  | StreamStart                          (* the data routine of a stream is started *)
  | StreamSend (v : Value) (ok : bool)   (* [send] takes a value off the queue *)
  | StreamDisposed.                      (* [send] finds the queue disposed *)

Definition step_to (p : pub_phase) (r : routine) : routine := {|
  p_sub := p_sub r; p_ctx := p_ctx r; p_dests := p_dests r; destIdx := destIdx r; phase := p;
  dialled := dialled r; published := published r |}.

Definition dialling (dest : string) (r : routine) : routine := {|
  p_sub := p_sub r; p_ctx := p_ctx r; p_dests := p_dests r;
  destIdx := Nat.modulo (destIdx r + 1) (length (p_dests r)); phase := Dialing dest;
  dialled := dialled r ++ [dest]; published := published r |}.

Definition publishing (resp : SubscribeResponse) (r : routine) : routine := {|
  p_sub := p_sub r; p_ctx := p_ctx r; p_dests := p_dests r; destIdx := destIdx r; phase := phase r;
  dialled := dialled r; published := published r ++ [resp] |}.

Definition hang_up (conn : nat) : SE dialout unit :=
  modify (fun s => with_ended (cancelled s) (stopped s) ({[conn]} ∪ hung_up s) s).

(** The notification of a periodic report: its time is that of the last
    value. *)
Definition report_of (cs : clientSubscription) (spbValues : list Value) : SubscribeResponse :=
  SubscribeResponse_Update {|
    n_Timestamp := from_option Timestamp 0%Z (last spbValues); n_Prefix := cs_prefix cs;
    n_Update := (fun v => {| u_Path := VPath v; u_Val := Val v |}) <$> spbValues |}.

(** The end of a stream: the object is closed, and after a pause the routine
    starts over, whoever ended the stream. *)
Definition end_stream (l : nat) (r : routine) : SE dialout routine :=
  Close (Some l) ≫= fun _ => mret (step_to Restart r).

(** What a routine does; [None] when the event is not one of its phase. *)
Definition publish_step (r : routine) (ev : pub_event) : option (SE dialout routine) :=
  match phase r, ev with
  | Restart, StartTry => Some (
      '(l, cs) ← load (Some (p_sub r));
      i ← fresh;
      store l (with_counts 1 0 0 (with_running (Some i) true None cs)) ≫= fun _ =>
      match p_dests r !! destIdx r with
      | None => lift (Panic IndexOutOfRange)
      | Some dest => mret (dialling dest r)
      end)
  | Dialing dest, Dialled ok => Some (
      s ← get_state;
      if decide (p_ctx r ∈ cancelled s) then Close (Some (p_sub r)) ≫= fun _ => mret (step_to Exited r)
      else if ok then conn ← fresh; mret (step_to (Connected conn) r)
      else mret (step_to Restart r))
  | Connected conn, Published ok => Some (
      if negb (ok : bool) then
        hang_up conn ≫= fun _ => Close (Some (p_sub r)) ≫= fun _ => mret (step_to Restart r)
      else
        '(l, cs) ← load (Some (p_sub r));
        match connection cs with
        | Some _ => hang_up conn ≫= fun _ => mret (step_to Exited r)
        | None =>
            store l (with_running (instance cs) (opened cs) (Some conn) cs) ≫= fun _ =>
            mret (step_to match report cs with
                          | Periodic | Stream => Reporting conn
                          | _ => Exited
                          end r)
        end)
  | Reporting conn, Report got ok => Some (
      '(l, cs) ← load (Some (p_sub r));
      match report cs with
      | Periodic =>
          s ← get_state;
          if is_stopped s cs then mret (step_to Exited r)
          else match got with
               | Panic p => lift (Panic p)
               | Fail _ => mret r
               | Ret spbValues =>
                   let r := publishing (report_of cs spbValues) r in
                   if (ok : bool) then store l (with_counts 0 1 0 cs) ≫= fun _ => mret r
                   else Close (Some l) ≫= fun _ => mret (step_to Restart r)
               end
      | _ => mret r
      end)
  | Reporting conn, StreamStart => Some (
      '(l, cs) ← load (Some (p_sub r));
      match report cs with
      | Stream => s ← get_state; mret (step_to (if is_stopped s cs then Exited else Streaming conn) r)
      | _ => mret r
      end)
  | Streaming conn, StreamSend v ok => Some (
      '(l, cs) ← load (Some (p_sub r));
      s ← get_state;
      if is_stopped s cs then mret r
      else match ValToResp v with
           | Ret resp =>
               let r := publishing resp r in
               if (ok : bool) then store l (with_counts 0 1 0 cs) ≫= fun _ => mret r
               else store l (with_counts 0 1 1 cs) ≫= fun _ => end_stream l r
           | _ => store l (with_counts 0 0 1 cs) ≫= fun _ => end_stream l r
           end)
  | Streaming conn, StreamDisposed => Some (
      '(l, cs) ← load (Some (p_sub r));
      s ← get_state;
      if is_stopped s cs then end_stream l r else mret r)
  | _, _ => None
  end.

(** ** The whole *)

(** The objects and routines, and what is left of the change that is being
    made. *)
Record system := { dial : dialout; changing : option (prog dialout unit) }.

Inductive dial_event :=
  | Config (key op : string) (r : redis) (* a change of the configuration begins *)
  | Config_step                          (* the change goes on by one step *)
  | Routine_ (i : nat) (ev : pub_event). (* routine [i] takes a step *)

Definition on_dial {A} (m : SE dialout A) : SE system A := fun y =>
  let '(s, r) := m (dial y) in ({| dial := s; changing := changing y |}, r).

(** What is left of a change: nothing when it returned, and its error is
    dropped. *)
Definition go_on (p : prog dialout unit) : SE system unit := fun y =>
  match p with
  | Done (Panic q) => ({| dial := dial y; changing := None |}, Panic q)
  | Done _ => ({| dial := dial y; changing := None |}, Ret tt)
  | Step _ _ => ({| dial := dial y; changing := Some p |}, Ret tt)
  end.

Definition put_routine (i : nat) (r : routine) : SE dialout unit :=
  modify (fun s => with_routines (<[i := r]> (routines s)) (d_virtual s) s).

(** Routine [i] takes a step; it does nothing when it is somewhere else. *)
Definition routine_step (i : nat) (ev : pub_event) : SE dialout unit :=
  s ← get_state;
  match routines s !! i with
  | None => mret tt
  | Some r => match publish_step r ev with
              | None => mret tt
              | Some m => r ← m; put_routine i r
              end
  end.

Section Whole.
Context `{RangeOrder} (g : dbconf) (T : clients) (clientTrie : Trie dataGetFunc).
Context (StringToPath : string -> res Path) (fmt_sub : clientSubscription -> string)
  (fmt_groups : gmap string (list string) -> string).

(** A message waits until the change before it is made. *)
Definition dial_step (e : dial_event) : SE system unit :=
  match e with
  | Config key op r =>
      y ← get_state;
      match changing y with
      | Some _ => mret tt
      | None => go_on (processTelemetryClientConfig g T clientTrie StringToPath fmt_sub fmt_groups r key op)
      end
  | Config_step =>
      y ← get_state;
      match changing y with
      | Some p => on_dial (advance p) ≫= go_on
      | None => mret tt
      end
  | Routine_ i ev => on_dial (routine_step i ev)
  end.

Definition run_dialout (es : list dial_event) : SE system unit := forM dial_step es.

(** [P] holds of every event and the state it happens in. *)
Fixpoint throughout (P : dial_event -> system -> Prop) (es : list dial_event) (y : system) : Prop :=
  match es with
  | [] => True
  | e :: es => P e y /\ throughout P es (dial_step e y).1
  end.
End Whole.
