(* ===== verification/DialoutInv.v ===== *)
(** * Dial-out: the invariant of the configuration

    The objects, names, groups, channels and routines of [Dialout] fit
    together, whatever the configuration database does and in whatever order
    the publish routines step between the steps of a change.  From it:
    [config_wf], and that the routines try their destinations round robin,
    [failover].

    The invariant has a parameter, the proposition [c] that no routine starts
    over while a change is made: what it says of channels that no two open
    objects share holds under [c] only, since a routine that starts over
    between the closing and the copying of its object makes the copy share an
    open channel ([restart_shares]).  The steps of a change are proved against
    what the routines may do meanwhile, [behaves]. *)

From stdpp Require Import base tactics list fin_maps gmap strings pretty.
From Stdlib Require Import ZArith Ascii Lia.
From S2P Require Import Prelude Steps GoStrings Messages DbConfig RedisDb Trie VirtualDb DbClient StatsRing NonDb.
From S2P Require Import Auth TranslUtils TranslClient Server Dialout.

Local Open Scope string_scope.
Local Open Scope list_scope.

(** ** The invariant of the configuration *)

(** Round robin: the [k]-th try goes to destination [k] modulo their number. *)
Definition round_robin (r : routine) : Prop :=
  (forall k d, dialled r !! k = Some d -> p_dests r !! Nat.modulo k (length (p_dests r)) = Some d) /\
  destIdx r = Nat.modulo (length (dialled r)) (length (p_dests r)) /\ (p_dests r = [] -> dialled r = []).

(** The phases in which a routine counts on the channel of its object: it is
    there, and open as long as the object is. *)
Definition active (p : pub_phase) : bool :=
  match p with Restart | Exited => false | _ => true end.

Definition attended (s : dialout) (l : nat) : Prop :=
  forall cs, subs s !! l = Some cs -> opened cs = true \/ is_stopped s cs = true.

Definition routine_wf (s : dialout) (r : routine) : Prop :=
  is_Some (subs s !! p_sub r) /\ round_robin r /\ (active (phase r) = true -> attended s (p_sub r)).

Section Invariant.
Context (c : Prop).

Record dialout_wf (s : dialout) : Prop := {
  (** a name leads to an object of that name, which is a user of its group *)
  wf_names n l : ClientSubscriptionNameMap s !! n = Some l ->
    exists cs, subs s !! l = Some cs /\ cs_name cs = n /\ destGroupName cs <> "" /\ n ∈ users (destGroupName cs) s;
  wf_users grp : NoDup (users grp s);
  wf_fresh l cs : subs s !! l = Some cs -> l < next s /\ (forall i, instance cs = Some i -> i < next s);
  wf_stopped i : i ∈ stopped s -> i < next s;
  (** an open object has a channel *)
  wf_instance l cs : subs s !! l = Some cs -> opened cs = true -> is_Some (instance cs);
  (** that is open and no other open object has, when [c] holds *)
  wf_opened l cs i : c -> subs s !! l = Some cs -> opened cs = true -> instance cs = Some i ->
    (i ∉ stopped s) /\
    forall l' cs', subs s !! l' = Some cs' -> opened cs' = true -> instance cs' = Some i -> l' = l;
  wf_routines r : r ∈ routines s -> routine_wf s r;
  (** an object has one routine at most *)
  wf_once : NoDup (p_sub <$> routines s);
}.

(** The same object, as far as the invariant sees it. *)
Record same_object (cs cs' : clientSubscription) : Prop := {
  so_name : cs_name cs' = cs_name cs;
  so_group : destGroupName cs' = destGroupName cs;
  so_instance : instance cs' = instance cs;
  so_opened : opened cs' = opened cs;
  so_cancel : cancel cs' = cancel cs;
}.

#[local] Instance same_object_preorder : PreOrder same_object.
Proof. split; [by split|]. intros c1 c2 c3 [] []. split; congruence. Qed.

(** Changes of objects a routine does not notice. *)
Lemma routine_wf_change s s' r :
  stopped s ⊆ stopped s' -> dom (subs s) ⊆ dom (subs s') ->
  (forall l cs', l ∈ dom (subs s) -> subs s' !! l = Some cs' -> exists cs, subs s !! l = Some cs /\ same_object cs cs') ->
  routine_wf s r -> routine_wf s' r.
Proof.
  intros Hst Hd Hsub ([cs Hl] & Hrr & Ha). split; [|split; [done|]].
  - apply elem_of_dom, Hd. by apply elem_of_dom_2 in Hl.
  - intros Hact cs' Hl'. destruct (Hsub _ cs' (elem_of_dom_2 _ _ _ Hl) Hl') as (cs0 & Hl0 & [_ _ Hi Ho _]).
    destruct (Ha Hact cs0 Hl0) as [Ho0|Hs0]; [left; congruence|right].
    unfold is_stopped in *. rewrite Hi. destruct (instance cs0); [|done]. simpl in *.
    apply bool_decide_eq_true in Hs0. apply bool_decide_eq_true. set_solver.
Qed.

Lemma wf_store s l cs cs' :
  dialout_wf s -> subs s !! l = Some cs -> same_object cs cs' -> dialout_wf (with_sub l cs' s).
Proof.
  intros Hs Hl [Hn Hg Hi Ho Hca]. split; simpl.
  - intros n l0 Hn0. destruct (wf_names s Hs n l0 Hn0) as (cs0 & Hl0 & Hc & Hne & Hu).
    destruct (decide (l0 = l)) as [->|]; [|exists cs0; by rewrite lookup_insert_ne].
    assert (cs0 = cs) as -> by congruence. exists cs'. rewrite lookup_insert_eq, Hn, Hg. done.
  - apply (wf_users s Hs).
  - intros l0 cs0 [[<- <-]|[Hne H0]]%lookup_insert_Some; [|by apply (wf_fresh s Hs)].
    rewrite Hi. by apply (wf_fresh s Hs).
  - apply (wf_stopped s Hs).
  - intros l0 cs0 [[<- <-]|[Hne H0]]%lookup_insert_Some Ho0; [|by apply (wf_instance s Hs l0)].
    rewrite Hi. apply (wf_instance s Hs l cs Hl). congruence.
  - intros l0 cs0 i Hc H0 Ho0 Hi0.
    assert (exists cs1, subs s !! l0 = Some cs1 /\ opened cs1 = true /\ instance cs1 = instance cs0) as (cs1 & H1 & Ho1 & Hi1).
    { apply lookup_insert_Some in H0 as [[<- <-]|[Hne H0]]; [exists cs; split_and!; congruence|eauto]. }
    destruct (wf_opened s Hs l0 cs1 i Hc H1 Ho1 ltac:(congruence)) as (Hst & Hu). split; [done|].
    intros l2 cs2 [[<- <-]|[Hne H2]]%lookup_insert_Some Ho2 Hi2; [|by eapply Hu].
    eapply (Hu l cs); [done|congruence|congruence].
  - intros r Hr. apply (routine_wf_change s); [done|simpl; set_solver| |by apply (wf_routines s Hs)].
    intros l0 cs0 _. simpl. intros [[<- <-]|[Hne H0]]%lookup_insert_Some; [by exists cs|by exists cs0].
  - apply (wf_once s Hs).
Qed.

(** A new object, which is closed when [c] holds. *)
Lemma wf_new_object s l cs :
  dialout_wf s -> next s <= l -> (c -> opened cs = false) -> (forall i, instance cs = Some i -> i <= l) ->
  (opened cs = true -> is_Some (instance cs)) -> dialout_wf (with_next (S l) (with_sub l cs s)).
Proof.
  intros Hs Hl Ho Hi Hoi. assert (subs s !! l = None) as Hf.
  { destruct (subs s !! l) as [cs0|] eqn:E; [|done]. apply (wf_fresh s Hs) in E as [? _]. lia. }
  split; simpl.
  - intros n l0 Hn0. destruct (wf_names s Hs n l0 Hn0) as (cs0 & Hl0 & Hc).
    exists cs0. rewrite lookup_insert_ne; [done|congruence].
  - apply (wf_users s Hs).
  - intros l0 cs0 [[<- <-]|[Hne H0]]%lookup_insert_Some.
    + split; [lia|]. intros i ?%Hi. lia.
    + destruct (wf_fresh s Hs l0 cs0 H0) as [? Hf0]. split; [lia|]. intros i ?%Hf0. lia.
  - intros i Hst%(wf_stopped s Hs). lia.
  - intros l0 cs0 [[<- <-]|[Hne H0]]%lookup_insert_Some; [done|by apply (wf_instance s Hs l0)].
  - intros l0 cs0 i Hc [[<- <-]|[Hne H0]]%lookup_insert_Some Ho0 Hi0; [by rewrite Ho in Ho0|].
    destruct (wf_opened s Hs l0 cs0 i Hc H0 Ho0 Hi0) as (Hst & Hu). split; [done|].
    intros l2 cs2 [[<- <-]|[Hne2 H2]]%lookup_insert_Some; [intros Ho2; by rewrite Ho in Ho2|by eapply Hu].
  - intros r Hr. apply (routine_wf_change s); [done|simpl; set_solver| |by apply (wf_routines s Hs)].
    intros l0 cs0 Hd. simpl. intros [[<- <-]|[Hne H0]]%lookup_insert_Some; [|by exists cs0].
    by apply elem_of_dom in Hd as [? ?]; congruence.
  - apply (wf_once s Hs).
Qed.

Lemma wf_with_next s n : dialout_wf s -> next s <= n -> dialout_wf (with_next n s).
Proof.
  intros [H1 H2 H3 H4 H5 H6 H7 H8] Hn. split; simpl; auto.
  - intros l cs [Hl Hi]%H3. split; [lia|]. intros i ?%Hi. lia.
  - intros i ?%H4. lia.
Qed.

Lemma wf_with_routines s rs v :
  dialout_wf s -> (forall r, r ∈ rs -> routine_wf s r) -> NoDup (p_sub <$> rs) -> dialout_wf (with_routines rs v s).
Proof. intros [H1 H2 H3 H4 H5 H6 H7 H8] Hr Hn. by split. Qed.

Lemma wf_with_cfg s k : dialout_wf s -> dialout_wf (with_cfg k s).
Proof. intros [H1 H2 H3 H4 H5 H6 H7 H8]. by split. Qed.

Lemma wf_with_ended s ca hu : dialout_wf s -> dialout_wf (with_ended ca (stopped s) hu s).
Proof. intros [H1 H2 H3 H4 H5 H6 H7 H8]. by split. Qed.

Definition closed_of (cs : clientSubscription) : clientSubscription :=
  with_running (instance cs) false (connection cs) cs.

(** Closing an open object. *)
Lemma wf_close s l cs i hu :
  dialout_wf s -> subs s !! l = Some cs -> opened cs = true -> instance cs = Some i ->
  dialout_wf (with_sub l (closed_of cs) (with_ended (cancelled s) ({[i]} ∪ stopped s) hu s)).
Proof.
  intros Hs Hl Ho Hi. split; simpl.
  - intros n l0 Hn0. destruct (wf_names s Hs n l0 Hn0) as (cs0 & Hl0 & Hc).
    destruct (decide (l0 = l)) as [->|]; [|exists cs0; by rewrite lookup_insert_ne].
    assert (cs0 = cs) as -> by congruence. eexists. by rewrite lookup_insert_eq.
  - apply (wf_users s Hs).
  - intros l0 cs0 [[<- <-]|[Hne H0]]%lookup_insert_Some; [|by apply (wf_fresh s Hs)].
    destruct (wf_fresh s Hs l cs Hl) as [? Hf]. by split.
  - intros j [->%elem_of_singleton|Hj]%elem_of_union; [by apply (wf_fresh s Hs l cs Hl)|by apply (wf_stopped s Hs)].
  - intros l0 cs0 [[<- <-]|[Hne H0]]%lookup_insert_Some; [done|by apply (wf_instance s Hs l0)].
  - intros l0 cs0 j Hc [[<- <-]|[Hne H0]]%lookup_insert_Some Ho0 Hj; [done|].
    destruct (wf_opened s Hs l0 cs0 j Hc H0 Ho0 Hj) as (Hsj & Huj). split.
    + intros [->%elem_of_singleton|?]%elem_of_union; [|done]. by destruct Hne; eapply Huj.
    + intros l2 cs2 [[<- <-]|[Hne2 H2]]%lookup_insert_Some; [done|by eapply Huj].
  - intros r Hr. destruct (wf_routines s Hs r Hr) as ([cs0 H0] & Hrr & Ha). split; [|split; [done|]].
    + simpl. rewrite lookup_insert. by case_decide; eexists.
    + intros Hact cs1. simpl. intros [[_ <-]|[Hne H1]]%lookup_insert_Some.
      * right. unfold is_stopped. simpl. rewrite Hi. simpl. apply bool_decide_eq_true. set_solver.
      * destruct (Ha Hact cs1 H1) as [?|Hs1]; [by left|right]. unfold is_stopped in *. simpl.
        destruct (instance cs1); [|done]. simpl in *. apply bool_decide_eq_true in Hs1. apply bool_decide_eq_true. set_solver.
  - apply (wf_once s Hs).
Qed.

(** ** What the routines may do to the configuration

    The names, groups and contexts stay, objects stay, keep what the
    configuration gave them, and those in [q] are not opened. *)
Record behaves (q : nat -> Prop) (s s' : dialout) : Prop := {
  be_names : ClientSubscriptionNameMap s' = ClientSubscriptionNameMap s;
  be_users : DestGrp2ClientSubMap s' = DestGrp2ClientSubMap s;
  be_cancelled : cancelled s' = cancelled s;
  be_next : next s <= next s';
  be_working : p_sub <$> routines s' = p_sub <$> routines s;
  be_dom : dom (subs s') = dom (subs s);
  be_objects l cs' : subs s' !! l = Some cs' -> exists cs, subs s !! l = Some cs /\ cs_name cs' = cs_name cs /\
    destGroupName cs' = destGroupName cs /\ cancel cs' = cancel cs /\ (q l -> opened cs' = true -> opened cs = true);
}.

#[local] Instance behaves_preorder q : PreOrder (behaves q).
Proof.
  split; [intros s; split; try done; intros l cs ?; by exists cs|].
  intros s1 s2 s3 [A1 A2 A3 A4 A5 A6 A7] [B1 B2 B3 B4 B5 B6 B7].
  split; try congruence; [lia|]. intros l cs3 (cs2 & E2 & ? & ? & ? & Hq2)%B7.
  apply A7 in E2 as (cs1 & E1 & ? & ? & ? & Hq1). exists cs1. split_and!; try congruence. auto.
Qed.

Lemma behaves_insert q l cs cs' s s' :
  subs s !! l = Some cs -> subs s' = <[l := cs']> (subs s) ->
  cs_name cs' = cs_name cs -> destGroupName cs' = destGroupName cs -> cancel cs' = cancel cs ->
  (q l -> opened cs' = true -> opened cs = true) ->
  ClientSubscriptionNameMap s' = ClientSubscriptionNameMap s -> DestGrp2ClientSubMap s' = DestGrp2ClientSubMap s ->
  cancelled s' = cancelled s -> next s <= next s' -> routines s' = routines s -> behaves q s s'.
Proof.
  intros Hl Hsub ? ? ? ? ? ? ? ? Hr. split; try done; [by rewrite Hr| |].
  - rewrite Hsub, dom_insert_L. apply elem_of_dom_2 in Hl. set_solver.
  - intros l0 cs0. rewrite Hsub. intros [[<- <-]|[Hne E0]]%lookup_insert_Some; [by exists cs|exists cs0; by split_and!].
Qed.

(** Closing keeps the invariant, also when it panics. *)
Lemma Close_keeps l s :
  dialout_wf s ->
  match Close l s with
  | (s', Ret _) => exists l0 cs, l = Some l0 /\ subs s !! l0 = Some cs /\ subs s' = <[l0 := closed_of cs]> (subs s) /\
      dialout_wf s' /\ behaves (fun _ => True) s s' /\ routines s' = routines s /\ stopped s ⊆ stopped s'
  | (s', _) => s' = s
  end.
Proof.
  intros Hs. unfold Close, load, mbind, SE_bind. simpl. destruct l as [l|]; [|done]. simpl.
  destruct (subs s !! l) as [cs|] eqn:Hl; [|done]. simpl. destruct (opened cs) eqn:Ho; simpl.
  - destruct (is_stopped s cs); [done|]. simpl. destruct (wf_instance s Hs l cs Hl Ho) as [i Hi].
    rewrite Hi. simpl. rewrite <- Hi. exists l, cs.
    split_and!; [done|done|done|by apply wf_close|by eapply behaves_insert|done|simpl; set_solver].
  - exists l, cs. assert (closed_of cs = cs) as -> by (destruct cs; simpl in *; by subst).
    split_and!; try done. by rewrite insert_id.
Qed.


Lemma Cancel_keeps l s : dialout_wf s -> dialout_wf (Cancel l s).1.
Proof.
  intros Hs. unfold Cancel, load, modify, mbind, SE_bind. simpl. destruct l as [l|]; simpl; [|done].
  destruct (subs s !! l) as [cs|]; simpl; [by apply wf_with_ended|done].
Qed.

(** ** Starting instances *)

(** Starting keeps everything the invariant sees, and opens nothing. *)
Definition quiet_change (s s' : dialout) : Prop :=
  dialout_wf s -> dialout_wf s' /\ ClientSubscriptionNameMap s' = ClientSubscriptionNameMap s /\
    DestGrp2ClientSubMap s' = DestGrp2ClientSubMap s /\ destGrpNameMap s' = destGrpNameMap s /\ next s' = next s /\
    dom (subs s') = dom (subs s) /\
    forall l cs', subs s' !! l = Some cs' -> exists cs, subs s !! l = Some cs /\ same_object cs cs'.

#[local] Instance quiet_change_preorder : PreOrder quiet_change.
Proof.
  split; [intros s Hs; split_and!; try done; intros l cs ?; by exists cs|].
  intros s1 s2 s3 H12 H23 Hs1. destruct (H12 Hs1) as (Hs2 & En2 & Eu2 & Ed2 & Ex2 & Em2 & Hl2).
  destruct (H23 Hs2) as (Hs3 & En3 & Eu3 & Ed3 & Ex3 & Em3 & Hl3). split_and!; [done|congruence..|].
  intros l cs3 (cs2 & Hc2 & Hso)%Hl3. apply Hl2 in Hc2 as (cs1 & Hc1 & Hso'). exists cs1. split; [done|by etransitivity].
Qed.

Lemma with_virtual_quiet s v : quiet_change s (with_routines (routines s) v s).
Proof.
  intros Hs. split_and!; try done; [|intros l cs ?; by exists cs].
  apply wf_with_routines; [done|apply (wf_routines s Hs)|apply (wf_once s Hs)].
Qed.

Section Starting.
Context `{RangeOrder} (g : dbconf) (T : clients) (clientTrie : Trie dataGetFunc).
Context (fmt_sub : clientSubscription -> string).

Lemma new_client_quiet target cs : does quiet_change (new_client g T clientTrie target cs) (fun _ => True).
Proof.
  intros s. unfold new_client. case_decide; simpl; [by split; [|case_match]|].
  destruct (NewDbClient _ _ _ _ _) as [v r]. simpl. split; [apply with_virtual_quiet|by case_match].
Qed.

Lemma store_quiet l cs cs' s :
  subs s !! l = Some cs -> same_object cs cs' -> quiet_change s (with_sub l cs' s).
Proof.
  intros Hl Hso Hs. split_and!; try done; simpl; [by eapply wf_store| |].
  - rewrite dom_insert_L. apply elem_of_dom_2 in Hl. set_solver.
  - intros l0 cs0 [[<- <-]|[Hne H0]]%lookup_insert_Some; [by exists cs|by exists cs0].
Qed.

(** A routine that was just started. *)
Lemma new_routine_wf s l ctx dests : is_Some (subs s !! l) -> routine_wf s (new_routine l ctx dests).
Proof.
  intros Hl. split; [done|]. split; [|done]. split; [done|]. split; [|done]. symmetry. apply Nat.Div0.mod_0_l.
Qed.

Definition unattended (l : nat) (s : dialout) : Prop := l ∉ p_sub <$> routines s.

Lemma go_quiet ctx l dests s :
  is_Some (subs s !! l) -> unattended l s -> quiet_change s (go_publishRun ctx l dests s).1.
Proof.
  intros Hl Hu Hs. simpl. split_and!; try done; [|intros l0 cs ?; by exists cs].
  apply wf_with_routines; [done| |].
  - intros r [Hr| ->%list_elem_of_singleton]%elem_of_app; [by apply (wf_routines s Hs)|by apply new_routine_wf].
  - rewrite fmap_app. apply NoDup_app. split; [apply (wf_once s Hs)|]. split; [|apply NoDup_singleton].
    intros x Hx ->%list_elem_of_singleton. done.
Qed.

Lemma NewInstance_quiet ctx l s :
  unattended l s -> quiet_change s (NewInstance g T clientTrie fmt_sub ctx l s).1.
Proof.
  intros Hun.
  unfold NewInstance, load, mbind, SE_bind. simpl. destruct (subs s !! l) as [cs|] eqn:Hl; simpl; [|done].
  case_decide; [done|]. simpl. destruct (destGrpNameMap s !! destGroupName cs) as [dests|]; [|done].
  case_decide; [done|]. unfold catch.
  destruct (new_client_quiet (GetTarget (cs_prefix cs)) cs s) as [Hq _].
  destruct (new_client _ _ _ _ _ s) as [s1 [k|e|p]] eqn:E; simpl in *; [|done..].
  assert (subs s1 = subs s /\ routines s1 = routines s) as [Hsub Hrt].
  { unfold new_client in E. case_decide; [by injection E as <- _|].
    destruct (NewDbClient _ _ _ _ _) as [v r]. by injection E as <- _. }
  etransitivity; [exact Hq|].
  change (quiet_change s1 (go_publishRun ctx l dests (with_sub l (with_dc k cs) s1)).1).
  transitivity (with_sub l (with_dc k cs) s1).
  - apply (store_quiet l cs); [by rewrite Hsub|by split].
  - apply go_quiet; [simpl; rewrite lookup_insert_eq; by eexists|]. unfold unattended. simpl. by rewrite Hrt.
Qed.

Lemma try_NewInstance_quiet ctx l s :
  unattended l s -> quiet_change s (try_NewInstance g T clientTrie fmt_sub ctx l s).1.
Proof.
  intros Hun. unfold try_NewInstance, catch. pose proof (NewInstance_quiet ctx l s Hun) as Hq.
  by destruct (NewInstance _ _ _ _ _ _ s) as [s' [[]|e|p]].
Qed.
End Starting.

Lemma wf_with_maps s d nm us :
  dialout_wf s ->
  (forall n l, nm !! n = Some l -> exists cs, subs s !! l = Some cs /\ cs_name cs = n /\ destGroupName cs <> "" /\
     n ∈ default [] (us !! destGroupName cs)) ->
  (forall grp, NoDup (default [] (us !! grp))) -> dialout_wf (with_maps d nm us s).
Proof. intros [H1 H2 H3 H4 H5 H6 H7 H8] Hn Hu. by split. Qed.

Lemma fresh_unattended s l : dialout_wf s -> next s <= l -> unattended l s.
Proof.
  intros Hs Hl (r & -> & Hr)%list_elem_of_fmap. destruct (wf_routines s Hs r Hr) as ([cs Hcs] & _).
  apply (wf_fresh s Hs) in Hcs as [? _]. lia.
Qed.


(** ** The steps of a change *)

Abbreviation others := (behaves (fun _ => c)).
Abbreviation sound := (guided dialout_wf others).
Abbreviation firm := (stable dialout_wf others).

(** A step after which nothing is known. *)
Lemma sound_last {A} (m : SE dialout A) P :
  (forall s, dialout_wf s -> dialout_wf (m s).1) -> sound P (atomically m) (fun _ _ => True).
Proof.
  intros Hm. apply guided_atomically; [|by intros a s s'].
  intros s [Hs _]. specialize (Hm s Hs). by destruct (m s) as [s' [a|e|p]].
Qed.

(** The objects of the names in [W] are closed, when [c] holds. *)
Definition closed_where (W : string -> Prop) (s : dialout) : Prop :=
  c -> forall n l cs, W n -> ClientSubscriptionNameMap s !! n = Some l -> subs s !! l = Some cs -> opened cs = false.

Abbreviation closed_names names := (closed_where (fun n : string => n ∈ (names : list string))).

Lemma closed_where_others W s s' : others s s' -> closed_where W s -> closed_where W s'.
Proof.
  intros Hb Hc Hcalm n l cs' Hn Hnm Hl. rewrite (be_names _ _ _ Hb) in Hnm.
  destruct (be_objects _ _ _ Hb l cs' Hl) as (cs & Hl0 & _ & _ & _ & Hq).
  destruct (opened cs') eqn:Ho; [|done]. rewrite <- (Hc Hcalm n l cs Hn Hnm Hl0). symmetry. by apply Hq.
Qed.

Lemma users_others q grp s s' : behaves q s s' -> users grp s' = users grp s.
Proof. intros Hb. unfold users. by rewrite (be_users _ _ _ Hb). Qed.

Lemma Close_closes l W s :
  dialout_wf s -> closed_where W s ->
  match Close l s with
  | (s', Ret _) => dialout_wf s' /\ behaves (fun _ => True) s s' /\
      closed_where (fun n => W n \/ ClientSubscriptionNameMap s !! n = l) s'
  | (s', _) => dialout_wf s'
  end.
Proof.
  intros Hs HW. pose proof (Close_keeps l s Hs) as Hk. destruct (Close l s) as [s' [[]|e|p]]; [|by subst s'..].
  destruct Hk as (l0 & cs & -> & Hl & Hsub & Hs' & Hb & _). split_and!; [done|done|].
  intros Hc n l1 cs1 Hn Hnm Hl1. rewrite (be_names _ _ _ Hb) in Hnm. rewrite Hsub in Hl1.
  apply lookup_insert_Some in Hl1 as [[<- <-]|[Hne Hl1]]; [done|].
  destruct Hn as [Hn|Hn]; [by eapply HW|congruence].
Qed.

(** Closing the users of a group leaves them closed. *)
Lemma closeDest_sound grp P :
  sound P (closeDestGroupClient grp) (fun _ s => closed_names (users grp s) s).
Proof.
  unfold closeDestGroupClient.
  set (F (names rest : list string) (s : dialout) := users grp s = names /\ closed_where (fun n => n ∈ names /\ n ∉ rest) s).
  assert (forall names rest, firm (F names rest)) as HF.
  { intros names rest s s' _ [Hu Hc] Hb _. split; [by rewrite (users_others _ _ _ _ Hb)|by eapply closed_where_others]. }
  apply (guided_step _ _ _ _ _ (fun s0 => F (users grp s0) (users grp s0))).
  { intros s [Hs _]. split; [done|]. split; [done|]. intros _ n l cs [Hn Hn']. done. }
  { intros s0. apply HF. }
  intros s0. set (names := users grp s0).
  apply (guided_weaken _ _ _ (F names names) _ (fun _ => F names [])); [done| |].
  { intros [] s _ [<- Hc] Hcalm n l cs Hn. apply (Hc Hcalm). split; [done|apply not_elem_of_nil]. }
  apply (guided_for _ _ _ (F names)). intros name rest.
  apply (guided_step _ _ _ _ _ (fun l s => F names (name :: rest) s /\ ClientSubscriptionNameMap s !! name = l)).
  { by intros s [Hs HFs]. }
  { intros l s s' Hs [HFs Hn] Hb Hs'. split; [by apply (HF _ _ s s')|by rewrite (be_names _ _ _ Hb)]. }
  intros l. apply (guided_step _ _ _ _ _ (fun _ => F names rest)).
  { intros s (Hs & [Hu Hc] & Hn). pose proof (Close_closes l _ s Hs Hc) as Hk.
    destruct (Close l s) as [s' [[]|e|p]]; [|done..]. destruct Hk as (Hs' & Hb & Hc'). split; [done|].
    split; [by rewrite (users_others _ _ _ _ Hb)|]. intros Hcalm n l' cs' [Hin Hout]. apply (Hc' Hcalm).
    destruct (decide (n = name)) as [->|Hne]; [by right|left]. split; [done|]. by intros [?|?]%elem_of_cons. }
  { intros _. apply HF. }
  intros _. apply guided_atomically; [|intros _; apply HF].
  intros s [Hs HFs]. pose proof (Cancel_keeps l s Hs) as Hk. unfold Cancel, load, modify, mbind, SE_bind in *. simpl in *.
  destruct l as [l|]; simpl in *; [|done]. by destruct (subs s !! l) as [cs|].
Qed.

Section Changes.
Context `{RangeOrder} (g : dbconf) (T : clients) (clientTrie : Trie dataGetFunc).
Context (StringToPath : string -> res Path) (fmt_sub : clientSubscription -> string)
  (fmt_groups : gmap string (list string) -> string).

(** A copy that was just made for [name]. *)
Definition copied (name : string) (l' : nat) (s : dialout) : Prop :=
  unattended l' s /\ exists cs, subs s !! l' = Some cs /\ cs_name cs = name /\ destGroupName cs <> "" /\
    name ∈ users (destGroupName cs) s.

Lemma copied_others q name l' s s' : behaves q s s' -> copied name l' s -> copied name l' s'.
Proof.
  intros Hb (Hu & cs & Hl & Hn & Hg & Hin). split; [unfold unattended; by rewrite (be_working _ _ _ Hb)|].
  assert (l' ∈ dom (subs s')) as [cs' Hl']%elem_of_dom by (rewrite (be_dom _ _ _ Hb); by eapply elem_of_dom_2).
  destruct (be_objects _ _ _ Hb l' cs' Hl') as (cs0 & Hl0 & Hn' & Hg' & _ & _).
  assert (cs0 = cs) as -> by congruence. exists cs'. rewrite Hn', Hg', (users_others _ _ _ _ Hb). by split_and!.
Qed.

Lemma copy_keeps name (rest : list string) s :
  name ∉ rest -> dialout_wf s -> closed_names (name :: rest) s ->
  match copy_subscription name s with
  | (s', Ret l') => dialout_wf s' /\ copied name l' s' /\ closed_names rest s'
  | (s', _) => dialout_wf s'
  end.
Proof.
  intros Hnin Hs Hc. unfold copy_subscription, named, load, fresh, store, modify, mbind, SE_bind. simpl.
  destruct (ClientSubscriptionNameMap s !! name) as [l|] eqn:Hnm; simpl; [|done].
  destruct (wf_names s Hs name l Hnm) as (cs & Hl & Hcn & Hcg & Hcu). rewrite Hl. simpl.
  assert (dialout_wf (with_sub (next s) cs (with_next (S (next s)) s))) as Hs1.
  { apply (wf_new_object s (next s) cs); [done|lia| | |].
    - intros Hcalm. apply (Hc Hcalm name l); [left|done|done].
    - intros i Hi. apply (wf_fresh s Hs l cs Hl) in Hi. lia.
    - by apply (wf_instance s Hs l). }
  split_and!; [done| |].
  - split; [by apply (fresh_unattended s)|]. exists cs. simpl. by rewrite lookup_insert_eq.
  - intros Hcalm n l0 cs0 Hn Hnm0. simpl in *. intros [[<- <-]|[Hne Hl0]]%lookup_insert_Some.
    + by apply (Hc Hcalm name l); [left| |].
    + by apply (Hc Hcalm n l0); [right| |].
Qed.

Lemma install_keeps ctx name (rest : list string) l' s :
  name ∉ rest -> dialout_wf s -> copied name l' s -> closed_names rest s ->
  match install_copy g T clientTrie fmt_sub ctx name l' s with
  | (s', Ret _) => dialout_wf s' /\ closed_names rest s'
  | (s', _) => dialout_wf s'
  end.
Proof.
  intros Hnin Hs (Hun & cs & Hl & Hn & Hg & Hin) Hc. unfold install_copy, modify, mbind, SE_bind.
  pose proof (try_NewInstance_quiet g T clientTrie fmt_sub ctx l' s Hun Hs) as (Hs2 & Hnm2 & Hus2 & _ & _ & Hd2 & Hq2).
  destruct (try_NewInstance _ _ _ _ _ _ s) as [s2 [[]|e|p]]; simpl in *; [|done..].
  assert (l' ∈ dom (subs s2)) as [cs2 Hl2]%elem_of_dom by (rewrite Hd2; by eapply elem_of_dom_2).
  destruct (Hq2 l' cs2 Hl2) as (cs0 & Hl0 & Hso). assert (cs0 = cs) as -> by congruence.
  destruct Hso as [Hsn Hsg Hsi Hsop _]. split.
  - apply wf_with_maps; [done| |apply (wf_users s2 Hs2)].
    intros n l0 [[<- <-]|[Hne H0]]%lookup_insert_Some; [|by apply (wf_names s2 Hs2)].
    exists cs2. rewrite Hsn, Hsg. split_and!; [done|done|done|]. rewrite Hus2. exact Hin.
  - intros Hcalm n l0 cs0 Hn0 Hnm0 Hl0'. simpl in *.
    rewrite lookup_insert_ne in Hnm0 by (intros <-; done). rewrite Hnm2 in Hnm0.
    apply Hq2 in Hl0' as (cs1 & Hl1 & Hso1). rewrite (so_opened _ _ Hso1). by apply (Hc Hcalm n l0).
Qed.

Lemma setup_sound ctx grp :
  sound (fun s => closed_names (users grp s) s) (setupDestGroupClients g T clientTrie fmt_sub ctx grp) (fun _ _ => True).
Proof.
  unfold setupDestGroupClients. set (F (rest : list string) (s : dialout) := NoDup rest /\ closed_names rest s).
  assert (forall rest, firm (F rest)) as HF.
  { intros rest s s' _ [Hu Hc] Hb _. split; [done|by eapply closed_where_others]. }
  apply (guided_step _ _ _ _ _ (fun s0 => F (users grp s0))).
  { intros s [Hs Hc]. split; [done|]. split; [apply (wf_users s Hs)|done]. }
  { intros s0. apply HF. }
  intros s0. apply (guided_weaken _ _ _ (F (users grp s0)) _ (fun _ => F [])); [done|done|].
  apply (guided_for _ _ _ F). intros name rest.
  apply (guided_step _ _ _ _ _ (fun l' s => copied name l' s /\ (name ∉ rest) /\ F rest s)).
  { intros s (Hs & Hnd & Hc). inversion Hnd as [|? ? Hnin Hnd']; subst.
    pose proof (copy_keeps name rest s Hnin Hs Hc) as Hk.
    destruct (copy_subscription name s) as [s' [l'|e|p]]; [|done..]. destruct Hk as (? & ? & ?). by split_and!. }
  { intros l' s s' Hs (Hcp & Hnin & HFs) Hb Hs'. split_and!; [by eapply copied_others|done|by apply (HF rest s s')]. }
  intros l'. apply guided_atomically; [|intros _; apply HF].
  intros s (Hs & Hcp & Hnin & Hnd & Hc). pose proof (install_keeps ctx name rest l' s Hnin Hs Hcp Hc) as Hk.
  destruct (install_copy _ _ _ _ _ _ _ s) as [s' [[]|e|p]]; [|done..]. destruct Hk. by split_and!.
Qed.

Lemma global_sound ctx hdel key fv P :
  sound P (process_global g T clientTrie fmt_sub ctx hdel key fv) (fun _ _ => True).
Proof.
  unfold process_global. destruct hdel; [done|].
  apply (guided_step _ _ _ _ _ (fun _ _ => True)); [|by intros _ s s'|].
  { intros s [Hs _]. split; [by apply wf_with_cfg|done]. }
  intros _. apply (guided_step _ _ _ _ _ (fun _ _ => True)); [by intros s [Hs _]|by intros s0 s s'|].
  intros s0. apply (guided_for _ _ _ (fun _ _ => True)). intros [grp ds] rest.
  eapply guided_then; [apply closeDest_sound|]. intros []. apply setup_sound.
Qed.

Lemma set_group_keeps grp fv s :
  dialout_wf s -> closed_names (users grp s) s ->
  match set_group grp fv s with
  | (s', Ret _) => dialout_wf s' /\ closed_names (users grp s') s'
  | (s', _) => dialout_wf s'
  end.
Proof.
  intros Hs Hc. unfold set_group, modify, lift, mbind, SE_bind. destruct (read_dests fv) as [ds|e|p]; [|done..].
  split; [|exact Hc]. apply wf_with_maps; [done|apply (wf_names s Hs)|apply (wf_users s Hs)].
Qed.

Lemma delete_group_keeps grp s : dialout_wf s -> dialout_wf (delete_group fmt_groups grp s).1.
Proof.
  intros Hs. unfold delete_group, get_state, modify, mbind, SE_bind. destruct (DestGrp2ClientSubMap s !! grp); [done|].
  apply wf_with_maps; [done|apply (wf_names s Hs)|apply (wf_users s Hs)].
Qed.

Lemma closed_users_firm grp : firm (fun s => closed_names (users grp s) s).
Proof.
  intros s s' _ Hc Hb _ Hcalm n l cs Hn. rewrite (users_others _ _ _ _ Hb) in Hn.
  by apply (closed_where_others _ _ _ Hb Hc).
Qed.

Lemma group_sound ctx hdel key grp fv P :
  sound P (process_group g T clientTrie fmt_sub fmt_groups ctx hdel key grp fv) (fun _ _ => True).
Proof.
  unfold process_group. case_decide; [done|]. eapply guided_then; [apply closeDest_sound|]. intros []. destruct hdel.
  { apply sound_last, delete_group_keeps. }
  apply (guided_step _ _ _ _ _ (fun _ s => closed_names (users grp s) s)); [| |intros _; apply setup_sound].
  - intros s [Hs Hc]. pose proof (set_group_keeps grp fv s Hs Hc) as Hk. by destruct (set_group grp fv s) as [s' [[]|e|p]].
  - intros _. apply closed_users_firm.
Qed.

Lemma remove_name_spec name l :
  NoDup l -> NoDup (remove_name name l) /\ forall n, n ∈ remove_name name l <-> n ∈ l /\ n <> name.
Proof.
  induction 1 as [|x l Hx Hnd [IHn IHe]]; simpl; [split; [constructor|set_solver]|].
  case_decide as E; [subst x; split; [done|set_solver]|]. split; [|set_solver].
  constructor; [|done]. rewrite IHe. by intros [? _].
Qed.

Lemma delete_wf name s : dialout_wf s -> dialout_wf (delete_subscription name s).1.
Proof.
  intros Hs. unfold delete_subscription, named, load, modify, mbind, SE_bind. simpl.
  destruct (ClientSubscriptionNameMap s !! name) as [l|] eqn:Hnm; simpl; [|done].
  destruct (wf_names s Hs name l Hnm) as (cs & Hl & Hcn & Hcg & Hcu). rewrite Hl. simpl.
  destruct (remove_name_spec name (users (destGroupName cs) s) (wf_users s Hs _)) as [Hnd He].
  apply wf_with_maps; [done| |].
  - intros n l0 [Hne H0]%lookup_delete_Some. destruct (wf_names s Hs n l0 H0) as (cs0 & Hl0 & Hn0 & Hg0 & Hu0).
    exists cs0. split_and!; [done..|]. rewrite lookup_insert. case_decide as Eg; [|done].
    simpl. apply He. rewrite Eg. by split; [|congruence].
  - intros grp. rewrite lookup_insert. case_decide; [done|apply (wf_users s Hs)].
Qed.

(** The fields of the configuration leave the rest of the object. *)
Lemma read_subscription_new a ctx name fv cs :
  read_subscription StringToPath a ctx name fv = Ret cs ->
  cs_name cs = name /\ cancel cs = ctx /\ instance cs = None /\ opened cs = false.
Proof.
  apply (foldM_inv (read_field StringToPath a) (fun cs => cs_name cs = name /\ cancel cs = ctx /\ instance cs = None /\ opened cs = false));
    [|done]. intros b [fld value] b' _ Hb. unfold read_field.
  repeat case_decide; repeat case_match; intros [= <-]; done.
Qed.

Lemma set_wf ctx name fv s : dialout_wf s -> dialout_wf (set_subscription g T clientTrie StringToPath fmt_sub ctx name fv s).1.
Proof.
  intros Hs. unfold set_subscription, lift, modify, mbind, SE_bind. simpl.
  destruct (read_subscription _ _ _ _ _) as [cs|e|p] eqn:E; [|done..].
  apply read_subscription_new in E as (Hn & _ & Hi & Ho). case_decide as Hgrp; [done|]. simpl.
  set (l := next s + length (paths cs)). set (us := if decide (name ∈ _) then _ else _).
  assert (forall grp n, n ∈ users grp s -> n ∈ default [] (us !! grp)) as Hus.
  { intros grp n Hin. unfold us. case_decide; [done|]. rewrite lookup_insert. case_decide as E; [subst grp|done].
    simpl. by apply elem_of_app; left. }
  assert (name ∈ default [] (us !! destGroupName cs)) as Hname.
  { unfold us. case_decide; [done|]. rewrite lookup_insert_eq. simpl. set_solver. }
  assert (dialout_wf (with_maps (destGrpNameMap s) (<[name := l]> (ClientSubscriptionNameMap s)) us
    (with_next (S l) (with_sub l cs s)))) as Hs1; [|by apply try_NewInstance_quiet; [apply (fresh_unattended s); [done|lia]|]].
  apply wf_with_maps.
  - apply wf_new_object; [done|lia|done|by rewrite Hi|by rewrite Ho].
  - simpl. intros n l0 [[<- <-]|[Hne H0]]%lookup_insert_Some; [exists cs; by rewrite lookup_insert_eq|].
    destruct (wf_names s Hs n l0 H0) as (cs0 & Hl0 & Hn0 & Hg0 & Hu0). exists cs0.
    rewrite lookup_insert_ne by (apply (wf_fresh s Hs) in Hl0 as [? _]; lia). split_and!; auto.
  - intros grp. unfold us. case_decide as Hin; [apply (wf_users s Hs)|]. rewrite lookup_insert.
    case_decide as E; [subst grp|apply (wf_users s Hs)]. simpl.
    apply NoDup_app. split; [apply (wf_users s Hs)|]. split; [|apply NoDup_singleton].
    intros x Hx ->%list_elem_of_singleton. done.
Qed.

Lemma subscription_sound ctx hdel key name fv P :
  sound P (process_subscription g T clientTrie StringToPath fmt_sub ctx hdel key name fv) (fun _ _ => True).
Proof.
  unfold process_subscription. case_decide; [done|].
  apply (guided_step _ _ _ _ _ (fun _ _ => True)); [by intros s [Hs _]|by intros a s s'|].
  intros l. apply (guided_then _ _ _ _ _ (fun _ _ => True)).
  - destruct l as [l|]; [|done]. apply (guided_step _ _ _ _ _ (fun _ _ => True)); [|by intros a s s'|].
    + intros s [Hs _]. pose proof (Close_keeps (Some l) s Hs) as Hk.
      destruct (Close (Some l) s) as [s' [[]|e|p]]; [|by subst s'..].
      by destruct Hk as (l0 & cs & _ & _ & _ & Hs' & _).
    + intros _. apply sound_last, Cancel_keeps.
  - intros _. apply sound_last. intros s Hs. destruct hdel; [by apply delete_wf|by apply set_wf].
Qed.

Lemma change_sound r key op P :
  sound P (processTelemetryClientConfig g T clientTrie StringToPath fmt_sub fmt_groups r key op) (fun _ _ => True).
Proof.
  unfold processTelemetryClientConfig. destruct (HGetAll r _) as [fv|e|p]; [|done..].
  apply (guided_step _ _ _ _ _ (fun _ _ => True)); [|by intros a s s'|].
  { intros s [Hs _]. split; [by apply wf_with_next; [|simpl; lia]|done]. }
  intros ctx. cbv zeta. case_decide; [apply global_sound|].
  destruct (HasPrefix key "DestinationGroup_"); [apply group_sound|].
  destruct (HasPrefix key "Subscription_"); [apply subscription_sound|done].
Qed.
End Changes.

(** Starting over: a new channel, and the object is open. *)
Lemma wf_restart s l cs x y z :
  dialout_wf s -> subs s !! l = Some cs ->
  dialout_wf (with_sub l (with_counts x y z (with_running (Some (next s)) true None cs)) (with_next (S (next s)) s)).
Proof.
  intros Hs Hl. split; simpl.
  - intros n l0 Hn0. destruct (wf_names s Hs n l0 Hn0) as (cs0 & Hl0 & Hc & Hne & Hu).
    destruct (decide (l0 = l)) as [->|]; [|exists cs0; by rewrite lookup_insert_ne].
    assert (cs0 = cs) as -> by congruence. eexists. by rewrite lookup_insert_eq.
  - apply (wf_users s Hs).
  - intros l0 cs0 [[<- <-]|[Hne H0]]%lookup_insert_Some.
    + apply (wf_fresh s Hs) in Hl as [? _]. split; [lia|]. simpl. intros i Ei. assert (next s = i) by congruence. lia.
    + destruct (wf_fresh s Hs l0 cs0 H0) as [? Hf]. split; [lia|]. intros i ?%Hf. lia.
  - intros i ?%(wf_stopped s Hs). lia.
  - intros l0 cs0 [[<- <-]|[Hne H0]]%lookup_insert_Some; [by eexists|by apply (wf_instance s Hs l0)].
  - intros l0 cs0 i Hc [[<- <-]|[Hne H0]]%lookup_insert_Some Ho0 Hi.
    + simpl in Hi. injection Hi as <-. split; [intros ?%(wf_stopped s Hs); lia|].
      intros l2 cs2 [[<- <-]|[Hne2 H2]]%lookup_insert_Some _ Hi2; [done|].
      apply (wf_fresh s Hs l2 cs2 H2) in Hi2. lia.
    + destruct (wf_opened s Hs l0 cs0 i Hc H0 Ho0 Hi) as (Hst & Hu). split; [done|].
      intros l2 cs2 [[<- <-]|[Hne2 H2]]%lookup_insert_Some Ho2 Hi2; [|by eapply Hu].
      simpl in Hi2. assert (next s = i) as Ei by congruence. apply (wf_fresh s Hs l0 cs0 H0) in Hi. lia.
  - intros r Hr. destruct (wf_routines s Hs r Hr) as ([cs0 H0] & Hrr & Ha). split; [|split; [done|]].
    + simpl. rewrite lookup_insert. by case_decide; eexists.
    + intros Hact cs1. simpl. intros [[_ <-]|[Hne H1]]%lookup_insert_Some; [by left|by apply (Ha Hact)].
  - apply (wf_once s Hs).
Qed.

(** ** The routines keep it *)

Lemma round_robin_step p r : round_robin r -> round_robin (step_to p r).
Proof. done. Qed.

Lemma round_robin_publishing resp r : round_robin r -> round_robin (publishing resp r).
Proof. done. Qed.

Lemma round_robin_dialling dest r :
  round_robin r -> p_dests r !! destIdx r = Some dest -> round_robin (dialling dest r).
Proof.
  intros (Hd & Hi & He) Hdest. split; [|split]; simpl.
  - intros k d [Hk|[Hge Hk]]%lookup_app_Some; [by apply Hd|].
    apply list_lookup_singleton_Some in Hk as [Hz ->].
    assert (k = length (dialled r)) as -> by lia. by rewrite <- Hi.
  - rewrite Hi, length_app. simpl. by rewrite Nat.Div0.add_mod_idemp_l.
  - intros E. by rewrite E in Hdest.
Qed.

(** A change that concerns the object [l] only. *)
Definition touches (l : nat) (s s' : dialout) : Prop :=
  routines s' = routines s /\ cancelled s' = cancelled s /\ stopped s ⊆ stopped s' /\
  forall l', l' <> l -> subs s' !! l' = subs s !! l'.

Lemma touches_same l s s' :
  routines s' = routines s -> cancelled s' = cancelled s -> stopped s ⊆ stopped s' -> subs s' = subs s -> touches l s s'.
Proof. intros ? ? ? Hs. split_and!; [done..|]. intros l' _. by rewrite Hs. Qed.

Lemma touches_insert l cs s s' :
  routines s' = routines s -> cancelled s' = cancelled s -> stopped s ⊆ stopped s' -> subs s' = <[l := cs]> (subs s) ->
  touches l s s'.
Proof. intros ? ? ? Hs. split_and!; [done..|]. intros l' Hl. by rewrite Hs, lookup_insert_ne. Qed.

(** What a step of a routine may open: its own object, when it starts over. *)
Definition opens (l : nat) (ev : pub_event) (x : nat) : Prop :=
  match ev with StartTry => x = l | _ => False end.

(** The outcome of a step of routine [r]. *)
Definition stepped (r : routine) (ev : pub_event) (s : dialout) (o : dialout * res routine) : Prop :=
  dialout_wf o.1 /\ touches (p_sub r) s o.1 /\ behaves (fun x => ~ opens (p_sub r) ev x) s o.1 /\
  match o.2 with Ret r' => p_sub r' = p_sub r /\ p_ctx r' = p_ctx r /\ routine_wf o.1 r' | _ => True end.

Lemma behaves_weaken (q q' : nat -> Prop) s s' : (forall l, q' l -> q l) -> behaves q s s' -> behaves q' s s'.
Proof.
  intros Hq [A1 A2 A3 A4 A5 A6 A7]. split; try done. intros l cs' (cs & ? & ? & ? & ? & Ho)%A7. exists cs. by split_and!; auto.
Qed.

(** A routine that differs in what the invariant does not see. *)
Lemma routine_wf_same s r r' :
  p_sub r' = p_sub r -> p_dests r' = p_dests r -> dialled r' = dialled r -> destIdx r' = destIdx r ->
  (active (phase r') = true -> active (phase r) = true) -> routine_wf s r -> routine_wf s r'.
Proof.
  intros Hp Hd Hl Hi Ha (Hs & (H1 & H2 & H3) & Hat). unfold routine_wf, round_robin. rewrite Hp, Hd, Hl, Hi.
  split_and!; auto.
Qed.

Section Steps.
Context (r : routine) (ev : pub_event) (s : dialout) (Hs : dialout_wf s) (cs : clientSubscription).
Context (Hl : subs s !! p_sub r = Some cs).

(** What [r'] keeps of the routine. *)
Definition continues (r' : routine) : Prop := p_sub r' = p_sub r /\ p_ctx r' = p_ctx r.

Lemma stepped_same r' : continues r' -> routine_wf s r' -> stepped r ev s (s, Ret r').
Proof. intros [Hp Hc] Hr. split; [done|]. split; [by apply touches_same|done]. Qed.

Lemma stepped_store cs' r' :
  same_object cs cs' -> continues r' -> routine_wf s r' ->
  stepped r ev s ((store (p_sub r) cs' ≫= fun _ => mret r') s).
Proof.
  intros Hso [Hp Hc] Hr. pose proof Hso as [Hn Hg Hi Ho Hca].
  split; [by eapply wf_store|]. split; [by eapply touches_insert|].
  split; [eapply behaves_insert; try done; simpl; congruence|]. split_and!; [done|done|].
  apply (routine_wf_change s); [done|simpl; set_solver| |done].
  intros l0 cs0 _. simpl. intros [[<- <-]|[Hne H0]]%lookup_insert_Some; [by exists cs|by exists cs0].
Qed.

Lemma stepped_close r' :
  continues r' -> round_robin r' -> active (phase r') = false ->
  stepped r ev s ((Close (Some (p_sub r)) ≫= fun _ => mret r') s).
Proof.
  intros [Hp Hc] Hrr Ha. pose proof (Close_keeps (Some (p_sub r)) s Hs) as Hk. unfold mbind, SE_bind.
  destruct (Close (Some (p_sub r)) s) as [s1 [[]|e|p]]; simpl.
  2, 3: subst s1; split; [done|]; split; [by apply touches_same|done].
  destruct Hk as (l0 & cs0 & [= <-] & Hl0 & Hsub & Hs1 & Hb & Hrt & Hst).
  split; [done|]. split; [eapply touches_insert; try done; apply (be_cancelled _ _ _ Hb)|].
  split; [by eapply behaves_weaken; [|exact Hb]|]. simpl. split_and!; [done|done|].
  split; [|split; [done|by rewrite Ha]]. rewrite Hp, Hsub, lookup_insert_eq. by eexists.
Qed.
End Steps.

Lemma with_counts_same x y z cs : same_object cs (with_counts x y z cs).
Proof. by split. Qed.

Lemma touches_trans l s1 s2 s3 : touches l s1 s2 -> touches l s2 s3 -> touches l s1 s3.
Proof.
  intros (A1 & A2 & A3 & A4) (B1 & B2 & B3 & B4). split_and!; [congruence|congruence|set_solver|].
  intros l' Hl. by rewrite B4, A4.
Qed.

(** A change before the step. *)
Lemma stepped_after r ev s s1 o :
  touches (p_sub r) s s1 -> behaves (fun _ => True) s s1 -> stepped r ev s1 o -> stepped r ev s o.
Proof.
  intros Ht Hb (Hw & Hto & Hbe & Ho). split; [done|]. split; [by eapply touches_trans|]. split; [|done].
  etransitivity; [by eapply behaves_weaken; [|exact Hb]|done].
Qed.

Lemma behaves_quiet s s' :
  next s' = next s -> routines s' = routines s -> cancelled s' = cancelled s -> subs s' = subs s ->
  ClientSubscriptionNameMap s' = ClientSubscriptionNameMap s -> DestGrp2ClientSubMap s' = DestGrp2ClientSubMap s ->
  behaves (fun _ => True) s s'.
Proof. intros Hn Hr Hc Hs ? ?. split; try congruence; [lia|]. intros l cs. rewrite Hs. by exists cs. Qed.

(** Counting, and then closing. *)
Lemma stepped_end r ev s cs x y z r' :
  dialout_wf s -> subs s !! p_sub r = Some cs -> continues r r' -> round_robin r' ->
  stepped r ev s ((store (p_sub r) (with_counts x y z cs) ≫= fun _ => end_stream (p_sub r) r') s).
Proof.
  intros Hs Hl Hp Hrr. set (s1 := with_sub (p_sub r) (with_counts x y z cs) s).
  apply (stepped_after r ev s s1); [by eapply touches_insert|by eapply behaves_insert|].
  by apply (stepped_close r ev s1 (wf_store _ _ _ _ Hs Hl (with_counts_same x y z cs))).
Qed.

Lemma publish_step_wf r ev m s :
  dialout_wf s -> routine_wf s r -> publish_step r ev = Some m -> stepped r ev s (m s).
Proof.
  intros Hs Hwf. pose proof Hwf as ([cs Hl] & Hr & Ha). unfold publish_step.
  assert (load (Some (p_sub r)) s = (s, Ret (p_sub r, cs))) as Hload by (unfold load; simpl; by rewrite Hl).
  assert (active (phase r) = true -> forall p, routine_wf s (step_to p r)) as Hto
    by (intros Hact p; by apply (routine_wf_same s r)).
  assert (forall resp, routine_wf s (publishing resp r)) as Hpub by (intros resp; by apply (routine_wf_same s r)).
  destruct (phase r) as [|dest|conn|conn|conn|] eqn:Ep, ev as [|ok|ok|got ok| |v ok|]; try done; intros [= <-];
    try specialize (Hto eq_refl); try rewrite (SE_bind_Ret _ _ _ _ _ Hload).
  - (* StartTry *)
    set (cs' := with_counts 1 0 0 (with_running (Some (next s)) true None cs)).
    change (stepped r StartTry s (match p_dests r !! destIdx r with
      | None => lift (Panic IndexOutOfRange) | Some dest => mret (dialling dest r) end
      (with_sub (p_sub r) cs' (with_next (S (next s)) s)))).
    assert (dialout_wf (with_sub (p_sub r) cs' (with_next (S (next s)) s))) as Hs1 by (by apply wf_restart).
    assert (behaves (fun x => ~ opens (p_sub r) StartTry x) s (with_sub (p_sub r) cs' (with_next (S (next s)) s))) as Hb.
    { eapply behaves_insert; try done; simpl; (lia || by intros []). }
    destruct (p_dests r !! destIdx r) as [dest|] eqn:Ed;
      (split; [done|]); (split; [by eapply touches_insert|]); (split; [done|]); [|done].
    split; [done|]. split; [done|]. split; [simpl; rewrite lookup_insert_eq; by eexists|].
    split; [by apply round_robin_dialling|]. intros _ cs1. simpl. rewrite lookup_insert_eq. intros [= <-]. by left.
  - (* Dialled *)
    unfold get_state. unfold mbind at 1, SE_bind at 1. case_decide; [by eapply stepped_close|].
    destruct ok; [|by eapply stepped_same].
    split; [apply wf_with_next; [done|lia]|]. split; [by apply touches_same|].
    split; [|by split_and!; [| |apply Hto]]. split; try done; simpl; [lia|]. intros l0 cs0 ?. by exists cs0.
  - (* Published *)
    destruct ok; cbn [negb]; cbv iota.
    + rewrite (SE_bind_Ret _ _ _ _ _ Hload). destruct (connection cs); [|by eapply stepped_store].
      split; [by apply wf_with_ended|]. split; [by apply touches_same|].
      split; [|by split_and!; [| |apply Hto]]. by eapply behaves_weaken; [|apply behaves_quiet].
    + set (s1 := with_ended (cancelled s) (stopped s) ({[conn]} ∪ hung_up s) s).
      apply (stepped_after r _ s s1); [by apply touches_same|by apply behaves_quiet|].
      by apply (stepped_close r _ s1 (wf_with_ended _ _ _ Hs)).
  - (* Report *)
    destruct (report cs); try (by eapply stepped_same). unfold get_state. unfold mbind at 1, SE_bind at 1.
    destruct (is_stopped s cs); [by eapply stepped_same|]. destruct got as [vs|e|p]; [|by eapply stepped_same|].
    2: { split; [done|]. split; [by apply touches_same|]. by split. }
    destruct ok; [by eapply stepped_store|]. by eapply (stepped_close r _ s Hs).
  - (* StreamStart *)
    destruct (report cs); by eapply stepped_same.
  - (* StreamSend *)
    unfold get_state. unfold mbind at 1, SE_bind at 1. destruct (is_stopped s cs); [by eapply stepped_same|].
    destruct (ValToResp v) as [resp|e|p]; [|by apply stepped_end..].
    destruct ok; [by eapply stepped_store|by apply stepped_end].
  - (* StreamDisposed *)
    unfold get_state. unfold mbind at 1, SE_bind at 1. destruct (is_stopped s cs); [|by eapply stepped_same].
    by eapply (stepped_close r _ s Hs).
Qed.

(** ** Whole runs *)

(** What the step of routine [i] opens. *)
Definition opened_by (i : nat) (ev : pub_event) (s : dialout) (x : nat) : Prop :=
  exists r, routines s !! i = Some r /\ opens (p_sub r) ev x.

Lemma routine_step_keeps i ev s :
  dialout_wf s ->
  dialout_wf (routine_step i ev s).1 /\ behaves (fun x => ~ opened_by i ev s x) s (routine_step i ev s).1.
Proof.
  intros Hs. unfold routine_step. unfold get_state. unfold mbind at 1 3, SE_bind at 1 3.
  destruct (routines s !! i) as [r|] eqn:Hi; [|done].
  pose proof (wf_routines s Hs r (list_elem_of_lookup_2 _ _ _ Hi)) as Hwf.
  destruct (publish_step r ev) as [m|] eqn:Em; [|done].
  destruct (publish_step_wf r ev m s Hs Hwf Em) as (Hs' & (Hrt & _) & Hb & Hr').
  assert (behaves (fun x => ~ opened_by i ev s x) s (m s).1) as Hb'.
  { eapply behaves_weaken; [|exact Hb]. intros x Hx Ho. apply Hx. by exists r. }
  unfold mbind, SE_bind. destruct (m s) as [s' [r'|e|p]]; simpl in *; [|done..].
  destruct Hr' as (Hp & _ & Hwf'). assert (p_sub <$> <[i:=r']> (routines s') = p_sub <$> routines s') as Eps.
  { rewrite list_fmap_insert, list_insert_id; [done|]. by rewrite list_lookup_fmap, Hrt, Hi, Hp. }
  split.
  - apply wf_with_routines; [done| |rewrite Eps; apply (wf_once s' Hs')].
    intros r0 Hr0. apply list_elem_of_lookup in Hr0 as [j Hj].
    apply list_lookup_insert_Some in Hj as [(<- & <- & _)|[Hne Hj]]; [done|].
    apply (wf_routines s' Hs'). by eapply list_elem_of_lookup_2.
  - etransitivity; [exact Hb'|]. split; try done. intros l cs ?. by exists cs.
Qed.

(** The whole: between two steps of a change something is known that the
    routines leave. *)
Definition system_wf (y : system) : Prop :=
  dialout_wf (dial y) /\
  match changing y with Some p => in_flight dialout_wf others p (dial y) | None => True end.

End Invariant.

(** No routine starts over while a change is made. *)
Definition calm (e : dial_event) (y : system) : Prop :=
  match e with Routine_ _ StartTry => changing y = None | _ => True end.

Section Runs.
Context `{RangeOrder} (g : dbconf) (T : clients) (clientTrie : Trie dataGetFunc).
Context (StringToPath : string -> res Path) (fmt_sub : clientSubscription -> string)
  (fmt_groups : gmap string (list string) -> string).
Abbreviation step := (dial_step g T clientTrie StringToPath fmt_sub fmt_groups).
Abbreviation run := (run_dialout g T clientTrie StringToPath fmt_sub fmt_groups).
Abbreviation during := (throughout g T clientTrie StringToPath fmt_sub fmt_groups).

Lemma go_on_wf c p y :
  dialout_wf c (dial y) -> in_flight (dialout_wf c) (behaves (fun _ => c)) p (dial y) -> system_wf c (go_on p y).1.
Proof. intros Hy Hp. destruct p as [[[]|e|q]|B m k]; by split. Qed.

Lemma dial_step_wf c e y : system_wf c y -> (c -> calm e y) -> system_wf c (step e y).1.
Proof.
  intros [Hs Hch] Hcalm. destruct e as [key op r| |i ev]; simpl.
  - unfold get_state. unfold mbind at 1, SE_bind at 1. destruct (changing y) as [p|]  eqn:Ep; [change (system_wf c y); split; [done|by rewrite Ep]|].
    apply go_on_wf; [done|]. exists (fun _ => True). split; [by intros s s'|]. split; [done|apply change_sound].
  - unfold get_state. unfold mbind at 1, SE_bind at 1. destruct (changing y) as [p|] eqn:Ep; [|change (system_wf c y); split; [done|by rewrite Ep]].
    destruct (in_flight_advance _ _ p (dial y) Hs Hch) as [Hs' Hp']. unfold on_dial, mbind, SE_bind.
    destruct (advance p (dial y)) as [s' [p'|e|q]]; simpl in *; [|done..]. by apply go_on_wf.
  - unfold on_dial. destruct (routine_step_keeps c i ev (dial y) Hs) as [Hs' Hb].
    destruct (routine_step i ev (dial y)) as [s' r']. simpl in *. split; [done|]. simpl.
    destruct (changing y) as [p|] eqn:Ep; [|done].
    eapply in_flight_others; [exact Hs| |done|exact Hch]. eapply behaves_weaken; [|exact Hb].
    intros x Hc (r & _ & Ho). specialize (Hcalm Hc). by destruct ev; simpl in *.
Qed.

Lemma run_wf c es y : system_wf c y -> (c -> during calm es y) -> system_wf c (run es y).1.
Proof.
  revert y. induction es as [|e es IH]; intros y Hy Hc; [done|]. cbn [run_dialout forM]. unfold run_dialout in *.
  cbn [forM]. unfold mbind, SE_bind. pose proof (dial_step_wf c e y Hy (fun H => proj1 (Hc H))) as Hy'.
  assert (c -> during calm es (step e y).1) as Hc' by (intros ?; by apply Hc).
  destruct (step e y) as [y' [[]|er|q]]; [|done..]. by apply IH.
Qed.
End Runs.

Definition no_dialout (cfg : ClientConfig) (v : vstate) : system := {|
  dial := {|
    clientCfg := cfg; destGrpNameMap := ∅; ClientSubscriptionNameMap := ∅; DestGrp2ClientSubMap := ∅;
    subs := ∅; next := 0; cancelled := ∅; stopped := ∅; hung_up := ∅; routines := []; d_virtual := v |};
  changing := None |}.

Lemma no_dialout_wf c cfg v : system_wf c (no_dialout cfg v).
Proof.
  split; [|done]. split; simpl; try (intros *; by rewrite ?lookup_empty).
  - intros grp. unfold users. simpl. rewrite lookup_empty. constructor.
  - intros r ?%elem_of_nil. done.
  - constructor.
Qed.

Section Theorems.
Context `{RangeOrder} (g : dbconf) (T : clients) (clientTrie : Trie dataGetFunc).
Context (StringToPath : string -> res Path) (fmt_sub : clientSubscription -> string)
  (fmt_groups : gmap string (list string) -> string).
Abbreviation run := (run_dialout g T clientTrie StringToPath fmt_sub fmt_groups).
Abbreviation during := (throughout g T clientTrie StringToPath fmt_sub fmt_groups).


(** C17. Failover: every publish routine tries the destinations of its group
    round robin.  Its [k]-th try goes to destination [k] modulo their number,
    for every way dialling, publishing and the configuration go; after a
    failure the next destination is tried, and after the last the first. *)
Theorem failover (cfg : ClientConfig) (v : vstate) (es : list dial_event) (r : routine) (k : nat) (d : string)
  (Hr : r ∈ routines (dial (run es (no_dialout cfg v)).1)) (Hd : dialled r !! k = Some d) :
  p_dests r !! Nat.modulo k (length (p_dests r)) = Some d.
Proof.
  destruct (run_wf g T clientTrie StringToPath fmt_sub fmt_groups False es _ (no_dialout_wf _ cfg v) ltac:(done)) as [Hs _].
  destruct (wf_routines _ _ Hs r Hr) as (_ & [Hrr _] & _). by apply Hrr.
Qed.
End Theorems.

(** ** Witnesses *)

(** A path parser that splits at slashes. *)
Definition sample_parse (p : string) : res Path :=
  Ret {| Origin := ""; Target := ""; Element := [];
         Elem := (fun n => {| Name := n; Key := None |}) <$> filter (fun n => n <> "") (Split p "/") |}.

(** Two destinations, and a stream of one field to them. *)
Definition sample_telemetry (k : string) : hash :=
  if HasSuffix k "DestinationGroup_HS" then {["dst_addr" := "10.1.1.1:8080,10.1.1.2:8080"]}
  else if HasSuffix k "Subscription_bgp" then
    list_to_map [("dst_group", "HS"); ("report_type", "stream"); ("path_target", "STATE_DB");
                 ("paths", "/NEIGH_STATE_TABLE/10.0.0.57/state")]
  else ∅.

Definition sample_config_redis : redis := {|
  RedisDb.Ping := Ret tt; RedisDb.Keys := fun _ => Ret []; RedisDb.Exists := fun _ => Ret 0%Z;
  RedisDb.HGet := fun _ _ => Fail (Err "redis: nil"); RedisDb.HGetAll := fun k => Ret (sample_telemetry k) |}.

Definition sample_cfg : ClientConfig :=
  {| SrcIp := ""; RetryInterval := 30 * Second; cfg_Encoding := 4; Unidirectional := true |}.

Definition sample_run : list dial_event -> system * res unit := fun es =>
  run_dialout (H := default_order) single_conf sample_clients NewTrie sample_parse cs_name (fun _ => "") es
    (no_dialout sample_cfg empty_vstate).

Definition sample_dialout (es : list dial_event) : dialout := dial (sample_run es).1.

(** A change with nothing in between: the steps it does not need do nothing. *)
Definition changes (key op : string) : list dial_event :=
  Config key op sample_config_redis :: replicate 12 Config_step.

Definition set_up : list dial_event :=
  changes "DestinationGroup_HS" "hset" ++ changes "Subscription_bgp" "hset".

(** Routine [i] gets to its stream. *)
Definition connects (i : nat) : list dial_event :=
  [Routine_ i StartTry; Routine_ i (Dialled true); Routine_ i (Published true); Routine_ i StreamStart].

Definition bgp_value : Value :=
  DataValue (target_prefix "STATE_DB") (elems_path 1 ["NEIGH_STATE_TABLE"]) 7 (StringVal "Established").

Definition failed_over : dialout :=
  sample_dialout (set_up ++ [Routine_ 0 StartTry; Routine_ 0 (Dialled false); Routine_ 0 StartTry]).






(** The routine of the stream gives up, and starts over after the change of
    its group closed its object and before it copies it: the copy shares the
    new channel and counts as open.  The routine finds its context cancelled
    and closes the channel; when the next change closes the copy, before the
    routine of the copy runs, it closes the channel again. *)
Example restart_shares :
  (sample_run (set_up ++ connects 0 ++ [Routine_ 0 (StreamSend bgp_value false)] ++
     [Config "DestinationGroup_HS" "hset" sample_config_redis] ++ replicate 5 Config_step ++
     [Routine_ 0 StartTry] ++ replicate 7 Config_step ++ [Routine_ 0 (Dialled false)] ++
     changes "Subscription_bgp" "hdel")).2 = Panic CloseOfClosedChannel.
Proof. vm_compute. reflexivity. Qed.

Lemma failover_witness :
  exists r, routines failed_over !! 0 = Some r /\
    dialled r !! 1 = Some "10.1.1.2:8080" /\ p_dests r !! 1 = Some "10.1.1.2:8080".
Proof.
  destruct (routines failed_over !! 0) as [r|] eqn:E; [|vm_compute in E; discriminate].
  assert (dialled <$> routines failed_over !! 0 = Some ["10.1.1.1:8080"; "10.1.1.2:8080"]) as Hd by (vm_compute; reflexivity).
  assert (length ∘ p_dests <$> routines failed_over !! 0 = Some 2) as Hl by (vm_compute; reflexivity).
  rewrite E in Hd, Hl. simpl in Hd, Hl. apply (inj Some) in Hd, Hl.
  exists r. split; [done|]. rewrite Hd. split; [done|].
  pose proof (failover (H := default_order) single_conf sample_clients NewTrie sample_parse cs_name (fun _ => "") sample_cfg
    empty_vstate _ r 1 "10.1.1.2:8080" ltac:(eapply list_elem_of_lookup_2, E) ltac:(rewrite Hd; reflexivity)) as Hf.
  rewrite Hl in Hf. exact Hf.
Defined.

