(* ===== verification/DialoutDelete.v ===== *)
(** * Dial-out: deleting a subscription

    What stays when the configuration changes, and from it that the routine
    of a deleted subscription falls silent. *)

From stdpp Require Import base tactics list fin_maps gmap strings pretty.
From Stdlib Require Import ZArith Ascii Lia.
From S2P Require Import Prelude Steps GoStrings Messages DbConfig RedisDb Trie VirtualDb DbClient StatsRing NonDb.
From S2P Require Import Auth TranslUtils TranslClient Server Dialout DialoutInv.

Local Open Scope string_scope.
Local Open Scope list_scope.

(** ** Deleting a subscription *)

(** What a change of the configuration leaves of what there is. *)
Record later (s s' : dialout) : Prop := {
  lt_next : next s <= next s';
  lt_routines : routines s `prefix_of` routines s';
  lt_subs l cs : l < next s -> subs s !! l = Some cs ->
    exists cs', subs s' !! l = Some cs' /\ instance cs' = instance cs;
  lt_stopped : stopped s ⊆ stopped s';
  lt_cancelled : cancelled s ⊆ cancelled s';
}.

#[local] Instance later_preorder : PreOrder later.
Proof.
  split; [split; eauto; lia|].
  intros s1 s2 s3 [A1 A2 A3 A4 A5] [B1 B2 B3 B4 B5]. split; [lia|by etransitivity| |set_solver|set_solver].
  intros l cs Hl Hcs. destruct (A3 l cs Hl Hcs) as (cs2 & H2 & Hi2).
  destruct (B3 l cs2 ltac:(lia) H2) as (cs3 & H3 & Hi3). exists cs3. split; [done|congruence].
Qed.

Abbreviation lasting m := (does later m (fun _ => True)).

Lemma last_then {A B} (m : SE dialout A) (k : A -> SE dialout B) : lasting m -> (forall a, lasting (k a)) -> lasting (m ≫= k).
Proof. intros Hm Hk. eapply (does_bind _ _ _ (fun _ => True)); auto. Qed.

Lemma last_ret {A} (a : A) : lasting (mret a).
Proof. by apply (does_ret _). Qed.
Lemma last_lift {A} (m : res A) : lasting (lift m).
Proof. by apply (does_lift _). Qed.
Lemma last_modify (f : dialout -> dialout) : (forall s, later s (f s)) -> lasting (modify f).
Proof. intros Hf s. by split; [apply Hf|]. Qed.
Lemma last_named name : lasting (named name).
Proof. by intros s. Qed.
Lemma last_fresh : lasting fresh.
Proof. intros s. split; [|done]. split; simpl; eauto; lia. Qed.

(** Loading an object and storing one with the same channel. *)
Lemma later_store s l cs cs' : subs s !! l = Some cs -> instance cs' = instance cs -> later s (with_sub l cs' s).
Proof.
  intros Hl Hi. split; simpl; eauto. intros l0 cs0 _ H0. destruct (decide (l0 = l)) as [->|].
  - exists cs'. rewrite lookup_insert_eq. split; [done|congruence].
  - exists cs0. by rewrite lookup_insert_ne.
Qed.

Lemma later_new s l cs n : next s <= l -> next s <= n -> later s (with_next n (with_sub l cs s)).
Proof.
  intros Hl Hn. split; simpl; eauto. intros l0 cs0 Hlt H0. exists cs0. rewrite lookup_insert_ne by lia. done.
Qed.

Lemma last_load l : lasting (load l).
Proof. intros s. unfold load. by destruct (l ← l; cs ← subs s !! l; Some (l, cs)). Qed.

Lemma last_Close l : lasting (Close l).
Proof.
  intros s. unfold Close, load, mbind, SE_bind. simpl. destruct l as [l|]; [|done]. simpl.
  destruct (subs s !! l) as [cs|] eqn:Hl; [|done]. simpl. destruct (opened cs); [|done]. simpl.
  destruct (is_stopped s cs); [done|]. simpl. split; [|done].
  set (s1 := with_ended _ _ _ s). transitivity s1; [split; simpl; eauto; set_solver|].
  by apply (later_store s1 l cs).
Qed.

Lemma last_Cancel l : lasting (Cancel l).
Proof.
  apply last_then; [apply last_load|]. intros [l0 cs]. apply last_modify. intros s. split; simpl; eauto. set_solver.
Qed.

Lemma last_forM {A} (f : A -> SE dialout unit) l : (forall x, lasting (f x)) -> lasting (forM f l).
Proof. apply (does_forM _). Qed.

Abbreviation all_lasting := (each later).

Section Lasting.
Context `{RangeOrder} (g : dbconf) (T : clients) (clientTrie : Trie dataGetFunc).
Context (StringToPath : string -> res Path) (fmt_sub : clientSubscription -> string)
  (fmt_groups : gmap string (list string) -> string).

Lemma last_NewInstance ctx l : lasting (NewInstance g T clientTrie fmt_sub ctx l).
Proof.
  intros s. split; [|by case_match]. unfold NewInstance, load, mbind, SE_bind. simpl.
  destruct (subs s !! l) as [cs|] eqn:Hl; simpl; [|done].
  case_decide; [done|]. simpl. destruct (destGrpNameMap s !! destGroupName cs) as [dests|]; [|done].
  case_decide; [done|]. unfold catch, new_client. 
  assert (forall s1 v, s1 = with_routines (routines s) v s -> forall c,
    later s (go_publishRun ctx l dests (with_sub l (with_dc c cs) s1)).1) as Hgo.
  { intros s1 v -> c. transitivity (with_sub l (with_dc c cs) s); [by apply (later_store s l cs)|].
    split; simpl; eauto. by exists [new_routine l ctx dests]. }
  assert (with_routines (routines s) (d_virtual s) s = s) as Hid by by destruct s.
  case_decide.
  - destruct (NewNonDbClient _ _ _) as [c|e|p]; simpl; [|done..]. apply (Hgo s (d_virtual s)). by rewrite Hid.
  - destruct (NewDbClient _ _ _ _ _) as [v [c|e|p]]; simpl; [|split; simpl; eauto..].
    by apply (Hgo (with_routines (routines s) v s) v eq_refl (OfDb c)).
Qed.

Lemma last_try ctx l : lasting (try_NewInstance g T clientTrie fmt_sub ctx l).
Proof. eapply (does_catch _ _ _ _ (fun _ => True)); [apply last_NewInstance|intros; apply last_ret..]. Qed.

Lemma last_alloc {A} cs (k : nat -> SE dialout A) :
  (forall l, lasting (k l)) -> lasting (l ← fresh; store l cs ≫= fun _ => k l).
Proof.
  intros Hk s. set (s1 := with_next (S (next s)) (with_sub (next s) cs s)).
  destruct (Hk (next s) s1) as [Hl _]. split; [|by case_match].
  transitivity s1; [by apply later_new; [|lia]|exact Hl].
Qed.

Lemma each_last {A} (m : SE dialout A) : lasting m -> all_lasting (atomically m).
Proof. by apply each_atomically. Qed.

Lemma last_copy name : lasting (copy_subscription name).
Proof.
  apply last_then; [apply last_named|]. intros l. apply last_then; [apply last_load|]. intros [l0 cs].
  apply last_alloc. intros l'. apply last_ret.
Qed.

Lemma last_maps (d : dialout -> _) (n : dialout -> _) (u : dialout -> _) :
  lasting (modify (fun s => with_maps (d s) (n s) (u s) s)).
Proof. apply last_modify. intros s. split; simpl; eauto. Qed.

Lemma each_setup ctx grp : all_lasting (setupDestGroupClients g T clientTrie fmt_sub ctx grp).
Proof.
  split; [by intros s|]. intros s. apply each_for. intros name. split; [apply last_copy|]. intros l'.
  apply each_last, last_then; [apply last_try|]. intros _. apply (last_maps _ (fun s => <[name := l']> _)).
Qed.

Lemma each_close l : all_lasting (close_and_cancel l).
Proof. split; [apply last_Close|]. intros _. apply each_last, last_Cancel. Qed.

Lemma each_closeDest grp : all_lasting (closeDestGroupClient grp).
Proof.
  split; [by intros s|]. intros s. apply each_for. intros name. split; [apply last_named|]. intros l. apply each_close.
Qed.

Lemma each_global ctx hdel key fv : all_lasting (process_global g T clientTrie fmt_sub ctx hdel key fv).
Proof.
  unfold process_global. destruct hdel; [done|]. split.
  { apply last_modify. intros s. split; simpl; eauto. }
  intros _. split; [by intros s|]. intros s. apply each_for. intros kv.
  apply each_bind; [apply each_closeDest|intros _; apply each_setup].
Qed.

Lemma each_group ctx hdel key grp fv : all_lasting (process_group g T clientTrie fmt_sub fmt_groups ctx hdel key grp fv).
Proof.
  unfold process_group. case_decide; [done|]. apply each_bind; [apply each_closeDest|]. intros _. destruct hdel.
  - apply each_last, last_then; [by intros s|]. intros s.
    destruct (DestGrp2ClientSubMap s !! grp); [apply last_lift|apply (last_maps (fun s => delete grp _))].
  - split; [|intros _; apply each_setup]. apply last_then; [apply last_lift|]. intros ds.
    apply (last_maps (fun s => <[grp := ds]> _)).
Qed.

Lemma last_delete name : lasting (delete_subscription name).
Proof.
  apply last_then; [apply last_named|]. intros l0. apply last_then; [apply last_load|]. intros [l1 cs].
  apply last_modify. intros s. split; simpl; eauto.
Qed.

Lemma last_set ctx name fv : lasting (set_subscription g T clientTrie StringToPath fmt_sub ctx name fv).
Proof.
  intros s. split; [|by case_match]. unfold set_subscription. unfold get_state. unfold mbind at 1, SE_bind at 1.
  unfold lift. unfold mbind at 1, SE_bind at 1.
  destruct (read_subscription _ _ _ _ _) as [cs|e|p]; [|done..]. case_decide; [done|].
  unfold modify. unfold mbind at 1, SE_bind at 1. set (s1 := with_maps _ _ _ _).
  destruct (last_try ctx (next s + length (paths cs)) s1) as [Hl _].
  transitivity s1; [|exact Hl].
  transitivity (with_next (S (next s + length (paths cs))) (with_sub (next s + length (paths cs)) cs s)).
  - apply later_new; lia.
  - split; simpl; eauto.
Qed.

Lemma each_subscription ctx hdel key name fv :
  all_lasting (process_subscription g T clientTrie StringToPath fmt_sub ctx hdel key name fv).
Proof.
  unfold process_subscription. case_decide; [done|]. split; [apply last_named|]. intros l. apply each_bind.
  - destruct l; [apply each_close|done].
  - intros _. apply each_last. destruct hdel; [apply last_delete|apply last_set].
Qed.

Lemma each_change r key op :
  all_lasting (processTelemetryClientConfig g T clientTrie StringToPath fmt_sub fmt_groups r key op).
Proof.
  unfold processTelemetryClientConfig. destruct (HGetAll r _) as [fv|e|p]; [|done..].
  split; [apply last_fresh|]. intros ctx. cbv zeta. case_decide; [apply each_global|].
  destruct (HasPrefix key "DestinationGroup_"); [apply each_group|].
  destruct (HasPrefix key "Subscription_"); [apply each_subscription|done].
Qed.
End Lasting.

(** ** A routine whose context is cancelled *)

(** The answers a call gets on a context that is cancelled. *)
Definition refused (ev : pub_event) : Prop :=
  match ev with
  | Dialled ok | Published ok | Report _ ok | StreamSend _ ok => ok = false
  | _ => True
  end.

(** Routine [i] has published [out] and tried to connect [n] times, or is on
    its last try.  Its channel is closed or, when [law] holds, its calls are
    refused: then it may have offered one more message. *)
Definition doomed (law : bool) (i l : nat) (out : list SubscribeResponse) (n : nat) (s : dialout) : Prop :=
  exists r cs extra, routines s !! i = Some r /\ p_sub r = l /\ subs s !! l = Some cs /\ p_ctx r ∈ cancelled s /\
    published r = out ++ extra /\
    match phase r with
    | Exited | Dialing _ => length extra <= Nat.b2n law /\ length (dialled r) <= S n
    | Restart => length extra <= Nat.b2n law /\ length (dialled r) <= n
    | _ => extra = [] /\ length (dialled r) <= n /\ (law = false -> is_stopped s cs = true)
    end.

Lemma is_stopped_mono s s' cs cs' :
  stopped s ⊆ stopped s' -> instance cs' = instance cs -> is_stopped s cs = true -> is_stopped s' cs' = true.
Proof.
  intros Hst Hi. unfold is_stopped. rewrite Hi. destruct (instance cs); [|done]. simpl.
  rewrite !bool_decide_eq_true. set_solver.
Qed.

Lemma doomed_phase law r s s' cs cs' n (extra : list SubscribeResponse) :
  stopped s ⊆ stopped s' -> instance cs' = instance cs ->
  match phase r with
  | Exited | Dialing _ => length extra <= Nat.b2n law /\ length (dialled r) <= S n
  | Restart => length extra <= Nat.b2n law /\ length (dialled r) <= n
  | _ => extra = [] /\ length (dialled r) <= n /\ (law = false -> is_stopped s cs = true)
  end ->
  match phase r with
  | Exited | Dialing _ => length extra <= Nat.b2n law /\ length (dialled r) <= S n
  | Restart => length extra <= Nat.b2n law /\ length (dialled r) <= n
  | _ => extra = [] /\ length (dialled r) <= n /\ (law = false -> is_stopped s' cs' = true)
  end.
Proof.
  intros Hst Hi. destruct (phase r); try done; intros (? & ? & Hs); (split_and!; [done|done|]);
    intros Hl; apply (is_stopped_mono s s' cs cs'); auto.
Qed.

Section Doomed.
Context (law : bool).

Lemma doomed_later i l out n s s' c :
  dialout_wf c s -> later s s' -> doomed law i l out n s -> doomed law i l out n s'.
Proof.
  intros Hs [_ [k Hk] Hsub Hst Hca] (r & cs & x & Hi & Hp & Hl & Hc & Ho & Hph).
  destruct (Hsub l cs) as (cs' & Hl' & Hi'); [by destruct (wf_fresh _ s Hs l cs Hl)|done|].
  exists r, cs', x. split_and!; [|done|done|set_solver|done|by eapply doomed_phase].
  rewrite Hk. by apply lookup_app_l_Some.
Qed.

(** A step of another routine. *)
Lemma doomed_touches i l l0 out n s s' :
  l0 <> l -> touches l0 s s' -> doomed law i l out n s -> doomed law i l out n s'.
Proof.
  intros Hne (Hr & Hc & Hst & Hsub) (r & cs & x & Hi & Hp & Hl & Hca & Ho & Hph).
  exists r, cs, x. split_and!; [by rewrite Hr|done|by rewrite Hsub|by rewrite Hc|done|by eapply doomed_phase].
Qed.

(** Its own step: [r'] is put in its place. *)
Lemma doomed_put i l out n s r r' cs extra :
  routines s !! i = Some r -> p_sub r' = l -> subs s !! l = Some cs -> p_ctx r' ∈ cancelled s ->
  published r' = out ++ extra ->
  match phase r' with
  | Exited | Dialing _ => length extra <= Nat.b2n law /\ length (dialled r') <= S n
  | Restart => length extra <= Nat.b2n law /\ length (dialled r') <= n
  | _ => extra = [] /\ length (dialled r') <= n /\ (law = false -> is_stopped s cs = true)
  end ->
  doomed law i l out n (put_routine i r' s).1.
Proof.
  intros Hi Hp Hl Hc Ho Hph. exists r', cs, extra. simpl. split_and!; try done.
  apply list_lookup_insert_eq. by eapply lookup_lt_Some.
Qed.

Definition own_outcome i l out n (o : dialout * res routine) : Prop :=
  match o with
  | (s', Ret r') => doomed law i l out n (put_routine i r' s').1
  | (s', _) => doomed law i l out n s'
  end.

(** Closing its object and going to [r']. *)
Lemma doomed_close c i l out n s r r' cs extra :
  dialout_wf c s -> doomed law i l out n s -> routines s !! i = Some r -> p_sub r' = l -> subs s !! l = Some cs ->
  p_ctx r' ∈ cancelled s -> published r' = out ++ extra -> length extra <= Nat.b2n law ->
  match phase r' with
  | Exited => length (dialled r') <= S n | Restart => length (dialled r') <= n | _ => False
  end ->
  own_outcome i l out n ((Close (Some l) ≫= fun _ => mret r') s).
Proof.
  intros Hs Hd Hi Hp Hl Hc Ho Hx Hph. pose proof (Close_keeps c (Some l) s Hs) as Hk. unfold mbind, SE_bind.
  destruct (Close (Some l) s) as [s' [[]|e|p]]; [|by subst s'..].
  destruct Hk as (l0 & cs0 & [= <-] & Hl0 & Hsub & _ & Hb & Hrt & _). simpl.
  eapply doomed_put; [by rewrite Hrt|done|by rewrite Hsub, lookup_insert_eq| |done|].
  - by rewrite (be_cancelled _ _ _ Hb).
  - by destruct (phase r').
Qed.

Lemma doomed_step c i l out n s r ev m :
  dialout_wf c s -> doomed law i l out n s -> routines s !! i = Some r -> publish_step r ev = Some m ->
  (law = true -> refused ev) -> own_outcome i l out n (m s).
Proof.
  intros Hs Hd Hi' Em Hlaw. pose proof Hd as (r0 & cs & x & Hi & Hp & Hl & Hc & Ho & Hph).
  assert (r0 = r) as -> by congruence. clear Hi'.
  assert (load (Some (p_sub r)) s = (s, Ret (p_sub r, cs))) as Hload by (unfold load; simpl; by rewrite Hp, Hl).
  assert (forall r', p_sub r' = p_sub r -> p_ctx r' = p_ctx r -> published r' = published r ->
    match phase r' with
    | Exited | Dialing _ => length x <= Nat.b2n law /\ length (dialled r') <= S n
    | Restart => length x <= Nat.b2n law /\ length (dialled r') <= n
    | _ => x = [] /\ length (dialled r') <= n /\ (law = false -> is_stopped s cs = true)
    end -> doomed law i l out n (put_routine i r' s).1) as Hput.
  { intros r' H1 H2 H3 H4. eapply doomed_put; [done|by rewrite H1|done|by rewrite H2|by rewrite H3|done]. }
  unfold publish_step in Em. rewrite Hp in Hload, Em.
  destruct (phase r) as [|dest|conn|conn|conn|] eqn:Ep, ev as [|ok|ok|got ok| |v ok|]; try done; injection Em as <-;
    try rewrite (SE_bind_Ret _ _ _ _ _ Hload).
  - (* StartTry *)
    set (cs1 := with_counts 1 0 0 (with_running (Some (next s)) true None cs)).
    set (s1 := with_sub l cs1 (with_next (S (next s)) s)).
    change (own_outcome i l out n (match p_dests r !! destIdx r with
      | None => lift (Panic IndexOutOfRange) | Some dest => mret (dialling dest r) end s1)).
    assert (subs s1 !! l = Some cs1) as Hl1 by (simpl; by rewrite lookup_insert_eq).
    destruct (p_dests r !! destIdx r) as [dest|]; simpl.
    + eapply (doomed_put _ _ _ _ s1); [done|done|done|done|done|]. simpl. rewrite length_app. simpl. lia.
    + exists r, cs1, x. rewrite Ep. destruct Hph. by split_and!.
  - (* Dialled *)
    unfold get_state. unfold mbind at 1, SE_bind at 1. rewrite decide_True by done. eapply doomed_close; try done; apply Hph.
  - (* Published *)
    destruct Hph as (-> & Hn & Hst). destruct ok; cbn [negb]; cbv iota.
    + assert (law = false) as Hfalse by (destruct law; [by specialize (Hlaw eq_refl)|done]).
      rewrite (SE_bind_Ret _ _ _ _ _ Hload). destruct (connection cs) as [k|].
      * set (s1 := with_ended (cancelled s) (stopped s) ({[conn]} ∪ hung_up s) s).
        change (doomed law i l out n (put_routine i (step_to Exited r) s1).1).
        eapply (doomed_put _ _ _ _ s1); [done|done|done|done|done|]. simpl. lia.
      * set (cs1 := with_running (instance cs) (opened cs) (Some conn) cs). set (s1 := with_sub l cs1 s).
        change (doomed law i l out n (put_routine i (step_to match report cs with
                          | Periodic | Stream => Reporting conn | _ => Exited end r) s1).1).
        assert (subs s1 !! l = Some cs1) as Hl1 by (simpl; by rewrite lookup_insert_eq).
        eapply (doomed_put _ _ _ _ s1); [done|done|done|done|done|]. simpl. destruct (report cs); simpl; auto with lia.
    + set (s1 := with_ended (cancelled s) (stopped s) ({[conn]} ∪ hung_up s) s).
      change (own_outcome i l out n ((Close (Some l) ≫= fun _ => mret (step_to Restart r)) s1)).
      eapply (doomed_close c _ _ _ _ s1); try done; [by apply wf_with_ended|simpl; lia].
  - (* Report *)
    destruct Hph as (-> & Hn & Hst). destruct (report cs); try (by apply Hput; rewrite ?Ep).
    unfold get_state. unfold mbind at 1, SE_bind at 1. destruct (is_stopped s cs) eqn:Es; [apply Hput; simpl; auto with lia|].
    assert (law = true) as Elaw by (destruct law; [done|by specialize (Hst eq_refl)]).
    specialize (Hlaw Elaw). simpl in Hlaw. subst ok.
    destruct got as [vs|e|p]; [|by apply Hput; rewrite ?Ep|done].
    eapply (doomed_close c _ _ _ _ _ _ (step_to Restart (publishing (report_of cs vs) r)) _ [report_of cs vs]); try done;
      simpl; [by rewrite Ho, app_nil_r|by rewrite Elaw].
  - (* StreamStart *)
    destruct Hph as (-> & Hn & Hst). destruct (report cs); try (by apply Hput; rewrite ?Ep).
    unfold get_state. unfold mbind at 1, SE_bind at 1.
    destruct (is_stopped s cs) eqn:Es; apply Hput; simpl; auto with lia.
  - (* StreamSend *)
    destruct Hph as (-> & Hn & Hst). unfold get_state. unfold mbind at 1, SE_bind at 1.
    destruct (is_stopped s cs) eqn:Es; [by apply Hput; rewrite ?Ep|].
    assert (law = true) as Elaw by (destruct law; [done|by specialize (Hst eq_refl)]).
    specialize (Hlaw Elaw). simpl in Hlaw. subst ok.
    assert (forall x y z, doomed law i l out n (with_sub l (with_counts x y z cs) s)) as Hd'.
    { intros a b d. exists r, (with_counts a b d cs), []. rewrite Ep, Elaw. simpl. rewrite lookup_insert_eq. by split_and!. }
    assert (forall x y z, dialout_wf c (with_sub l (with_counts x y z cs) s)) as Hs'
      by (intros; by eapply wf_store).
    assert (forall x y z, subs (with_sub l (with_counts x y z cs) s) !! l = Some (with_counts x y z cs)) as Hl'
      by (intros; apply lookup_insert_eq).
    destruct (ValToResp v) as [resp|e|p];
      [eapply (doomed_close c _ _ _ _ _ _ (step_to Restart (publishing resp r)) _ [resp])|
       eapply (doomed_close c _ _ _ _ _ _ (step_to Restart r) _ [])..];
      first [apply Hs'|apply Hd'|apply Hl'|simpl; by rewrite ?Ho, ?app_nil_r|simpl; rewrite ?Elaw; simpl; lia|done].
  - (* StreamDisposed *)
    destruct Hph as (-> & Hn & Hst). unfold get_state. unfold mbind at 1, SE_bind at 1.
    destruct (is_stopped s cs); [|by apply Hput; rewrite ?Ep].
    eapply (doomed_close c _ _ _ _ _ _ (step_to Restart r) _ []); try done. simpl. lia.
Qed.

Lemma doomed_routine_step c i l out n j ev s :
  dialout_wf c s -> doomed law i l out n s -> (law = true -> j = i -> refused ev) ->
  doomed law i l out n (routine_step j ev s).1.
Proof.
  intros Hs Hd Hlaw. unfold routine_step. unfold get_state. unfold mbind at 1, SE_bind at 1.
  destruct (routines s !! j) as [r|] eqn:Hj; [|done].
  destruct (publish_step r ev) as [m|] eqn:Em; [|done].
  destruct (decide (j = i)) as [->|Hne].
  - pose proof (doomed_step c i l out n s r ev m Hs Hd Hj Em (fun H => Hlaw H eq_refl)) as Ho. unfold own_outcome in Ho.
    unfold mbind, SE_bind. by destruct (m s) as [s' [r'|e|p]].
  - pose proof (wf_routines _ s Hs r (list_elem_of_lookup_2 _ _ _ Hj)) as Hwf.
    destruct (publish_step_wf c r ev m s Hs Hwf Em) as (_ & Ht & _).
    assert (p_sub r <> l) as Hsub.
    { intros E. destruct Hd as (r0 & cs & x & Hi & Hp & _). apply Hne.
      apply (NoDup_lookup _ j i l (wf_once _ s Hs)); rewrite list_lookup_fmap; [by rewrite Hj, <- E|by rewrite Hi, <- Hp]. }
    pose proof (doomed_touches i l _ out n s _ Hsub Ht Hd) as Hd'.
    unfold mbind, SE_bind. destruct (m s) as [s' [r'|e|p]]; simpl in *; [|done..].
    destruct Hd' as (r0 & cs & x & Hi & Hrest). exists r0, cs, x. simpl. split; [|done].
    by rewrite list_lookup_insert_ne.
Qed.
End Doomed.

(** What is in flight changes what there is as [later] says. *)
Definition system_later (y : system) : Prop :=
  match changing y with Some p => all_lasting p | None => True end.

(** Calls of a routine whose context is cancelled are refused: how grpc
    documents contexts. *)
Definition context_law (e : dial_event) (y : system) : Prop :=
  match e with
  | Routine_ i ev => forall r, routines (dial y) !! i = Some r -> p_ctx r ∈ cancelled (dial y) -> refused ev
  | _ => True
  end.

Section Runs.
Context `{RangeOrder} (g : dbconf) (T : clients) (clientTrie : Trie dataGetFunc).
Context (StringToPath : string -> res Path) (fmt_sub : clientSubscription -> string)
  (fmt_groups : gmap string (list string) -> string).
Abbreviation step := (dial_step g T clientTrie StringToPath fmt_sub fmt_groups).
Abbreviation run := (run_dialout g T clientTrie StringToPath fmt_sub fmt_groups).
Abbreviation during := (throughout g T clientTrie StringToPath fmt_sub fmt_groups).

Lemma step_cases e es y y' o :
  run (e :: es) y = (y', o) ->
  (exists y1, step e y = (y1, Ret tt) /\ run es y1 = (y', o)) \/ step e y = (y', o) /\ o <> Ret tt.
Proof.
  unfold run_dialout. cbn [forM]. unfold mbind, SE_bind. destruct (step e y) as [y1 [[]|er|q]]; [by left; exists y1|..];
    intros [= <- <-]; by right.
Qed.

Lemma dial_step_later e y :
  system_later y -> system_later (step e y).1 /\
  match e with Routine_ _ _ => True | _ => later (dial y) (dial (step e y).1) end.
Proof.
  assert (forall p y0, all_lasting p -> system_later (go_on p y0).1 /\ dial (go_on p y0).1 = dial y0) as Hgo.
  { intros p y0 Hp. by destruct p as [[[]|e'|q]|B m k]. }
  intros Hy. unfold system_later in Hy. destruct e as [key op r| |i ev]; simpl.
  - unfold get_state. unfold mbind at 1 2, SE_bind at 1 2. destruct (changing y) as [p|] eqn:Ep.
    + change (system_later y /\ later (dial y) (dial y)). split; [unfold system_later; by rewrite Ep|done].
    + destruct (Hgo (processTelemetryClientConfig g T clientTrie StringToPath fmt_sub fmt_groups r key op) y) as [Hl ->];
        [apply each_change|by split].
  - unfold get_state. unfold mbind at 1 3, SE_bind at 1 3. destruct (changing y) as [p|] eqn:Ep.
    + destruct (each_advance later p (dial y) Hy) as [Hs Hp]. unfold on_dial, mbind, SE_bind.
      destruct (advance p (dial y)) as [s' [p'|e'|q]]; simpl in *; [|by unfold system_later; simpl; rewrite Ep..].
      by destruct (Hgo p' {| dial := s'; changing := changing y |} Hp) as [? ->].
    + change (system_later y /\ later (dial y) (dial y)). split; [unfold system_later; by rewrite Ep|done].
  - split; [|done]. unfold on_dial. by destruct (routine_step i ev (dial y)).
Qed.

(** The routine stays doomed. *)
Lemma doomed_run law i l out n es y :
  system_wf False y -> system_later y -> (law = true -> during context_law es y) ->
  doomed law i l out n (dial y) -> doomed law i l out n (dial (run es y).1).
Proof.
  revert y. induction es as [|e es IH]; intros y Hw Hy Hlaw Hd; [done|].
  assert (doomed law i l out n (dial (step e y).1)) as Hd'.
  { destruct Hw as [Hw _]. destruct (dial_step_later e y Hy) as [_ Hl].
    destruct e as [key op r| |j ev]; [by eapply doomed_later..|].
    assert (doomed law i l out n (routine_step j ev (dial y)).1) as Hr.
    { eapply doomed_routine_step; [exact Hw|exact Hd|]. intros Hlt ->.
      pose proof Hd as (r & _ & _ & Hi & _ & _ & Hc & _). by apply (proj1 (Hlaw Hlt) r). }
    simpl. unfold on_dial. by destruct (routine_step j ev (dial y)). }
  assert (system_wf False (step e y).1) as Hw' by (by apply dial_step_wf).
  assert (system_later (step e y).1) as Hy' by (by apply dial_step_later).
  destruct (run (e :: es) y) as [y' o] eqn:E. apply step_cases in E as [(y1 & E1 & E2)|[E1 _]]; rewrite E1 in *; [|done].
  simpl in *. specialize (IH y1 Hw' Hy'). rewrite E2 in IH. apply IH; [|done]. intros Hlt. specialize (Hlaw Hlt).
  destruct Hlaw as [_ Hlaw]. by rewrite E1 in Hlaw.
Qed.

Lemma later_run es y : system_later y -> system_later (run es y).1.
Proof.
  revert y. induction es as [|e es IH]; intros y Hy; [done|].
  assert (system_later (step e y).1) as Hy' by (by apply dial_step_later).
  destruct (run (e :: es) y) as [y' o] eqn:E. apply step_cases in E as [(y1 & E1 & E2)|[E1 _]]; rewrite E1 in Hy'; [|done].
  specialize (IH y1 Hy'). by rewrite E2 in IH.
Qed.
End Runs.

(** ** The change that deletes *)

Section Deleting.
Context `{RangeOrder} (g : dbconf) (T : clients) (clientTrie : Trie dataGetFunc).
Context (StringToPath : string -> res Path) (fmt_sub : clientSubscription -> string)
  (fmt_groups : gmap string (list string) -> string).
Abbreviation step := (dial_step g T clientTrie StringToPath fmt_sub fmt_groups).
Abbreviation run := (run_dialout g T clientTrie StringToPath fmt_sub fmt_groups).

(** The subscription [name] with the object [l], the context [ctx] and the
    routine [i].  While it is deleted, the routine does not start over when
    [q] holds, and no routine steps when [t] holds. *)
Context (name : string) (l i ctx : nat) (r0 : routine) (q t : Prop).

Record target (s : dialout) : Prop := {
  tg_routine : exists r, routines s !! i = Some r /\ p_sub r = l /\ p_ctx r = ctx /\ (t -> r = r0);
  tg_object : exists cs, subs s !! l = Some cs /\ cancel cs = ctx;
}.

Definition mapped (s : dialout) : Prop := ClientSubscriptionNameMap s !! name = Some l.

Definition shut (s : dialout) : Prop := q -> forall cs, subs s !! l = Some cs -> opened cs = false.

Definition delete_step : prog dialout unit := atomically (delete_subscription name).

(** The change with [k] steps to go. *)
Definition deleting (k : nat) (y : system) : Prop :=
  system_wf False y /\ target (dial y) /\
  match k with
  | 0 => changing y = None /\ ClientSubscriptionNameMap (dial y) !! name = None /\ shut (dial y) /\
      ctx ∈ cancelled (dial y)
  | 1 => changing y = Some delete_step /\ mapped (dial y) /\ shut (dial y) /\ ctx ∈ cancelled (dial y)
  | 2 => changing y = Some (atomically (Cancel (Some l)) ≫= fun _ => delete_step) /\ mapped (dial y) /\ shut (dial y)
  | 3 => changing y = Some (close_and_cancel (Some l) ≫= fun _ => delete_step) /\ mapped (dial y)
  | 4 => (exists c key fv, changing y =
        Some (process_subscription g T clientTrie StringToPath fmt_sub c true key name fv)) /\ name <> "" /\ mapped (dial y)
  | 5 => (exists key fv k, changing y = Some (Step fresh k) /\
        forall c, k c = process_subscription g T clientTrie StringToPath fmt_sub c true key name fv) /\ name <> "" /\
      mapped (dial y)
  | _ => False
  end.

(** The routines leave it. *)
Lemma deleting_routine k j ev y :
  (q -> ~ (j = i /\ ev = StartTry)) -> (t -> False) -> deleting k y -> deleting k (step (Routine_ j ev) y).1.
Proof.
  intros Hq Ht (Hw & [(r & Hi & Hp & Hc & _) (cs & Hl & Hca)] & Hk).
  split; [by apply dial_step_wf|]. destruct Hw as [Hw _].
  destruct (routine_step_keeps False j ev (dial y) Hw) as [_ Hb].
  assert (exists r', routines (routine_step j ev (dial y)).1 !! i = Some r' /\ p_sub r' = l /\ p_ctx r' = ctx) as Hr.
  { unfold routine_step. unfold get_state. unfold mbind at 1, SE_bind at 1.
    destruct (routines (dial y) !! j) as [rj|] eqn:Hj; [|by exists r].
    destruct (publish_step rj ev) as [m|] eqn:Em; [|by exists r].
    destruct (publish_step_wf False rj ev m (dial y) Hw (wf_routines _ _ Hw rj (list_elem_of_lookup_2 _ _ _ Hj)) Em)
      as (_ & (Hrt & _) & _ & Hr'). unfold mbind, SE_bind.
    destruct (m (dial y)) as [s' [r'|e|p]]; simpl in *; [|by exists r; rewrite Hrt..].
    rewrite Hrt. destruct Hr' as (Hp' & Hc' & _). destruct (decide (j = i)) as [->|Hne].
    - exists r'. rewrite list_lookup_insert_eq by (by eapply lookup_lt_Some). split_and!; congruence.
    - exists r. by rewrite list_lookup_insert_ne. }
  assert (opened_by j ev (dial y) l -> j = i /\ ev = StartTry) as Hopen.
  { intros (rj & Hj & Ho). destruct ev; try done. split; [|done]. simpl in Ho.
    apply (NoDup_lookup _ j i l (wf_once _ _ Hw)); rewrite list_lookup_fmap; [by rewrite Hj, Ho|by rewrite Hi, <- Hp]. }
  assert (shut (dial y) -> shut (routine_step j ev (dial y)).1) as Hshut.
  { intros Hs Hqq cs' Hl'. destruct (be_objects _ _ _ Hb l cs' Hl') as (cs0 & Hl0 & _ & _ & _ & Ho).
    destruct (opened cs'); [|done]. rewrite <- (Hs Hqq cs0 Hl0). symmetry. apply Ho; [|done]. intros ?%Hopen. by apply (Hq Hqq). }
  assert (target (routine_step j ev (dial y)).1) as Htg.
  { destruct Hr as (r' & ? & ? & ?). split; [by exists r'|].
    assert (l ∈ dom (subs (routine_step j ev (dial y)).1)) as [cs' Hl']%elem_of_dom
      by (rewrite (be_dom _ _ _ Hb); by eapply elem_of_dom_2).
    exists cs'. split; [done|]. destruct (be_objects _ _ _ Hb l cs' Hl') as (cs0 & Hl0 & _ & _ & Hc0 & _). congruence. }
  simpl. unfold on_dial, mapped in *. pose proof (be_names _ _ _ Hb) as Hn. pose proof (be_cancelled _ _ _ Hb) as Hcc.
  destruct (routine_step j ev (dial y)) as [s' o]. simpl in *.
  split; [done|]. destruct k as [|[|[|[|[|[|k]]]]]]; simpl in *; rewrite ?Hn, ?Hcc; naive_solver.
Qed.

Lemma config_step_inv p y y' :
  changing y = Some p -> step Config_step y = (y', Ret tt) ->
  exists p', advance p (dial y) = (dial y', Ret p') /\ (forall q, p' <> Done (Panic q)) /\
    changing y' = match p' with Done _ => None | Step _ _ => Some p' end.
Proof.
  intros Ep. simpl. unfold get_state. unfold mbind at 1, SE_bind at 1. rewrite Ep. unfold on_dial, mbind, SE_bind.
  assert (exists s' p', advance p (dial y) = (s', Ret p')) as (s' & p' & ->).
  { destruct p as [o|B m k]; [by do 2 eexists|]. simpl. destruct (m (dial y)) as [s' [b|e|q']]; by do 2 eexists. }
  simpl. destruct p' as [[[]|e|q']|B m k]; intros [= <-]; by eexists.
Qed.

Lemma Close_not_fail o s e : (Close o s).2 <> Fail e.
Proof.
  unfold Close, load, mbind, SE_bind. simpl. destruct o as [x|]; simpl; [|done].
  destruct (subs s !! x) as [cs|]; simpl; [|done]. destruct (opened cs); simpl; [|done]. by destruct (is_stopped s cs).
Qed.

(** One step of the change. *)
Lemma deleting_config k y y' :
  deleting (S k) y -> step Config_step y = (y', Ret tt) -> deleting k y'.
Proof.
  intros (Hw & Htg & Hk) E. assert (system_wf False y') as Hw'.
  { pose proof (dial_step_wf g T clientTrie StringToPath fmt_sub fmt_groups False Config_step y Hw ltac:(done)) as Hw'.
    by rewrite E in Hw'. }
  split; [done|]. destruct Hw as [Hw _]. pose proof Htg as [Hr (cs & Hl & Hca)].
  destruct k as [|[|[|[|[|k]]]]]; simpl in Hk; [..|done].
  - (* the maps *)
    destruct Hk as (Ep & Hm & Hs & Hc). destruct (config_step_inv _ _ _ Ep E) as (p' & Ea & _ & Ep').
    unfold delete_step, delete_subscription, named, load, modify, atomically in Ea. simpl in Ea.
    unfold mbind, SE_bind in Ea. simpl in Ea. rewrite Hm in Ea. simpl in Ea. rewrite Hl in Ea. simpl in Ea.
    injection Ea as Ed <-. rewrite <- Ed. split; [by split; [|exists cs]|].
    split_and!; [done|simpl; by rewrite lookup_delete_eq|done|done].
  - (* the context *)
    destruct Hk as (Ep & Hm & Hs). destruct (config_step_inv _ _ _ Ep E) as (p' & Ea & _ & Ep').
    unfold Cancel, load, modify in Ea. simpl in Ea. unfold mbind, SE_bind in Ea. simpl in Ea. rewrite Hl in Ea.
    simpl in Ea. injection Ea as Ed <-. rewrite <- Ed. split; [by split; [|exists cs]|].
    split_and!; [done|done|done|simpl; set_solver].
  - (* the channel *)
    destruct Hk as (Ep & Hm). destruct (config_step_inv _ _ _ Ep E) as (p' & Ea & Hp' & Ep'). simpl in Ea.
    pose proof (Close_keeps False (Some l) (dial y) Hw) as Hk. pose proof (Close_not_fail (Some l) (dial y)) as Hnf.
    destruct (Close (Some l) (dial y)) as [s' [[]|e|q']]; simpl in *; injection Ea as -> <-;
      [|by destruct (Hnf e)|by destruct (Hp' q')].
    destruct Hk as (l0 & cs0 & [= <-] & Hl0 & Hsub & _ & Hb & Hrt & _). split.
    { split; [by rewrite Hrt|]. exists (closed_of cs). rewrite Hsub, lookup_insert_eq. split; [congruence|done]. }
    split_and!; [done|unfold mapped; by rewrite (be_names _ _ _ Hb)|].
    intros _ cs1. rewrite Hsub, lookup_insert_eq. by intros [= <-].
  - (* the name *)
    destruct Hk as ((c & key & fv & Ep) & Hne & Hm). unfold process_subscription in Ep.
    rewrite decide_False in Ep by done. destruct (config_step_inv _ _ _ Ep E) as (p' & Ea & _ & Ep').
    simpl in Ea. unfold mapped in Hm. rewrite Hm in Ea. injection Ea as Ed <-. rewrite <- Ed. by split.
  - (* the context of the change *)
    destruct Hk as ((key & fv & k0 & Ep & Hk0) & Hne & Hm). destruct (config_step_inv _ _ _ Ep E) as (p' & Ea & _ & Ep').
    simpl in Ea. injection Ea as Ed <-. rewrite Hk0 in Ep'. rewrite <- Ed. split; [by split; [|exists cs]|].
    split_and!; [|done|done]. exists (next (dial y)), key, fv. rewrite Ep'. unfold process_subscription.
    by rewrite decide_False.
Qed.
End Deleting.

Section Deletion.
Context `{RangeOrder} (g : dbconf) (T : clients) (clientTrie : Trie dataGetFunc).
Context (StringToPath : string -> res Path) (fmt_sub : clientSubscription -> string)
  (fmt_groups : gmap string (list string) -> string).
Abbreviation step := (dial_step g T clientTrie StringToPath fmt_sub fmt_groups).
Abbreviation run := (run_dialout g T clientTrie StringToPath fmt_sub fmt_groups).
Abbreviation during := (throughout g T clientTrie StringToPath fmt_sub fmt_groups).

(** The database answers. *)
Definition answers (rd : redis) : Prop := forall k, exists fv, HGetAll rd k = Ret fv.

(** No other change begins. *)
Definition not_config (e : dial_event) : Prop := match e with Config _ _ _ => False | _ => True end.

Fixpoint config_steps (es : list dial_event) : nat :=
  match es with
  | [] => 0
  | Config_step :: es => S (config_steps es)
  | _ :: es => config_steps es
  end.

Lemma deleting_start name l i ctx r0 q t rd y :
  answers rd -> name <> "" -> system_wf False y -> target l i ctx r0 t (dial y) -> mapped name l (dial y) -> changing y = None ->
  forall y', step (Config ("Subscription_" +:+ name) "hdel" rd) y = (y', Ret tt) ->
  deleting g T clientTrie StringToPath fmt_sub name l i ctx r0 q t 5 y'.
Proof.
  intros Ha Hne Hw Htg Hm Hch y' E.
  pose proof (dial_step_wf g T clientTrie StringToPath fmt_sub fmt_groups False
    (Config ("Subscription_" +:+ name) "hdel" rd) y Hw ltac:(done)) as Hw'. rewrite E in Hw'.
  split; [done|]. simpl in E. unfold get_state in E. unfold mbind, SE_bind in E. rewrite Hch in E.
  unfold processTelemetryClientConfig in E.
  destruct (Ha ("TELEMETRY_CLIENT" +:+
    match GetTableKeySeparator g "CONFIG_DB" GetDbDefaultNamespace with Ret s => s | _ => "" end +:+
    ("Subscription_" +:+ name))) as [fv Efv]. rewrite Efv in E. cbn [go_on] in E. injection E as <-.
  split; [done|]. split; [|done]. eexists _, fv, _. split; [reflexivity|]. intros c. cbv beta zeta.
  by rewrite TrimPrefix_app.
Qed.

(** Enough steps end the change. *)
Lemma deleting_run name l i ctx r0 q t k es y y' :
  (q -> Routine_ i StartTry ∉ es) -> (t -> forall j ev, Routine_ j ev ∉ es) -> Forall not_config es ->
  k <= config_steps es -> deleting g T clientTrie StringToPath fmt_sub name l i ctx r0 q t k y ->
  run es y = (y', Ret tt) -> deleting g T clientTrie StringToPath fmt_sub name l i ctx r0 q t 0 y'.
Proof.
  revert k y. induction es as [|e es IH]; intros k y Hq Ht Hc Hk Hd E.
  { assert (k = 0) as -> by (simpl in Hk; lia). by injection E as <-. }
  apply step_cases in E as [(y1 & E1 & E2)|[_ []]]; [|done]. inversion Hc as [|? ? He Hc']; subst.
  assert (q -> Routine_ i StartTry ∉ es) as Hq' by (intros Hqq Hin; apply (Hq Hqq); by right).
  assert (t -> forall j ev, Routine_ j ev ∉ es) as Ht' by (intros Htt j ev Hin; apply (Ht Htt j ev); by right).
  destruct e as [key op rd| |j ev]; [done| |].
  - destruct k as [|k].
    + apply (IH 0 y1 Hq' Ht' Hc' ltac:(lia)); [|done]. destruct Hd as (Hw & Htg & Hch & Hrest).
      simpl in E1. unfold get_state in E1. unfold mbind, SE_bind in E1. rewrite Hch in E1. injection E1 as <-.
      split; [done|]. by split.
    + apply (IH k y1 Hq' Ht' Hc'); [simpl in Hk; lia| |done].
      by eapply deleting_config.
  - apply (IH k y1 Hq' Ht' Hc'); [done| |done].
    replace y1 with (step (Routine_ j ev) y).1 by (by rewrite E1). apply deleting_routine; [| |done].
    + intros Hqq [-> ->]. apply (Hq Hqq). left.
    + intros Htt. apply (Ht Htt j ev). left.
Qed.

(** What the end of the change leaves of the routine is doomed. *)
Lemma deleted_doomed name l i ctx r0 (law : bool) t y r :
  deleting g T clientTrie StringToPath fmt_sub name l i ctx r0 (law = false) t 0 y -> routines (dial y) !! i = Some r ->
  doomed law i l (published r) (length (dialled r)) (dial y).
Proof.
  intros ([Hw _] & [(r' & Hi & Hp & Hc & _) (cs & Hl & _)] & _ & _ & Hs & Hctx) Hr.
  assert (r' = r) as -> by congruence. exists r, cs, []. split_and!; try done; [by rewrite Hc|by rewrite app_nil_r|].
  destruct (wf_routines _ _ Hw r (list_elem_of_lookup_2 _ _ _ Hi)) as (_ & _ & Ha).
  assert (active (phase r) = true -> law = false -> is_stopped (dial y) cs = true) as Hstop.
  { intros Hact Hlaw. rewrite Hp in Ha. destruct (Ha Hact cs Hl) as [Ho|Hst]; [|done]. by rewrite (Hs Hlaw cs Hl) in Ho. }
  destruct (phase r); simpl in *; auto with lia.
Qed.

(** C18. A deleted subscription falls silent: when the configuration database
    deletes a subscription whose routine still runs under the context of the
    subscription, the change ends after five steps of its goroutine, in
    whatever order the routines step in between, and the name is gone.  From
    then on, whatever happens in whatever order, that routine tries to connect
    at most once more, and publishes nothing more if it did not start over
    during the change.  If it did, its channel is open, and what is left is
    its cancelled context: when grpc refuses calls on such a context, the
    routine offers at most one more message, which is refused.  (Taking a
    value and sending it is one step: what is being sent when the change ends
    counts as sent before.  A routine that a change of its destination group
    started has another context, which no deletion cancels.  The run ends when
    something panics, so the change is one that does not.) *)
Theorem deleted_silent (cfg : ClientConfig) (v : vstate) (es0 es1 : list dial_event) (name : string) (l i : nat)
    (cs : clientSubscription) (r : routine) (rd : redis) (y1 : system)
  (Hdb : answers rd) (Hne : name <> "") (Hidle : changing (run es0 (no_dialout cfg v)).1 = None)
  (Hname : ClientSubscriptionNameMap (dial (run es0 (no_dialout cfg v)).1) !! name = Some l)
  (Hsub : subs (dial (run es0 (no_dialout cfg v)).1) !! l = Some cs)
  (Hr : routines (dial (run es0 (no_dialout cfg v)).1) !! i = Some r) (Hp : p_sub r = l) (Hctx : p_ctx r = cancel cs)
  (Honly : Forall not_config es1) (Hsteps : 5 <= config_steps es1)
  (Hrun : run (Config ("Subscription_" +:+ name) "hdel" rd :: es1) (run es0 (no_dialout cfg v)).1 = (y1, Ret tt)) :
  changing y1 = None /\ ClientSubscriptionNameMap (dial y1) !! name = None /\
  exists r1, routines (dial y1) !! i = Some r1 /\
    ((forall j ev, Routine_ j ev ∉ es1) -> r1 = r) /\
    (Routine_ i StartTry ∉ es1 -> forall es, exists r', routines (dial (run es y1).1) !! i = Some r' /\
       published r' = published r1 /\ length (dialled r') <= S (length (dialled r1))) /\
    (forall es, during context_law es y1 -> exists r' extra, routines (dial (run es y1).1) !! i = Some r' /\
       published r' = published r1 ++ extra /\ length extra <= 1 /\
       length (dialled r') <= S (length (dialled r1))).
Proof.
  set (y0 := (run es0 (no_dialout cfg v)).1) in *.
  assert (system_wf False y0) as Hw0 by (by apply run_wf; [apply no_dialout_wf|]).
  apply step_cases in Hrun as [(y & E1 & E2)|[_ []]]; [|done].
  assert (forall q t : Prop, (q -> Routine_ i StartTry ∉ es1) -> (t -> forall j ev, Routine_ j ev ∉ es1) ->
    deleting g T clientTrie StringToPath fmt_sub name l i (cancel cs) r q t 0 y1) as Hdel.
  { intros q t Hq Ht. apply (deleting_run name l i (cancel cs) r q t 5 es1 y y1); try done.
    eapply deleting_start; try done. split; [exists r; by split_and!|by exists cs]. }
  destruct (Hdel False False ltac:(done) ltac:(done)) as (Hw1 & [(r1 & Hi1 & _) _] & Hch & Hgone & _).
  assert (forall (law : bool) es, (law = false -> Routine_ i StartTry ∉ es1) -> (law = true -> during context_law es y1) ->
    exists r' extra, routines (dial (run es y1).1) !! i = Some r' /\ published r' = published r1 ++ extra /\
      length extra <= Nat.b2n law /\ length (dialled r') <= S (length (dialled r1))) as Hdoom.
  { intros law es Hq Hlaw.
    pose proof (deleted_doomed _ _ _ _ _ law False y1 r1 (Hdel _ False Hq ltac:(done)) Hi1) as Hd.
    assert (system_later y1) as Hl1 by (unfold system_later; by rewrite Hch).
    destruct (doomed_run g T clientTrie StringToPath fmt_sub fmt_groups law i l _ _ es y1 Hw1 Hl1 Hlaw Hd)
      as (r' & cs' & x & Hi' & _ & _ & _ & Hout & Hph).
    exists r', x. split_and!; [done|done|..]; destruct (phase r'); destruct_and?; subst; simpl; lia. }
  split_and!; [done|done|]. exists r1. split_and!; [done| | |].
  - intros Hns. destruct (Hdel False (forall j ev, Routine_ j ev ∉ es1) ltac:(done) ltac:(done))
      as (_ & [(r2 & Hi2 & _ & _ & Heq) _] & _). rewrite <- (Heq Hns). congruence.
  - intros Hns es. destruct (Hdoom false es (fun _ => Hns) ltac:(done)) as (r' & x & Hi' & Hout & Hx & Hn).
    exists r'. split_and!; [done| |done]. destruct x; [by rewrite app_nil_r in Hout|simpl in Hx; lia].
  - intros es Hlaw. by apply (Hdoom true es).
Qed.
End Deletion.

(** ** Witnesses *)

Definition streaming : system := (sample_run (set_up ++ connects 0)).1.

(** Routine 0 works for the subscription [name] under its context, has tried
    once and published nothing. *)
Definition works_for (name : string) (y : system) : bool :=
  let s := dial y in
  match changing y, ClientSubscriptionNameMap s !! name, routines s !! 0 with
  | None, Some l, Some r =>
      match subs s !! l with
      | Some cs => bool_decide (p_sub r = l) && bool_decide (p_ctx r = cancel cs)
                   && Nat.eqb (length (published r)) 0 && Nat.eqb (length (dialled r)) 1
      | None => false
      end
  | _, _, _ => false
  end.

Lemma works_for_true name y :
  works_for name y = true -> changing y = None /\
  exists l cs r, ClientSubscriptionNameMap (dial y) !! name = Some l /\ subs (dial y) !! l = Some cs /\
    routines (dial y) !! 0 = Some r /\
    p_sub r = l /\ p_ctx r = cancel cs /\ published r = [] /\ length (dialled r) = 1.
Proof.
  unfold works_for. destruct (changing y); [done|].
  destruct (ClientSubscriptionNameMap (dial y) !! name) as [l|]; [|done].
  destruct (routines (dial y) !! 0) as [r|]; [|done]. destruct (subs (dial y) !! l) as [cs|] eqn:E; [|done].
  intros [[[Hp%bool_decide_eq_true Hc%bool_decide_eq_true]%andb_prop Hl%Nat.eqb_eq]%andb_prop Hd%Nat.eqb_eq]%andb_prop.
  split; [done|]. exists l, cs, r. split_and!; try done. by apply nil_length_inv.
Qed.

(** A routine step in the middle of the deletion: the stream still sends. *)
Definition deletion : list dial_event :=
  [Config_step; Config_step; Routine_ 0 (StreamSend bgp_value true)] ++ replicate 5 Config_step.

Definition after_deletion : system :=
  (run_dialout (H := default_order) single_conf sample_clients NewTrie sample_parse cs_name (fun _ => "")
    (Config ("Subscription_" +:+ "bgp") "hdel" sample_config_redis :: deletion) streaming).1.

Lemma deleted_silent_witness :
  ClientSubscriptionNameMap (dial after_deletion) !! "bgp" = None /\
  exists r1, routines (dial after_deletion) !! 0 = Some r1 /\
  forall es, exists r', routines (dial (run_dialout (H := default_order) single_conf sample_clients NewTrie sample_parse cs_name
      (fun _ => "") es after_deletion).1) !! 0 = Some r' /\ published r' = published r1 /\
      length (dialled r') <= S (length (dialled r1)).
Proof.
  destruct (works_for_true "bgp" streaming ltac:(vm_compute; reflexivity)) as (Hch & l & cs & r & El & Ec & Er & Hp & Hc & _).
  assert (Forall not_config deletion) as Ho by (repeat constructor).
  assert (5 <= config_steps deletion) as Hs by (vm_compute; lia).
  destruct (run_dialout (H := default_order) single_conf sample_clients NewTrie sample_parse cs_name (fun _ => "")
    (Config ("Subscription_" +:+ "bgp") "hdel" sample_config_redis :: deletion) streaming) as [y1 o] eqn:E.
  assert (o = Ret tt) as -> by (apply (f_equal snd) in E; vm_compute in E; symmetry; exact E).
  pose proof (deleted_silent (H := default_order) single_conf sample_clients NewTrie sample_parse cs_name (fun _ => "")
    sample_cfg empty_vstate (set_up ++ connects 0) deletion "bgp" l 0 cs r sample_config_redis y1
    ltac:(intros k; exists (sample_telemetry k); reflexivity) ltac:(discriminate) Hch El Ec Er Hp Hc Ho Hs E) as HT.
  assert (after_deletion = y1) as -> by (exact (f_equal fst E)).
  destruct HT as (_ & Hgone & r1 & Hi & _ & HT & _). split; [exact Hgone|]. exists r1. split; [exact Hi|].
  apply HT. apply not_elem_of_cons. split; [discriminate|]. intros Hin. apply list_elem_of_In in Hin. simpl in Hin.
  repeat destruct Hin as [Hin|Hin]; try discriminate Hin. exact Hin.
Defined.

(** The sample routine did send its value during the deletion. *)
Example deletion_sends : length ∘ published <$> routines (dial after_deletion) !! 0 = Some 1.
Proof. vm_compute. reflexivity. Qed.

(** A routine started by a change of the destination group survives the
    deletion of the subscription: the object it works on has the cancel
    function of the context before. *)
Example orphan_publishes :
  let es := set_up ++ connects 0 ++ changes "DestinationGroup_HS" "hset" ++ connects 1 ++
    changes "Subscription_bgp" "hdel" ++ [Routine_ 1 StreamDisposed] ++ connects 1 ++
    [Routine_ 1 (StreamSend bgp_value true)] in
  ClientSubscriptionNameMap (sample_dialout es) !! "bgp" = None /\
  length ∘ published <$> routines (sample_dialout es) !! 1 = Some 1.
Proof. split; vm_compute; reflexivity. Qed.

(** The context law is needed: a routine that starts over between the [Close]
    and the [cancel] of the deletion has an open channel when the change ends,
    and would publish as long as grpc let it. *)
Example restart_publishes :
  let es := set_up ++ connects 0 ++ [Config "Subscription_bgp" "hdel" sample_config_redis] ++
    replicate 3 Config_step ++ [Routine_ 0 StreamDisposed] ++ connects 0 ++ replicate 5 Config_step ++
    [Routine_ 0 (StreamSend bgp_value true); Routine_ 0 (StreamSend bgp_value true)] in
  ClientSubscriptionNameMap (sample_dialout es) !! "bgp" = None /\
  length ∘ published <$> routines (sample_dialout es) !! 0 = Some 2.
Proof. split; vm_compute; reflexivity. Qed.
