(* ===== verification/DialoutServer.v ===== *)
(** * The dial-out collector: [dialout/dialout_server/dialout_server.go]

    The server that dial-out clients publish to.  Every [Publish] call runs in
    a goroutine of its own, a [stream]; they share the registry of clients
    (under [cMu]) and the data store (under [sRWMu]) and take steps in any
    order.  What a stream does between two of these is one step.  A
    [dataStore] that is nil means that messages are printed. *)

From stdpp Require Import base tactics list fin_maps gmap strings.
From Stdlib Require Import ZArith Lia.
From S2P Require Import Prelude GoStrings Messages StatsRing.

Local Open Scope string_scope.
Local Open Scope list_scope.

(** ** Data *)

(** A [Client]; a channel is nil, open or closed. *)
Inductive chan := NilChan | OpenChan | ClosedChan.

Record Client := {
  c_addr : string;
  sendMsg : Z; recvMsg : Z; c_errors : Z;   (* int64 *)
  polled : chan; stop : chan;
}.

Definition NewClient (addr : string) : Client :=
  {| c_addr := addr; sendMsg := 0; recvMsg := 0; c_errors := 0; polled := NilChan; stop := NilChan |}.

Definition counting (recv errs : Z) (c : Client) : Client :=
  {| c_addr := c_addr c; sendMsg := sendMsg c; recvMsg := i64 (recvMsg c + recv); c_errors := i64 (c_errors c + errs);
     polled := polled c; stop := stop c |}.

Definition close_chan (ch : chan) : res chan :=
  match ch with NilChan => Ret NilChan | OpenChan => Ret ClosedChan | ClosedChan => Panic CloseOfClosedChannel end.

Definition Close (c : Client) : res Client :=
  st ← close_chan (stop c);
  po ← close_chan (polled c);
  Ret {| c_addr := c_addr c; sendMsg := sendMsg c; recvMsg := recvMsg c; c_errors := c_errors c; polled := po; stop := st |}.

Inductive data_store :=
  | NoStore                                       (* nil *)
  | Responses (l : list SubscribeResponse)        (* *[]*gpb.SubscribeResponse *)
  | OtherStore.                                   (* of an unexpected type *)

(** Where a [Publish] call is. *)
Inductive publish_phase :=
  | Receiving                                     (* in [stream.Recv] *)
  | Storing (m : SubscribeResponse)               (* before [sRWMu.Lock] *)
  | Closing (e : error)                           (* [Run] has returned *)
  | Unregistering (e : error)                     (* before [cMu.Lock] *)
  | Returned (e : error).

Record stream := {
  client : Client;
  taken : list SubscribeResponse;                 (* what [Recv] returned *)
  phase : publish_phase;
}.

Record collector := {
  clients : gmap string nat;                      (* the stream of the client *)
  streams : list stream;
  dataStore : data_store;
  shown : list SubscribeResponse;                 (* printed *)
  refused : list error;                           (* of calls that ended at once *)
}.

Definition start (store : data_store) : collector :=
  {| clients := ∅; streams := []; dataStore := store; shown := []; refused := [] |}.

Definition with_streams (l : list stream) (s : collector) : collector :=
  {| clients := clients s; streams := l; dataStore := dataStore s; shown := shown s; refused := refused s |}.
Definition with_clients (m : gmap string nat) (s : collector) : collector :=
  {| clients := m; streams := streams s; dataStore := dataStore s; shown := shown s; refused := refused s |}.
Definition with_store (d : data_store) (sh : list SubscribeResponse) (s : collector) : collector :=
  {| clients := clients s; streams := streams s; dataStore := d; shown := sh; refused := refused s |}.
Definition refuse (e : error) (s : collector) : collector :=
  {| clients := clients s; streams := streams s; dataStore := dataStore s; shown := shown s; refused := refused s ++ [e] |}.

(** ** Steps *)

(** What [stream.Recv] returns. *)
Inductive received := GotMsg (m : SubscribeResponse) | GotEOF | GotError (c : code).

Inductive publish_event :=
  | Call (peer : option (option string))          (* a call of [Publish]: the peer of the context, its address *)
  | Recv (i : nat) (r : received)
  | Store (i : nat)
  | RunEnds (i : nat)                             (* [c.Close] *)
  | Unregister (i : nat).

Definition put_stream (i : nat) (st : stream) : SE collector unit :=
  modify (fun s => with_streams (<[i := st]> (streams s)) s).

(** [Publish] up to [c.Run]. *)
Definition publish (peer : option (option string)) : SE collector unit :=
  match peer with
  | None => modify (refuse (StatusErr InvalidArgument "failed to get peer from ctx"))
  | Some None => modify (refuse (StatusErr InvalidArgument "failed to get peer address"))
  | Some (Some addr) =>
      s ← get_state;
      match clients s !! addr ≫= (fun i => st ← streams s !! i; Some (i, st)) with
      | Some (i, oc) =>
          c ← lift (Close (client oc));
          put_stream i {| client := c; taken := taken oc; phase := phase oc |}
      | None => mret tt
      end ≫= fun _ =>
      modify (fun s => with_clients (<[addr := length (streams s)]> (delete addr (clients s)))
        (with_streams (streams s ++ [{| client := NewClient addr; taken := []; phase := Receiving |}]) s))
  end.

(** What [Run] returns when [Recv] fails. *)
Definition recv_error (r : received) : error :=
  match r with
  | GotError c => StatusErr c "received error from client"
  | _ => StatusErr Aborted "stream EOF received"
  end.

(** One message to the store, or to the terminal. *)
Definition keep (m : SubscribeResponse) (s : collector) : collector :=
  match dataStore s with
  | NoStore => with_store NoStore (shown s ++ [m]) s
  | Responses l => with_store (Responses (l ++ [m])) (shown s) s
  | OtherStore => s
  end.

(** An event of a stream that is somewhere else does nothing. *)
Definition publish_step (e : publish_event) : SE collector unit :=
  let stepping i (f : stream -> SE collector unit) :=
    s ← get_state; match streams s !! i with Some st => f st | None => mret tt end in
  match e with
  | Call peer => publish peer
  | Recv i r => stepping i (fun st =>
      match phase st, r with
      | Receiving, GotMsg m =>
          put_stream i {| client := counting 1 0 (client st); taken := taken st ++ [m]; phase := Storing m |}
      | Receiving, r =>
          put_stream i {| client := counting 1 1 (client st); taken := taken st; phase := Closing (recv_error r) |}
      | _, _ => mret tt
      end)
  | Store i => stepping i (fun st =>
      match phase st with
      | Storing m =>
          modify (keep m) ≫= fun _ => put_stream i {| client := client st; taken := taken st; phase := Receiving |}
      | _ => mret tt
      end)
  | RunEnds i => stepping i (fun st =>
      match phase st with
      | Closing e => c ← lift (Close (client st)); put_stream i {| client := c; taken := taken st; phase := Unregistering e |}
      | _ => mret tt
      end)
  | Unregister i => stepping i (fun st =>
      match phase st with
      | Unregistering e =>
          modify (fun s => with_clients (delete (c_addr (client st)) (clients s)) s) ≫= fun _ =>
          put_stream i {| client := client st; taken := taken st; phase := Returned e |}
      | _ => mret tt
      end)
  end.

Definition run_collector (es : list publish_event) : SE collector unit := forM publish_step es.

(** [SetDataStore], which takes no lock. *)
Definition SetDataStore (d : data_store) (s : collector) : collector := with_store d (shown s) s.

(** ** What the collector keeps *)

(** What a stream has taken but not stored. *)
Definition pending (st : stream) : list SubscribeResponse :=
  match phase st with Storing m => [m] | _ => [] end.

(** [Run] has returned. *)
Definition ended (st : stream) : bool :=
  match phase st with Receiving | Storing _ => false | _ => true end.

Definition returned (st : stream) : bool :=
  match phase st with Returned _ => true | _ => false end.

(** Each stream stored its part, in order; together they are what is stored. *)
Definition merged (sts : list stream) (l : list SubscribeResponse) : Prop :=
  exists ks, Forall2 (fun st k => taken st = k ++ pending st) sts ks /\ l ≡ₚ concat ks /\
    Forall (fun k => k `sublist_of` l) ks.

Record stream_ok (st : stream) : Prop := {
  ok_stop : stop (client st) = NilChan;
  ok_polled : polled (client st) = NilChan;
  ok_recv : recvMsg (client st) = i64 (Z.of_nat (length (taken st)) + (if ended st then 1 else 0));
  ok_errors : c_errors (client st) = i64 (if ended st then 1 else 0);
}.

Record collecting (l0 : list SubscribeResponse) (s : collector) : Prop := {
  col_store : exists l, dataStore s = Responses (l0 ++ l) /\ merged (streams s) l;
  col_clients a i : clients s !! a = Some i ->
    exists st, streams s !! i = Some st /\ c_addr (client st) = a /\ returned st = false;
  col_streams st : st ∈ streams s -> stream_ok st;
}.

Lemma Close_unused st : stream_ok st -> Close (client st) = Ret (client st).
Proof. intros [Hs Hp _ _]. unfold Close. rewrite Hs, Hp. simpl. by destruct (client st); simpl in *; subst. Qed.

(** A stream that keeps what it stored, and its place in the registry. *)
Lemma merged_put sts l i st st' :
  sts !! i = Some st -> (forall k, taken st = k ++ pending st -> taken st' = k ++ pending st') ->
  merged sts l -> merged (<[i := st']> sts) l.
Proof.
  intros Hi Hk (ks & Hf & Hl & Hs). exists ks. split_and!; [|done..].
  destruct (Forall2_lookup_l _ _ _ _ _ Hf Hi) as (k & Hki & Ht).
  rewrite <- (list_insert_id ks i k Hki). apply Forall2_insert; auto.
Qed.

Lemma collecting_put l0 s i st st' :
  collecting l0 s -> streams s !! i = Some st ->
  (forall k, taken st = k ++ pending st -> taken st' = k ++ pending st') ->
  c_addr (client st') = c_addr (client st) -> (returned st' = true -> clients s !! c_addr (client st) <> Some i) ->
  stream_ok st' -> collecting l0 (with_streams (<[i := st']> (streams s)) s).
Proof.
  intros [(l & Hd & Hm) Hc Ho] Hi Hk Ha Hr Hok. split; simpl.
  - exists l. split; [done|]. by eapply merged_put.
  - intros a j Haj. destruct (Hc a j Haj) as (st0 & Hj & Hsa & Hret).
    destruct (decide (j = i)) as [->|Hne].
    + assert (st0 = st) as -> by congruence. exists st'.
      rewrite list_lookup_insert_eq by by eapply lookup_lt_Some. split_and!; [done|congruence|].
      destruct (returned st') eqn:E; [|done]. destruct (Hr eq_refl). congruence.
    + exists st0. by rewrite list_lookup_insert_ne.
  - intros st0 [j Hj]%list_elem_of_lookup. apply list_lookup_insert_Some in Hj as [(-> & -> & _)|[Hne Hj]]; [done|].
    eapply Ho, list_elem_of_lookup_2, Hj.
Qed.

(** Storing the pending message. *)
Lemma merged_store sts l i st st' m :
  sts !! i = Some st -> pending st = [m] -> pending st' = [] -> taken st' = taken st ->
  merged sts l -> merged (<[i := st']> sts) (l ++ [m]).
Proof.
  intros Hi Hp Hp' Ht (ks & Hf & Hl & Hs).
  destruct (Forall2_lookup_l _ _ _ _ _ Hf Hi) as (k & Hki & Hk). exists (<[i := k ++ [m]]> ks). split_and!.
  - apply Forall2_insert; [done|]. by rewrite Ht, Hp', Hk, Hp, app_nil_r.
  - pose proof (take_drop_middle ks i k Hki) as E.
    rewrite insert_take_drop by by eapply lookup_lt_Some. rewrite Hl, <- E at 1.
    rewrite !concat_app. simpl. rewrite <- !app_assoc. f_equiv. f_equiv. apply Permutation_app_comm.
  - apply Forall_insert.
    + eapply Forall_impl; [exact Hs|]. intros k0 Hk0. by apply sublist_inserts_r.
    + apply sublist_app; [by eapply (Forall_lookup_1 _ _ _ _ Hs Hki)|done].
Qed.

(** A new stream. *)
Lemma merged_new sts l st : taken st = [] -> pending st = [] -> merged sts l -> merged (sts ++ [st]) l.
Proof.
  intros Ht Hp (ks & Hf & Hl & Hs). exists (ks ++ [[]]). split_and!.
  - apply Forall2_app; [done|]. constructor; [by rewrite Ht, Hp|constructor].
  - by rewrite concat_app, app_nil_r.
  - apply Forall_app. split; [done|]. constructor; [apply sublist_nil_l|constructor].
Qed.

(** ** Every step keeps it *)

Lemma collecting_refuse l0 s e : collecting l0 s -> collecting l0 (refuse e s).
Proof. intros [H1 H2 H3]. by split. Qed.

Lemma collecting_new l0 s addr :
  collecting l0 s -> collecting l0 (with_clients (<[addr := length (streams s)]> (delete addr (clients s)))
    (with_streams (streams s ++ [{| client := NewClient addr; taken := []; phase := Receiving |}]) s)).
Proof.
  intros [(l & Hd & Hm) Hc Ho]. split; simpl.
  - exists l. split; [done|]. by apply merged_new.
  - intros a i [[<- <-]|[Hne Hi]]%lookup_insert_Some.
    + eexists. split; [by apply list_lookup_middle|]. done.
    + rewrite lookup_delete_ne in Hi by done. destruct (Hc a i Hi) as (st & Hst & ?). exists st. split; [|done].
      by apply lookup_app_l_Some.
  - intros st [Hst| ->%list_elem_of_singleton]%elem_of_app; [by apply Ho|]. by split.
Qed.

Lemma publish_ok l0 peer : hoare (collecting l0) (publish peer) (fun _ => collecting l0) (fun _ => False).
Proof.
  destruct peer as [[addr|]|]; simpl.
  - intros s Hs. unfold mbind at 1, SE_bind at 1, get_state.
    set (old := clients s !! addr ≫= _).
    assert (match old with
            | Some (i, oc) => c ← lift (Close (client oc)); put_stream i {| client := c; taken := taken oc; phase := phase oc |}
            | None => mret tt
            end s = (s, Ret tt)) as E.
    { destruct old as [[i oc]|] eqn:Eo; [|done]. unfold old in Eo. destruct (clients s !! addr) as [j|]; [|done].
      simpl in Eo. destruct (streams s !! j) as [st|] eqn:Ej; [|done]. simpl in Eo. injection Eo as -> ->.
      unfold mbind, SE_bind, lift. rewrite Close_unused by by eapply (col_streams _ _ Hs), list_elem_of_lookup_2.
      unfold put_stream, modify. destruct oc as [c tk ph]. simpl. rewrite list_insert_id by done. by destruct s. }
    rewrite (SE_bind_Ret _ _ _ _ _ E). by apply collecting_new.
  - apply hoare_modify. intros s. apply collecting_refuse.
  - apply hoare_modify. intros s. apply collecting_refuse.
Qed.

Lemma collecting_at l0 s i st : collecting l0 s -> streams s !! i = Some st -> stream_ok st.
Proof. intros Hs Hi. eapply (col_streams _ _ Hs), list_elem_of_lookup_2, Hi. Qed.

Lemma keep_ok l0 s i st m :
  collecting l0 s -> streams s !! i = Some st -> phase st = Storing m ->
  collecting l0 (with_streams (<[i := {| client := client st; taken := taken st; phase := Receiving |}]> (streams s)) (keep m s)).
Proof.
  intros Hs Hi Hph. destruct (collecting_at _ _ _ _ Hs Hi) as [H1 H2 H3 H4].
  destruct Hs as [(l & Hd & Hm) Hc Ho]. unfold keep. rewrite Hd. split; simpl.
  - exists (l ++ [m]). split; [by rewrite app_assoc|].
    eapply merged_store; [done|unfold pending; by rewrite Hph|done|done|done].
  - intros a j Haj. destruct (Hc a j Haj) as (st0 & Hj & Ha & Hr). destruct (decide (j = i)) as [->|].
    + assert (st0 = st) as -> by congruence. eexists. split; [apply list_lookup_insert_eq, (lookup_lt_Some _ _ _ Hi)|done].
    + exists st0. by rewrite list_lookup_insert_ne.
  - intros st0 [j Hj]%list_elem_of_lookup. apply list_lookup_insert_Some in Hj as [(-> & <- & _)|[Hne Hj]].
    + unfold ended in *. rewrite Hph in *. by split.
    + eapply Ho, list_elem_of_lookup_2, Hj.
Qed.

Lemma publish_step_ok l0 e : hoare (collecting l0) (publish_step e) (fun _ => collecting l0) (fun _ => False).
Proof.
  destruct e as [peer|i r|i|i|i]; [apply publish_ok|..]; intros s Hs; simpl; unfold mbind at 1, SE_bind at 1, get_state;
    (destruct (streams s !! i) as [st|] eqn:Hi; [|done]); pose proof (collecting_at _ _ _ _ Hs Hi) as [H1 H2 H3 H4];
    destruct (phase st) eqn:Hph; try (by destruct r); try done.
  - destruct r as [m| |c]; unfold put_stream, modify.
    all: eapply collecting_put; [done|exact Hi| |done|done|].
    all: try (intros k; unfold pending; rewrite Hph; simpl; rewrite ?app_nil_r; congruence).
    all: unfold ended in *; rewrite Hph in *; split; simpl; [done|done| |]; rewrite ?H3, ?H4, i64_add_l; try (f_equal; lia).
    rewrite length_app. simpl. f_equal. lia.
  - unfold put_stream, modify, mbind, SE_bind.
    pose proof (keep_ok _ _ _ _ _ Hs Hi Hph) as Hk.
    assert (streams (keep m s) = streams s) as E by (unfold keep; by destruct (dataStore s)).
    cbv beta iota. by rewrite E.
  - unfold mbind, SE_bind, lift. rewrite Close_unused by done. unfold put_stream, modify.
    eapply collecting_put; [done|exact Hi| |done|done|].
    + intros k. unfold pending. by rewrite Hph.
    + unfold ended in *. rewrite Hph in *. by split.
  - unfold put_stream, modify, mbind, SE_bind.
    set (s1 := with_clients _ s).
    assert (collecting l0 s1) as Hs1.
    { destruct Hs as [Hd Hc Ho]. split; [done| |done]. intros a j. simpl. intros [Hne Hj]%lookup_delete_Some. by apply Hc. }
    eapply (collecting_put l0 s1 i st); [done|exact Hi| |done| |].
    + intros k. unfold pending. by rewrite Hph.
    + intros _. simpl. by rewrite lookup_delete_eq.
    + unfold ended in *. rewrite Hph in *. by split.
Qed.

(** C38. The collector loses nothing: from a server whose data store is a list
    of responses, for every order in which calls come and end, messages
    arrive and goroutines step, it never panics, and what it has added to the
    store is made of exactly the messages its streams received, except the
    one a stream may be about to store, those of each stream in the order in
    which they came.  Every client counts its messages, and the one failure
    that ended its stream; and the registry leads only to clients of their
    own address whose call has not returned. *)
Theorem collects (l0 : list SubscribeResponse) (es : list publish_event) :
  exists s l, run_collector es (start (Responses l0)) = (s, Ret tt) /\ dataStore s = Responses (l0 ++ l) /\
    merged (streams s) l /\
    (forall st, st ∈ streams s -> recvMsg (client st) = i64 (Z.of_nat (length (taken st)) + (if ended st then 1 else 0)) /\
       c_errors (client st) = if ended st then 1%Z else 0%Z) /\
    (forall a i, clients s !! a = Some i ->
       exists st, streams s !! i = Some st /\ c_addr (client st) = a /\ returned st = false).
Proof.
  assert (collecting l0 (start (Responses l0))) as H0.
  { split; simpl; [|by intros ? ?; rewrite lookup_empty|by intros ? ?%elem_of_nil].
    exists []. split; [by rewrite app_nil_r|]. exists []. split_and!; constructor. }
  pose proof (hoare_forM publish_step es _ _ (publish_step_ok l0) _ H0) as Hs. unfold run_collector.
  destruct (forM publish_step es (start (Responses l0))) as [s [[]|e|p]]; [|done..].
  destruct Hs as [(l & Hd & Hm) Hc Ho]. exists s, l. split_and!; [done..| |done].
  intros st Hst. destruct (Ho st Hst) as [_ _ H3 H4]. split; [done|]. rewrite H4. by destruct (ended st).
Qed.

(** ** The registry forgets a client that is replaced *)

(** A client calls again from the same address; when its first call ends, the
    second is no longer registered although it goes on receiving. *)
Example replaced_client :
  let s := (run_collector [Call (Some (Some "10.0.0.1:1")); Call (Some (Some "10.0.0.1:1"));
              Recv 0 GotEOF; RunEnds 0; Unregister 0; Recv 1 (GotMsg (SubscribeResponse_SyncResponse true)); Store 1]
             (start (Responses []))).1 in
  clients s = ∅ /\ dataStore s = Responses [SubscribeResponse_SyncResponse true].
Proof. split; reflexivity. Qed.
